(* ===== verification/_CoqProject ===== *)
-Q . S2P
Prelude.v
CMem.v
Qlib.v
Machine.v
ArchX86.v
ArchA64.v
ArchRv64.v
GuestAsm.v
AsmX86.v
AsmA64.v
AsmRv64.v
CpuLoop.v
Scenario.v
Mock.v
HostCall.v
LlvmIR.v
TypeHash.v
Symtbl.v
Analyze.v
StubCode.v
ChopOff.v
TakeOut.v
Body.v
TakeBody.v
TakeBodyOk.v
HostClosed.v
Offload.v
Program.v
Outline.v
Pipeline.v
Json.v
PickUp.v
Serial.v
Tools.v
CLoop.v
StrScan.v
StrCmp.v
MemCopy.v
StrCopy.v
TwoWay.v
TwoWayOps.v
Memmem.v
Strstr.v
StrTok.v
StrVers.v
WideStr.v
Wcsstr.v
WideCopy.v
Fp.v
FpBits.v
FpOrder.v
Fmod.v
FpRound.v
Scalbn.v
Goldschmidt.v
Sqrt.v
