(* ===== verification/Prelude.v ===== *)
(** * coMulator: calls from emulated guests into native host libraries

    ** The program

    coMulator runs a program of one architecture under QEMU user emulation
    and lets selected functions of it run natively. It has two halves.

    - The compiler plug-in ([src/lib/gyhcall]) works on LLVM modules at link
      time. [PickUp] decides which functions and callees may leave the guest,
      [Outline] moves variadic calls into functions of their own, [Analyze]
      traverses the functions and numbers functions, call and callback types
      and global references, [ChopOff] replaces their bodies in the guest
      module by calls of the runtime, and [TakeOut] builds the host module
      with the bodies, the stubs that unpack arguments, and calls back into the
      guest where the body calls a function that stayed there. [LtoPass] runs
      them in this order. The symbol table, lists and options travel as JSON
      between the two compilations.
    - The runtime ([src/qemu/linux-user/+gyh]) replaces QEMU's CPU loop. The
      guest's stubs trap with new system calls; the loop loads host libraries,
      runs host functions on the guest's stack, and switches back to the
      emulated CPU when a host function calls back. [src/lib/guest_rt/mock.c]
      stands in for it when guest and host code run in one native process.

    [src/lib/guest_bw] holds C library functions (musl) compiled with guests
    as candidates for being taken out.

    ** The files

    - [Prelude]: machine integers with their wrap-around, the [result] monad
      ([Ok], [Abort] for a deliberate exit, [Fault] for undefined behaviour),
      tactics, generic lemmas.
    - [CMem]: memory as a finite map from addresses to bytes; [load], [store].
    - [Qlib]: the table of host libraries of [gyh.c] (constructors,
      destructor, function lookup, the FCP-CM prefixes).
    - [Machine]: the emulated process, the saved contexts, host code as the
      runtime sees it, and the class [GuestArch], what [gyh.c] needs of an
      architecture. [ArchX86], [ArchA64], [ArchRv64]: the three instances,
      from [x86_64-on.c], [aarch64-on.c], [riscv64-on.c], each compared with
      QEMU's own [cpu_loop.c] of that architecture.
    - [GuestAsm]: straight-line assembly that ends in a trap, a call or a
      return. [AsmX86], [AsmA64], [AsmRv64]: the guest's side of the runtime,
      [src/lib/guest_rt/x86_64.s], [aarch64.s] and [riscv64.s], function by
      function as lists of instructions.
    - [CpuLoop]: [gyh_cpu_loop], [gyh_do_call] and the switch of contexts,
      over any [GuestArch]; the abstract machine with a stack of frames.
      [Scenario]: a whole run, evaluated. [Mock]: [mock.c]. [HostCall]: whole
      host calls with their callbacks.
    - [LlvmIR]: the part of LLVM modules the passes read. [TypeHash]:
      [type_hash.cpp]. [Symtbl]: [Symtbl.hpp]. [Analyze], [ChopOff],
      [TakeOut], [PickUp]: the passes. [StubCode]: the code the passes emit,
      as what it computes. [Offload]: guest stub, tables and host stub put
      together. [Json], [Serial]: the JSON form of lists, options and tables.
    - [Body]: function bodies in full (operands with nested constants,
      instructions, phi nodes, terminators) and their execution. [TakeBody]:
      how [TakeOut.cpp] rewrites a body for the host ([do_function],
      [do_instruction], [do_operand], [do_metadata]). [TakeBodyOk]: that the
      result simulates the original. [HostClosed]: that it is closed in the
      host's module. [Program]: programs of several functions before and
      after the passes. [Outline]: [Outline.cpp]. [Pipeline]: [LtoPass.cpp].
      [Tools]: [src/app/globhash.cpp] and [funcnum.cpp].
    - [CLoop]: C loops with fuel, byte and word accesses, strings in memory.
      [StrScan], [StrCmp], [MemCopy], [StrCopy]: [src/lib/guest_bw/string].
      [TwoWay]: periods and maximal suffixes of words, apart from any memory;
      [TwoWayOps]: the parts of the two-way search that [memmem.c], [strstr.c]
      and [wcsstr.c] share, over any way of reading characters; [Memmem],
      [Strstr] and [Wcsstr]: these three files. [StrTok]: [strtok.c],
      [strtok_r.c], [strsep.c] and the functions that ignore case. [StrVers]:
      [strverscmp.c], [strdup.c], [strndup.c]. [WideStr]: the [wcs*.c] and
      [wmem*.c] functions; [WideCopy]: what those that copy leave in memory.
    - [Fp]: the formats [double] and [float] as words of bits, values as
      integers, rounding, and the arithmetic of the machine. The functions of
      [src/lib/guest_bw/math] that compute with bits and exact steps:
      [FpBits] (definitions for any format of what works on the bits),
      [FpOrder] (classes, signs, order, [nextafter]), [Fmod] ([fmod], [remquo],
      [remainder]), [FpRound] ([rint], [round], [floor], [ceil] and the
      conversions to [long]), [Scalbn] ([scalbn], [ldexp], [frexp], [logb]).
      [Goldschmidt] and [Sqrt]: [sqrt.c] and [sqrtf.c].

    Definitions keep the names of the source, in a [Module] where a name
    recurs. State is passed explicitly; what the program only calls is a
    parameter: [dlopen] and its kin ([Qlib.dlfcn]), QEMU's translator, system
    calls and signals ([Machine.qemu_ops]), the code of host libraries
    ([hostcode]), LLVM's hash function and printers, the iteration order of
    hash maps ([Json.MapOrder]).

    ** What is shown

    - The loop refines the abstract machine, so that calls, nested callbacks,
      returns and non-local exits behave as on one stack; a callback returns to
      the host code that made it; a host call comes back if the guest code of
      its callbacks does, with the memory the host code left
      ([CpuLoop], [HostCall]). Each architecture's loop does what QEMU's does
      on every trap that is not the runtime's, and lays out callback frames
      inside the block it reserved. The assembly stubs and the emulator fit
      together: a stub's trap reaches its handler with the arguments and the
      stack it asserts, and a callback ends in the state from which the
      emulator goes back to the host code.
    - The library table: constructor then call, constructor then destructor,
      order of slots, exhaustion, the range check, the FCP-CM prefixes; the
      mock runtime builds the same table.
    - The analysis registers exactly the functions, types and references that
      the accepted functions need, numbers them without gaps, and the tables
      built from it serve every stub; a chopped call with its host stub and a
      host callback with its guest stub compute the call they replace
      ([Offload]). Hashes of types separate types if LLVM's hash does.
      No assertion of [ChopOff] fails on an analysed module, and it is said
      exactly when [TakeOut] fails.
    - A body the analysis accepted can be rewritten for the host; the
      rewritten body simulates it and mentions nothing of the guest's module
      ([TakeBodyOk], [HostClosed]). With the stubs this gives that a whole
      program keeps its meaning after any set of its functions was chopped, with
      calls that change sides to any depth ([Program], for the basic
      configuration, without global reference tables and fast call paths).
      Outlining keeps the meaning too, and lets the analysis accept exactly the
      functions it is meant for ([Outline]); the link-time pass as a whole
      keeps the meaning wherever it stops, and chops nothing whose host version
      was not written ([Pipeline]).
    - The picking pass gives each function and callee the mark its
      annotation, the built-in list and the configuration say.
    - What is written as JSON is read back, for lists, options and (up to a
      wrong key) symbol tables.
    - The string functions do what the C standard says, on every alignment:
      no access leaves mapped memory or is misaligned, every loop ends. The
      substring searches find what trying every position finds: [TwoWay] proves
      that the shorter of the maximal suffixes for two opposite orders starts
      at a critical position, and that no shift of the search skips an
      occurrence; [TwoWayOps] proves this of the code, once for bytes and wide
      characters. The tokens of [strtok_r] are the maximal runs without
      separators. Wide characters are moved for any overlap; the order of
      [strverscmp] is antisymmetric and separates strings.
    - The floating-point functions give the exact or correctly rounded result
      for every argument: the remainder of [fmod] and [remquo] with its
      quotient bits, the number scaled by [scalbn] with one rounding in every
      mode, the integer that [trunc], [floor], [ceil], [round] and [rint] mean,
      and a [frexp] that [ldexp] undoes ([Fmod], [Scalbn], [FpRound]). The square
      root is right to the last bit in every mode ([Sqrt]): an analysis over the
      reals bounds what the truncated iterations can be off ([Goldschmidt]), and
      integers decide the rest.
    - Some theorems pin down defects: the slot never freed, the x86_64
      destructor stub without its system call, the range check that is
      off by one, the null host address that passes the FCP-CM test, the
      white-listed callee that is lost, the symbol table that cannot be read
      back, the comparison of modules that does not look at functions.

    ** Bounds and fuel

    [gyh_cpu_loop] runs one round per pair of clock readings it is given, so
    a theorem about it speaks of any finite number of rounds. The loops of the
    string functions take fuel; each theorem asks for more fuel than the
    number of bytes involved (for a substring search, than the text and twice
    the needle, since the pass for a maximal suffix can step back), which is
    more than any of the loops takes, and concludes that the function returns
    ([CLoop.loop_rule] and [CLoop.while_rule] carry an invariant and a
    decreasing variant; [CLoop.loop_steps] and [CLoop.while_steps] follow known
    states). The loops of the mathematical functions shift a word or
    count an exponent; their fuel is fixed in the definitions by the widths of
    the format, and the theorems show that it is enough. The
    execution of programs ([Body.run], [Program.gcall]) takes the number of
    blocks and the depth of calls; a theorem on two programs says that what one
    computes with some fuel the other computes with a given multiple of it. All
    other recursion is structural.

    ** What is not modelled

    QEMU itself and LLVM itself ([CloneFunctionInto], which copies a body before
    it is rewritten, included), argument parsing and input and output of the
    command line tools, logging and pass registration. Of [ChopOff] and
    [TakeOut], the calls that print debug output and the declarations and flags
    copied between modules; of [Body], operand bundles, and direct calls whose
    type is not their callee's. A call in [Body] hands over values, not
    registers, so what depends on the calling convention of a variadic call is
    outside the model. Of [guest_bw]: the allocator; the functions computed by
    approximation ([pow], [sin], [exp], [log] and the like), which promise an
    error bound over the reals that the integers of [Fp] do not express; the
    versions for [long double], whose format depends on the target; the
    versions with a locale argument, which only call the others. [tolower],
    [towlower] and [malloc] are parameters. The floating-point model has no
    exception flags, takes expressions to be evaluated in their own type, leaves
    the bits of a new NaN open ([Fp.fpenv]), and a conversion to an integer
    that is out of range is a [Fault]. Threads are
    not modelled: the runtime keeps its state in globals and is written for one. *)

From Stdlib Require Export ZArith Lia.
From stdpp Require Export base tactics option numbers strings gmap fin_maps functions.
From stdpp Require Export list.

#[global] Open Scope Z_scope.
#[export] Set Warnings "-clear-no-such-hyp,-register-all".

(** ** Machine integers

    A C integer of [w] bits is a [Z]; [wrap w] is the conversion to the
    unsigned type of that width, [swrap w] to the signed one. *)

Definition wrap (w z : Z) : Z := z mod 2 ^ w.

Definition swrap (w z : Z) : Z :=
  let u := wrap w z in if u <? 2 ^ (w - 1) then u else u - 2 ^ w.

Abbreviation u8 := (wrap 8).
Abbreviation u16 := (wrap 16).
Abbreviation u32 := (wrap 32).
Abbreviation u64 := (wrap 64).
Abbreviation i32 := (swrap 32).
Abbreviation i64 := (swrap 64).

(** [a & ~(n - 1)] on [uint64_t], the C idiom that rounds down to a multiple
    of the power of two [n]. *)
Definition align_down (n a : Z) : Z := Z.land a (u64 (Z.lnot (n - 1))).

Create HintDb zwrap.

Lemma wrap_bound w z : 0 <= w -> 0 <= wrap w z < 2 ^ w.
Proof. intros Hw. apply Z.mod_pos_bound, Z.pow_pos_nonneg; lia. Qed.

Lemma wrap_small w z : 0 <= z < 2 ^ w -> wrap w z = z.
Proof. apply Z.mod_small. Qed.

Lemma wrap_wrap w z : 0 <= w -> wrap w (wrap w z) = wrap w z.
Proof. intros Hw. apply wrap_small, wrap_bound, Hw. Qed.

Lemma wrap_ge0 w z : 0 <= w -> 0 <= wrap w z.
Proof. intros Hw. pose proof (wrap_bound w z Hw). lia. Qed.

#[export] Hint Resolve wrap_ge0 wrap_bound : zwrap.

Lemma u64_land z : u64 z = Z.land z (Z.ones 64).
Proof. unfold wrap. by rewrite Z.land_ones. Qed.

(** Disjoint bits are added. *)
Lemma lor_low k a b : 0 <= k -> 0 <= a < 2 ^ k -> Z.lor a (2 ^ k * b) = a + 2 ^ k * b.
Proof.
  intros Hk Ha. symmetry. rewrite Z.mul_comm, <- Z.shiftl_mul_pow2 by lia.
  assert (Z.land a (Z.shiftl b k) = 0) as H0.
  { apply Z.bits_inj'. intros n Hn. rewrite Z.land_spec, Z.bits_0, Z.shiftl_spec by lia.
    destruct (decide (n < k)); [by rewrite (Z.testbit_neg_r b), andb_false_r by lia|].
    rewrite <- (Z.mod_small a (2 ^ k)) by lia. by rewrite Z.mod_pow2_bits_high by lia. }
  by rewrite Z.add_nocarry_lxor, Z.lxor_lor.
Qed.

(** Rounding down by masking is rounding down by arithmetic. *)
Lemma align_down_spec k a :
  0 <= k < 64 -> 0 <= a < 2 ^ 64 ->
  align_down (2 ^ k) a = a - a mod 2 ^ k.
Proof.
  intros Hk Ha. unfold align_down.
  assert (a - a mod 2 ^ k = Z.shiftl (Z.shiftr a k) k) as ->.
  { rewrite Z.shiftl_mul_pow2, Z.shiftr_div_pow2 by lia.
    rewrite (Z.div_mod a (2 ^ k)) at 1 by (apply Z.pow_nonzero; lia). lia. }
  replace (2 ^ k - 1) with (Z.ones k) by (rewrite Z.ones_equiv; lia).
  rewrite u64_land. apply Z.bits_inj'. intros n Hn.
  rewrite !Z.land_spec, Z.lnot_spec, Z.shiftl_spec by lia.
  destruct (decide (n < k)).
  - rewrite Z.ones_spec_low, (Z.testbit_neg_r _ (n - k)) by lia.
    by rewrite andb_false_r.
  - rewrite Z.ones_spec_high, Z.shiftr_spec by lia.
    replace (n - k + k) with n by lia.
    destruct (decide (n < 64)).
    + rewrite Z.ones_spec_low by lia. by rewrite andb_true_r.
    + rewrite (Z.ones_spec_high 64) by lia. rewrite andb_false_r. symmetry.
      destruct (decide (a = 0)) as [->|]; [apply Z.bits_0|].
      apply Z.bits_above_log2; [lia|]. apply Z.log2_lt_pow2; [lia|].
      eapply Z.lt_le_trans; [apply Ha | apply Z.pow_le_mono_r; lia].
Qed.

Lemma align_down_16 a :
  0 <= a < 2 ^ 64 -> align_down 16 a mod 16 = 0 /\ a - 16 < align_down 16 a <= a.
Proof.
  intros Ha. rewrite (align_down_spec 4) by lia. change (2 ^ 4) with 16.
  pose proof (Z.mod_pos_bound a 16 ltac:(lia)).
  split; [by rewrite Zminus_mod_idemp_r, Z.sub_diag|lia].
Qed.

(** ** Outcomes of C code

    [Abort] is a deliberate [abort()] (or a failed [assert]); [Fault] is an
    access outside mapped memory, a null call or an overrun buffer: what the
    C code does next is then undefined. *)

Inductive result (A : Type) : Type :=
| Ok (a : A)
| Abort (why : string)
| Fault (why : string).
Arguments Ok {A} a.
Arguments Abort {A} why.
Arguments Fault {A} why.

#[export] Instance result_ret : MRet result := @Ok.

#[export] Instance result_bind : MBind result :=
  fun A B f m => match m with
  | Ok a => f a
  | Abort w => Abort w
  | Fault w => Fault w
  end.

#[export] Instance result_fmap : FMap result :=
  fun A B f m => match m with
  | Ok a => Ok (f a)
  | Abort w => Abort w
  | Fault w => Fault w
  end.

Definition of_option {A} (why : string) (o : option A) : result A :=
  match o with Some a => Ok a | None => Fault why end.

(** [assert(b)] and [if (!b) abort();]. *)
Definition check (why : string) (b : bool) : result unit :=
  if b then Ok () else Abort why.

Definition is_ok {A} (r : result A) : bool :=
  match r with Ok _ => true | _ => false end.

Lemma bind_Ok_inv {A B} (m : result A) (f : A -> result B) b :
  (m ≫= f) = Ok b -> exists a, m = Ok a /\ f a = Ok b.
Proof. destruct m; simpl; intros H; try discriminate. eauto. Qed.

Lemma fmap_Ok_inv {A B} (f : A -> B) (m : result A) b :
  f <$> m = Ok b -> exists a, m = Ok a /\ b = f a.
Proof. destruct m; simpl; intros H; try discriminate. injection H as <-. eauto. Qed.

Lemma of_option_Ok_inv {A} w (o : option A) a :
  of_option w o = Ok a -> o = Some a.
Proof. destruct o; simpl; congruence. Qed.

Lemma check_Ok_inv w b u : check w b = Ok u -> b = true.
Proof. destruct b; simpl; congruence. Qed.

(** [inv_ok] takes a hypothesis that a monadic computation succeeded apart
    into the successes of its steps. *)
Ltac inv_ok :=
  repeat match goal with
  | H : (_ ≫= _) = Ok _ |- _ =>
      let a := fresh "a" in let E := fresh "E" in
      apply bind_Ok_inv in H as (a & E & H)
  | H : _ <$> _ = Ok _ |- _ =>
      let a := fresh "a" in let E := fresh "E" in
      apply fmap_Ok_inv in H as (a & E & ->)
  | H : of_option _ _ = Ok _ |- _ => apply of_option_Ok_inv in H
  | H : check _ _ = Ok _ |- _ => apply check_Ok_inv in H
  | H : Ok _ = Ok _ |- _ => injection H as H
  | H : mret _ = Ok _ |- _ => injection H as H
  | H : Abort _ = Ok _ |- _ => discriminate H
  | H : Fault _ = Ok _ |- _ => discriminate H
  end; simplify_eq/=.

(** ** Zero-padded upper-case hexadecimal, the [%08X] of [sprintf] *)

Definition hex_digit (d : Z) : Ascii.ascii :=
  Ascii.ascii_of_nat (Z.to_nat (if d <? 10 then d + 48 else d + 55)).

Fixpoint hex_digits (n : nat) (v : Z) : string :=
  match n with
  | O => EmptyString
  | S n => String.app (hex_digits n (v / 16)) (String (hex_digit (v mod 16)) EmptyString)
  end.

Definition hex8 (v : Z) : string := hex_digits 8 (u32 v).

Lemma string_length_app (s t : string) :
  String.length (String.app s t) = (String.length s + String.length t)%nat.
Proof. induction s; simpl; auto. Qed.

Lemma hex_digits_length n v : String.length (hex_digits n v) = n.
Proof.
  revert v; induction n; intros v; simpl; [done|].
  rewrite string_length_app, IHn. simpl. lia.
Qed.

Lemma hex8_length v : String.length (hex8 v) = 8%nat.
Proof. apply hex_digits_length. Qed.

(** ** Lists *)

Lemma NoDup_map_inj {A B} (f : A -> B) (l : list A) x y :
  NoDup (map f l) -> x ∈ l -> y ∈ l -> f x = f y -> x = y.
Proof.
  induction l as [|z l IH]; simpl; [by intros _ ?%elem_of_nil|].
  intros [Hni Hnd]%NoDup_cons [->|Hx]%elem_of_cons [->|Hy]%elem_of_cons He; try done.
  - exfalso. apply Hni. rewrite He. by apply list_elem_of_fmap_2.
  - exfalso. apply Hni. rewrite <- He. by apply list_elem_of_fmap_2.
  - by apply IH.
Qed.
