(* ===== verification/CMem.v ===== *)
(** * Byte-addressed memory

    The guest runs in the address space of the emulator ([gyh_cpu_loop]
    asserts [!have_guest_base]), so guest and host pointers are addresses of
    one memory: a finite map from addresses to bytes; an address that is not
    in the map is not mapped, and touching it faults. Multi-byte accesses are
    little-endian, as on the hosts the runtime is built for. *)

From S2P Require Import Prelude.

Abbreviation cmem := (gmap Z Z).

Implicit Types m : cmem.

(** [*(uintN_t* )a] for an [n]-byte integer. *)
Fixpoint load (n : nat) (a : Z) (m : cmem) : option Z :=
  match n with
  | O => Some 0
  | S n => b ← m !! a; r ← load n (a + 1) m; Some (b + 256 * r)
  end.

(** [*(uintN_t* )a = v]. *)
Fixpoint store (n : nat) (a v : Z) (m : cmem) : option cmem :=
  match n with
  | O => Some m
  | S n => _ ← m !! a; store n (a + 1) (v / 256) (<[a := v mod 256]> m)
  end.

(** The [n] bytes at [a] are mapped. *)
Definition mapped (n : nat) (a : Z) (m : cmem) : Prop :=
  forall x, a <= x < a + Z.of_nat n -> is_Some (m !! x).

(** Every byte of the memory is a byte. *)
Definition bytes_ok (m : cmem) : Prop :=
  forall a b, m !! a = Some b -> 0 <= b < 256.

(** [m'] maps the same addresses as [m] and agrees with it outside
    [a .. a + n - 1]. *)
Definition agree_except (n : nat) (a : Z) (m m' : cmem) : Prop :=
  forall x, ~ (a <= x < a + Z.of_nat n) -> m' !! x = m !! x.

Lemma mapped_S n a m :
  mapped (S n) a m <-> is_Some (m !! a) /\ mapped n (a + 1) m.
Proof.
  unfold mapped; split.
  - intros H; split; [apply H; lia | intros x Hx; apply H; lia].
  - intros [H0 H] x Hx. destruct (decide (x = a)) as [->|]; [done|].
    apply H; lia.
Qed.

Lemma load_mapped n a m : is_Some (load n a m) <-> mapped n a m.
Proof.
  revert a; induction n as [|n IH]; intros a; simpl.
  - split; [intros _ x Hx; lia | eauto].
  - rewrite mapped_S, <- IH.
    destruct (m !! a) as [b|]; simpl; [|split; [intros [? ?]; done | intros [[? ?] _]; done]].
    destruct (load n (a + 1) m); simpl; split.
    + eauto.
    + eauto.
    + intros [? ?]; done.
    + intros [_ [? ?]]; done.
Qed.

Lemma mapped_insert n a x v m : mapped n a m -> mapped n a (<[x := v]> m).
Proof.
  intros H y Hy. destruct (decide (x = y)) as [->|]; simplify_map_eq; eauto.
Qed.

Lemma store_Some n a v m : mapped n a m -> is_Some (store n a v m).
Proof.
  revert a v m; induction n as [|n IH]; intros a v m H; simpl; [eauto|].
  apply mapped_S in H as [[b Hb] H]. rewrite Hb; simpl.
  by apply IH, mapped_insert.
Qed.

Lemma store_mapped n a v m m' : store n a v m = Some m' -> mapped n a m.
Proof.
  revert a v m; induction n as [|n IH]; intros a v m H; [intros x Hx; lia|].
  simpl in H. destruct (m !! a) as [b|] eqn:Hb; simplify_eq/=.
  apply IH in H. apply mapped_S; split; [eauto|]. intros x Hx.
  specialize (H x Hx). destruct (decide (a = x)) as [->|]; simplify_map_eq; eauto.
Qed.

Lemma store_outside n a v m m' :
  store n a v m = Some m' -> agree_except n a m m'.
Proof.
  revert a v m; induction n as [|n IH]; intros a v m H x Hx; simpl in H; [by simplify_eq|].
  destruct (m !! a); simplify_eq/=.
  rewrite (IH _ _ _ H x ltac:(lia)). apply lookup_insert_ne. lia.
Qed.

Lemma store_is_Some n a v m m' x :
  store n a v m = Some m' -> is_Some (m' !! x) <-> is_Some (m !! x).
Proof.
  revert a v m; induction n as [|n IH]; intros a v m H; simpl in H; [by simplify_eq|].
  destruct (m !! a) as [b|] eqn:Hb; simplify_eq/=.
  rewrite (IH _ _ _ H). destruct (decide (a = x)) as [->|].
  - rewrite lookup_insert_eq, Hb. split; eauto.
  - by rewrite lookup_insert_ne.
Qed.

Lemma store_bytes_ok n a v m m' :
  store n a v m = Some m' -> bytes_ok m -> bytes_ok m'.
Proof.
  revert a v m; induction n as [|n IH]; intros a v m H Hm; simpl in H; [by simplify_eq|].
  destruct (m !! a); simplify_eq/=. eapply IH; [done|].
  intros x c. destruct (decide (a = x)) as [->|].
  - rewrite lookup_insert_eq; intros [= <-]. apply Z.mod_pos_bound; lia.
  - rewrite lookup_insert_ne by done. apply Hm.
Qed.

Lemma load_ext n a m m' :
  (forall x, a <= x < a + Z.of_nat n -> m' !! x = m !! x) ->
  load n a m' = load n a m.
Proof.
  revert a; induction n as [|n IH]; intros a H; simpl; [done|].
  rewrite (H a) by lia. rewrite IH; [done|]. intros; apply H; lia.
Qed.

Lemma load_store_other n a v m m' k b :
  store n a v m = Some m' ->
  b + Z.of_nat k <= a \/ a + Z.of_nat n <= b ->
  load k b m' = load k b m.
Proof.
  intros H Hd. apply load_ext. intros x Hx. apply (store_outside _ _ _ _ _ H). lia.
Qed.

Lemma load_store_same n a v m m' :
  store n a v m = Some m' -> load n a m' = Some (v mod 256 ^ Z.of_nat n).
Proof.
  revert a v m; induction n as [|n IH]; intros a v m H; simpl in H.
  - simplify_eq. change (256 ^ Z.of_nat 0) with 1. by rewrite Z.mod_1_r.
  - destruct (m !! a) as [b|] eqn:Hb; simplify_eq/=.
    pose proof (store_outside _ _ _ _ _ H a ltac:(lia)) as Ha.
    rewrite lookup_insert_eq in Ha. rewrite Ha; simpl.
    rewrite (IH _ _ _ H); simpl. f_equal.
    rewrite Nat2Z.inj_succ, Z.pow_succ_r by lia.
    rewrite Z.rem_mul_r; [lia | lia | apply Z.pow_pos_nonneg; lia].
Qed.

Lemma load_bound n a m v :
  bytes_ok m -> load n a m = Some v -> 0 <= v < 256 ^ Z.of_nat n.
Proof.
  intros Hm; revert a v; induction n as [|n IH]; intros a v H; simpl in H.
  - simplify_eq. simpl. lia.
  - destruct (m !! a) as [b|] eqn:Hb; simplify_eq/=.
    destruct (load n (a + 1) m) as [r|] eqn:Hr; simplify_eq/=.
    apply IH in Hr. apply Hm in Hb.
    rewrite Nat2Z.inj_succ, Z.pow_succ_r by lia. nia.
Qed.

Lemma pow256 n : 256 ^ Z.of_nat n = 2 ^ (8 * Z.of_nat n).
Proof. rewrite Z.pow_mul_r by lia. done. Qed.

Lemma load_store_u64 a v m m' :
  store 8 a v m = Some m' -> load 8 a m' = Some (u64 v).
Proof. intros H. by rewrite (load_store_same _ _ _ _ _ H), pow256. Qed.

Lemma load_store_u32 a v m m' :
  store 4 a v m = Some m' -> load 4 a m' = Some (u32 v).
Proof. intros H. by rewrite (load_store_same _ _ _ _ _ H), pow256. Qed.

Lemma mapped_store n a v m m' k b :
  store n a v m = Some m' -> mapped k b m' <-> mapped k b m.
Proof.
  intros H. unfold mapped. by setoid_rewrite (store_is_Some _ _ _ _ _ _ H).
Qed.

(** A region of memory holding the given bytes: concrete memories for the
    examples. *)
Fixpoint region (a : Z) (bs : list Z) : cmem :=
  match bs with
  | [] => ∅
  | b :: bs => <[a := b]> (region (a + 1) bs)
  end.

Definition zeros (a : Z) (n : nat) : cmem := region a (replicate n 0).

Definition le_bytes (n : nat) (v : Z) : list Z :=
  (fun i => v / 256 ^ Z.of_nat i mod 256) <$> seq 0 n.

Lemma mapped_compute n a m :
  bool_decide (Forall (fun x => is_Some (m !! x)) (seqZ a (Z.of_nat n))) = true -> mapped n a m.
Proof.
  intros H%bool_decide_eq_true x Hx. rewrite Forall_forall in H. apply H, elem_of_seqZ. lia.
Qed.

Lemma bytes_ok_compute m :
  bool_decide (map_Forall (fun _ b => 0 <= b < 256) m) = true -> bytes_ok m.
Proof. intros H%bool_decide_eq_true a b Hb. exact (H a b Hb). Qed.

#[global] Arguments load : simpl never.
#[global] Arguments store : simpl never.
