(* ===== verification/Qlib.v ===== *)
(** * The table of loaded host libraries

    Models [struct gyh_Qlib], [gyh_qlibs] and the handlers of the constructor
    and destructor system calls in [qemu/linux-user/+gyh/gyh.c]:
    [gyh_do_ctor], [gyh_dtor], [gyh_do_ctor_grt], [gyh_do_ctor_fcp_cm], and the
    part of [gyh_do_call] / [gyh_do_call_grt] that finds the host function.
    The dynamic loader and [sysconf] are parameters. *)

From S2P Require Import Prelude CMem.
#[local] Open Scope string_scope.
#[local] Open Scope Z_scope.

(** ** State *)

Record gyh_Qlib := mk_Qlib {
  ql_handle : Z;
  ql_uid : Z;
  ql_hfunctbl : Z;
  ql_hfunctblSize : Z;
  ql_extreftbl : Z;
  ql_cbstubtbl : Z
}.

(** A slot of the static, zero-initialised table. *)
Definition null_Qlib : gyh_Qlib := mk_Qlib 0 0 0 0 0 0.

Definition gyh_qlibs_size : nat := 1024.
#[global] Arguments gyh_qlibs_size : simpl never.

(** The globals the handlers touch: memory, the table, [gyh_cbFunc], and the
    ranges [mprotect] was asked to make writable. *)
Record qst := mk_qst {
  q_mem : cmem;
  gyh_qlibs : list gyh_Qlib;
  gyh_cbFunc : Z;
  q_prot : list (Z * Z)
}.

Definition gyh_init (m : cmem) : qst :=
  mk_qst m (replicate gyh_qlibs_size null_Qlib) 0 [].

(** The dynamic loader. Loading a library changes the process's memory. *)
Record dlfcn := mk_dlfcn {
  dlopen : string -> cmem -> Z * cmem;
  dlsym : Z -> string -> cmem -> Z;
  dlclose : Z -> cmem -> Z * cmem
}.

(** ** Operations *)

(** [sprintf] into a local [char buf[size]]. *)
Definition sprintf_buf (size : nat) (s : string) : result string :=
  if (String.length s <? size)%nat then Ok s else Fault "sprintf overruns its buffer".

Definition gyh_cpu_loop_init (getenv : string -> option string) : result string :=
  match getenv "GYHCALL_CONFIG_DIR" with
  | None => Abort "environment 'GYHCALL_CONFIG_DIR' is not set."
  | Some dir => Ok dir
  end.

(** The index at which the scan for a slot with a null handle stops. *)
Fixpoint first_free (qs : list gyh_Qlib) : nat :=
  match qs with
  | [] => 0
  | q :: qs => if ql_handle q =? 0 then 0 else S (first_free qs)
  end.

Definition set_cbFunc (cb cbFunc : Z) : result Z :=
  if cb =? 0 then Ok cbFunc
  else if negb (cb =? cbFunc) then Abort "cbFunc old != new"
  else Ok cb.

Section handlers.
Context (dl : dlfcn) (gyhcall_config_dir : string).

(** [dlsym] of a symbol that must be there. *)
Definition dlsym_or_abort (h : Z) (prefix : string) (uid : Z) (m : cmem) : result Z :=
  symbol ← sprintf_buf 1024 (prefix +:+ hex8 uid);
  let p := dlsym dl h symbol m in
  if p =? 0 then Abort "dlerror" else Ok p.

Definition gyh_do_ctor (qlibUid cbFunc : Z) (s : qst) : result (nat * qst) :=
  cb ← set_cbFunc (gyh_cbFunc s) cbFunc;
  let qlibIdx := first_free (gyh_qlibs s) in
  if (qlibIdx =? gyh_qlibs_size)%nat then Abort "fail to assign index for qlib"
  else
  old ← of_option "gyh_qlibs" (gyh_qlibs s !! qlibIdx);
  uid0 ← of_option "qlibUid" (load 4 qlibUid (q_mem s));
  qlibPath ← sprintf_buf 1024
    (gyhcall_config_dir +:+ "/host/" +:+ hex8 uid0 +:+ ".qso");
  let '(handle, m) := dlopen dl qlibPath (q_mem s) in
  if handle =? 0 then Abort "dlerror" else
  uid ← of_option "qlibUid" (load 4 qlibUid m);
  hfunctbl ← dlsym_or_abort handle "__gyh_hfunctbl_" uid m;
  sizePtr ← dlsym_or_abort handle "__gyh_hfunctbl_size_" uid m;
  hfunctblSize ← of_option "hfunctblSize" (load 4 sizePtr m);
  m ← of_option "qlibUid" (store 4 qlibUid (Z.of_nat qlibIdx) m);
  let qlib := mk_Qlib handle uid hfunctbl hfunctblSize
                      (ql_extreftbl old) (ql_cbstubtbl old) in
  Ok (qlibIdx, mk_qst m (<[qlibIdx := qlib]> (gyh_qlibs s)) cb (q_prot s)).

Definition gyh_ctor (qlibUid cbFunc : Z) (s : qst) : result qst :=
  '(_, s) ← gyh_do_ctor qlibUid cbFunc s; Ok s.

(** The bounds check and the table lookup the destructor and the calls begin
    with: [gyh_qlibs + *qlibUid]. *)
Definition qlib_at (qlibUid : Z) (s : qst) : result gyh_Qlib :=
  idx ← of_option "qlibUid" (load 4 qlibUid (q_mem s));
  if Z.of_nat gyh_qlibs_size <=? idx then Abort "qlib is out of range"
  else of_option "gyh_qlibs" (gyh_qlibs s !! Z.to_nat idx).

Definition gyh_dtor (qlibUid : Z) (s : qst) : result qst :=
  qlib ← qlib_at qlibUid s;
  if ql_handle qlib =? 0 then Abort "qlib is not set" else
  let '(rc, m) := dlclose dl (ql_handle qlib) (q_mem s) in
  if negb (rc =? 0) then Abort "dlerror" else
  m ← of_option "qlibUid" (store 4 qlibUid (ql_uid qlib) m);
  Ok (mk_qst m (gyh_qlibs s) (gyh_cbFunc s) (q_prot s)).

(** The checks of [gyh_do_call] before the host function is called. *)
Definition find_hfunc (qlibUid funcUid : Z) (s : qst) : result Z :=
  qlib ← qlib_at qlibUid s;
  if ql_hfunctblSize qlib <? funcUid then Abort "funcUid is out of range"
  else of_option "hfunctbl" (load 8 (u64 (ql_hfunctbl qlib + 8 * funcUid)) (q_mem s)).

(** [*ptr = tbl; qlib->field = tbl] for the two GRT tables. *)
Definition gyh_do_ctor_grt (qlibUid extreftbl cbstubtbl cbFunc : Z) (s : qst)
    : result (nat * qst) :=
  '(i, s) ← gyh_do_ctor qlibUid cbFunc s;
  qlib ← of_option "gyh_qlibs" (gyh_qlibs s !! i);
  extreftblPtr ← dlsym_or_abort (ql_handle qlib) "__gyh_extreftbl_" (ql_uid qlib) (q_mem s);
  m ← of_option "extreftblPtr" (store 8 extreftblPtr extreftbl (q_mem s));
  cbstubtblPtr ← dlsym_or_abort (ql_handle qlib) "__gyh_cbstubtbl_" (ql_uid qlib) m;
  m ← of_option "cbstubtblPtr" (store 8 cbstubtblPtr cbstubtbl m);
  let qlib := mk_Qlib (ql_handle qlib) (ql_uid qlib) (ql_hfunctbl qlib)
                      (ql_hfunctblSize qlib) extreftbl cbstubtbl in
  Ok (i, mk_qst m (<[i := qlib]> (gyh_qlibs s)) (gyh_cbFunc s) (q_prot s)).

Definition gyh_ctor_grt (qlibUid extreftbl cbstubtbl cbFunc : Z) (s : qst) : result qst :=
  '(_, s) ← gyh_do_ctor_grt qlibUid extreftbl cbstubtbl cbFunc s; Ok s.

End handlers.

(** ** FCP-CM: writing the host addresses into the guest functions' prefixes *)

Definition kFCPcmMagic : Z := 0x6666200009068888.

Record fcp := mk_fcp {
  f_mem : cmem;
  f_pageBegin : Z;
  f_pageEnd : Z;
  f_prot : list (Z * Z)
}.

(** One iteration of the loop over [gfunctbl]. [mprotect]'s result is
    ignored by the code; the range it is asked for is recorded. *)
Definition fcp_cm_step (pageSize gfunctbl functblPtr i : Z) (s : fcp) : result fcp :=
  g ← of_option "gfunctbl" (load 8 (u64 (gfunctbl + 8 * i)) (f_mem s));
  let magic := u64 (g - 16) in
  mg ← of_option "magic" (load 8 magic (f_mem s));
  if negb (mg =? kFCPcmMagic) then Abort "bad magic" else
  let gfuncId := u64 (g - 8) in
  let s :=
    if (magic <? f_pageBegin s) || (f_pageEnd s <=? g) then
      let pageBegin := align_down pageSize magic in
      let pageEnd := align_down pageSize (u64 (g + pageSize)) in
      mk_fcp (f_mem s) pageBegin pageEnd
             ((pageBegin, u64 (pageEnd - pageBegin)) :: f_prot s)
    else s in
  v ← of_option "functbl" (load 8 (u64 (functblPtr + 8 * i)) (f_mem s));
  m ← of_option "gfuncId" (store 8 gfuncId v (f_mem s));
  id ← of_option "gfuncId" (load 8 gfuncId m);
  m ← of_option "magic" (store 8 magic (Z.lxor kFCPcmMagic id) m);
  Ok (mk_fcp m (f_pageBegin s) (f_pageEnd s) (f_prot s)).

Fixpoint fcp_cm_loop (pageSize gfunctbl functblPtr : Z) (n : nat) (i : Z) (s : fcp)
    : result fcp :=
  match n with
  | O => Ok s
  | S n => s ← fcp_cm_step pageSize gfunctbl functblPtr i s;
           fcp_cm_loop pageSize gfunctbl functblPtr n (i + 1) s
  end.

Definition gyh_do_ctor_fcp_cm (dl : dlfcn) (dir : string) (pageSize : Z)
    (qlibUid extreftbl cbstubtbl gfunctbl gfunctblSize cbFunc : Z) (s : qst)
    : result (nat * qst) :=
  '(i, s) ← gyh_do_ctor_grt dl dir qlibUid extreftbl cbstubtbl cbFunc s;
  qlib ← of_option "gyh_qlibs" (gyh_qlibs s !! i);
  functblPtr ← dlsym_or_abort dl (ql_handle qlib) "__gyh_functbl_" (ql_uid qlib) (q_mem s);
  f ← fcp_cm_loop pageSize gfunctbl functblPtr (Z.to_nat gfunctblSize) 0
        (mk_fcp (q_mem s) 0 0 (q_prot s));
  Ok (i, mk_qst (f_mem f) (gyh_qlibs s) (gyh_cbFunc s) (f_prot f)).

Definition gyh_ctor_fcp_cm (dl : dlfcn) (dir : string) (pageSize : Z)
    (qlibUid extreftbl cbstubtbl gfunctbl gfunctblSize cbFunc : Z) (s : qst) : result qst :=
  '(_, s) ← gyh_do_ctor_fcp_cm dl dir pageSize qlibUid extreftbl cbstubtbl
              gfunctbl gfunctblSize cbFunc s;
  Ok s.

(** ** Lemmas on the table *)

Lemma first_free_le qs : (first_free qs <= length qs)%nat.
Proof. induction qs as [|q qs IH]; simpl; [lia|]. destruct (_ =? _); lia. Qed.

Lemma first_free_used qs i q :
  (i < first_free qs)%nat -> qs !! i = Some q -> ql_handle q <> 0.
Proof.
  revert i; induction qs as [|q' qs IH]; intros i; simpl; [lia|].
  destruct (Z.eqb_spec (ql_handle q') 0); [lia|].
  destruct i as [|i]; intros Hi Hq; simplify_eq/=; [done|].
  apply (IH i); [lia|done].
Qed.

Lemma first_free_free qs q :
  qs !! first_free qs = Some q -> ql_handle q = 0.
Proof.
  induction qs as [|q' qs IH]; simpl; [done|].
  destruct (Z.eqb_spec (ql_handle q') 0); simpl; intros; simplify_eq; auto.
Qed.

Lemma first_free_lookup qs :
  (first_free qs < length qs)%nat -> is_Some (qs !! first_free qs).
Proof. apply lookup_lt_is_Some_2. Qed.

Lemma first_free_eq qs n :
  (forall i q, (i < n)%nat -> qs !! i = Some q -> ql_handle q <> 0) ->
  (n <= length qs)%nat ->
  (forall q, qs !! n = Some q -> ql_handle q = 0) ->
  first_free qs = n.
Proof.
  revert n; induction qs as [|q qs IH]; intros n Hused Hle Hfree; simpl in *; [lia|].
  destruct n as [|n].
  - by rewrite (Hfree q eq_refl).
  - pose proof (Hused 0%nat q ltac:(lia) eq_refl).
    destruct (Z.eqb_spec (ql_handle q) 0); [done|].
    f_equal. apply IH; [|lia|done]. intros i q' Hi. apply (Hused (S i)). lia.
Qed.

Lemma sprintf_hex8_ok prefix uid :
  (String.length prefix < 1016)%nat ->
  sprintf_buf 1024 (prefix +:+ hex8 uid) = Ok (prefix +:+ hex8 uid).
Proof.
  intros H. unfold sprintf_buf. rewrite string_length_app, hex8_length.
  by rewrite (proj2 (Nat.ltb_lt _ _)) by lia.
Qed.

Lemma dlsym_or_abort_ok dl h prefix uid m p :
  (String.length prefix < 1016)%nat ->
  dlsym dl h (prefix +:+ hex8 uid) m = p -> p <> 0 ->
  dlsym_or_abort dl h prefix uid m = Ok p.
Proof.
  intros Hlen <- Hp. unfold dlsym_or_abort. rewrite sprintf_hex8_ok by done. simpl.
  by destruct (Z.eqb_spec (dlsym dl h (prefix +:+ hex8 uid) m) 0).
Qed.

Lemma set_cbFunc_ok cb cbFunc c :
  set_cbFunc cb cbFunc = Ok c <-> c = cbFunc /\ (cb = 0 \/ cb = cbFunc).
Proof.
  unfold set_cbFunc.
  destruct (Z.eqb_spec cb 0), (Z.eqb_spec cb cbFunc); simpl; split;
    intros; destruct_and?; simplify_eq; intuition congruence.
Qed.

(** What a successful [gyh_do_ctor] did, on any state of the table. *)
Lemma gyh_do_ctor_inv dl dir qlibUid cbFunc s i s' :
  gyh_do_ctor dl dir qlibUid cbFunc s = Ok (i, s') ->
  i = first_free (gyh_qlibs s) /\ i <> gyh_qlibs_size /\ (i < length (gyh_qlibs s))%nat /\
  gyh_cbFunc s' = cbFunc /\ q_prot s' = q_prot s /\
  exists q, gyh_qlibs s' = <[i := q]> (gyh_qlibs s) /\ ql_handle q <> 0.
Proof.
  unfold gyh_do_ctor. intros H. inv_ok.
  destruct (Nat.eqb_spec (first_free (gyh_qlibs s)) gyh_qlibs_size); [done|].
  inv_ok. destruct (dlopen dl _ _) as [h m].
  destruct (Z.eqb_spec h 0); [done|]. inv_ok.
  match goal with H : set_cbFunc _ _ = Ok _ |- _ => apply set_cbFunc_ok in H as [-> _] end.
  match goal with H : gyh_qlibs s !! _ = Some _ |- _ => apply lookup_lt_Some in H end.
  split_and!; try done. eexists; split; [done|]. done.
Qed.

Lemma gyh_do_ctor_grt_inv dl dir qlibUid e c cbFunc s i s' :
  gyh_do_ctor_grt dl dir qlibUid e c cbFunc s = Ok (i, s') ->
  i = first_free (gyh_qlibs s) /\ i <> gyh_qlibs_size /\ (i < length (gyh_qlibs s))%nat /\
  exists q, gyh_qlibs s' = <[i := q]> (gyh_qlibs s) /\ ql_handle q <> 0.
Proof.
  unfold gyh_do_ctor_grt. intros H. inv_ok. destruct a as [j s1].
  apply gyh_do_ctor_inv in E as (-> & ? & ? & _ & _ & q & Hq & Hh).
  inv_ok. rewrite Hq, list_lookup_insert_eq in * by done. simplify_eq/=.
  split_and!; try done. eexists; split; [by rewrite list_insert_insert_eq|done].
Qed.

Lemma gyh_do_ctor_fcp_cm_inv dl dir ps qlibUid e c g n cbFunc s i s' :
  gyh_do_ctor_fcp_cm dl dir ps qlibUid e c g n cbFunc s = Ok (i, s') ->
  i = first_free (gyh_qlibs s) /\ i <> gyh_qlibs_size /\ (i < length (gyh_qlibs s))%nat /\
  exists q, gyh_qlibs s' = <[i := q]> (gyh_qlibs s) /\ ql_handle q <> 0.
Proof.
  unfold gyh_do_ctor_fcp_cm. intros H. inv_ok. destruct a as [j s1].
  apply gyh_do_ctor_grt_inv in E. inv_ok. done.
Qed.

Lemma gyh_dtor_inv dl qlibUid s s' :
  gyh_dtor dl qlibUid s = Ok s' ->
  gyh_qlibs s' = gyh_qlibs s /\ gyh_cbFunc s' = gyh_cbFunc s.
Proof.
  unfold gyh_dtor. intros H. inv_ok.
  destruct (_ =? _); [done|]. destruct (dlclose _ _ _) as [rc m].
  destruct (negb _); [done|]. inv_ok. done.
Qed.

(** ** A library that the loader finds *)

(** The loader finds the library of [uid] and its two host symbols. *)
Record lib_present (dl : dlfcn) (dir : string) (uid : Z) (m : cmem)
    (h : Z) (m1 : cmem) (tbl size : Z) : Prop := {
  lp_open : dlopen dl (dir +:+ "/host/" +:+ hex8 uid +:+ ".qso") m = (h, m1);
  lp_handle : h <> 0;
  lp_tbl : dlsym dl h ("__gyh_hfunctbl_" +:+ hex8 uid) m1 = tbl;
  lp_tbl_nz : tbl <> 0;
  lp_size : exists sizep,
    dlsym dl h ("__gyh_hfunctbl_size_" +:+ hex8 uid) m1 = sizep /\
    sizep <> 0 /\ load 4 sizep m1 = Some size
}.

(** The constructor on a library that is present, step by step. *)
Lemma gyh_do_ctor_present dl dir qlibUid cbFunc s uid h m1 tbl size old :
  gyh_qlibs s !! first_free (gyh_qlibs s) = Some old ->
  first_free (gyh_qlibs s) <> gyh_qlibs_size ->
  gyh_cbFunc s = 0 \/ gyh_cbFunc s = cbFunc ->
  (String.length dir <= 1005)%nat ->
  load 4 qlibUid (q_mem s) = Some uid ->
  lib_present dl dir uid (q_mem s) h m1 tbl size ->
  load 4 qlibUid m1 = Some uid ->
  exists m2,
    store 4 qlibUid (Z.of_nat (first_free (gyh_qlibs s))) m1 = Some m2 /\
    gyh_do_ctor dl dir qlibUid cbFunc s =
      Ok (first_free (gyh_qlibs s),
          mk_qst m2
            (<[first_free (gyh_qlibs s) :=
               mk_Qlib h uid tbl size (ql_extreftbl old) (ql_cbstubtbl old)]> (gyh_qlibs s))
            cbFunc (q_prot s)).
Proof.
  intros Hold Hne Hcb Hdir Huid [Ho Hh Ht Htn (sizep & Hs & Hsn & Hl)] Huid1.
  destruct (store_Some 4 qlibUid (Z.of_nat (first_free (gyh_qlibs s))) m1) as [m2 Hm2].
  { apply load_mapped. eauto. }
  exists m2; split; [done|]. unfold gyh_do_ctor.
  rewrite (proj2 (set_cbFunc_ok _ _ _) (conj eq_refl Hcb)); simpl.
  apply Nat.eqb_neq in Hne as ->. rewrite Hold; simpl. rewrite Huid; simpl.
  assert (sprintf_buf 1024 (dir +:+ "/host/" +:+ hex8 uid +:+ ".qso")
          = Ok (dir +:+ "/host/" +:+ hex8 uid +:+ ".qso")) as ->.
  { unfold sprintf_buf. destruct (Nat.ltb_spec (String.length
      (dir +:+ "/host/" +:+ hex8 uid +:+ ".qso")) 1024) as [|Hge]; [done|exfalso].
    rewrite !string_length_app, hex8_length in Hge.
    change (String.length "/host/") with 6%nat in Hge.
    change (String.length ".qso") with 4%nat in Hge. lia. }
  simpl. rewrite Ho. apply Z.eqb_neq in Hh as Hh'. rewrite Hh'. rewrite Huid1; simpl.
  rewrite (dlsym_or_abort_ok dl h "__gyh_hfunctbl_" uid m1 tbl) by (done || (simpl; lia)).
  simpl.
  rewrite (dlsym_or_abort_ok dl h "__gyh_hfunctbl_size_" uid m1 sizep) by (done || (simpl; lia)).
  simpl.
  rewrite Hl; simpl. by rewrite Hm2.
Qed.

Lemma qlib_at_slot qlibUid s i q :
  load 4 qlibUid (q_mem s) = Some (Z.of_nat i) ->
  (i < gyh_qlibs_size)%nat -> gyh_qlibs s !! i = Some q ->
  qlib_at qlibUid s = Ok q.
Proof.
  intros Hl Hi Hq. unfold qlib_at. rewrite Hl; simpl.
  destruct (Z.leb_spec (Z.of_nat gyh_qlibs_size) (Z.of_nat i)); [lia|].
  by rewrite Nat2Z.id, Hq.
Qed.

Lemma u32_slot i : (i < gyh_qlibs_size)%nat -> u32 (Z.of_nat i) = Z.of_nat i.
Proof. intros H. apply wrap_small. unfold gyh_qlibs_size in H. lia. Qed.

Lemma slot_in_range s :
  length (gyh_qlibs s) = gyh_qlibs_size ->
  first_free (gyh_qlibs s) <> gyh_qlibs_size ->
  (first_free (gyh_qlibs s) < gyh_qlibs_size)%nat /\
  is_Some (gyh_qlibs s !! first_free (gyh_qlibs s)).
Proof.
  intros Hlen Hne. pose proof (first_free_le (gyh_qlibs s)).
  assert (first_free (gyh_qlibs s) < gyh_qlibs_size)%nat by lia.
  split; [done|]. apply first_free_lookup. lia.
Qed.

(** [p1 .. p1+n1-1] and [p2 .. p2+n2-1] do not overlap. *)
Definition disjoint_range (p1 n1 p2 n2 : Z) : Prop := p1 + n1 <= p2 \/ p2 + n2 <= p1.

(** A guest library whose constructor system call found its host library
    can call every host function of it: the constructor returns, leaves the
    other slots alone, and a call with the same [qlibUid] pointer reaches the
    entry of the library's own function table. *)
Theorem ctor_then_call dl dir qlibUid cbFunc s uid h m1 tbl size :
  length (gyh_qlibs s) = gyh_qlibs_size ->
  first_free (gyh_qlibs s) <> gyh_qlibs_size ->
  gyh_cbFunc s = 0 \/ gyh_cbFunc s = cbFunc ->
  (String.length dir <= 1005)%nat ->
  load 4 qlibUid (q_mem s) = Some uid ->
  lib_present dl dir uid (q_mem s) h m1 tbl size ->
  load 4 qlibUid m1 = Some uid ->
  0 <= tbl -> tbl + 8 * size < 2 ^ 64 ->
  disjoint_range tbl (8 * size) qlibUid 4 ->
  exists s',
    gyh_ctor dl dir qlibUid cbFunc s = Ok s' /\
    (forall funcUid f, 0 <= funcUid < size ->
       load 8 (tbl + 8 * funcUid) m1 = Some f ->
       find_hfunc qlibUid funcUid s' = Ok f) /\
    (forall j, j <> first_free (gyh_qlibs s) -> gyh_qlibs s' !! j = gyh_qlibs s !! j).
Proof.
  intros Hlen Hne Hcb Hdir Huid Hlib Huid1 Htbl Hend Hdisj.
  destruct (slot_in_range s Hlen Hne) as [Hlt [old Hold]].
  edestruct gyh_do_ctor_present as (m2 & Hm2 & Hctor); [done..|].
  eexists; split; [by unfold gyh_ctor; rewrite Hctor|]. split.
  - intros funcUid f Hf Hload. unfold find_hfunc.
    erewrite qlib_at_slot; [|simpl; by rewrite (load_store_u32 _ _ _ _ Hm2), u32_slot
                            |done|simpl; apply list_lookup_insert_eq; lia].
    simpl. destruct (Z.ltb_spec size funcUid); [lia|].
    rewrite wrap_small by lia.
    rewrite (load_store_other _ _ _ _ _ _ _ Hm2) by (destruct Hdisj; lia).
    by rewrite Hload.
  - intros j Hj. simpl. by apply list_lookup_insert_ne.
Qed.

(** The constructor and destructor system calls undo each other on the
    guest's variable: the constructor replaces the library's uid by a slot
    number, the destructor puts the uid back. *)
Theorem ctor_dtor_roundtrip dl dir qlibUid cbFunc s uid h m1 tbl size m3 :
  length (gyh_qlibs s) = gyh_qlibs_size ->
  first_free (gyh_qlibs s) <> gyh_qlibs_size ->
  gyh_cbFunc s = 0 \/ gyh_cbFunc s = cbFunc ->
  (String.length dir <= 1005)%nat ->
  bytes_ok (q_mem s) ->
  load 4 qlibUid (q_mem s) = Some uid ->
  lib_present dl dir uid (q_mem s) h m1 tbl size ->
  load 4 qlibUid m1 = Some uid ->
  exists s',
    gyh_ctor dl dir qlibUid cbFunc s = Ok s' /\
    load 4 qlibUid (q_mem s') = Some (Z.of_nat (first_free (gyh_qlibs s))) /\
    (dlclose dl h (q_mem s') = (0, m3) -> mapped 4 qlibUid m3 ->
     exists s'', gyh_dtor dl qlibUid s' = Ok s'' /\ load 4 qlibUid (q_mem s'') = Some uid).
Proof.
  intros Hlen Hne Hcb Hdir Hbytes Huid Hlib Huid1.
  destruct (slot_in_range s Hlen Hne) as [Hlt [old Hold]].
  edestruct gyh_do_ctor_present as (m2 & Hm2 & Hctor); [done..|].
  assert (load 4 qlibUid m2 = Some (Z.of_nat (first_free (gyh_qlibs s)))) as Hidx.
  { by rewrite (load_store_u32 _ _ _ _ Hm2), u32_slot. }
  eexists; split; [by unfold gyh_ctor; rewrite Hctor|]. split; [done|].
  simpl. intros Hclose Hmap. destruct (store_Some 4 qlibUid uid m3 Hmap) as [m4 Hm4].
  unfold gyh_dtor. erewrite qlib_at_slot;
    [|simpl; apply Hidx|done|simpl; apply list_lookup_insert_eq; lia].
  simpl. pose proof (lp_handle _ _ _ _ _ _ _ _ Hlib) as Hh.
  apply Z.eqb_neq in Hh. rewrite Hh, Hclose; simpl. rewrite Hm4; simpl.
  eexists; split; [done|]. simpl. rewrite (load_store_u32 _ _ _ _ Hm4).
  f_equal. apply wrap_small.
  by apply (load_bound 4 qlibUid (q_mem s)).
Qed.


(** ** Sequences of system calls *)

(** [lib_run dl dir n s]: [s] is reached from the initial table by some
    constructors, of which [n] succeeded, and destructors; the guest may
    change memory in between. *)
Inductive lib_run (dl : dlfcn) (dir : string) : nat -> qst -> Prop :=
| run_init m : lib_run dl dir 0 (gyh_init m)
| run_ctor n s qlibUid cb i s' :
    lib_run dl dir n s ->
    gyh_do_ctor dl dir qlibUid cb s = Ok (i, s') -> lib_run dl dir (S n) s'
| run_ctor_grt n s qlibUid e c cb i s' :
    lib_run dl dir n s ->
    gyh_do_ctor_grt dl dir qlibUid e c cb s = Ok (i, s') -> lib_run dl dir (S n) s'
| run_ctor_fcp_cm n s ps qlibUid e c g k cb i s' :
    lib_run dl dir n s ->
    gyh_do_ctor_fcp_cm dl dir ps qlibUid e c g k cb s = Ok (i, s') -> lib_run dl dir (S n) s'
| run_dtor n s qlibUid s' :
    lib_run dl dir n s -> gyh_dtor dl qlibUid s = Ok s' -> lib_run dl dir n s'
| run_guest n s m :
    lib_run dl dir n s ->
    lib_run dl dir n (mk_qst m (gyh_qlibs s) (gyh_cbFunc s) (q_prot s)).

(** The first [n] slots are taken, the others are free. *)
Definition slots_taken (n : nat) (qs : list gyh_Qlib) : Prop :=
  length qs = gyh_qlibs_size /\ (n <= gyh_qlibs_size)%nat /\
  forall i q, qs !! i = Some q -> ((i < n)%nat <-> ql_handle q <> 0).

Lemma slots_taken_first_free n qs : slots_taken n qs -> first_free qs = n.
Proof.
  intros (Hlen & Hn & H). apply first_free_eq; [|lia|].
  - intros i q Hi Hq. by apply (H i).
  - intros q Hq. destruct (decide (ql_handle q = 0)); [done|].
    apply (H n q Hq) in n0. lia.
Qed.

Lemma slots_taken_insert n qs q :
  slots_taken n qs -> first_free qs <> gyh_qlibs_size ->
  ql_handle q <> 0 -> slots_taken (S n) (<[first_free qs := q]> qs).
Proof.
  intros Hs Hne Hq. pose proof (slots_taken_first_free _ _ Hs) as Hf.
  destruct Hs as (Hlen & Hn & H). rewrite Hf in *.
  split_and!; [by rewrite length_insert|lia|].
  intros i q'. destruct (decide (i = n)) as [->|Hi].
  - rewrite list_lookup_insert_eq by lia. intros [= <-]. split; [done|lia].
  - rewrite list_lookup_insert_ne by done. intros Hq'. rewrite <- (H i q' Hq'). lia.
Qed.

Lemma lib_run_slots dl dir n s : lib_run dl dir n s -> slots_taken n (gyh_qlibs s).
Proof.
  induction 1 as [m|n s qlibUid cb i s' _ IH E|n s qlibUid e c cb i s' _ IH E
                 |n s ps qlibUid e c g k cb i s' _ IH E|n s qlibUid s' _ IH E|n s m _ IH].
  - split_and!; [apply length_replicate|lia|]. intros i q Hq.
    apply lookup_replicate in Hq as [-> _]. simpl. lia.
  - apply gyh_do_ctor_inv in E as (-> & ? & _ & _ & _ & q & -> & ?).
    by apply slots_taken_insert.
  - apply gyh_do_ctor_grt_inv in E as (-> & ? & _ & q & -> & ?).
    by apply slots_taken_insert.
  - apply gyh_do_ctor_fcp_cm_inv in E as (-> & ? & _ & q & -> & ?).
    by apply slots_taken_insert.
  - apply gyh_dtor_inv in E as [-> _]. done.
  - done.
Qed.

(** Slots are handed out in order and a library never gets the slot of
    another: after [n] successful constructors, whatever destructors ran in
    between, the next constructor assigns slot [n]. *)
Theorem ctor_slots_in_order dl dir n s qlibUid cbFunc i s' :
  lib_run dl dir n s ->
  gyh_do_ctor dl dir qlibUid cbFunc s = Ok (i, s') ->
  i = n /\ forall j q, (j < n)%nat -> gyh_qlibs s !! j = Some q -> gyh_qlibs s' !! j = Some q.
Proof.
  intros Hrun E. apply lib_run_slots, slots_taken_first_free in Hrun as Hf.
  apply gyh_do_ctor_inv in E as (-> & _ & _ & _ & _ & q & -> & _). split; [done|].
  intros j q' Hj Hq'. rewrite list_lookup_insert_ne by lia. done.
Qed.

(** Slots are never given back: once 1024 constructors have succeeded,
    even if every library was destructed since, each further constructor
    aborts. *)
Theorem ctor_table_exhausted dl dir s qlibUid cbFunc :
  lib_run dl dir gyh_qlibs_size s ->
  is_ok (gyh_do_ctor dl dir qlibUid cbFunc s) = false.
Proof.
  intros Hrun. apply lib_run_slots, slots_taken_first_free in Hrun as Hf.
  unfold gyh_do_ctor. rewrite Hf, Nat.eqb_refl. by destruct (set_cbFunc _ _).
Qed.

(** ** FCP-CM: lemmas *)

Section fcp_facts.
Context (k gfunctbl functblPtr : Z) (Hk : 0 <= k < 63).
Abbreviation ps := (2 ^ k).

(** A range asked of [mprotect] that starts on a page boundary and holds the
    two words before [g]. *)
Definition prot_covers (g : Z) (prot : list (Z * Z)) : Prop :=
  exists b n, (b, n) ∈ prot /\ b mod ps = 0 /\ b <= g - 16 /\ g <= b + n.

(** The page window is empty or was asked of [mprotect]. *)
Definition window_ok (s : fcp) : Prop :=
  f_pageEnd s = 0 \/
  (f_pageBegin s, f_pageEnd s - f_pageBegin s) ∈ f_prot s /\
  f_pageBegin s mod ps = 0 /\ 0 <= f_pageBegin s <= f_pageEnd s.

Lemma pow_k_bound : 1 <= ps < 2 ^ 63.
Proof using Hk. split; [pose proof (Z.pow_pos_nonneg 2 k ltac:(lia) ltac:(lia)); lia|].
  apply Z.pow_lt_mono_r; lia.
Qed.

Lemma prot_covers_app g prot x : prot_covers g prot -> prot_covers g (x :: prot).
Proof. intros (b & n & H & ?). exists b, n. split; [by right|done]. Qed.

(** The page window after the test of the loop. *)
Lemma window_after g s :
  16 <= g -> g + ps < 2 ^ 64 -> window_ok s ->
  let s' := if (g - 16 <? f_pageBegin s) || (f_pageEnd s <=? g)
    then mk_fcp (f_mem s) (align_down ps (g - 16)) (align_down ps (u64 (g + ps)))
           ((align_down ps (g - 16),
             u64 (align_down ps (u64 (g + ps)) - align_down ps (g - 16))) :: f_prot s)
    else s in
  window_ok s' /\ prot_covers g (f_prot s') /\ f_mem s' = f_mem s /\
  (f_prot s ⊆ f_prot s').
Proof using Hk.
  intros Hg Hgp Hw. pose proof pow_k_bound as Hps. simpl.
  destruct (_ || _) eqn:E; simpl.
  - rewrite (wrap_small 64 (g + ps)) by lia.
    rewrite !align_down_spec by lia.
    set (b := g - 16 - (g - 16) mod ps). set (e := g + ps - (g + ps) mod ps).
    assert (0 <= b <= g - 16) as Hb.
    { unfold b. pose proof (Z.mod_pos_bound (g - 16) ps ltac:(lia)).
      pose proof (Z.mod_le (g - 16) ps ltac:(lia) ltac:(lia)). lia. }
    assert (g < e < 2 ^ 64) as He.
    { unfold e. pose proof (Z.mod_pos_bound (g + ps) ps ltac:(lia)). lia. }
    assert (b mod ps = 0) as Hbm.
    { unfold b. by rewrite Zminus_mod_idemp_r, Z.sub_diag, Z.mod_0_l by lia. }
    rewrite (wrap_small 64 (e - b)) by lia.
    split_and!; [right|exists b, (e - b)|done|]; simpl.
    + split_and!; [by left|done|lia|lia].
    + split_and!; [by left|done|lia|lia].
    + intros x Hx. by right.
  - apply orb_false_iff in E as [E1%Z.ltb_ge E2%Z.leb_gt].
    split_and!; [done| |done|done].
    destruct Hw as [Hw|(Hin & Hm & Hle)]; [lia|].
    exists (f_pageBegin s), (f_pageEnd s - f_pageBegin s).
    split_and!; [done|done|lia|lia].
Qed.

(** One iteration, on a function whose prefix holds the magic number. *)
Lemma fcp_cm_step_ok i g v s :
  load 8 (u64 (gfunctbl + 8 * i)) (f_mem s) = Some g ->
  load 8 (u64 (functblPtr + 8 * i)) (f_mem s) = Some v ->
  16 <= g -> g + ps < 2 ^ 64 -> 0 <= v < 2 ^ 64 ->
  load 8 (g - 16) (f_mem s) = Some kFCPcmMagic ->
  mapped 8 (g - 8) (f_mem s) ->
  window_ok s ->
  exists s', fcp_cm_step ps gfunctbl functblPtr i s = Ok s' /\
    load 8 (g - 8) (f_mem s') = Some v /\
    load 8 (g - 16) (f_mem s') = Some (Z.lxor kFCPcmMagic v) /\
    agree_except 16 (g - 16) (f_mem s) (f_mem s') /\
    (forall x, is_Some (f_mem s' !! x) <-> is_Some (f_mem s !! x)) /\
    window_ok s' /\ prot_covers g (f_prot s') /\ (f_prot s ⊆ f_prot s').
Proof using Hk.
  intros Hg Hv Hg0 Hg1 Hvb Hmg Hmap Hw. pose proof pow_k_bound as Hps.
  destruct (window_after g s Hg0 Hg1 Hw) as (Hw' & Hc & Hmem & Hsub).
  unfold fcp_cm_step. rewrite Hg; simpl.
  rewrite (wrap_small 64 (g - 16)), (wrap_small 64 (g - 8)) by lia.
  rewrite Hmg; simpl. match type of Hmem with f_mem ?t = _ => set (s1 := t) in * end.
  rewrite !Hmem, Hv; simpl.
  destruct (store_Some 8 (g - 8) v (f_mem s) Hmap) as [m1 Hm1]. rewrite Hm1; simpl.
  rewrite (load_store_u64 _ _ _ _ Hm1); simpl. rewrite (wrap_small 64 v) by done.
  destruct (store_Some 8 (g - 16) (Z.lxor kFCPcmMagic v) m1) as [m2 Hm2].
  { rewrite (mapped_store _ _ _ _ _ _ _ Hm1). apply load_mapped. eauto. }
  rewrite Hm2; simpl. eexists; split; [done|]. simpl. split_and!.
  - rewrite (load_store_other _ _ _ _ _ _ _ Hm2) by lia.
    rewrite (load_store_u64 _ _ _ _ Hm1). by rewrite wrap_small.
  - rewrite (load_store_u64 _ _ _ _ Hm2), wrap_small; [done|].
    assert (0 <= Z.lxor kFCPcmMagic v) by (apply Z.lxor_nonneg; unfold kFCPcmMagic; lia).
    split; [done|]. apply Z.log2_lt_cancel.
    eapply Z.le_lt_trans; [apply Z.log2_lxor; unfold kFCPcmMagic; lia|].
    apply Z.max_lub_lt; [reflexivity|].
    destruct (decide (v = 0)) as [->|]; [reflexivity|].
    rewrite Z.log2_pow2 by lia. apply Z.log2_lt_pow2; lia.
  - intros x Hx. rewrite (store_outside _ _ _ _ _ Hm2) by lia.
    apply (store_outside _ _ _ _ _ Hm1). lia.
  - intros x. by rewrite (store_is_Some _ _ _ _ _ _ Hm2), (store_is_Some _ _ _ _ _ _ Hm1).
  - done.
  - done.
  - done.
Qed.

(** The tables of the constructor: [n] guest functions whose prefixes do not
    overlap each other or the tables, each prefix holding the magic number. *)
Record fcp_tables (n : nat) (g v : nat -> Z) (m : cmem) : Prop := {
  ft_g : forall i, (i < n)%nat -> load 8 (u64 (gfunctbl + 8 * Z.of_nat i)) m = Some (g i);
  ft_v : forall i, (i < n)%nat -> load 8 (u64 (functblPtr + 8 * Z.of_nat i)) m = Some (v i);
  ft_gb : forall i, (i < n)%nat -> 16 <= g i /\ g i + ps < 2 ^ 64;
  ft_vb : forall i, (i < n)%nat -> 0 <= v i < 2 ^ 64;
  ft_magic : forall i, (i < n)%nat -> load 8 (g i - 16) m = Some kFCPcmMagic;
  ft_map : forall i, (i < n)%nat -> mapped 8 (g i - 8) m;
  ft_disj : forall i j, (i < n)%nat -> (j < n)%nat -> i <> j ->
    disjoint_range (g i - 16) 16 (g j - 16) 16;
  ft_gt : forall i j, (i < n)%nat -> (j < n)%nat ->
    disjoint_range (u64 (gfunctbl + 8 * Z.of_nat i)) 8 (g j - 16) 16;
  ft_vt : forall i j, (i < n)%nat -> (j < n)%nat ->
    disjoint_range (u64 (functblPtr + 8 * Z.of_nat i)) 8 (g j - 16) 16
}.

(** The prefix of function [i] as the generated host code expects it. *)
Definition prefix_set (g v : nat -> Z) (m : cmem) (prot : list (Z * Z)) (i : nat) : Prop :=
  load 8 (g i - 8) m = Some (v i) /\
  load 8 (g i - 16) m = Some (Z.lxor kFCPcmMagic (v i)) /\
  prot_covers (g i) prot.

(** The loop from index [i] on, when the first [i] functions are done. *)
Lemma fcp_cm_loop_from n g v m0 :
  fcp_tables n g v m0 ->
  forall r i s, (i + r = n)%nat -> window_ok s ->
  (forall x, (forall j, (j < i)%nat -> ~ (g j - 16 <= x < g j)) -> f_mem s !! x = m0 !! x) ->
  (forall x, is_Some (f_mem s !! x) <-> is_Some (m0 !! x)) ->
  (forall j, (j < i)%nat -> prefix_set g v (f_mem s) (f_prot s) j) ->
  exists s', fcp_cm_loop ps gfunctbl functblPtr r (Z.of_nat i) s = Ok s' /\
    (forall x, (forall j, (j < n)%nat -> ~ (g j - 16 <= x < g j)) -> f_mem s' !! x = m0 !! x) /\
    (forall j, (j < n)%nat -> prefix_set g v (f_mem s') (f_prot s') j).
Proof using Hk.
  intros T. induction r as [|r IH]; intros i s Hi Hw Hfr Hdom Hdone; simpl.
  - exists s. replace i with n in * by lia. done.
  - assert (i < n)%nat as Hin by lia.
    assert (forall b c, (forall j, (j < n)%nat -> disjoint_range b (Z.of_nat c) (g j - 16) 16) ->
              load c b (f_mem s) = load c b m0) as Hload.
    { intros b c Hd. apply load_ext. intros x Hx. apply Hfr. intros j Hj.
      destruct (Hd j ltac:(lia)); lia. }
    destruct (ft_gb _ _ _ _ T i Hin) as [Hg0 Hg1].
    destruct (fcp_cm_step_ok (Z.of_nat i) (g i) (v i) s) as
      (s1 & -> & Hid & Hmg & Hag & Hdom1 & Hw1 & Hc & Hsub); [..|done|].
    + rewrite Hload; [by apply T|]. intros j Hj. by apply T.
    + rewrite Hload; [by apply T|]. intros j Hj. by apply T.
    + done.
    + done.
    + by apply T.
    + rewrite <- (ft_magic _ _ _ _ T i Hin). apply load_ext. intros x Hx. apply Hfr.
      intros j Hj. destruct (ft_disj _ _ _ _ T j i ltac:(lia) Hin ltac:(lia)); lia.
    + intros x Hx. rewrite Hdom. by apply (ft_map _ _ _ _ T i Hin).
    + simpl. replace (Z.of_nat i + 1) with (Z.of_nat (S i)) by lia.
      apply IH; [lia|done| | |].
      * intros x Hx. rewrite Hag by (specialize (Hx i ltac:(lia)); lia).
        apply Hfr. intros j Hj. apply Hx. lia.
      * intros x. by rewrite Hdom1.
      * intros j Hj. destruct (decide (j = i)) as [->|Hji]; [done|].
        destruct (Hdone j ltac:(lia)) as (H1 & H2 & b & c & H3 & H4).
        destruct (ft_disj _ _ _ _ T j i ltac:(lia) Hin Hji);
        (split_and!; [rewrite <- H1|rewrite <- H2|exists b, c; split; [by apply Hsub|done]];
          apply load_ext; intros x Hx; apply Hag; lia).
Qed.
End fcp_facts.

(** The test the generated host code makes before it calls a guest function
    directly ([TakeOut::do_fcp_cm]): the word two before the function is the
    magic number xor the word before it. It yields the address to call. *)
Definition fcp_cm_check (g : Z) (m : cmem) : result (option Z) :=
  magic ← of_option "callee[-2]" (load 8 (u64 (g - 16)) m);
  hfuncAddr ← of_option "callee[-1]" (load 8 (u64 (g - 8)) m);
  Ok (if magic =? Z.lxor kFCPcmMagic hfuncAddr then Some hfuncAddr else None).

(** C27: the FCP-CM constructor writes the prefixes the generated code tests.
    On tables of distinct guest functions whose prefixes carry the magic
    number the loop returns; afterwards the test succeeds on every one of
    these functions and yields the address of its host version; nothing
    outside the prefixes changed; and each prefix lies in a page-aligned
    range that [mprotect] was asked to make writable. *)
Theorem fcp_cm_prefixes k gfunctbl functblPtr n g v m0 prot :
  0 <= k < 63 ->
  fcp_tables k gfunctbl functblPtr n g v m0 ->
  exists s,
    fcp_cm_loop (2 ^ k) gfunctbl functblPtr n 0 (mk_fcp m0 0 0 prot) = Ok s /\
    (forall i, (i < n)%nat ->
       fcp_cm_check (g i) (f_mem s) = Ok (Some (v i)) /\ prot_covers k (g i) (f_prot s)) /\
    (forall x, (forall i, (i < n)%nat -> ~ (g i - 16 <= x < g i)) -> f_mem s !! x = m0 !! x).
Proof.
  intros Hk T.
  destruct (fcp_cm_loop_from k gfunctbl functblPtr Hk n g v m0 T n 0 (mk_fcp m0 0 0 prot))
    as (s & Hs & Hfr & Hset); try done.
  - by left.
  - simpl. lia.
  - exists s. split_and!; [done| |done]. intros i Hi.
    destruct (Hset i Hi) as (Hid & Hmg & Hc). split; [|done].
    destruct (ft_gb _ _ _ _ _ _ _ T i Hi).
    pose proof (Z.pow_pos_nonneg 2 k ltac:(lia) ltac:(lia)).
    unfold fcp_cm_check. rewrite !wrap_small by lia. rewrite Hmg; simpl.
    rewrite Hid; simpl. by rewrite Z.eqb_refl.
Qed.

(** The test cannot tell a null host address from a valid one: a prefix
    whose second word is 0 passes it as soon as its first word is the plain
    magic number. That is the prefix of a function whose table entry is null
    (a function on the take-out black list), and the prefix [chop-off] emits
    for function number 0 before any constructor ran. *)
Theorem fcp_cm_check_null g m :
  load 8 (u64 (g - 16)) m = Some kFCPcmMagic ->
  load 8 (u64 (g - 8)) m = Some 0 ->
  fcp_cm_check g m = Ok (Some 0).
Proof. intros H1 H2. unfold fcp_cm_check. rewrite H1; simpl. by rewrite H2. Qed.

(** ** A small library, on which the theorems are evaluated *)

Module Toy.

(** The guest's uid variable at 4096 holds 7; the library's table of two host
    functions is at 8192, its size at 8300. *)
Definition mem : cmem :=
  region 4096 (le_bytes 4 7) ∪ region 8192 (le_bytes 8 0xAAAA ++ le_bytes 8 0xBBBB)
  ∪ region 8300 (le_bytes 4 2).

Definition dl : dlfcn := mk_dlfcn
  (fun path m => (if decide (path = "/q/host/00000007.qso") then 1 else 0, m))
  (fun _ sym _ =>
     if decide (sym = "__gyh_hfunctbl_00000007") then 8192
     else if decide (sym = "__gyh_hfunctbl_size_00000007") then 8300 else 0)
  (fun _ m => (0, m)).

Lemma present : lib_present dl "/q" 7 mem 1 mem 8192 2.
Proof. split; [reflexivity|done|reflexivity|done|]. exists 8300. by vm_compute. Defined.

(** [n] constructors succeed, for any [n] up to the size of the table. *)
Lemma runs n : (n <= gyh_qlibs_size)%nat -> exists s, lib_run dl "/q" n s /\ q_mem s = mem.
Proof.
  induction n as [|n IH]; intros Hn; [exists (gyh_init mem); split; [constructor|done]|].
  destruct IH as (s & Hrun & Hmem); [lia|].
  pose proof (lib_run_slots _ _ _ _ Hrun) as Hs.
  pose proof (slots_taken_first_free _ _ Hs) as Hf. destruct Hs as (Hlen & _ & _).
  destruct (slot_in_range s Hlen ltac:(lia)) as [Hlt [old Hold]].
  destruct (gyh_do_ctor_present dl "/q" 4096 (gyh_cbFunc s) s 7 1 mem 8192 2 old)
    as (m2 & _ & E); [done|lia|by right|simpl; lia|by rewrite Hmem|by rewrite Hmem; apply present|done|].
  eexists; split; [eapply (run_guest _ _ _ _ mem), run_ctor; done|done].
Defined.

(** Two guest functions at 0x10010 and 0x10040 whose prefixes hold the magic
    number and their function numbers. *)
Definition g (i : nat) : Z := match i with O => 0x10010 | _ => 0x10040 end.
Definition v (i : nat) : Z := match i with O => 0x7F001000 | _ => 0x7F002000 end.

Definition fmem : cmem :=
  region 8192 (le_bytes 8 0x10010 ++ le_bytes 8 0x10040)
  ∪ region 8224 (le_bytes 8 0x7F001000 ++ le_bytes 8 0x7F002000)
  ∪ region 0x10000 (le_bytes 8 kFCPcmMagic ++ le_bytes 8 0)
  ∪ region 0x10030 (le_bytes 8 kFCPcmMagic ++ le_bytes 8 1).

Lemma two (P : nat -> Prop) : P 0%nat -> P 1%nat -> forall i, (i < 2)%nat -> P i.
Proof. intros H0 H1 [|[|i]] Hi; [done|done|lia]. Defined.

Lemma tables : fcp_tables 12 8192 8224 2 g v fmem.
Proof.
  split.
  - by apply two; vm_compute.
  - by apply two; vm_compute.
  - by apply two; vm_compute.
  - by apply two; vm_compute.
  - by apply two; vm_compute.
  - apply two; apply load_mapped; vm_compute; eauto.
  - by intros [|[|i]] [|[|j]] Hi Hj Hij; try lia; [left|right]; vm_compute.
  - by intros [|[|i]] [|[|j]] Hi Hj; try lia; left; vm_compute.
  - by intros [|[|i]] [|[|j]] Hi Hj; try lia; left; vm_compute.
Defined.

Lemma ctor_then_call_witness :
  exists s', gyh_ctor dl "/q" 4096 0x5000 (gyh_init mem) = Ok s' /\
             find_hfunc 4096 1 s' = Ok 0xBBBB.
Proof.
  destruct (ctor_then_call dl "/q" 4096 0x5000 (gyh_init mem) 7 1 mem 8192 2)
    as (s' & H & Hf & _).
  - reflexivity.
  - by vm_compute.
  - by left.
  - simpl; lia.
  - reflexivity.
  - apply present.
  - reflexivity.
  - done.
  - done.
  - right; done.
  - exists s'. split; [done|]. apply (Hf 1 0xBBBB); [done|reflexivity].
Defined.

Lemma ctor_dtor_roundtrip_witness :
  exists s', gyh_ctor dl "/q" 4096 0x5000 (gyh_init mem) = Ok s' /\
             load 4 4096 (q_mem s') = Some 0 /\
             exists s'', gyh_dtor dl 4096 s' = Ok s'' /\ load 4 4096 (q_mem s'') = Some 7.
Proof.
  destruct (gyh_ctor dl "/q" 4096 0x5000 (gyh_init mem)) as [s'| |] eqn:E; [|by vm_compute in E..].
  destruct (ctor_dtor_roundtrip dl "/q" 4096 0x5000 (gyh_init mem) 7 1 mem 8192 2 (q_mem s'))
    as (s1 & H & Hi & Hd).
  - reflexivity.
  - by vm_compute.
  - by left.
  - simpl; lia.
  - apply bytes_ok_compute. by vm_compute.
  - reflexivity.
  - apply present.
  - reflexivity.
  - rewrite E in H. injection H as <-. exists s'. split; [done|]. split; [done|].
    apply Hd; [reflexivity|]. apply load_mapped. eauto.
Defined.

(** The table of [mem] loaded in slot 0. *)
Definition loaded : qst := mk_qst (<[4096 := 0]> mem) [mk_Qlib 1 7 8192 2 0 0] 0 [].


Lemma ctor_slots_in_order_witness :
  exists n s i s', lib_run dl "/q" n s /\ gyh_do_ctor dl "/q" 4096 0 s = Ok (i, s') /\ i = n.
Proof.
  destruct (gyh_do_ctor dl "/q" 4096 0 (gyh_init mem)) as [[i s']| |] eqn:E;
    [|by vm_compute in E..].
  exists 0%nat, (gyh_init mem), i, s'. split; [constructor|]. split; [done|].
  apply (ctor_slots_in_order dl "/q" 0 (gyh_init mem) 4096 0 i s'); [constructor|done].
Defined.

Lemma ctor_table_exhausted_witness :
  exists s, lib_run dl "/q" gyh_qlibs_size s /\ is_ok (gyh_do_ctor dl "/q" 4096 0 s) = false.
Proof.
  destruct (runs gyh_qlibs_size (le_n _)) as (s & H & _).
  exists s. split; [done|]. apply (ctor_table_exhausted dl "/q" s 4096 0 H).
Defined.

Lemma fcp_cm_prefixes_witness :
  exists s, fcp_cm_loop (2 ^ 12) 8192 8224 2 0 (mk_fcp fmem 0 0 []) = Ok s /\
            fcp_cm_check 0x10040 (f_mem s) = Ok (Some 0x7F002000).
Proof.
  destruct (fcp_cm_prefixes 12 8192 8224 2 g v fmem [] ltac:(lia) tables) as (s & H & Hc & _).
  exists s. split; [done|]. apply (Hc 1%nat). lia.
Defined.

Lemma fcp_cm_check_null_witness : fcp_cm_check 0x10010 fmem = Ok (Some 0).
Proof. apply (fcp_cm_check_null 0x10010 fmem); reflexivity. Defined.

End Toy.
