(* ===== verification/Machine.v ===== *)
(** * The emulated process and the runtime's execution contexts

    The state shared by the architecture files and the CPU loop: the emulated
    process as QEMU keeps it, the statistics counters of [gyh.c], the
    [ucontext_t]s by which host code and the CPU loop switch to each other,
    and the interface ([GuestArch]) that the architecture files
    ([x86_64-on.c], [aarch64-on.c], [riscv64-on.c]) offer to [gyh.c]. *)

From S2P Require Import Prelude CMem Qlib.
#[local] Open Scope string_scope.
#[local] Open Scope Z_scope.

(** ** Statistics

    The [long long] counters; QEMU is built with [-fwrapv]. *)

Record breakdown := mk_breakdown {
  gyh_breakdown_emu_nsecs : Z;
  gyh_breakdown_syscalls : Z;
  gyh_breakdown_calls : Z;
  gyh_breakdown_callbacks : Z;
  gyh_breakdown_callback_returns : Z
}.

(** ** Host code

    The library functions run by the host are compiled from the code that was
    taken out of the guest; they are not part of this program. What the
    runtime sees of one is where it runs next: it returns, leaving some
    memory, or it calls [__gyh_callback__], at a stack depth at which [alloca]
    yields [stk], and goes on from the memory it finds when the callback is
    done. *)
Inductive hstep :=
| HRet (m : cmem)
| HCallback (cbStub func retPad argPad stk : Z) (m : cmem) (k : cmem -> hstep).

(** ** Execution contexts

    A [ucontext_t]: one made by [makecontext] to start [gyh_do_call] (or
    [gyh_do_call_grt]) with the arguments of a guest call, or one saved by
    [swapcontext] inside [__gyh_callback__], with the local that holds the
    guest's stack pointer and the host code that called it. *)
Inductive ucontext :=
| CtxCall (qlibUid funcUid retPad argPad extRefs cbStubs ss_sp ss_size : Z)
| CtxCallGrt (qlibUid funcUid retPad argPad ss_sp ss_size : Z)
| CtxCallback (sp : Z) (k : cmem -> hstep).

(** ** The guest's system call, as [gyh_do_cpu] hands it to the loop *)

Record gyh_DoSyscall := mk_DoSyscall {
  gs_num : Z;
  gs_arg1 : Z; gs_arg2 : Z; gs_arg3 : Z; gs_arg4 : Z; gs_arg5 : Z; gs_arg6 : Z
}.

(** The variable of the loop is initialised to zero (QEMU is built with
    [-ftrivial-auto-var-init=zero]) and [gyh_do_cpu] leaves it alone unless
    the guest made one of our system calls. *)
Definition no_syscall : gyh_DoSyscall := mk_DoSyscall 0 0 0 0 0 0 0.

Definition GYH_NR_start : Z := 50000.
Definition GYH_NR__gyh_ctor__ : Z := 50046.
Definition GYH_NR__gyh_dtor__ : Z := 50096.
Definition GYH_NR__gyh_call__ : Z := 50406.
Definition GYH_NR__gyh_callback_return__ : Z := 50906.
Definition GYH_NR__gyh_ctor_grt__ : Z := 51046.
Definition GYH_NR__gyh_call_grt__ : Z := 51406.
Definition GYH_NR__gyh_ctor_fcp_cm__ : Z := 52046.

Definition QEMU_ERESTARTSYS : Z := 512.
Definition QEMU_ESIGRETURN : Z := 513.

(** ** The process *)

Section process.
Context {E K : Type}.

(** The emulated process: the CPU state of the architecture, the rest of
    what QEMU keeps for it (signals, task state, ...), memory, the counters,
    and what [gyh_atexit] wrote to the statistics file. *)
Record vm := mk_vm {
  v_env : E;
  v_kern : K;
  v_mem : cmem;
  v_bd : breakdown;
  v_reports : list breakdown
}.

Definition set_env (e : E) (s : vm) : vm :=
  mk_vm e (v_kern s) (v_mem s) (v_bd s) (v_reports s).

Definition set_mem (m : cmem) (s : vm) : vm :=
  mk_vm (v_env s) (v_kern s) m (v_bd s) (v_reports s).

Definition set_bd (b : breakdown) (s : vm) : vm :=
  mk_vm (v_env s) (v_kern s) (v_mem s) b (v_reports s).

(** QEMU's own services, as [gyh_do_cpu] and [cpu_loop] call them. *)
Record qemu_ops := mk_qemu_ops {
  cpu_exec : vm -> Z * vm;
  do_syscall : Z -> Z -> Z -> Z -> Z -> Z -> Z -> vm -> Z * vm;
  force_sig : Z -> vm -> vm;
  force_sig_fault : Z -> Z -> Z -> vm -> vm;
  process_pending_signals : vm -> vm;
  cpu_exec_step_atomic : vm -> vm;
  do_common_semihosting : vm -> vm;
  set_orig_ax : Z -> vm -> vm;
  access_ok_write : Z -> Z -> vm -> bool;
  aarch64_set_svcr : vm -> vm
}.

(** Where the statistics go: [getenv("GYHCALL_BREAKDOWN_FILE")] and whether
    [fopen] on it succeeds. *)
Record stat_file := mk_stat_file {
  sf_env : option string;
  sf_fopen : bool
}.

Definition gyh_atexit (sf : stat_file) (s : vm) : result vm :=
  match sf_env sf with
  | None => Ok s
  | Some _ =>
      if sf_fopen sf
      then Ok (mk_vm (v_env s) (v_kern s) (v_mem s) (v_bd s) (v_reports s ++ [v_bd s]))
      else Fault "fprintf to a null stream"
  end.

Lemma atexit_skip (sf : stat_file) (b : bool) (s : vm) :
  b = false \/ sf_env sf = None -> (if b then gyh_atexit sf s else Ok s) = Ok s.
Proof. destruct b; intros [?|Hn]; try done. unfold gyh_atexit. by rewrite Hn. Qed.

(** The whole machine: the process, the library table, the global that names
    the context to enter next, and the contexts by the address of their
    [ucontext_t]. *)
Record mach := mk_mach {
  m_vm : vm;
  m_qlibs : list gyh_Qlib;
  m_cbFunc : Z;
  m_prot : list (Z * Z);
  gyh_cpu_loop_ctx_to : Z;
  m_ctxs : gmap Z ucontext
}.

Definition with_vm (v : vm) (s : mach) : mach :=
  mk_mach v (m_qlibs s) (m_cbFunc s) (m_prot s) (gyh_cpu_loop_ctx_to s) (m_ctxs s).

Definition with_ctx_to (c : Z) (s : mach) : mach :=
  mk_mach (m_vm s) (m_qlibs s) (m_cbFunc s) (m_prot s) c (m_ctxs s).

Definition with_ctx (a : Z) (c : ucontext) (s : mach) : mach :=
  mk_mach (m_vm s) (m_qlibs s) (m_cbFunc s) (m_prot s) (gyh_cpu_loop_ctx_to s)
          (<[a := c]> (m_ctxs s)).

Definition m_env (s : mach) : E := v_env (m_vm s).
Definition m_mem (s : mach) : cmem := v_mem (m_vm s).
Definition with_env (e : E) (s : mach) : mach := with_vm (set_env e (m_vm s)) s.
Definition with_mem (m : cmem) (s : mach) : mach := with_vm (set_mem m (m_vm s)) s.

(** The part of the machine the library handlers of [Qlib] work on. *)
Definition to_qst (s : mach) : qst := mk_qst (m_mem s) (m_qlibs s) (m_cbFunc s) (m_prot s).

Definition of_qst (q : qst) (s : mach) : mach :=
  mk_mach (set_mem (q_mem q) (m_vm s)) (gyh_qlibs q) (gyh_cbFunc q) (q_prot q)
          (gyh_cpu_loop_ctx_to s) (m_ctxs s).

Definition on_qst (f : qst -> result qst) (s : mach) : result mach :=
  q ← f (to_qst s); Ok (of_qst q s).

Definition bump_callbacks (v : vm) : vm :=
  let b := v_bd v in
  set_bd (mk_breakdown (gyh_breakdown_emu_nsecs b) (gyh_breakdown_syscalls b)
    (gyh_breakdown_calls b) (i64 (gyh_breakdown_callbacks b + 1))
    (gyh_breakdown_callback_returns b)) v.

Definition count_callback (s : mach) : mach := with_vm (bump_callbacks (m_vm s)) s.

End process.

Arguments vm : clear implicits.
Arguments mach : clear implicits.
Arguments qemu_ops : clear implicits.

(** ** The interface of an architecture

    What [gyh.c] calls of an architecture's file, and what the architecture
    promises about it: each operation on the machine acts on the process by a
    function of its own ([call_ctx], [enter_cb], [return_cb], [leave_cb]), and
    touches [gyh_cpu_loop_ctx_to] and the contexts only as stated; a callback
    whose guest code came to its end ([cb_returned]) goes back to the context
    it left, with the program counter and the stack pointer it left; the
    counters play no part in it. *)
Class GuestArch (E K : Type) := {
  ga_ctx_call : Z;
  ga_ctx_call_grt : Z;
  ga_do_cpu : vm E K -> result (gyh_DoSyscall * vm E K);
  ga_call : mach E K -> result (mach E K);
  ga_call_grt : mach E K -> result (mach E K);
  ga_callback : Z -> Z -> Z -> Z -> Z -> (cmem -> hstep) -> mach E K -> result (mach E K);
  ga_callback_return : mach E K -> result (mach E K);
  ga_resume : Z -> mach E K -> mach E K;

  ga_pc : E -> Z;
  ga_sp : E -> Z;
  call_ctx : vm E K -> result ucontext;
  call_grt_ctx : vm E K -> result ucontext;
  enter_cb : Z -> Z -> Z -> Z -> Z -> Z -> vm E K -> result (Z * Z * vm E K);
  return_cb : vm E K -> result (Z * vm E K);
  leave_cb : Z -> vm E K -> vm E K;
  cb_returned : vm E K -> vm E K -> Prop;

  ga_call_law : forall s, gyh_cpu_loop_ctx_to s = 0 ->
    ga_call s = (c ← call_ctx (m_vm s);
                 Ok (with_ctx_to ga_ctx_call (with_ctx ga_ctx_call c s)));
  ga_call_grt_law : forall s, gyh_cpu_loop_ctx_to s = 0 ->
    ga_call_grt s = (c ← call_grt_ctx (m_vm s);
                     Ok (with_ctx_to ga_ctx_call_grt (with_ctx ga_ctx_call_grt c s)));
  ga_callback_law : forall cbStub func retPad argPad stk k s, gyh_cpu_loop_ctx_to s = 0 ->
    ga_callback cbStub func retPad argPad stk k s =
      ('(sp, ctx, v) ← enter_cb (m_cbFunc s) cbStub func retPad argPad stk (m_vm s);
       Ok (with_ctx ctx (CtxCallback sp k) (with_vm v s)));
  ga_callback_return_law : forall s, gyh_cpu_loop_ctx_to s = 0 ->
    ga_callback_return s = ('(ctx, v) ← return_cb (m_vm s);
                            Ok (with_ctx_to ctx (with_vm v s)));
  ga_resume_law : forall sp s,
    ga_resume sp s = with_ctx_to 0 (with_vm (leave_cb sp (m_vm s)) s);
  ga_call_ctx_shape : forall v c, call_ctx v = Ok c ->
    exists q f r a e b p n, c = CtxCall q f r a e b p n;
  ga_call_grt_ctx_shape : forall v c, call_grt_ctx v = Ok c ->
    exists q f r a p n, c = CtxCallGrt q f r a p n;
  ga_leave_bd : forall sp b v, leave_cb sp (set_bd b v) = set_bd b (leave_cb sp v);
  ga_enter_return : forall cb cbStub func retPad argPad stk v sp ctx v1 v2,
    0 <= ga_pc (v_env v) < 2 ^ 64 ->
    0 <= stk -> stk + 24 < 2 ^ 64 ->
    enter_cb cb cbStub func retPad argPad stk v = Ok (sp, ctx, v1) ->
    cb_returned v1 v2 ->
    0 < ctx /\
    exists v3, return_cb v2 = Ok (ctx, v3) /\ v_mem (leave_cb sp v3) = v_mem v2 /\
      ga_pc (v_env (leave_cb sp v3)) = ga_pc (v_env v) /\
      ga_sp (v_env (leave_cb sp v3)) = ga_sp (v_env v)
}.

(** ** A QEMU to run the examples on

    Every run of the CPU ends in the trap the script gives for the current
    state; system calls return their number plus one. *)
Module ToyQemu.

Definition ops {E K : Type} (script : vm E K -> Z * vm E K) : qemu_ops E K :=
  mk_qemu_ops script (fun num _ _ _ _ _ _ s => (num + 1, s))
    (fun _ s => s) (fun _ _ _ s => s) (fun s => s) (fun s => s) (fun s => s)
    (fun _ s => s) (fun _ _ _ => true) (fun s => s).

Definition trap {E K : Type} (trapnr : Z) : qemu_ops E K := ops (fun s => (trapnr, s)).

Definition zero_bd : breakdown := mk_breakdown 0 0 0 0 0.

Definition machine {E : Type} (e : E) (m : cmem) : mach E unit :=
  mk_mach (mk_vm e tt m zero_bd []) [] 0x4000 [] 0 ∅.

End ToyQemu.
