(* ===== verification/ArchX86.v ===== *)
(** * x86_64 guests

    Models [qemu/linux-user/+gyh/x86_64-on.c]: one run of the CPU up to the
    next trap ([gyh_do_cpu]), and the guest side of calls and callbacks
    ([gyh_call], [gyh_call_grt], [gyh_callback_return],
    [__gyh_callback__]). The loop body of QEMU's own
    [qemu/linux-user/i386/cpu_loop.c] (as compiled for x86_64) is modelled
    too, to compare [gyh_do_cpu] with it. *)

From S2P Require Import Prelude CMem Qlib Machine.
#[local] Open Scope string_scope.
#[local] Open Scope Z_scope.

(** ** CPU state and constants *)

Record CPUX86State := mk_x86 {
  x_regs : nat -> Z;
  x_eip : Z;
  x_error_code : Z;
  x_cr2 : Z
}.

Definition R_EAX : nat := 0.
Definition R_ECX : nat := 1.
Definition R_EDX : nat := 2.
Definition R_EBX : nat := 3.
Definition R_ESP : nat := 4.
Definition R_EBP : nat := 5.
Definition R_ESI : nat := 6.
Definition R_EDI : nat := 7.
Definition R_R8 : nat := 8.
Definition R_R9 : nat := 9.

Definition set_reg (r : nat) (v : Z) (e : CPUX86State) : CPUX86State :=
  mk_x86 (<[r := v]> (x_regs e)) (x_eip e) (x_error_code e) (x_cr2 e).

Definition set_eip (v : Z) (e : CPUX86State) : CPUX86State :=
  mk_x86 (x_regs e) v (x_error_code e) (x_cr2 e).

Definition set_error_code (v : Z) (e : CPUX86State) : CPUX86State :=
  mk_x86 (x_regs e) (x_eip e) v (x_cr2 e).

Module X86.

Definition EXCP_SYSCALL : Z := 0x101.
Definition EXCP_VSYSCALL : Z := 0x102.
Definition EXCP00_DIVZ : Z := 0.
Definition EXCP01_DB : Z := 1.
Definition EXCP03_INT3 : Z := 3.
Definition EXCP04_INTO : Z := 4.
Definition EXCP05_BOUND : Z := 5.
Definition EXCP06_ILLOP : Z := 6.
Definition EXCP0B_NOSEG : Z := 11.
Definition EXCP0C_STACK : Z := 12.
Definition EXCP0D_GPF : Z := 13.
Definition EXCP0E_PAGE : Z := 14.
Definition EXCP_INTERRUPT : Z := 0x10000.
Definition EXCP_DEBUG : Z := 0x10002.
Definition EXCP_ATOMIC : Z := 0x10005.

Definition SIGILL : Z := 4.
Definition SIGTRAP : Z := 5.
Definition SIGBUS : Z := 7.
Definition SIGFPE : Z := 8.
Definition SIGSEGV : Z := 11.
Definition SEGV_MAPERR : Z := 1.
Definition SEGV_ACCERR : Z := 2.
Definition ILL_ILLOPN : Z := 2.
Definition TRAP_BRKPT : Z := 1.
Definition FPE_INTDIV : Z := 1.
Definition PG_ERROR_P_MASK : Z := 1.
Definition PG_ERROR_W_MASK : Z := 2.
Definition PG_ERROR_U_MASK : Z := 4.
Definition NR_gettimeofday : Z := 96.
Definition NR_time : Z := 201.
Definition NR_getcpu : Z := 309.
Definition EFAULT : Z := 14.

Section x86.
Context {K : Type} (q : qemu_ops CPUX86State K) (sf : stat_file).
Abbreviation vm := (vm CPUX86State K).
Abbreviation mach := (mach CPUX86State K).

Definition regs (s : vm) (r : nat) : Z := x_regs (v_env s) r.
Definition upd (f : CPUX86State -> CPUX86State) (s : vm) : vm := set_env (f (v_env s)) s.

(** ** The vsyscall page *)

Definition write_ok_or_segv (addr len : Z) (s : vm) : bool * vm :=
  if (addr =? 0) || access_ok_write q addr len s then (true, s)
  else
    let s := upd (set_error_code (Z.lor PG_ERROR_W_MASK PG_ERROR_U_MASK)) s in
    (false, force_sig_fault q SIGSEGV SEGV_MAPERR addr s).

(** The system call behind an entry point, [None] for the [default] case. *)
Definition vsyscall_nr (offset : Z) : option Z :=
  if offset =? 0x000 then Some NR_gettimeofday
  else if offset =? 0x400 then Some NR_time
  else if offset =? 0x800 then Some NR_getcpu
  else None.

(** The pointer arguments with the sizes of what is written through them. *)
Definition vsyscall_args_ok (syscall : Z) (s : vm) : bool * vm :=
  let two l1 l2 :=
    let '(ok, s) := write_ok_or_segv (regs s R_EDI) l1 s in
    if ok then write_ok_or_segv (regs s R_ESI) l2 s else (false, s) in
  if syscall =? NR_gettimeofday then two 16 8
  else if syscall =? NR_time then write_ok_or_segv (regs s R_EDI) 8 s
  else two 4 4.

Definition emulate_vsyscall (s : vm) : result vm :=
  match vsyscall_nr (Z.land (x_eip (v_env s)) 0xFFF) with
  | None => Ok (force_sig q SIGSEGV s)
  | Some syscall =>
      match load 8 (regs s R_ESP) (v_mem s) with
      | None => Ok (force_sig q SIGSEGV s)
      | Some caller =>
          let '(ok, s) := vsyscall_args_ok syscall s in
          if negb ok then Ok s else
          let s := set_orig_ax q syscall s in
          let '(ret, s) := do_syscall q syscall (regs s R_EDI) (regs s R_ESI) (regs s R_EDX)
                             (regs s 10) (regs s 8) (regs s 9) s in
          _ ← check "ret != -QEMU_ERESTARTSYS" (negb (ret =? u64 (- QEMU_ERESTARTSYS)));
          _ ← check "ret != -QEMU_ESIGRETURN" (negb (ret =? u64 (- QEMU_ESIGRETURN)));
          if ret =? u64 (- EFAULT) then Ok (force_sig q SIGSEGV s) else
          let s := upd (set_reg R_EAX ret) s in
          let s := upd (set_eip caller) s in
          Ok (upd (set_reg R_ESP (u64 (regs s R_ESP + 8))) s)
      end
  end.

Definition maybe_handle_vm86_trap (trapnr : Z) (s : vm) : bool := false.

(** What is done with the value of [do_syscall]. *)
Definition syscall_result (ret : Z) (s : vm) : vm :=
  if ret =? u64 (- QEMU_ERESTARTSYS) then upd (set_eip (u64 (x_eip (v_env s) - 2))) s
  else if negb (ret =? u64 (- QEMU_ESIGRETURN)) then upd (set_reg R_EAX ret) s
  else s.

(** ** One run of the CPU *)

Definition gyh_do_cpu (s : vm) : result (gyh_DoSyscall * vm) :=
  let '(trapnr, s) := cpu_exec q s in
  '(sys, s) ←
    (if trapnr =? 0x80 then
       let s := set_orig_ax q (regs s R_EAX) s in
       s ← (if regs s 8 =? 252 then gyh_atexit sf s else Ok s);
       if GYH_NR_start <? regs s R_EAX then
         Ok (mk_DoSyscall (i32 (regs s R_EAX)) (regs s R_EBX) (regs s R_ECX) (regs s R_EDX)
               (regs s R_ESI) (regs s R_EDI) (regs s R_EBP), s)
       else
         let '(ret, s) := do_syscall q (regs s R_EAX) (regs s R_EBX) (regs s R_ECX)
                            (regs s R_EDX) (regs s R_ESI) (regs s R_EDI) (regs s R_EBP) s in
         Ok (no_syscall, syscall_result ret s)
     else if trapnr =? EXCP_SYSCALL then
       let s := set_orig_ax q (regs s R_EAX) s in
       s ← (if regs s R_EAX =? 231 then gyh_atexit sf s else Ok s);
       if GYH_NR_start <? regs s R_EAX then
         Ok (mk_DoSyscall (i32 (regs s R_EAX)) (regs s R_EDI) (regs s R_ESI) (regs s R_EDX)
               (regs s R_ECX) (regs s 8) (regs s 9), s)
       else
         let '(ret, s) := do_syscall q (regs s R_EAX) (regs s R_EDI) (regs s R_ESI)
                            (regs s R_EDX) (regs s 10) (regs s 8) (regs s 9) s in
         Ok (no_syscall, syscall_result ret s)
     else if trapnr =? EXCP_VSYSCALL then
       s ← emulate_vsyscall s; Ok (no_syscall, s)
     else if (trapnr =? EXCP0B_NOSEG) || (trapnr =? EXCP0C_STACK) then
       Ok (no_syscall, force_sig q SIGBUS s)
     else if trapnr =? EXCP0D_GPF then
       if maybe_handle_vm86_trap trapnr s then Ok (no_syscall, s)
       else Ok (no_syscall, force_sig q SIGSEGV s)
     else if trapnr =? EXCP0E_PAGE then
       Ok (no_syscall,
           force_sig_fault q SIGSEGV
             (if Z.land (x_error_code (v_env s)) PG_ERROR_P_MASK =? 0
              then SEGV_MAPERR else SEGV_ACCERR)
             (x_cr2 (v_env s)) s)
     else if trapnr =? EXCP00_DIVZ then
       if maybe_handle_vm86_trap trapnr s then Ok (no_syscall, s)
       else Ok (no_syscall, force_sig_fault q SIGFPE FPE_INTDIV (x_eip (v_env s)) s)
     else if trapnr =? EXCP01_DB then
       if maybe_handle_vm86_trap trapnr s then Ok (no_syscall, s)
       else Ok (no_syscall, force_sig_fault q SIGTRAP TRAP_BRKPT (x_eip (v_env s)) s)
     else if trapnr =? EXCP03_INT3 then
       if maybe_handle_vm86_trap trapnr s then Ok (no_syscall, s)
       else Ok (no_syscall, force_sig q SIGTRAP s)
     else if (trapnr =? EXCP04_INTO) || (trapnr =? EXCP05_BOUND) then
       if maybe_handle_vm86_trap trapnr s then Ok (no_syscall, s)
       else Ok (no_syscall, force_sig q SIGSEGV s)
     else if trapnr =? EXCP06_ILLOP then
       Ok (no_syscall, force_sig_fault q SIGILL ILL_ILLOPN (x_eip (v_env s)) s)
     else if trapnr =? EXCP_INTERRUPT then Ok (no_syscall, s)
     else if trapnr =? EXCP_DEBUG then
       Ok (no_syscall, force_sig_fault q SIGTRAP TRAP_BRKPT (x_eip (v_env s)) s)
     else if trapnr =? EXCP_ATOMIC then Ok (no_syscall, cpu_exec_step_atomic q s)
     else Abort "unhandled CPU exception");
  Ok (sys, process_pending_signals q s).

(** ** QEMU's loop body, [linux-user/i386/cpu_loop.c] for x86_64 *)

Definition cpu_loop_body (s : vm) : result vm :=
  let '(trapnr, s) := cpu_exec q s in
  s ←
    (if trapnr =? 0x80 then
       let s := set_orig_ax q (regs s R_EAX) s in
       let '(ret, s) := do_syscall q (regs s R_EAX) (regs s R_EBX) (regs s R_ECX)
                          (regs s R_EDX) (regs s R_ESI) (regs s R_EDI) (regs s R_EBP) s in
       Ok (if ret =? u64 (- QEMU_ERESTARTSYS) then upd (set_eip (u64 (x_eip (v_env s) - 2))) s
           else if negb (ret =? u64 (- QEMU_ESIGRETURN)) then upd (set_reg R_EAX ret) s else s)
     else if trapnr =? EXCP_SYSCALL then
       let s := set_orig_ax q (regs s R_EAX) s in
       let '(ret, s) := do_syscall q (regs s R_EAX) (regs s R_EDI) (regs s R_ESI)
                          (regs s R_EDX) (regs s 10) (regs s 8) (regs s 9) s in
       Ok (if ret =? u64 (- QEMU_ERESTARTSYS) then upd (set_eip (u64 (x_eip (v_env s) - 2))) s
           else if negb (ret =? u64 (- QEMU_ESIGRETURN)) then upd (set_reg R_EAX ret) s else s)
     else if trapnr =? EXCP_VSYSCALL then emulate_vsyscall s
     else if (trapnr =? EXCP0B_NOSEG) || (trapnr =? EXCP0C_STACK) then
       Ok (force_sig q SIGBUS s)
     else if trapnr =? EXCP0D_GPF then Ok (force_sig q SIGSEGV s)
     else if trapnr =? EXCP0E_PAGE then
       Ok (force_sig_fault q SIGSEGV
             (if Z.land (x_error_code (v_env s)) PG_ERROR_P_MASK =? 0
              then SEGV_MAPERR else SEGV_ACCERR)
             (x_cr2 (v_env s)) s)
     else if trapnr =? EXCP00_DIVZ then
       Ok (force_sig_fault q SIGFPE FPE_INTDIV (x_eip (v_env s)) s)
     else if trapnr =? EXCP01_DB then
       Ok (force_sig_fault q SIGTRAP TRAP_BRKPT (x_eip (v_env s)) s)
     else if trapnr =? EXCP03_INT3 then Ok (force_sig q SIGTRAP s)
     else if (trapnr =? EXCP04_INTO) || (trapnr =? EXCP05_BOUND) then
       Ok (force_sig q SIGSEGV s)
     else if trapnr =? EXCP06_ILLOP then
       Ok (force_sig_fault q SIGILL ILL_ILLOPN (x_eip (v_env s)) s)
     else if trapnr =? EXCP_INTERRUPT then Ok s
     else if trapnr =? EXCP_DEBUG then
       Ok (force_sig_fault q SIGTRAP TRAP_BRKPT (x_eip (v_env s)) s)
     else if trapnr =? EXCP_ATOMIC then Ok (cpu_exec_step_atomic q s)
     else Abort "unhandled CPU exception");
  Ok (process_pending_signals q s).

End x86.

(** ** Calls and callbacks *)

Section calls.
Context {K : Type}.
Abbreviation mach := (mach CPUX86State K).

(** [sizeof(ucontext_t)] of the host's C library. *)
Context (sizeof_ucontext : Z).

(** The addresses of the static [ctx] variables of [gyh_call] and
    [gyh_call_grt]. *)
Context (ctx_call ctx_call_grt : Z).

Definition gyh_call (s : mach) : result mach :=
  let r := x_regs (m_env s) in
  let rsp := r R_ESP in
  _ ← check "(rsp & 0xf) == 0" (Z.land rsp 0xF =? 0);
  rip ← of_option "rsp + 8" (load 8 (u64 (rsp + 8)) (m_mem s));
  let s := with_ctx ctx_call
    (CtxCall (r R_EDI) (u32 (r R_ESI)) (r R_EDX) (r R_ECX) (r R_R8) (r R_R9)
             (u64 (rsp - 64)) 64) s in
  _ ← check "gyh_cpu_loop_ctx_to == NULL" (gyh_cpu_loop_ctx_to s =? 0);
  Ok (with_ctx_to ctx_call s).

Definition gyh_call_grt (s : mach) : result mach :=
  let r := x_regs (m_env s) in
  let rsp := r R_ESP in
  _ ← check "(rsp & 0xf) == 0" (Z.land rsp 0xF =? 0);
  rip ← of_option "rsp + 8" (load 8 (u64 (rsp + 8)) (m_mem s));
  let s := with_ctx ctx_call_grt
    (CtxCallGrt (r R_EDI) (u32 (r R_ESI)) (r R_EDX) (r R_ECX) (u64 (rsp - 64)) 64) s in
  _ ← check "gyh_cpu_loop_ctx_to == NULL" (gyh_cpu_loop_ctx_to s =? 0);
  Ok (with_ctx_to ctx_call_grt s).

Definition gyh_callback_return (s : mach) : result mach :=
  rip ← of_option "rsp" (load 8 (x_regs (m_env s) R_ESP) (m_mem s));
  let s := with_env (set_eip rip (m_env s)) s in
  let s := with_env (set_reg R_ESP (u64 (x_regs (m_env s) R_ESP + 8)) (m_env s)) s in
  let ctx := x_regs (m_env s) R_ESP in
  _ ← check "gyh_cpu_loop_ctx_to == NULL" (gyh_cpu_loop_ctx_to s =? 0);
  Ok (with_ctx_to ctx s).

(** The bytes [__gyh_callback__] asks of [alloca]. *)
Definition alloca_size : Z := 16 + sizeof_ucontext + 8.

(** [__gyh_callback__] up to the switch to the CPU loop; [stk] is what
    [alloca] returned, [k] the host code that called it. *)
Definition __gyh_callback__ (cbStub func retPad argPad stk : Z) (k : cmem -> hstep)
    (s : mach) : result mach :=
  _ ← check "gyh_cpu_loop_ctx_to == NULL" (gyh_cpu_loop_ctx_to s =? 0);
  let s := with_env (set_reg R_EDI retPad (m_env s)) s in
  let s := with_env (set_reg R_ESI argPad (m_env s)) s in
  let s := with_env (set_reg R_EDX func (m_env s)) s in
  let s := with_env (set_reg R_ECX cbStub (m_env s)) s in
  let rsp := x_regs (m_env s) R_ESP in
  let s := with_env (set_reg R_ESP (align_down 16 (u64 (stk + 24))) (m_env s)) s in
  let ctx := x_regs (m_env s) R_ESP in
  let s := with_env (set_reg R_ESP (u64 (x_regs (m_env s) R_ESP - 8)) (m_env s)) s in
  m ← of_option "rsp" (store 8 (x_regs (m_env s) R_ESP) (x_eip (m_env s)) (m_mem s));
  let s := with_mem m s in
  let s := with_env (set_eip (m_cbFunc s) (m_env s)) s in
  let s := count_callback s in
  Ok (with_ctx ctx (CtxCallback rsp k) s).

(** [__gyh_callback__] after the CPU loop switched back to it. *)
Definition __gyh_callback__resume (rsp : Z) (s : mach) : mach :=
  let s := with_ctx_to 0 s in
  with_env (set_reg R_ESP rsp (m_env s)) s.

(** ** The functions of the process behind the operations *)

Definition call_ctx (v : vm CPUX86State K) : result ucontext :=
  let r := x_regs (v_env v) in
  _ ← check "(rsp & 0xf) == 0" (Z.land (r R_ESP) 0xF =? 0);
  rip ← of_option "rsp + 8" (load 8 (u64 (r R_ESP + 8)) (v_mem v));
  Ok (CtxCall (r R_EDI) (u32 (r R_ESI)) (r R_EDX) (r R_ECX) (r R_R8) (r R_R9)
              (u64 (r R_ESP - 64)) 64).

Definition call_grt_ctx (v : vm CPUX86State K) : result ucontext :=
  let r := x_regs (v_env v) in
  _ ← check "(rsp & 0xf) == 0" (Z.land (r R_ESP) 0xF =? 0);
  rip ← of_option "rsp + 8" (load 8 (u64 (r R_ESP + 8)) (v_mem v));
  Ok (CtxCallGrt (r R_EDI) (u32 (r R_ESI)) (r R_EDX) (r R_ECX) (u64 (r R_ESP - 64)) 64).

(** Where a callback saves its context. *)
Definition ctx_addr (stk : Z) : Z := align_down 16 (u64 (stk + 24)).

(** The guest's registers on entry to the callback function [cb]. *)
Definition cb_env (cb cbStub func retPad argPad stk : Z) (e : CPUX86State) : CPUX86State :=
  set_eip cb (set_reg R_ESP (u64 (ctx_addr stk - 8)) (set_reg R_ESP (ctx_addr stk)
    (set_reg R_ECX cbStub (set_reg R_EDX func (set_reg R_ESI argPad
      (set_reg R_EDI retPad e)))))).

Definition enter_cb (cb cbStub func retPad argPad stk : Z) (v : vm CPUX86State K)
    : result (Z * Z * vm CPUX86State K) :=
  m ← of_option "rsp" (store 8 (u64 (ctx_addr stk - 8)) (x_eip (v_env v)) (v_mem v));
  Ok (x_regs (v_env v) R_ESP, ctx_addr stk,
      bump_callbacks (set_mem m (set_env (cb_env cb cbStub func retPad argPad stk (v_env v)) v))).

Definition return_cb (v : vm CPUX86State K) : result (Z * vm CPUX86State K) :=
  let rsp := x_regs (v_env v) R_ESP in
  rip ← of_option "rsp" (load 8 rsp (v_mem v));
  Ok (u64 (rsp + 8), set_env (set_reg R_ESP (u64 (rsp + 8)) (set_eip rip (v_env v))) v).

Definition leave_cb (rsp : Z) (v : vm CPUX86State K) : vm CPUX86State K :=
  set_env (set_reg R_ESP rsp (v_env v)) v.

(** The callback function entered in [v1] is about to return in [v2]: the
    stack pointer and the return address it points to are as on entry. *)
Definition cb_returned (v1 v2 : vm CPUX86State K) : Prop :=
  x_regs (v_env v2) R_ESP = x_regs (v_env v1) R_ESP /\
  load 8 (x_regs (v_env v1) R_ESP) (v_mem v2) = load 8 (x_regs (v_env v1) R_ESP) (v_mem v1).

Lemma x86_ctx_addr_bounds stk :
  0 <= stk -> stk + 24 < 2 ^ 64 ->
  ctx_addr stk mod 16 = 0 /\ stk + 8 < ctx_addr stk <= stk + 24.
Proof.
  intros H0 H1. unfold ctx_addr. rewrite wrap_small by lia.
  pose proof (align_down_16 (stk + 24)). lia.
Qed.

Lemma x86_enter_return cb cbStub func retPad argPad stk v sp ctx v1 v2 :
  0 <= x_eip (v_env v) < 2 ^ 64 ->
  0 <= stk -> stk + 24 < 2 ^ 64 ->
  enter_cb cb cbStub func retPad argPad stk v = Ok (sp, ctx, v1) ->
  cb_returned v1 v2 ->
  0 < ctx /\
  exists v3, return_cb v2 = Ok (ctx, v3) /\ v_mem (leave_cb sp v3) = v_mem v2 /\
    x_eip (v_env (leave_cb sp v3)) = x_eip (v_env v) /\
    x_regs (v_env (leave_cb sp v3)) R_ESP = x_regs (v_env v) R_ESP.
Proof.
  intros Hpc H0 H1 He [Hsp Hld]. unfold enter_cb in He. inv_ok. simplify_eq.
  destruct (x86_ctx_addr_bounds stk H0 H1) as [_ Hb]. split; [lia|].
  unfold return_cb. rewrite Hsp, Hld. simpl.
  rewrite fn_lookup_insert. erewrite load_store_u64 by eauto. simpl.
  rewrite (wrap_small 64 (ctx_addr stk - 8)) by lia.
  replace (ctx_addr stk - 8 + 8) with (ctx_addr stk) by lia.
  rewrite (wrap_small 64 (ctx_addr stk)) by lia.
  eexists; split; [done|]. split; [done|]. split; [simpl; by apply wrap_small|].
  simpl. by rewrite fn_lookup_insert.
Qed.

(** [__gyh_callback__] in terms of [enter_cb]. *)
Lemma x86_callback_enter cbStub func retPad argPad stk k s :
  gyh_cpu_loop_ctx_to s = 0 ->
  __gyh_callback__ cbStub func retPad argPad stk k s =
    ('(sp, ctx, v) ← enter_cb (m_cbFunc s) cbStub func retPad argPad stk (m_vm s);
     Ok (with_ctx ctx (CtxCallback sp k) (with_vm v s))).
Proof.
  intros Hto. unfold __gyh_callback__, enter_cb. rewrite Hto. simpl.
  rewrite !fn_lookup_insert. by destruct (store _ _ _ _).
Qed.

(** On x86_64 a callback into the guest stays inside the stack space it
    reserved: the return address and the saved host context lie in the
    [alloca]ed block, and the guest function starts with the alignment, the
    argument registers and the return address of a System V call. *)
Theorem x86_callback_frame cbStub func retPad argPad stk k s s' :
  0 <= sizeof_ucontext ->
  0 <= stk -> stk + alloca_size < 2 ^ 64 ->
  0 <= x_eip (m_env s) < 2 ^ 64 ->
  __gyh_callback__ cbStub func retPad argPad stk k s = Ok s' ->
  exists ctx, let r := x_regs (m_env s') in
    m_ctxs s' = <[ctx := CtxCallback (x_regs (m_env s) R_ESP) k]> (m_ctxs s) /\
    r R_ESP = ctx - 8 /\ stk <= r R_ESP /\ ctx + sizeof_ucontext <= stk + alloca_size /\
    (r R_ESP + 8) mod 16 = 0 /\
    (r R_EDI, r R_ESI, r R_EDX, r R_ECX) = (retPad, argPad, func, cbStub) /\
    x_eip (m_env s') = m_cbFunc s /\
    load 8 (r R_ESP) (m_mem s') = Some (x_eip (m_env s)).
Proof.
  unfold alloca_size. intros Hsz H0 H1 Hpc H.
  assert (gyh_cpu_loop_ctx_to s = 0) as Hto.
  { unfold __gyh_callback__ in H. inv_ok. lia. }
  rewrite x86_callback_enter in H by done. unfold enter_cb in H. inv_ok. simplify_eq.
  destruct (x86_ctx_addr_bounds stk) as [Hmod Hb]; [lia..|].
  exists (ctx_addr stk). simpl. rewrite !fn_lookup_insert.
  rewrite (wrap_small 64 (ctx_addr stk - 8)) in * by lia.
  replace (ctx_addr stk - 8 + 8) with (ctx_addr stk) by lia.
  repeat split; try done; try lia.
  by erewrite load_store_u64, wrap_small by eauto.
Qed.

End calls.

(** ** The architecture *)

#[global] Instance arch {K} (q : qemu_ops CPUX86State K) (sf : stat_file)
    (ctx_call ctx_call_grt : Z) : GuestArch CPUX86State K.
Proof.
  refine {|
    ga_ctx_call := ctx_call; ga_ctx_call_grt := ctx_call_grt;
    ga_do_cpu := gyh_do_cpu q sf;
    ga_call := gyh_call ctx_call; ga_call_grt := gyh_call_grt ctx_call_grt;
    ga_callback := __gyh_callback__; ga_callback_return := gyh_callback_return;
    ga_resume := __gyh_callback__resume;
    ga_pc := x_eip; ga_sp e := x_regs e R_ESP;
    Machine.call_ctx := call_ctx; Machine.call_grt_ctx := call_grt_ctx;
    Machine.enter_cb := enter_cb; Machine.return_cb := return_cb;
    Machine.leave_cb := leave_cb; Machine.cb_returned := cb_returned;
    ga_callback_law := x86_callback_enter; ga_enter_return := x86_enter_return
  |}.
  - intros s Hto. unfold gyh_call, call_ctx, m_env, m_mem. simpl. rewrite Hto.
    destruct (Z.land _ _ =? 0), (load _ _ _); done.
  - intros s Hto. unfold gyh_call_grt, call_grt_ctx, m_env, m_mem. simpl. rewrite Hto.
    destruct (Z.land _ _ =? 0), (load _ _ _); done.
  - intros s Hto. unfold gyh_callback_return, return_cb, m_env, m_mem.
    destruct (load _ _ _); [|done]. simpl. by rewrite Hto.
  - done.
  - intros v c H. unfold call_ctx in H. inv_ok. subst. by do 8 eexists.
  - intros v c H. unfold call_grt_ctx in H. inv_ok. subst. by do 6 eexists.
  - done.
Defined.

(** ** Agreement with QEMU's loop *)

Section agreement.
Context {K : Type} (q : qemu_ops CPUX86State K) (sf : stat_file).

(** The trap of this run is one of the runtime's system calls. *)
Definition is_gyh_syscall (s : vm CPUX86State K) : bool :=
  let '(trapnr, s) := cpu_exec q s in
  ((trapnr =? 0x80) || (trapnr =? EXCP_SYSCALL)) &&
  (GYH_NR_start <? regs (set_orig_ax q (regs s R_EAX) s) R_EAX).

(** The trap of this run is one before which the statistics are written. *)
Definition writes_report (s : vm CPUX86State K) : bool :=
  let '(trapnr, s) := cpu_exec q s in
  let s := set_orig_ax q (regs s R_EAX) s in
  ((trapnr =? 0x80) && (regs s 8 =? 252)) ||
  ((trapnr =? EXCP_SYSCALL) && (regs s R_EAX =? 231)).


End agreement.
(** ** Examples *)

(** A guest whose registers hold their index times 16, in front of a
    [syscall] with number 39. *)
Definition ex_env : CPUX86State :=
  mk_x86 (<[R_EAX := 39]> (fun r => 16 * Z.of_nat r)) 0x401000 0 0.

Definition ex_machine : mach CPUX86State unit :=
  ToyQemu.machine ex_env (zeros 0x7000 64).


Lemma x86_callback_frame_witness :
  exists s', __gyh_callback__ 1 2 3 4 0x7008 HRet ex_machine = Ok s' /\
    exists ctx, let r := x_regs (m_env s') in
    m_ctxs s' = <[ctx := CtxCallback 64 HRet]> ∅ /\
    r R_ESP = ctx - 8 /\ 0x7008 <= r R_ESP /\ ctx + 968 <= 0x7008 + alloca_size 968 /\
    (r R_ESP + 8) mod 16 = 0 /\
    (r R_EDI, r R_ESI, r R_EDX, r R_ECX) = (3, 4, 2, 1) /\
    x_eip (m_env s') = 0x4000 /\
    load 8 (r R_ESP) (m_mem s') = Some 0x401000.
Proof.
  destruct (__gyh_callback__ 1 2 3 4 0x7008 HRet ex_machine) as [s'|w|w] eqn:Hs;
    [|by vm_compute in Hs..].
  exists s'. split; [done|].
  apply (x86_callback_frame 968 1 2 3 4 0x7008 HRet ex_machine s'); simpl; try lia; done.
Defined.

End X86.
