(* ===== verification/ArchA64.v ===== *)
(** * aarch64 guests

    Models [qemu/linux-user/+gyh/aarch64-on.c], and the loop body of QEMU's
    own [qemu/linux-user/aarch64/cpu_loop.c] to compare [gyh_do_cpu] with. *)

From S2P Require Import Prelude CMem Qlib Machine.
#[local] Open Scope string_scope.
#[local] Open Scope Z_scope.

(** ** CPU state and constants *)

Record CPUARMState := mk_arm {
  a_xregs : nat -> Z;
  a_pc : Z;
  a_syndrome : Z;
  a_vaddress : Z;
  a_tfsr_el0 : Z;
  a_exclusive_addr : Z;
  a_aarch64 : bool
}.

Module A64.

Definition set_x (r : nat) (v : Z) (e : CPUARMState) : CPUARMState :=
  mk_arm (<[r := v]> (a_xregs e)) (a_pc e) (a_syndrome e) (a_vaddress e)
         (a_tfsr_el0 e) (a_exclusive_addr e) (a_aarch64 e).

Definition set_pc (v : Z) (e : CPUARMState) : CPUARMState :=
  mk_arm (a_xregs e) v (a_syndrome e) (a_vaddress e)
         (a_tfsr_el0 e) (a_exclusive_addr e) (a_aarch64 e).

Definition set_tfsr_el0 (v : Z) (e : CPUARMState) : CPUARMState :=
  mk_arm (a_xregs e) (a_pc e) (a_syndrome e) (a_vaddress e)
         v (a_exclusive_addr e) (a_aarch64 e).

Definition set_exclusive_addr (v : Z) (e : CPUARMState) : CPUARMState :=
  mk_arm (a_xregs e) (a_pc e) (a_syndrome e) (a_vaddress e)
         (a_tfsr_el0 e) v (a_aarch64 e).

Definition EXCP_UDEF : Z := 1.
Definition EXCP_SWI : Z := 2.
Definition EXCP_PREFETCH_ABORT : Z := 3.
Definition EXCP_DATA_ABORT : Z := 4.
Definition EXCP_BKPT : Z := 7.
Definition EXCP_SEMIHOST : Z := 16.
Definition EXCP_INTERRUPT : Z := 0x10000.
Definition EXCP_DEBUG : Z := 0x10002.
Definition EXCP_YIELD : Z := 0x10004.
Definition EXCP_ATOMIC : Z := 0x10005.
Definition EC_INSNABORT : Z := 0x20.
Definition EC_PCALIGNMENT : Z := 0x22.
Definition EC_DATAABORT : Z := 0x24.

Definition SIGILL : Z := 4.
Definition SIGTRAP : Z := 5.
Definition SIGBUS : Z := 7.
Definition SIGSEGV : Z := 11.
Definition SEGV_MAPERR : Z := 1.
Definition SEGV_ACCERR : Z := 2.
Definition SEGV_MTEAERR : Z := 8.
Definition SEGV_MTESERR : Z := 9.
Definition BUS_ADRALN : Z := 1.
Definition ILL_ILLOPN : Z := 2.
Definition TRAP_BRKPT : Z := 1.

Definition syn_get_ec (syn : Z) : Z := Z.shiftr (u32 syn) 26.

Definition extract32 (value start length : Z) : Z :=
  Z.land (Z.shiftr (u32 value) start) (Z.shiftr 0xFFFFFFFF (32 - length)).

(** The signal and its code for an abort, [None] where the code asserts that
    the case is not reached. *)
Definition abort_signal (syndrome : Z) : option (Z * Z) :=
  let ec := syn_get_ec syndrome in
  if (ec =? EC_DATAABORT) || (ec =? EC_INSNABORT) then
    let fsc := extract32 syndrome 0 6 in
    if (0x04 <=? fsc) && (fsc <=? 0x07) then Some (SIGSEGV, SEGV_MAPERR)
    else if ((0x09 <=? fsc) && (fsc <=? 0x0b)) || ((0x0d <=? fsc) && (fsc <=? 0x0f))
      then Some (SIGSEGV, SEGV_ACCERR)
    else if fsc =? 0x11 then Some (SIGSEGV, SEGV_MTESERR)
    else if fsc =? 0x21 then Some (SIGBUS, BUS_ADRALN)
    else None
  else if ec =? EC_PCALIGNMENT then Some (SIGBUS, BUS_ADRALN)
  else None.

Section a64.
Context {K : Type} (q : qemu_ops CPUARMState K) (sf : stat_file).
Abbreviation vm := (vm CPUARMState K).

Definition xregs (s : vm) (r : nat) : Z := a_xregs (v_env s) r.
Definition upd (f : CPUARMState -> CPUARMState) (s : vm) : vm := set_env (f (v_env s)) s.

(** ** One run of the CPU *)

Definition gyh_do_cpu (s : vm) : result (gyh_DoSyscall * vm) :=
  let '(trapnr, s) := cpu_exec q s in
  '(sys, s) ←
    (if trapnr =? EXCP_SWI then
       let s := aarch64_set_svcr q s in
       s ← (if xregs s 8 =? 94 then gyh_atexit sf s else Ok s);
       if GYH_NR_start <? xregs s 8 then
         Ok (mk_DoSyscall (i32 (xregs s 8)) (xregs s 0) (xregs s 1) (xregs s 2)
               (xregs s 3) (xregs s 4) (xregs s 5), s)
       else
         let '(ret, s) := do_syscall q (xregs s 8) (xregs s 0) (xregs s 1) (xregs s 2)
                            (xregs s 3) (xregs s 4) (xregs s 5) s in
         Ok (no_syscall,
             if ret =? u64 (- QEMU_ERESTARTSYS) then upd (set_pc (u64 (a_pc (v_env s) - 4))) s
             else if negb (ret =? u64 (- QEMU_ESIGRETURN)) then upd (set_x 0 ret) s
             else s)
     else if trapnr =? EXCP_INTERRUPT then Ok (no_syscall, s)
     else if trapnr =? EXCP_UDEF then
       Ok (no_syscall, force_sig_fault q SIGILL ILL_ILLOPN (a_pc (v_env s)) s)
     else if (trapnr =? EXCP_PREFETCH_ABORT) || (trapnr =? EXCP_DATA_ABORT) then
       match abort_signal (a_syndrome (v_env s)) with
       | Some (signo, code) =>
           Ok (no_syscall, force_sig_fault q signo code (a_vaddress (v_env s)) s)
       | None => Abort "g_assert_not_reached"
       end
     else if (trapnr =? EXCP_DEBUG) || (trapnr =? EXCP_BKPT) then
       Ok (no_syscall, force_sig_fault q SIGTRAP TRAP_BRKPT (a_pc (v_env s)) s)
     else if trapnr =? EXCP_SEMIHOST then
       let s := do_common_semihosting q s in
       Ok (no_syscall, upd (set_pc (u64 (a_pc (v_env s) + 4))) s)
     else if trapnr =? EXCP_YIELD then Ok (no_syscall, s)
     else if trapnr =? EXCP_ATOMIC then Ok (no_syscall, cpu_exec_step_atomic q s)
     else Abort "unhandled CPU exception");
  let s :=
    if negb (a_tfsr_el0 (v_env s) =? 0)
    then force_sig_fault q SIGSEGV SEGV_MTEAERR 0 (upd (set_tfsr_el0 0) s) else s in
  let s := process_pending_signals q s in
  Ok (sys, upd (set_exclusive_addr (u64 (-1))) s).

(** ** QEMU's loop body, [linux-user/aarch64/cpu_loop.c] *)

Definition cpu_loop_body (s : vm) : result vm :=
  let '(trapnr, s) := cpu_exec q s in
  s ←
    (if trapnr =? EXCP_SWI then
       let s := aarch64_set_svcr q s in
       let '(ret, s) := do_syscall q (xregs s 8) (xregs s 0) (xregs s 1) (xregs s 2)
                          (xregs s 3) (xregs s 4) (xregs s 5) s in
       Ok (if ret =? u64 (- QEMU_ERESTARTSYS) then upd (set_pc (u64 (a_pc (v_env s) - 4))) s
           else if negb (ret =? u64 (- QEMU_ESIGRETURN)) then upd (set_x 0 ret) s
           else s)
     else if trapnr =? EXCP_INTERRUPT then Ok s
     else if trapnr =? EXCP_UDEF then
       Ok (force_sig_fault q SIGILL ILL_ILLOPN (a_pc (v_env s)) s)
     else if (trapnr =? EXCP_PREFETCH_ABORT) || (trapnr =? EXCP_DATA_ABORT) then
       match abort_signal (a_syndrome (v_env s)) with
       | Some (signo, code) => Ok (force_sig_fault q signo code (a_vaddress (v_env s)) s)
       | None => Abort "g_assert_not_reached"
       end
     else if (trapnr =? EXCP_DEBUG) || (trapnr =? EXCP_BKPT) then
       Ok (force_sig_fault q SIGTRAP TRAP_BRKPT (a_pc (v_env s)) s)
     else if trapnr =? EXCP_SEMIHOST then
       let s := do_common_semihosting q s in
       Ok (upd (set_pc (u64 (a_pc (v_env s) + 4))) s)
     else if trapnr =? EXCP_YIELD then Ok s
     else if trapnr =? EXCP_ATOMIC then Ok (cpu_exec_step_atomic q s)
     else Abort "unhandled CPU exception");
  let s :=
    if negb (a_tfsr_el0 (v_env s) =? 0)
    then force_sig_fault q SIGSEGV SEGV_MTEAERR 0 (upd (set_tfsr_el0 0) s) else s in
  let s := process_pending_signals q s in
  Ok (upd (set_exclusive_addr (u64 (-1))) s).

End a64.

(** ** Calls and callbacks *)

Section calls.
Context {K : Type}.
Abbreviation mach := (mach CPUARMState K).
Context (sizeof_ucontext : Z).
Context (ctx_call ctx_call_grt : Z).

Definition gyh_call (s : mach) : result mach :=
  _ ← check "env->aarch64" (a_aarch64 (m_env s));
  let x := a_xregs (m_env s) in
  let sp := x 31%nat in
  _ ← check "(sp & 0xf) == 0" (Z.land sp 0xF =? 0);
  lr ← of_option "sp + 8" (load 8 (u64 (sp + 8)) (m_mem s));
  let s := with_ctx ctx_call
    (CtxCall (x 0%nat) (u32 (x 1%nat)) (x 2%nat) (x 3%nat) (x 4%nat) (x 5%nat)
             (u64 (sp - 64)) 64) s in
  _ ← check "gyh_cpu_loop_ctx_to == NULL" (gyh_cpu_loop_ctx_to s =? 0);
  Ok (with_ctx_to ctx_call s).

Definition gyh_call_grt (s : mach) : result mach :=
  _ ← check "env->aarch64" (a_aarch64 (m_env s));
  let x := a_xregs (m_env s) in
  let sp := x 31%nat in
  _ ← check "(sp & 0xf) == 0" (Z.land sp 0xF =? 0);
  lr ← of_option "sp + 8" (load 8 (u64 (sp + 8)) (m_mem s));
  let s := with_ctx ctx_call_grt
    (CtxCallGrt (x 0%nat) (u32 (x 1%nat)) (x 2%nat) (x 3%nat) (u64 (sp - 64)) 64) s in
  _ ← check "gyh_cpu_loop_ctx_to == NULL" (gyh_cpu_loop_ctx_to s =? 0);
  Ok (with_ctx_to ctx_call_grt s).

Definition gyh_callback_return (s : mach) : result mach :=
  _ ← check "env->aarch64" (a_aarch64 (m_env s));
  let s := with_env (set_pc (a_xregs (m_env s) 30%nat) (m_env s)) s in
  _ ← check "(sp & 0xf) == 0" (Z.land (a_xregs (m_env s) 31%nat) 0xF =? 0);
  let ctx := a_xregs (m_env s) 31%nat in
  _ ← check "gyh_cpu_loop_ctx_to == NULL" (gyh_cpu_loop_ctx_to s =? 0);
  Ok (with_ctx_to ctx s).

Definition alloca_size : Z := 16 + sizeof_ucontext.

(** [__gyh_callback__] up to the switch to the CPU loop. *)
Definition __gyh_callback__ (cbStub func retPad argPad stk : Z) (k : cmem -> hstep)
    (s : mach) : result mach :=
  _ ← check "env->aarch64" (a_aarch64 (m_env s));
  _ ← check "gyh_cpu_loop_ctx_to == NULL" (gyh_cpu_loop_ctx_to s =? 0);
  let s := with_env (set_x 0 retPad (m_env s)) s in
  let s := with_env (set_x 1 argPad (m_env s)) s in
  let s := with_env (set_x 2 func (m_env s)) s in
  let s := with_env (set_x 3 cbStub (m_env s)) s in
  let sp := a_xregs (m_env s) 31%nat in
  let s := with_env (set_x 31 (align_down 16 (u64 (stk + 16))) (m_env s)) s in
  let ctx := a_xregs (m_env s) 31%nat in
  let s := with_env (set_x 30 (a_pc (m_env s)) (m_env s)) s in
  let s := with_env (set_pc (m_cbFunc s) (m_env s)) s in
  let s := count_callback s in
  Ok (with_ctx ctx (CtxCallback sp k) s).

(** [__gyh_callback__] after the CPU loop switched back to it. *)
Definition __gyh_callback__resume (sp : Z) (s : mach) : mach :=
  let s := with_ctx_to 0 s in
  with_env (set_x 31 sp (m_env s)) s.

(** ** The functions of the process behind the operations *)

Definition call_ctx (v : vm CPUARMState K) : result ucontext :=
  _ ← check "env->aarch64" (a_aarch64 (v_env v));
  let r := a_xregs (v_env v) in
  _ ← check "(sp & 0xf) == 0" (Z.land (r 31%nat) 0xF =? 0);
  ra ← of_option "sp + 8" (load 8 (u64 (r 31%nat + 8)) (v_mem v));
  Ok (CtxCall (r 0%nat) (u32 (r 1%nat)) (r 2%nat) (r 3%nat) (r 4%nat)
              (r 5%nat) (u64 (r 31%nat - 64)) 64).

Definition call_grt_ctx (v : vm CPUARMState K) : result ucontext :=
  _ ← check "env->aarch64" (a_aarch64 (v_env v));
  let r := a_xregs (v_env v) in
  _ ← check "(sp & 0xf) == 0" (Z.land (r 31%nat) 0xF =? 0);
  ra ← of_option "sp + 8" (load 8 (u64 (r 31%nat + 8)) (v_mem v));
  Ok (CtxCallGrt (r 0%nat) (u32 (r 1%nat)) (r 2%nat) (r 3%nat) (u64 (r 31%nat - 64)) 64).

(** Where a callback saves its context. *)
Definition ctx_addr (stk : Z) : Z := align_down 16 (u64 (stk + 16)).

(** The guest's registers on entry to the callback function [cb]. *)
Definition cb_env (cb cbStub func retPad argPad stk : Z) (e : CPUARMState) : CPUARMState :=
  set_pc cb (set_x 30 (a_pc e) (set_x 31 (ctx_addr stk)
    (set_x 3 cbStub (set_x 2 func (set_x 1 argPad (set_x 0 retPad e)))))).

Definition enter_cb (cb cbStub func retPad argPad stk : Z) (v : vm CPUARMState K)
    : result (Z * Z * vm CPUARMState K) :=
  _ ← check "env->aarch64" (a_aarch64 (v_env v));
  Ok (a_xregs (v_env v) 31%nat, ctx_addr stk,
      bump_callbacks (set_env (cb_env cb cbStub func retPad argPad stk (v_env v)) v)).

Definition return_cb (v : vm CPUARMState K) : result (Z * vm CPUARMState K) :=
  _ ← check "env->aarch64" (a_aarch64 (v_env v));
  let sp := a_xregs (v_env v) 31%nat in
  _ ← check "(sp & 0xf) == 0" (Z.land sp 0xF =? 0);
  Ok (sp, set_env (set_pc (a_xregs (v_env v) 30%nat) (v_env v)) v).

Definition leave_cb (sp : Z) (v : vm CPUARMState K) : vm CPUARMState K :=
  set_env (set_x 31 sp (v_env v)) v.

(** The callback function entered in [v1] is about to return in [v2]: the
    stack pointer and the return address register are as on entry. *)
Definition cb_returned (v1 v2 : vm CPUARMState K) : Prop :=
  a_aarch64 (v_env v2) = a_aarch64 (v_env v1) /\
  a_xregs (v_env v2) 31%nat = a_xregs (v_env v1) 31%nat /\
  a_xregs (v_env v2) 30%nat = a_xregs (v_env v1) 30%nat.

Lemma a64_ctx_addr_bounds stk :
  0 <= stk -> stk + 16 < 2 ^ 64 ->
  ctx_addr stk mod 16 = 0 /\ stk < ctx_addr stk <= stk + 16.
Proof.
  intros H0 H1. unfold ctx_addr. rewrite wrap_small by lia.
  pose proof (align_down_16 (stk + 16)). lia.
Qed.

Lemma a64_enter_return cb cbStub func retPad argPad stk v sp ctx v1 v2 :
  0 <= a_pc (v_env v) < 2 ^ 64 ->
  0 <= stk -> stk + 24 < 2 ^ 64 ->
  enter_cb cb cbStub func retPad argPad stk v = Ok (sp, ctx, v1) ->
  cb_returned v1 v2 ->
  0 < ctx /\
  exists v3, return_cb v2 = Ok (ctx, v3) /\ v_mem (leave_cb sp v3) = v_mem v2 /\
    a_pc (v_env (leave_cb sp v3)) = a_pc (v_env v) /\
    a_xregs (v_env (leave_cb sp v3)) 31%nat = a_xregs (v_env v) 31%nat.
Proof.
  intros Hpc H0 H1 He (Ha & Hsp & Hlr). unfold enter_cb in He. inv_ok. simplify_eq.
  destruct (a64_ctx_addr_bounds stk) as [Hmod Hb]; [lia..|]. split; [lia|].
  unfold return_cb. rewrite Ha. simpl. rewrite E. simpl.
  rewrite Hsp, Hlr. simpl.
  rewrite fn_lookup_insert_ne, !fn_lookup_insert by done.
  rewrite (Z.land_ones _ 4) by lia. change (2 ^ 4) with 16. rewrite Hmod. simpl.
  eexists; split; [done|]. done.
Qed.

(** [__gyh_callback__] in terms of [enter_cb]. *)
Lemma a64_callback_enter cbStub func retPad argPad stk k s :
  gyh_cpu_loop_ctx_to s = 0 ->
  __gyh_callback__ cbStub func retPad argPad stk k s =
    ('(sp, ctx, v) ← enter_cb (m_cbFunc s) cbStub func retPad argPad stk (m_vm s);
     Ok (with_ctx ctx (CtxCallback sp k) (with_vm v s))).
Proof.
  intros Hto. unfold __gyh_callback__, enter_cb, m_env. rewrite Hto. simpl.
  rewrite !fn_lookup_insert. destruct (a_aarch64 _); done.
Qed.

(** On aarch64 a callback into the guest stays inside the stack space it
    reserved: the saved host context lies in the [alloca]ed block, and the
    guest function starts with the stack alignment, the argument registers
    and the return address of a procedure call. *)
Theorem a64_callback_frame cbStub func retPad argPad stk k s s' :
  0 <= sizeof_ucontext ->
  0 <= stk -> stk + alloca_size < 2 ^ 64 ->
  __gyh_callback__ cbStub func retPad argPad stk k s = Ok s' ->
  exists ctx, let r := a_xregs (m_env s') in
    m_ctxs s' = <[ctx := CtxCallback (a_xregs (m_env s) 31%nat) k]> (m_ctxs s) /\
    r 31%nat = ctx /\ stk <= ctx /\ ctx + sizeof_ucontext <= stk + alloca_size /\
    ctx mod 16 = 0 /\
    (r 0%nat, r 1%nat, r 2%nat, r 3%nat) = (retPad, argPad, func, cbStub) /\
    a_pc (m_env s') = m_cbFunc s /\
    r 30%nat = a_pc (m_env s).
Proof.
  unfold alloca_size. intros Hsz H0 H1 H.
  assert (gyh_cpu_loop_ctx_to s = 0) as Hto.
  { unfold __gyh_callback__ in H. inv_ok. lia. }
  rewrite a64_callback_enter in H by done. unfold enter_cb in H. inv_ok. simplify_eq.
  destruct (a64_ctx_addr_bounds stk) as [Hmod Hb]; [lia..|].
  exists (ctx_addr stk). repeat split; try done; lia.
Qed.

End calls.

(** ** The architecture *)

#[global] Instance arch {K} (q : qemu_ops CPUARMState K) (sf : stat_file)
    (ctx_call ctx_call_grt : Z) : GuestArch CPUARMState K.
Proof.
  refine {|
    ga_ctx_call := ctx_call; ga_ctx_call_grt := ctx_call_grt;
    ga_do_cpu := gyh_do_cpu q sf;
    ga_call := gyh_call ctx_call; ga_call_grt := gyh_call_grt ctx_call_grt;
    ga_callback := __gyh_callback__; ga_callback_return := gyh_callback_return;
    ga_resume := __gyh_callback__resume;
    ga_pc := a_pc; ga_sp e := a_xregs e 31%nat;
    Machine.call_ctx := call_ctx; Machine.call_grt_ctx := call_grt_ctx;
    Machine.enter_cb := enter_cb; Machine.return_cb := return_cb;
    Machine.leave_cb := leave_cb; Machine.cb_returned := cb_returned;
    ga_callback_law := a64_callback_enter; ga_enter_return := a64_enter_return
  |}.
  - intros s Hto. unfold gyh_call, call_ctx, m_env, m_mem. simpl. rewrite Hto.
    destruct (a_aarch64 _); [|done]. simpl.
    destruct (Z.land _ _ =? 0), (load _ _ _); done.
  - intros s Hto. unfold gyh_call_grt, call_grt_ctx, m_env, m_mem. simpl. rewrite Hto.
    destruct (a_aarch64 _); [|done]. simpl.
    destruct (Z.land _ _ =? 0), (load _ _ _); done.
  - intros s Hto. unfold gyh_callback_return, return_cb, m_env. simpl. rewrite Hto.
    destruct (a_aarch64 _); [|done]. simpl.
    destruct (Z.land _ _ =? 0); done.
  - done.
  - intros v c H. unfold call_ctx in H. inv_ok. subst. by do 8 eexists.
  - intros v c H. unfold call_grt_ctx in H. inv_ok. subst. by do 6 eexists.
  - done.
Defined.

(** ** Agreement with QEMU's loop *)

Section agreement.
Context {K : Type} (q : qemu_ops CPUARMState K) (sf : stat_file).

(** The trap of this run is one of the runtime's system calls. *)
Definition is_gyh_syscall (s : vm CPUARMState K) : bool :=
  let '(trapnr, s) := cpu_exec q s in
  (trapnr =? EXCP_SWI) && (GYH_NR_start <? xregs (aarch64_set_svcr q s) 8).

(** The trap of this run is one before which the statistics are written. *)
Definition writes_report (s : vm CPUARMState K) : bool :=
  let '(trapnr, s) := cpu_exec q s in
  (trapnr =? EXCP_SWI) && (xregs (aarch64_set_svcr q s) 8 =? 94).

(** C30: on aarch64 the runtime's CPU step is QEMU's loop body for every trap
    that is not one of the runtime's own system calls, unless it is an exit
    for which a statistics file was asked for. *)
Theorem a64_do_cpu_agrees s :
  is_gyh_syscall s = false -> writes_report s = false \/ sf_env sf = None ->
  gyh_do_cpu q sf s = (fun s' => (no_syscall, s')) <$> cpu_loop_body q s.
Proof.
  unfold is_gyh_syscall, writes_report, gyh_do_cpu, cpu_loop_body.
  intros Hg Hr. destruct (cpu_exec q s) as [trapnr s1].
  destruct (trapnr =? EXCP_SWI) eqn:E1.
  - simpl in *. rewrite atexit_skip by done. simpl.
    rewrite Hg. by destruct (do_syscall q _ _ _ _ _ _ _ _).
  - destruct (trapnr =? EXCP_INTERRUPT); [reflexivity|].
    destruct (trapnr =? EXCP_UDEF); [reflexivity|].
    destruct ((trapnr =? EXCP_PREFETCH_ABORT) || (trapnr =? EXCP_DATA_ABORT)).
    { by destruct (abort_signal _) as [[signo code]|]. }
    destruct ((trapnr =? EXCP_DEBUG) || (trapnr =? EXCP_BKPT)); [reflexivity|].
    destruct (trapnr =? EXCP_SEMIHOST); [reflexivity|].
    destruct (trapnr =? EXCP_YIELD); [reflexivity|].
    by destruct (trapnr =? EXCP_ATOMIC).
Qed.

End agreement.
(** ** Examples *)

(** A guest whose registers hold their index times 16, in front of a system
    call with number 39. *)
Definition ex_env : CPUARMState :=
  mk_arm (<[8%nat := 39]> (fun r => 16 * Z.of_nat r)) 0x401000 0 0 0 0 true.

Definition ex_machine : mach CPUARMState unit := ToyQemu.machine ex_env ∅.

Lemma a64_do_cpu_agrees_witness :
  let q := ToyQemu.trap EXCP_SWI in let sf := mk_stat_file None true in
  gyh_do_cpu q sf (m_vm ex_machine) =
    (fun s' => (no_syscall, s')) <$> cpu_loop_body q (m_vm ex_machine).
Proof. intros q sf. apply a64_do_cpu_agrees; [done|by right]. Defined.

Lemma a64_callback_frame_witness :
  exists s', __gyh_callback__ 1 2 3 4 0x7008 HRet ex_machine = Ok s' /\
    exists ctx, let r := a_xregs (m_env s') in
    m_ctxs s' = <[ctx := CtxCallback 496 HRet]> ∅ /\
    r 31%nat = ctx /\ 0x7008 <= ctx /\ ctx + 968 <= 0x7008 + alloca_size 968 /\
    ctx mod 16 = 0 /\
    (r 0%nat, r 1%nat, r 2%nat, r 3%nat) = (3, 4, 2, 1) /\
    a_pc (m_env s') = 0x4000 /\
    r 30%nat = 0x401000.
Proof.
  destruct (__gyh_callback__ 1 2 3 4 0x7008 HRet ex_machine) as [s'|w|w] eqn:Hs;
    [|by vm_compute in Hs..].
  exists s'. split; [done|].
  apply (a64_callback_frame 968 1 2 3 4 0x7008 HRet ex_machine s'); simpl; try lia; done.
Defined.

End A64.
