(* ===== verification/ArchRv64.v ===== *)
(** * riscv64 guests

    Models [qemu/linux-user/+gyh/riscv64-on.c], and the loop body of QEMU's
    own [qemu/linux-user/riscv/cpu_loop.c] to compare [gyh_do_cpu] with. *)

From S2P Require Import Prelude CMem Qlib Machine.
#[local] Open Scope string_scope.
#[local] Open Scope Z_scope.

(** ** CPU state and constants *)

Record CPURISCVState := mk_rv {
  r_gpr : nat -> Z;
  r_pc : Z;
  r_elf_flags : Z;
  r_singlestep : bool
}.

Module Rv64.

Definition set_gpr (r : nat) (v : Z) (e : CPURISCVState) : CPURISCVState :=
  mk_rv (<[r := v]> (r_gpr e)) (r_pc e) (r_elf_flags e) (r_singlestep e).

Definition set_pc (v : Z) (e : CPURISCVState) : CPURISCVState :=
  mk_rv (r_gpr e) v (r_elf_flags e) (r_singlestep e).

Definition xRA : nat := 1.
Definition xSP : nat := 2.
Definition xT0 : nat := 5.
Definition xA0 : nat := 10.
Definition xA1 : nat := 11.
Definition xA2 : nat := 12.
Definition xA3 : nat := 13.
Definition xA4 : nat := 14.
Definition xA5 : nat := 15.
Definition xA7 : nat := 17.

Definition RISCV_EXCP_ILLEGAL_INST : Z := 2.
Definition RISCV_EXCP_BREAKPOINT : Z := 3.
Definition RISCV_EXCP_U_ECALL : Z := 8.
Definition RISCV_EXCP_SEMIHOST : Z := 0x3f.
Definition EXCP_INTERRUPT : Z := 0x10000.
Definition EXCP_DEBUG : Z := 0x10002.
Definition EXCP_ATOMIC : Z := 0x10005.
Definition NR_riscv_flush_icache : Z := 259.
Definition EF_RISCV_RVE : Z := 8.
Definition SIGILL : Z := 4.
Definition SIGTRAP : Z := 5.
Definition ILL_ILLOPC : Z := 1.
Definition TRAP_BRKPT : Z := 1.

Section rv64.
Context {K : Type} (q : qemu_ops CPURISCVState K) (sf : stat_file).
Abbreviation vm := (vm CPURISCVState K).

Definition gpr (s : vm) (r : nat) : Z := r_gpr (v_env s) r.
Definition upd (f : CPURISCVState -> CPURISCVState) (s : vm) : vm := set_env (f (v_env s)) s.

(** The register that holds the system call number. *)
Definition nr_reg (s : vm) : nat :=
  if negb (Z.land (r_elf_flags (v_env s)) EF_RISCV_RVE =? 0) then xT0 else xA7.

Definition gdbstep (s : vm) : vm := force_sig_fault q SIGTRAP TRAP_BRKPT (r_pc (v_env s)) s.

(** What is done with the value of [do_syscall]. *)
Definition ecall_result (ret : Z) (s : vm) : vm :=
  let s :=
    if ret =? u64 (- QEMU_ERESTARTSYS) then upd (set_pc (u64 (r_pc (v_env s) - 4))) s
    else if negb (ret =? u64 (- QEMU_ESIGRETURN)) then upd (set_gpr xA0 ret) s
    else s in
  if r_singlestep (v_env s) then gdbstep s else s.

(** ** One run of the CPU *)

Definition gyh_do_cpu (s : vm) : result (gyh_DoSyscall * vm) :=
  let '(trapnr, s) := cpu_exec q s in
  '(sys, s) ←
    (if trapnr =? EXCP_INTERRUPT then Ok (no_syscall, s)
     else if trapnr =? EXCP_ATOMIC then Ok (no_syscall, cpu_exec_step_atomic q s)
     else if trapnr =? RISCV_EXCP_U_ECALL then
       let s := upd (set_pc (u64 (r_pc (v_env s) + 4))) s in
       if gpr s xA7 =? NR_riscv_flush_icache then Ok (no_syscall, ecall_result 0 s)
       else
         let syscall_num := gpr s (nr_reg s) in
         s ← (if syscall_num =? 94 then gyh_atexit sf s else Ok s);
         if GYH_NR_start <? syscall_num then
           Ok (mk_DoSyscall (i32 syscall_num) (gpr s xA0) (gpr s xA1) (gpr s xA2)
                 (gpr s xA3) (gpr s xA4) (gpr s xA5), s)
         else
           let '(ret, s) := do_syscall q syscall_num (gpr s xA0) (gpr s xA1) (gpr s xA2)
                              (gpr s xA3) (gpr s xA4) (gpr s xA5) s in
           Ok (no_syscall, ecall_result ret s)
     else if trapnr =? RISCV_EXCP_ILLEGAL_INST then
       Ok (no_syscall, force_sig_fault q SIGILL ILL_ILLOPC (r_pc (v_env s)) s)
     else if (trapnr =? RISCV_EXCP_BREAKPOINT) || (trapnr =? EXCP_DEBUG) then
       Ok (no_syscall, gdbstep s)
     else if trapnr =? RISCV_EXCP_SEMIHOST then
       let s := do_common_semihosting q s in
       Ok (no_syscall, upd (set_pc (u64 (r_pc (v_env s) + 4))) s)
     else Abort "exit(EXIT_FAILURE)");
  Ok (sys, process_pending_signals q s).

(** ** QEMU's loop body, [linux-user/riscv/cpu_loop.c] *)

Definition cpu_loop_body (s : vm) : result vm :=
  let '(trapnr, s) := cpu_exec q s in
  s ←
    (if trapnr =? EXCP_INTERRUPT then Ok s
     else if trapnr =? EXCP_ATOMIC then Ok (cpu_exec_step_atomic q s)
     else if trapnr =? RISCV_EXCP_U_ECALL then
       let s := upd (set_pc (u64 (r_pc (v_env s) + 4))) s in
       let '(ret, s) :=
         if gpr s xA7 =? NR_riscv_flush_icache then (0, s)
         else do_syscall q
           (gpr s (if negb (Z.land (r_elf_flags (v_env s)) EF_RISCV_RVE =? 0) then xT0 else xA7))
           (gpr s xA0) (gpr s xA1) (gpr s xA2) (gpr s xA3) (gpr s xA4) (gpr s xA5) s in
       let s :=
         if ret =? u64 (- QEMU_ERESTARTSYS) then upd (set_pc (u64 (r_pc (v_env s) - 4))) s
         else if negb (ret =? u64 (- QEMU_ESIGRETURN)) then upd (set_gpr xA0 ret) s
         else s in
       Ok (if r_singlestep (v_env s)
           then force_sig_fault q SIGTRAP TRAP_BRKPT (r_pc (v_env s)) s else s)
     else if trapnr =? RISCV_EXCP_ILLEGAL_INST then
       Ok (force_sig_fault q SIGILL ILL_ILLOPC (r_pc (v_env s)) s)
     else if (trapnr =? RISCV_EXCP_BREAKPOINT) || (trapnr =? EXCP_DEBUG) then
       Ok (force_sig_fault q SIGTRAP TRAP_BRKPT (r_pc (v_env s)) s)
     else if trapnr =? RISCV_EXCP_SEMIHOST then
       let s := do_common_semihosting q s in
       Ok (upd (set_pc (u64 (r_pc (v_env s) + 4))) s)
     else Abort "exit(EXIT_FAILURE)");
  Ok (process_pending_signals q s).

End rv64.

(** ** Calls and callbacks *)

Section calls.
Context {K : Type}.
Abbreviation mach := (mach CPURISCVState K).
Context (sizeof_ucontext : Z).
Context (ctx_call ctx_call_grt : Z).

Definition gyh_call (s : mach) : result mach :=
  let r := r_gpr (m_env s) in
  let sp := r 2%nat in
  _ ← check "(sp & 0xf) == 0" (Z.land sp 0xF =? 0);
  ra ← of_option "sp + 8" (load 8 (u64 (sp + 8)) (m_mem s));
  let s := with_ctx ctx_call
    (CtxCall (r 10%nat) (u32 (r 11%nat)) (r 12%nat) (r 13%nat) (r 14%nat) (r 15%nat)
             (u64 (sp - 64)) 64) s in
  _ ← check "gyh_cpu_loop_ctx_to == NULL" (gyh_cpu_loop_ctx_to s =? 0);
  Ok (with_ctx_to ctx_call s).

Definition gyh_call_grt (s : mach) : result mach :=
  let r := r_gpr (m_env s) in
  let sp := r 2%nat in
  _ ← check "(sp & 0xf) == 0" (Z.land sp 0xF =? 0);
  ra ← of_option "sp + 8" (load 8 (u64 (sp + 8)) (m_mem s));
  let s := with_ctx ctx_call_grt
    (CtxCallGrt (r 10%nat) (u32 (r 11%nat)) (r 12%nat) (r 13%nat) (u64 (sp - 64)) 64) s in
  _ ← check "gyh_cpu_loop_ctx_to == NULL" (gyh_cpu_loop_ctx_to s =? 0);
  Ok (with_ctx_to ctx_call_grt s).

Definition gyh_callback_return (s : mach) : result mach :=
  let s := with_env (set_pc (r_gpr (m_env s) 1%nat) (m_env s)) s in
  _ ← check "(sp & 0xf) == 0" (Z.land (r_gpr (m_env s) 2%nat) 0xF =? 0);
  let ctx := r_gpr (m_env s) 2%nat in
  _ ← check "gyh_cpu_loop_ctx_to == NULL" (gyh_cpu_loop_ctx_to s =? 0);
  Ok (with_ctx_to ctx s).

Definition alloca_size : Z := 16 + sizeof_ucontext.

(** [__gyh_callback__] up to the switch to the CPU loop. *)
Definition __gyh_callback__ (cbStub func retPad argPad stk : Z) (k : cmem -> hstep)
    (s : mach) : result mach :=
  _ ← check "gyh_cpu_loop_ctx_to == NULL" (gyh_cpu_loop_ctx_to s =? 0);
  let s := with_env (set_gpr 10 retPad (m_env s)) s in
  let s := with_env (set_gpr 11 argPad (m_env s)) s in
  let s := with_env (set_gpr 12 func (m_env s)) s in
  let s := with_env (set_gpr 13 cbStub (m_env s)) s in
  let sp := r_gpr (m_env s) 2%nat in
  let s := with_env (set_gpr 2 (align_down 16 (u64 (stk + 16))) (m_env s)) s in
  let ctx := r_gpr (m_env s) 2%nat in
  let s := with_env (set_gpr 1 (r_pc (m_env s)) (m_env s)) s in
  let s := with_env (set_pc (m_cbFunc s) (m_env s)) s in
  let s := count_callback s in
  Ok (with_ctx ctx (CtxCallback sp k) s).

(** [__gyh_callback__] after the CPU loop switched back to it. *)
Definition __gyh_callback__resume (sp : Z) (s : mach) : mach :=
  let s := with_ctx_to 0 s in
  with_env (set_gpr 2 sp (m_env s)) s.

(** ** The functions of the process behind the operations *)

Definition call_ctx (v : vm CPURISCVState K) : result ucontext :=
  let r := r_gpr (v_env v) in
  _ ← check "(sp & 0xf) == 0" (Z.land (r 2%nat) 0xF =? 0);
  ra ← of_option "sp + 8" (load 8 (u64 (r 2%nat + 8)) (v_mem v));
  Ok (CtxCall (r 10%nat) (u32 (r 11%nat)) (r 12%nat) (r 13%nat) (r 14%nat)
              (r 15%nat) (u64 (r 2%nat - 64)) 64).

Definition call_grt_ctx (v : vm CPURISCVState K) : result ucontext :=
  let r := r_gpr (v_env v) in
  _ ← check "(sp & 0xf) == 0" (Z.land (r 2%nat) 0xF =? 0);
  ra ← of_option "sp + 8" (load 8 (u64 (r 2%nat + 8)) (v_mem v));
  Ok (CtxCallGrt (r 10%nat) (u32 (r 11%nat)) (r 12%nat) (r 13%nat) (u64 (r 2%nat - 64)) 64).

(** Where a callback saves its context. *)
Definition ctx_addr (stk : Z) : Z := align_down 16 (u64 (stk + 16)).

(** The guest's registers on entry to the callback function [cb]. *)
Definition cb_env (cb cbStub func retPad argPad stk : Z) (e : CPURISCVState) : CPURISCVState :=
  set_pc cb (set_gpr 1 (r_pc e) (set_gpr 2 (ctx_addr stk)
    (set_gpr 13 cbStub (set_gpr 12 func (set_gpr 11 argPad (set_gpr 10 retPad e)))))).

Definition enter_cb (cb cbStub func retPad argPad stk : Z) (v : vm CPURISCVState K)
    : result (Z * Z * vm CPURISCVState K) :=
  Ok (r_gpr (v_env v) 2%nat, ctx_addr stk,
      bump_callbacks (set_env (cb_env cb cbStub func retPad argPad stk (v_env v)) v)).

Definition return_cb (v : vm CPURISCVState K) : result (Z * vm CPURISCVState K) :=
  let sp := r_gpr (v_env v) 2%nat in
  _ ← check "(sp & 0xf) == 0" (Z.land sp 0xF =? 0);
  Ok (sp, set_env (set_pc (r_gpr (v_env v) 1%nat) (v_env v)) v).

Definition leave_cb (sp : Z) (v : vm CPURISCVState K) : vm CPURISCVState K :=
  set_env (set_gpr 2 sp (v_env v)) v.

(** The callback function entered in [v1] is about to return in [v2]: the
    stack pointer and the return address register are as on entry. *)
Definition cb_returned (v1 v2 : vm CPURISCVState K) : Prop :=
  r_gpr (v_env v2) 2%nat = r_gpr (v_env v1) 2%nat /\
  r_gpr (v_env v2) 1%nat = r_gpr (v_env v1) 1%nat.

Lemma rv64_ctx_addr_bounds stk :
  0 <= stk -> stk + 16 < 2 ^ 64 ->
  ctx_addr stk mod 16 = 0 /\ stk < ctx_addr stk <= stk + 16.
Proof.
  intros H0 H1. unfold ctx_addr. rewrite wrap_small by lia.
  pose proof (align_down_16 (stk + 16)). lia.
Qed.

Lemma rv64_enter_return cb cbStub func retPad argPad stk v sp ctx v1 v2 :
  0 <= r_pc (v_env v) < 2 ^ 64 ->
  0 <= stk -> stk + 24 < 2 ^ 64 ->
  enter_cb cb cbStub func retPad argPad stk v = Ok (sp, ctx, v1) ->
  cb_returned v1 v2 ->
  0 < ctx /\
  exists v3, return_cb v2 = Ok (ctx, v3) /\ v_mem (leave_cb sp v3) = v_mem v2 /\
    r_pc (v_env (leave_cb sp v3)) = r_pc (v_env v) /\
    r_gpr (v_env (leave_cb sp v3)) 2%nat = r_gpr (v_env v) 2%nat.
Proof.
  intros Hpc H0 H1 He [Hsp Hlr]. unfold enter_cb in He. inv_ok. simplify_eq.
  destruct (rv64_ctx_addr_bounds stk) as [Hmod Hb]; [lia..|]. split; [lia|].
  unfold return_cb. rewrite Hsp, Hlr. simpl.
  rewrite fn_lookup_insert_ne, !fn_lookup_insert by done.
  rewrite (Z.land_ones _ 4) by lia. change (2 ^ 4) with 16. rewrite Hmod. simpl.
  eexists; split; [done|]. done.
Qed.

(** [__gyh_callback__] in terms of [enter_cb]. *)
Lemma rv64_callback_enter cbStub func retPad argPad stk k s :
  gyh_cpu_loop_ctx_to s = 0 ->
  __gyh_callback__ cbStub func retPad argPad stk k s =
    ('(sp, ctx, v) ← enter_cb (m_cbFunc s) cbStub func retPad argPad stk (m_vm s);
     Ok (with_ctx ctx (CtxCallback sp k) (with_vm v s))).
Proof.
  intros Hto. unfold __gyh_callback__, enter_cb, m_env. rewrite Hto. simpl.
  rewrite !fn_lookup_insert. done.
Qed.

(** On riscv64 a callback into the guest stays inside the stack space it
    reserved: the saved host context lies in the [alloca]ed block, and the
    guest function starts with the stack alignment, the argument registers
    and the return address of a procedure call. *)
Theorem rv64_callback_frame cbStub func retPad argPad stk k s s' :
  0 <= sizeof_ucontext ->
  0 <= stk -> stk + alloca_size < 2 ^ 64 ->
  __gyh_callback__ cbStub func retPad argPad stk k s = Ok s' ->
  exists ctx, let r := r_gpr (m_env s') in
    m_ctxs s' = <[ctx := CtxCallback (r_gpr (m_env s) 2%nat) k]> (m_ctxs s) /\
    r 2%nat = ctx /\ stk <= ctx /\ ctx + sizeof_ucontext <= stk + alloca_size /\
    ctx mod 16 = 0 /\
    (r 10%nat, r 11%nat, r 12%nat, r 13%nat) = (retPad, argPad, func, cbStub) /\
    r_pc (m_env s') = m_cbFunc s /\
    r 1%nat = r_pc (m_env s).
Proof.
  unfold alloca_size. intros Hsz H0 H1 H.
  assert (gyh_cpu_loop_ctx_to s = 0) as Hto.
  { unfold __gyh_callback__ in H. inv_ok. lia. }
  rewrite rv64_callback_enter in H by done. unfold enter_cb in H. inv_ok. simplify_eq.
  destruct (rv64_ctx_addr_bounds stk) as [Hmod Hb]; [lia..|].
  exists (ctx_addr stk). repeat split; try done; lia.
Qed.

End calls.

(** ** The architecture *)

#[global] Instance arch {K} (q : qemu_ops CPURISCVState K) (sf : stat_file)
    (ctx_call ctx_call_grt : Z) : GuestArch CPURISCVState K.
Proof.
  refine {|
    ga_ctx_call := ctx_call; ga_ctx_call_grt := ctx_call_grt;
    ga_do_cpu := gyh_do_cpu q sf;
    ga_call := gyh_call ctx_call; ga_call_grt := gyh_call_grt ctx_call_grt;
    ga_callback := __gyh_callback__; ga_callback_return := gyh_callback_return;
    ga_resume := __gyh_callback__resume;
    ga_pc := r_pc; ga_sp e := r_gpr e 2%nat;
    Machine.call_ctx := call_ctx; Machine.call_grt_ctx := call_grt_ctx;
    Machine.enter_cb := enter_cb; Machine.return_cb := return_cb;
    Machine.leave_cb := leave_cb; Machine.cb_returned := cb_returned;
    ga_callback_law := rv64_callback_enter; ga_enter_return := rv64_enter_return
  |}.
  - intros s Hto. unfold gyh_call, call_ctx, m_env, m_mem. simpl. rewrite Hto.
    destruct (Z.land _ _ =? 0), (load _ _ _); done.
  - intros s Hto. unfold gyh_call_grt, call_grt_ctx, m_env, m_mem. simpl. rewrite Hto.
    destruct (Z.land _ _ =? 0), (load _ _ _); done.
  - intros s Hto. unfold gyh_callback_return, return_cb, m_env. simpl. rewrite Hto.
    destruct (Z.land _ _ =? 0); done.
  - done.
  - intros v c H. unfold call_ctx in H. inv_ok. subst. by do 8 eexists.
  - intros v c H. unfold call_grt_ctx in H. inv_ok. subst. by do 6 eexists.
  - done.
Defined.

(** ** Agreement with QEMU's loop *)

Section agreement.
Context {K : Type} (q : qemu_ops CPURISCVState K) (sf : stat_file).

(** The trap of this run is an [ecall] with the number [nr] satisfying [p],
    other than an instruction cache flush. *)
Definition ecall_with (p : Z -> bool) (s : vm CPURISCVState K) : bool :=
  let '(trapnr, s) := cpu_exec q s in
  (trapnr =? RISCV_EXCP_U_ECALL) && negb (gpr s xA7 =? NR_riscv_flush_icache) &&
  p (gpr s (nr_reg s)).

(** C31: on riscv64 the runtime's CPU step is QEMU's loop body for every trap
    that is not one of the runtime's own system calls, unless it is an exit
    for which a statistics file was asked for. *)
Theorem rv64_do_cpu_agrees s :
  ecall_with (fun nr => GYH_NR_start <? nr) s = false ->
  ecall_with (fun nr => nr =? 94) s = false \/ sf_env sf = None ->
  gyh_do_cpu q sf s = (fun s' => (no_syscall, s')) <$> cpu_loop_body q s.
Proof.
  unfold ecall_with, gyh_do_cpu, cpu_loop_body.
  intros Hg Hr. destruct (cpu_exec q s) as [trapnr s1].
  destruct (trapnr =? RISCV_EXCP_U_ECALL) eqn:E1.
  - assert (trapnr = 8) as -> by (unfold RISCV_EXCP_U_ECALL in E1; lia).
    simpl in *. unfold gpr, nr_reg, upd in *. simpl in *.
    destruct (_ =? NR_riscv_flush_icache); [done|]. simpl in *.
    rewrite atexit_skip by done. simpl. rewrite Hg. simpl.
    by destruct (do_syscall q _ _ _ _ _ _ _ _).
  - simpl. repeat case_match; done.
Qed.

End agreement.
(** ** Examples *)

(** A guest whose registers hold their index times 16, in front of a system
    call with number 39. *)
Definition ex_env : CPURISCVState :=
  mk_rv (<[xA7 := 39]> (fun r => 16 * Z.of_nat r)) 0x401000 0 false.

Definition ex_machine : mach CPURISCVState unit := ToyQemu.machine ex_env ∅.

Lemma rv64_do_cpu_agrees_witness :
  let q := ToyQemu.trap RISCV_EXCP_U_ECALL in let sf := mk_stat_file None true in
  gyh_do_cpu q sf (m_vm ex_machine) =
    (fun s' => (no_syscall, s')) <$> cpu_loop_body q (m_vm ex_machine).
Proof. intros q sf. apply rv64_do_cpu_agrees; [done|by right]. Defined.

Lemma rv64_callback_frame_witness :
  exists s', __gyh_callback__ 1 2 3 4 0x7008 HRet ex_machine = Ok s' /\
    exists ctx, let r := r_gpr (m_env s') in
    m_ctxs s' = <[ctx := CtxCallback 32 HRet]> ∅ /\
    r 2%nat = ctx /\ 0x7008 <= ctx /\ ctx + 968 <= 0x7008 + alloca_size 968 /\
    ctx mod 16 = 0 /\
    (r 10%nat, r 11%nat, r 12%nat, r 13%nat) = (3, 4, 2, 1) /\
    r_pc (m_env s') = 0x4000 /\
    r 1%nat = 0x401000.
Proof.
  destruct (__gyh_callback__ 1 2 3 4 0x7008 HRet ex_machine) as [s'|w|w] eqn:Hs;
    [|by vm_compute in Hs..].
  exists s'. split; [done|].
  apply (rv64_callback_frame 968 1 2 3 4 0x7008 HRet ex_machine s'); simpl; try lia; done.
Defined.

End Rv64.
