(* ===== verification/GuestAsm.v ===== *)
(** * Assembly stubs of the guest runtime

    What the three files of [lib/guest_rt] have in common: each function is a
    straight line of instructions, which runs until it traps into the
    emulator, calls another function, or returns. The instructions of an
    architecture, and the stubs, are in [AsmX86], [AsmA64] and [AsmRv64]. *)

From S2P Require Import Prelude CMem.
#[local] Open Scope string_scope.
#[local] Open Scope Z_scope.

Section asm.
Context {E instr : Type}.

(** Where control goes at the end of a piece of code, with the index of the
    instruction that sent it there. *)
Inductive outcome :=
| Trap (i : nat) (e : E) (m : cmem)
| CallOut (i : nat) (e : E) (m : cmem)
| Return (e : E) (m : cmem).

(** One instruction, given its index. *)
Context (exec : nat -> instr -> E -> cmem -> result (E * cmem + outcome)).

Fixpoint run (code : list instr) (i : nat) (e : E) (m : cmem) : result outcome :=
  match code with
  | [] => Fault "past the end of the stub"
  | ins :: code =>
      r ← exec i ins e m;
      match r with
      | inl (e, m) => run code (S i) e m
      | inr o => Ok o
      end
  end.

(** Going on after a trap or a call. *)
Definition resume (code : list instr) (i : nat) (e : E) (m : cmem) : result outcome :=
  run (drop (S i) code) (S i) e m.
End asm.
Arguments outcome : clear implicits.
