(* ===== verification/AsmX86.v ===== *)
(** * The guest runtime on x86_64

    Models [lib/guest_rt/x86_64.s] and shows that its stubs and the emulator
    ([ArchX86]) agree on registers, stack and return addresses. *)

From S2P Require Import Prelude CMem Qlib Machine ArchX86 GuestAsm.
#[local] Open Scope string_scope.
#[local] Open Scope Z_scope.

Module AsmX86.
Import X86.

(** ** Instructions *)

Inductive instr :=
| PUSHQ (r : nat)
| POPQ (r : nat)
| MOVQ (src dst : nat)
| MOVQ_imm (n : Z) (r : nat)
| MOV_GOT (r : nat)            (* the address of __gyh_callback_return__ *)
| SYSCALL                      (* in user emulation it keeps rcx and r11 *)
| CALL_reg (r : nat)
| RET.

Section exec.
(** The address of [__gyh_callback_return__], from the global offset table,
    and that of the instruction with a given index in the stub. *)
Context (cbret : Z) (addr : nat -> Z).

Definition push (v : Z) (e : CPUX86State) (m : cmem) : result (CPUX86State * cmem) :=
  let sp := u64 (x_regs e R_ESP - 8) in
  m ← of_option "push" (store 8 sp v m);
  Ok (set_reg R_ESP sp e, m).

Definition pop (e : CPUX86State) (m : cmem) : result (Z * CPUX86State) :=
  let sp := x_regs e R_ESP in
  v ← of_option "pop" (load 8 sp m);
  Ok (v, set_reg R_ESP (u64 (sp + 8)) e).

Definition exec (i : nat) (ins : instr) (e : CPUX86State) (m : cmem)
    : result (CPUX86State * cmem + outcome CPUX86State) :=
  match ins with
  | PUSHQ r => inl <$> push (x_regs e r) e m
  | POPQ r => '(v, e) ← pop e m; Ok (inl (set_reg r v e, m))
  | MOVQ src dst => Ok (inl (set_reg dst (x_regs e src) e, m))
  | MOVQ_imm n r => Ok (inl (set_reg r n e, m))
  | MOV_GOT r => Ok (inl (set_reg r cbret e, m))
  | SYSCALL => Ok (inr (Trap i (set_eip (addr (S i)) e) m))
  | CALL_reg r =>
      let f := x_regs e r in
      '(e, m) ← push (addr (S i)) e m; Ok (inr (CallOut i (set_eip f e) m))
  | RET => '(v, e) ← pop e m; Ok (inr (Return (set_eip v e) m))
  end.

(** ** The stubs *)

Definition __gyh_ctor__ : list instr :=
  [PUSHQ R_EBP; MOVQ R_ESP R_EBP; MOV_GOT R_ESI; MOVQ_imm 50046 R_EAX; SYSCALL;
   POPQ R_EBP; RET].

Definition __gyh_dtor__ : list instr :=
  [PUSHQ R_EBP; MOVQ R_ESP R_EBP; MOVQ_imm 50096 R_EAX; POPQ R_EBP; RET].

Definition __gyh_call__ : list instr :=
  [PUSHQ R_EBP; MOVQ R_ESP R_EBP; MOVQ_imm 50406 R_EAX; SYSCALL; POPQ R_EBP; RET].

Definition __gyh_callback_return__ : list instr :=
  [PUSHQ R_EBP; MOVQ R_ESP R_EBP; CALL_reg R_ECX; POPQ R_EBP; MOVQ_imm 50906 R_EAX; SYSCALL].

Definition __gyh_ctor_grt__ : list instr :=
  [PUSHQ R_EBP; MOVQ R_ESP R_EBP; MOV_GOT R_ECX; MOVQ_imm 51046 R_EAX; SYSCALL;
   POPQ R_EBP; RET].

Definition __gyh_call_grt__ : list instr :=
  [PUSHQ R_EBP; MOVQ R_ESP R_EBP; MOVQ_imm 51406 R_EAX; SYSCALL; POPQ R_EBP; RET].

Definition __gyh_ctor_fcp_cm__ : list instr :=
  [PUSHQ R_EBP; MOVQ R_ESP R_EBP; MOV_GOT R_R9; MOVQ_imm 52046 R_EAX; SYSCALL;
   POPQ R_EBP; RET].

Abbreviation go := (run exec).

(** ** Correctness *)

(** The stubs that make a system call and return, with its number and the
    register they pass the callback function in. *)
Definition syscall_stubs : list (list instr * Z * option nat) :=
  [(__gyh_ctor__, GYH_NR__gyh_ctor__, Some R_ESI);
   (__gyh_call__, GYH_NR__gyh_call__, None);
   (__gyh_ctor_grt__, GYH_NR__gyh_ctor_grt__, Some R_ECX);
   (__gyh_call_grt__, GYH_NR__gyh_call_grt__, None);
   (__gyh_ctor_fcp_cm__, GYH_NR__gyh_ctor_fcp_cm__, Some R_R9)].

Definition with_cbret (arg : option nat) (e : CPUX86State) : CPUX86State :=
  match arg with Some r => set_reg r cbret e | None => e end.

(** The registers at the trap. *)
Definition trapped (nr : Z) (arg : option nat) (i : nat) (e : CPUX86State) : CPUX86State :=
  let sp := x_regs e R_ESP - 8 in
  set_eip (addr (S i)) (set_reg R_EAX nr
    (with_cbret arg (set_reg R_EBP sp (set_reg R_ESP sp e)))).

Lemma push_ok v e m :
  8 <= x_regs e R_ESP < 2 ^ 64 -> mapped 8 (x_regs e R_ESP - 8) m ->
  exists m', store 8 (x_regs e R_ESP - 8) v m = Some m' /\
             push v e m = Ok (set_reg R_ESP (x_regs e R_ESP - 8) e, m').
Proof.
  intros Hsp Hm. destruct (store_Some 8 (x_regs e R_ESP - 8) v m Hm) as [m' Hs].
  exists m'. split; [done|]. unfold push. rewrite wrap_small by lia. by rewrite Hs.
Qed.

Lemma stub_traps code nr arg e m :
  (code, nr, arg) ∈ syscall_stubs -> 8 <= x_regs e R_ESP < 2 ^ 64 ->
  mapped 8 (x_regs e R_ESP - 8) m ->
  exists i m', store 8 (x_regs e R_ESP - 8) (x_regs e R_EBP) m = Some m' /\
    go code 0 e m = Ok (Trap i (trapped nr arg i e) m') /\
    drop (S i) code = [POPQ R_EBP; RET].
Proof.
  intros Hin Hsp Hm. destruct (push_ok (x_regs e R_EBP) e m Hsp Hm) as (m' & Hs & Hp).
  unfold syscall_stubs in Hin. rewrite !elem_of_cons, elem_of_nil in Hin.
  destruct_or!; simplify_eq; try done;
    [exists 4%nat|exists 3%nat|exists 4%nat|exists 3%nat|exists 4%nat]; exists m'; (split; [done|]);
    (split; [|reflexivity]);
    unfold __gyh_ctor__, __gyh_call__, __gyh_ctor_grt__, __gyh_call_grt__, __gyh_ctor_fcp_cm__;
    cbn [run exec]; rewrite Hp; reflexivity.
Qed.

Lemma stub_returns i e m rbp ra :
  load 8 (x_regs e R_ESP) m = Some rbp -> load 8 (x_regs e R_ESP + 8) m = Some ra ->
  0 <= x_regs e R_ESP -> x_regs e R_ESP + 16 < 2 ^ 64 ->
  go [POPQ R_EBP; RET] i e m =
  Ok (Return (set_eip ra (set_reg R_ESP (x_regs e R_ESP + 16) (set_reg R_EBP rbp
        (set_reg R_ESP (x_regs e R_ESP + 8) e)))) m).
Proof.
  intros H1 H2 H0 H3. cbn [run exec]. unfold pop. rewrite H1. cbn [of_option mbind result_bind].
  rewrite (wrap_small 64 (x_regs e R_ESP + 8)) by lia.
  change (x_regs (set_reg R_EBP _ (set_reg R_ESP (x_regs e R_ESP + 8) e)) R_ESP) with (x_regs e R_ESP + 8).
  rewrite H2. cbn [of_option mbind result_bind]. rewrite wrap_small by lia.
  replace (x_regs e R_ESP + 8 + 8) with (x_regs e R_ESP + 16) by lia. done.
Qed.

(** The argument registers at the trap. *)
Lemma trapped_regs code nr arg i e :
  (code, nr, arg) ∈ syscall_stubs ->
  x_regs (trapped nr arg i e) R_ESP = x_regs e R_ESP - 8 /\
  forall r, r ∈ [R_EDI; R_ESI; R_EDX; R_ECX; R_R8; R_R9] ->
    x_regs (trapped nr arg i e) r = x_regs (with_cbret arg e) r.
Proof.
  intros Hin. unfold syscall_stubs in Hin. rewrite !elem_of_cons, elem_of_nil in Hin.
  destruct_or!; simplify_eq; try done; (split; [done|]); intros r Hr;
    rewrite !elem_of_cons, elem_of_nil in Hr; by destruct_or!; subst.
Qed.

Context {K : Type}.

(** QEMU has nothing else to do when it stops in [v]. *)
Definition quiet (q : qemu_ops CPUX86State K) (v : vm CPUX86State K) : Prop :=
  (forall n, set_orig_ax q n v = v) /\ process_pending_signals q v = v.

Lemma trap_handed q sf v v' code nr arg i :
  (code, nr, arg) ∈ syscall_stubs ->
  cpu_exec q v = (EXCP_SYSCALL, v') -> quiet q v' -> v_env v' = trapped nr arg i (v_env v) ->
  let a := x_regs (with_cbret arg (v_env v)) in
  gyh_do_cpu q sf v =
  Ok (mk_DoSyscall nr (a R_EDI) (a R_ESI) (a R_EDX) (a R_ECX) (a R_R8) (a R_R9), v').
Proof.
  intros Hin Hx [Ho Hs] Henv a. unfold gyh_do_cpu. rewrite Hx. unfold regs. cbn -[mbind].
  rewrite Ho. destruct v' as [e' kern m bd rep]. cbn in Henv. subst e'.
  unfold syscall_stubs in Hin. rewrite !elem_of_cons, elem_of_nil in Hin.
  destruct_or!; simplify_eq; try done;
    match goal with |- _ = Ok (?g, ?w) =>
      transitivity (Ok (g, process_pending_signals q w)); [reflexivity|by rewrite Hs]
    end.
Qed.

(** What such a stub does when it is called in [v] with the return address
    [ra] on the stack: it pushes a frame and traps with the number and the
    arguments that the emulator then hands to its handler, with the stack as
    the call handlers assert it; and when the emulator lets the guest go on,
    it returns to its caller with the stack and frame pointer restored. *)
Definition stub_spec (code : list instr) (nr : Z) (arg : option nat) (v : vm CPUX86State K)
    (ra : Z) : Prop :=
  let e := v_env v in
  let sp := x_regs e R_ESP in
  let a := x_regs (with_cbret arg e) in
  exists i m' v', v' = set_mem m' (set_env (trapped nr arg i e) v) /\
    go code 0 e (v_mem v) = Ok (Trap i (v_env v') m') /\
    (forall q sf, cpu_exec q v = (EXCP_SYSCALL, v') -> quiet q v' ->
      gyh_do_cpu q sf v =
      Ok (mk_DoSyscall nr (a R_EDI) (a R_ESI) (a R_EDX) (a R_ECX) (a R_R8) (a R_R9), v')) /\
    (nr = GYH_NR__gyh_call__ -> call_ctx v' =
      Ok (CtxCall (a R_EDI) (u32 (a R_ESI)) (a R_EDX) (a R_ECX) (a R_R8) (a R_R9)
            (u64 (sp - 8 - 64)) 64)) /\
    (nr = GYH_NR__gyh_call_grt__ -> call_grt_ctx v' =
      Ok (CtxCallGrt (a R_EDI) (u32 (a R_ESI)) (a R_EDX) (a R_ECX) (u64 (sp - 8 - 64)) 64)) /\
    (forall e2 m2, x_regs e2 R_ESP = sp - 8 ->
      (forall x, sp - 8 <= x < sp + 8 -> m2 !! x = m' !! x) ->
      exists e3, resume exec code i e2 m2 = Ok (Return e3 m2) /\
        x_eip e3 = ra /\ x_regs e3 R_ESP = sp + 8 /\ x_regs e3 R_EBP = x_regs e R_EBP /\
        forall r, r <> R_ESP -> r <> R_EBP -> x_regs e3 r = x_regs e2 r).

Lemma x86_stub_syscalls code nr arg v ra :
  let sp := x_regs (v_env v) R_ESP in
  (code, nr, arg) ∈ syscall_stubs ->
  sp mod 16 = 8 -> 8 <= sp -> sp + 8 < 2 ^ 64 -> 0 <= x_regs (v_env v) R_EBP < 2 ^ 64 ->
  mapped 8 (sp - 8) (v_mem v) -> load 8 sp (v_mem v) = Some ra ->
  stub_spec code nr arg v ra.
Proof.
  intros sp Hin Hal H8 Htop Hbp Hmap Hra. unfold stub_spec. set (e := v_env v) in *. fold sp.
  set (a := x_regs (with_cbret arg e)).
  destruct (stub_traps code nr arg e (v_mem v) Hin) as (i & m' & Hst & Hrun & Hrest); [lia|done|].
  fold sp in Hst.
  assert (load 8 sp m' = Some ra) as Hra' by (rewrite <- Hra; apply (load_store_other _ _ _ _ _ 8 sp Hst); lia).
  pose proof (load_store_u64 _ _ _ _ Hst) as Hbp'. rewrite wrap_small in Hbp' by lia.
  exists i, m', (set_mem m' (set_env (trapped nr arg i e) v)). split; [done|]. split; [exact Hrun|].
  split; [intros q sf Hx Hq; by apply (trap_handed q sf v _ code nr arg i)|].
  assert (Z.land (sp - 8) 0xF = 0) as Hland.
  { change 0xF with (Z.ones 4). rewrite Z.land_ones by lia.
    change (2 ^ 4) with 16. Z.to_euclidean_division_equations. lia. }
  assert (load 8 (u64 (sp - 8 + 8)) m' = Some ra) as Hld.
  { rewrite wrap_small by lia. by replace (sp - 8 + 8) with sp by lia. }
  destruct (trapped_regs code nr arg i e Hin) as [Hsp' Hregs]. fold sp in Hsp'. fold a in Hregs.
  split_and!.
  - intros _. unfold call_ctx. cbn [v_env v_mem set_mem set_env].
    rewrite Hsp', Hland, Hld, !Hregs by (repeat constructor). done.
  - intros _. unfold call_grt_ctx. cbn [v_env v_mem set_mem set_env].
    rewrite Hsp', Hland, Hld, !Hregs by (repeat constructor). done.
  - intros e2 m2 Hsp2 Hm2. unfold resume. rewrite Hrest.
    rewrite (stub_returns (S i) e2 m2 (x_regs e R_EBP) ra); [| | |lia|lia].
    + eexists; split; [done|]. split; [done|]. split; [change (x_regs e2 R_ESP + 16 = sp + 8); lia|]. split; [done|].
      intros r Hr1 Hr2. cbn. by rewrite !fn_lookup_insert_ne by congruence.
    + rewrite Hsp2, <- Hbp'. apply load_ext. intros x Hx. apply Hm2. lia.
    + rewrite Hsp2, <- Hra'. replace (sp - 8 + 8) with sp by lia. apply load_ext.
      intros x Hx. apply Hm2. lia.
Qed.

(** The destructor stub loads the number of the destructor system call and
    returns: it does not trap, and leaves the registers that matter and the
    memory above its frame as they were, so a guest library is never
    destructed. *)
Theorem x86_dtor_no_syscall e m ra :
  let sp := x_regs e R_ESP in
  8 <= sp -> sp + 8 < 2 ^ 64 -> 0 <= x_regs e R_EBP < 2 ^ 64 ->
  mapped 8 (sp - 8) m -> load 8 sp m = Some ra ->
  exists e' m', go __gyh_dtor__ 0 e m = Ok (Return e' m') /\
    x_eip e' = ra /\ x_regs e' R_ESP = sp + 8 /\ x_regs e' R_EBP = x_regs e R_EBP /\
    x_regs e' R_EAX = GYH_NR__gyh_dtor__ /\
    forall x, sp <= x -> m' !! x = m !! x.
Proof.
  intros sp H8 Htop Hbp Hmap Hra.
  destruct (push_ok (x_regs e R_EBP) e m) as (m' & Hs & Hp); [lia|done|]. fold sp in Hs, Hp.
  pose proof (load_store_u64 _ _ _ _ Hs) as Hbp'. rewrite wrap_small in Hbp' by lia.
  assert (load 8 sp m' = Some ra) as Hra' by (rewrite <- Hra; apply (load_store_other _ _ _ _ _ 8 sp Hs); lia).
  set (e1 := set_reg R_EAX 50096 (set_reg R_EBP (sp - 8) (set_reg R_ESP (sp - 8) e))).
  assert (x_regs e1 R_ESP = sp - 8) as H1 by done.
  assert (go __gyh_dtor__ 0 e m = go [POPQ R_EBP; RET] 3 e1 m') as ->.
  { unfold __gyh_dtor__. cbn [run exec]. rewrite Hp. reflexivity. }
  rewrite (stub_returns 3 e1 m' (x_regs e R_EBP) ra).
  - eexists _, m'. split; [done|]. split; [done|]. split; [|split; [done|split; [done|]]].
    + change (x_regs e1 R_ESP + 16 = sp + 8). lia.
    + intros x Hx. apply (store_outside _ _ _ _ _ Hs). lia.
  - by rewrite H1.
  - rewrite H1. by replace (sp - 8 + 8) with sp by lia.
  - rewrite H1. lia.
  - rewrite H1. lia.
Qed.

(** What the callback function does when the emulator enters it in [v1], with
    the callback's context saved at [ctx]: it calls the guest's stub with the
    arguments the host gave, on a stack aligned as for any C call; and once
    the stub has returned, with the stack above it untouched, it makes the
    return system call in just the state from which the emulator goes back to
    the host code. *)
Definition callback_spec (cbStub func retPad argPad ctx : Z) (v1 : vm CPUX86State K) : Prop :=
  x_eip (v_env v1) = cbret /\
  exists e' m', go __gyh_callback_return__ 0 (v_env v1) (v_mem v1) = Ok (CallOut 2 e' m') /\
    x_eip e' = cbStub /\ x_regs e' R_EDI = retPad /\ x_regs e' R_ESI = argPad /\
    x_regs e' R_EDX = func /\ (x_regs e' R_ESP + 8) mod 16 = 0 /\
    load 8 (x_regs e' R_ESP) m' = Some (addr 3) /\
    forall e2 m2, x_regs e2 R_ESP = x_regs e' R_ESP + 8 ->
      (forall x, x_regs e' R_ESP + 8 <= x < ctx -> m2 !! x = m' !! x) ->
      exists e3, resume exec __gyh_callback_return__ 2 e2 m2 = Ok (Trap 5 e3 m2) /\
        x_regs e3 R_EAX = GYH_NR__gyh_callback_return__ /\
        cb_returned v1 (set_mem m2 (set_env e3 v1)).

Lemma x86_callback_stub cbStub func retPad argPad stk (v : vm CPUX86State K) sp ctx v1 :
  0 <= stk -> stk + 24 < 2 ^ 64 -> 24 <= ctx_addr stk ->
  mapped 24 (ctx_addr stk - 24) (v_mem v) -> 0 <= addr 3 < 2 ^ 64 ->
  enter_cb cbret cbStub func retPad argPad stk v = Ok (sp, ctx, v1) ->
  callback_spec cbStub func retPad argPad ctx v1.
Proof.
  intros H0 H1 H24 Hmap Haddr He. unfold enter_cb in He. inv_ok. simplify_eq.
  destruct (x86_ctx_addr_bounds stk H0 H1) as [Hmod Hb]. set (C := ctx_addr stk) in *.
  split; [done|]. rename a into m1. rename E into Hm1.
  rewrite (wrap_small 64 (C - 8)) in Hm1 by lia.
  set (e1 := cb_env cbret cbStub func retPad argPad stk (v_env v)).
  assert (x_regs e1 R_ESP = C - 8) as Hsp1 by (apply (wrap_small 64 (C - 8)); lia).
  assert (mapped 24 (C - 24) m1) as Hmap1 by by apply (mapped_store _ _ _ _ _ _ _ Hm1).
  destruct (push_ok (x_regs e1 R_EBP) e1 m1) as (m2a & Hs2 & Hp2); rewrite ?Hsp1 in *; [lia| |].
  { intros x Hx. apply Hmap1. lia. }
  replace (C - 8 - 8) with (C - 16) in * by lia.
  set (e2a := set_reg R_EBP (C - 16) (set_reg R_ESP (C - 16) e1)).
  assert (x_regs e2a R_ESP = C - 16) as Hsp2 by done.
  destruct (push_ok (addr 3) e2a m2a) as (m' & Hs3 & Hp3); rewrite ?Hsp2 in *; [lia| |].
  { apply (mapped_store _ _ _ _ _ _ _ Hs2). intros x Hx. apply Hmap1. lia. }
  replace (C - 16 - 8) with (C - 24) in * by lia.
  exists (set_eip cbStub (set_reg R_ESP (C - 24) e2a)), m'.
  split.
  { change (go __gyh_callback_return__ 0 e1 m1 =
            Ok (CallOut 2 (set_eip cbStub (set_reg R_ESP (C - 24) e2a)) m')).
    unfold __gyh_callback_return__. cbn [run exec]. rewrite Hp2. cbn [fmap result_fmap mbind result_bind run exec].
    change (push (addr 3) _ _) with (push (addr 3) e2a m2a). rewrite Hp3. reflexivity. }
  set (e' := set_eip cbStub _). assert (x_regs e' R_ESP = C - 24) as Hsp' by done. rewrite Hsp'.
  split_and!; [done..| | |].
  - Z.to_euclidean_division_equations; lia.
  - rewrite (load_store_u64 _ _ _ _ Hs3). by rewrite wrap_small by lia.
  - replace (C - 24 + 8) with (C - 16) by lia. intros e2 m2 He2 Hm2.
    assert (exists rbp, load 8 (C - 16) m2 = Some rbp) as [rbp Hrbp].
    { exists (u64 (x_regs e1 R_EBP)). rewrite <- (load_store_u64 _ _ _ _ Hs2).
      transitivity (load 8 (C - 16) m'); [apply load_ext; intros; apply Hm2; lia|].
      apply (load_store_other _ _ _ _ _ _ _ Hs3). lia. }
    eexists. split.
    { unfold resume, __gyh_callback_return__. cbn [drop run exec]. unfold pop. rewrite He2, Hrbp.
      cbn [of_option mbind result_bind run exec]. reflexivity. }
    split; [done|]. split.
    + change (u64 (C - 16 + 8) = x_regs e1 R_ESP). rewrite Hsp1, wrap_small by lia. lia.
    + change (load 8 (x_regs e1 R_ESP) m2 = load 8 (x_regs e1 R_ESP) m1). rewrite Hsp1.
      transitivity (load 8 (C - 8) m'); [apply load_ext; intros; apply Hm2; lia|].
      transitivity (load 8 (C - 8) m2a); [apply (load_store_other _ _ _ _ _ _ _ Hs3); lia|].
      apply (load_store_other _ _ _ _ _ _ _ Hs2). lia.
Qed.

End exec.

(** ** Examples *)
Module ToyStub.
Definition regs0 : nat -> Z := <[R_ESP := 0x7108]> (fun _ => 0).
Definition v : vm CPUX86State unit :=
  mk_vm (mk_x86 regs0 0x400000 0 0) tt (zeros 0x7000 0x120) (mk_breakdown 0 0 0 0 0) [].

Definition addr (i : nat) : Z := 0x6000 + Z.of_nat i.


Lemma x86_dtor_no_syscall_witness : exists e' m',
  run (exec 0x5000 addr) __gyh_dtor__ 0 (v_env v) (v_mem v) = Ok (Return e' m') /\
  x_regs e' R_EAX = GYH_NR__gyh_dtor__.
Proof.
  destruct (x86_dtor_no_syscall 0x5000 addr (v_env v) (v_mem v) 0)
    as (e' & m' & Hr & _ & _ & _ & Ha & _);
    [discriminate|reflexivity|split; [discriminate|reflexivity]
    |apply mapped_compute; vm_compute; reflexivity|reflexivity|].
  exists e', m'. split; [exact Hr|exact Ha].
Defined.
End ToyStub.
End AsmX86.
