(* ===== verification/AsmA64.v ===== *)
(** * The guest runtime on aarch64

    Models [lib/guest_rt/aarch64.s] and shows that its stubs and the emulator
    ([ArchA64]) agree on registers, stack and return addresses. *)

From S2P Require Import Prelude CMem Qlib Machine ArchA64 GuestAsm.
#[local] Open Scope string_scope.
#[local] Open Scope Z_scope.

Module AsmA64.
Import A64.

(** ** Instructions *)

Definition fp : nat := 29.
Definition lr : nat := 30.
Definition sp_reg : nat := 31.

Inductive instr :=
| STP_pre (r1 r2 : nat) (off : Z)    (* stp r1, r2, [sp, off]! *)
| LDP_post (r1 r2 : nat) (off : Z)   (* ldp r1, r2, [sp], off *)
| MOV (rd rs : nat)
| ADRP_got (rd : nat)                (* the page of the table entry *)
| LDR_got (rd : nat)                 (* the address of __gyh_callback_return__ in it *)
| MOVW (rd : nat) (n : Z)
| SVC
| BLR (rs : nat)
| RET.

Section exec.
(** The address of [__gyh_callback_return__], the page of the entry that
    holds it in the global offset table, and the address of the instruction
    with a given index in the stub. *)
Context (cbret got_page : Z) (addr : nat -> Z).

Definition exec (i : nat) (ins : instr) (e : CPUARMState) (m : cmem)
    : result (CPUARMState * cmem + outcome CPUARMState) :=
  match ins with
  | STP_pre r1 r2 off =>
      let a := u64 (a_xregs e sp_reg + off) in
      m ← of_option "stp" (store 8 a (a_xregs e r1) m);
      m ← of_option "stp" (store 8 (u64 (a + 8)) (a_xregs e r2) m);
      Ok (inl (set_x sp_reg a e, m))
  | LDP_post r1 r2 off =>
      let a := a_xregs e sp_reg in
      v1 ← of_option "ldp" (load 8 a m);
      v2 ← of_option "ldp" (load 8 (u64 (a + 8)) m);
      Ok (inl (set_x sp_reg (u64 (a + off)) (set_x r2 v2 (set_x r1 v1 e)), m))
  | MOV rd rs => Ok (inl (set_x rd (a_xregs e rs) e, m))
  | ADRP_got rd => Ok (inl (set_x rd got_page e, m))
  | LDR_got rd => Ok (inl (set_x rd cbret e, m))
  | MOVW rd n => Ok (inl (set_x rd n e, m))
  | SVC => Ok (inr (Trap i (set_pc (addr (S i)) e) m))
  | BLR rs => Ok (inr (CallOut i (set_pc (a_xregs e rs) (set_x lr (addr (S i)) e)) m))
  | RET => Ok (inr (Return (set_pc (a_xregs e lr) e) m))
  end.

(** ** The stubs *)

Definition __gyh_ctor__ : list instr :=
  [STP_pre fp lr (-16); MOV fp sp_reg; ADRP_got 1; LDR_got 1; MOVW 8 50046; SVC;
   LDP_post fp lr 16; RET].

Definition __gyh_dtor__ : list instr :=
  [STP_pre fp lr (-16); MOV fp sp_reg; MOVW 8 50096; SVC; LDP_post fp lr 16; RET].

Definition __gyh_call__ : list instr :=
  [STP_pre fp lr (-16); MOV fp sp_reg; MOVW 8 50406; SVC; LDP_post fp lr 16; RET].

Definition __gyh_callback_return__ : list instr :=
  [STP_pre fp lr (-16); MOV fp sp_reg; BLR 3; LDP_post fp lr 16; MOVW 8 50906; SVC].

Definition __gyh_ctor_grt__ : list instr :=
  [STP_pre fp lr (-16); MOV fp sp_reg; ADRP_got 3; LDR_got 3; MOVW 8 51046; SVC;
   LDP_post fp lr 16; RET].

Definition __gyh_call_grt__ : list instr :=
  [STP_pre fp lr (-16); MOV fp sp_reg; MOVW 8 51406; SVC; LDP_post fp lr 16; RET].

Definition __gyh_ctor_fcp_cm__ : list instr :=
  [STP_pre fp lr (-16); MOV fp sp_reg; ADRP_got 5; LDR_got 5; MOVW 8 52046; SVC;
   LDP_post fp lr 16; RET].

Abbreviation go := (run exec).

(** ** Correctness *)

(** The stubs that make a system call and return, with its number and the
    register they pass the callback function in. *)
Definition syscall_stubs : list (list instr * Z * option nat) :=
  [(__gyh_ctor__, GYH_NR__gyh_ctor__, Some 1%nat);
   (__gyh_dtor__, GYH_NR__gyh_dtor__, None);
   (__gyh_call__, GYH_NR__gyh_call__, None);
   (__gyh_ctor_grt__, GYH_NR__gyh_ctor_grt__, Some 3%nat);
   (__gyh_call_grt__, GYH_NR__gyh_call_grt__, None);
   (__gyh_ctor_fcp_cm__, GYH_NR__gyh_ctor_fcp_cm__, Some 5%nat)].

Definition with_cbret (arg : option nat) (e : CPUARMState) : CPUARMState :=
  match arg with Some r => set_x r cbret (set_x r got_page e) | None => e end.

(** After the first two instructions. *)
Definition framed (e : CPUARMState) : CPUARMState :=
  let sp := a_xregs e sp_reg - 16 in set_x fp sp (set_x sp_reg sp e).

(** The registers at the trap. *)
Definition trapped (nr : Z) (arg : option nat) (i : nat) (e : CPUARMState) : CPUARMState :=
  set_pc (addr (S i)) (set_x 8 nr (with_cbret arg (framed e))).

(** A frame of 16 bytes: frame pointer and return address. *)
Lemma a64_push_frame e m rest :
  16 <= a_xregs e sp_reg < 2 ^ 64 -> mapped 16 (a_xregs e sp_reg - 16) m ->
  0 <= a_xregs e lr < 2 ^ 64 -> 0 <= a_xregs e fp < 2 ^ 64 ->
  exists m', go (STP_pre fp lr (-16) :: MOV fp sp_reg :: rest) 0 e m = go rest 2 (framed e) m' /\
    load 8 (a_xregs e sp_reg - 16) m' = Some (a_xregs e fp) /\
    load 8 (a_xregs e sp_reg - 8) m' = Some (a_xregs e lr).
Proof.
  intros Hsp Hm Hra Hs0. set (sp := a_xregs e sp_reg) in *.
  destruct (store_Some 8 (sp - 16) (a_xregs e fp) m) as [m1 H1]; [intros x Hx; apply Hm; lia|].
  destruct (store_Some 8 (sp - 8) (a_xregs e lr) m1) as [m2 H2].
  { apply (mapped_store _ _ _ _ _ _ _ H1). intros x Hx. apply Hm. lia. }
  assert (exec 0 (STP_pre fp lr (-16)) e m = Ok (inl (set_x sp_reg (sp - 16) e, m2))) as X0.
  { cbn [exec]. fold sp. rewrite (wrap_small 64 (sp + -16)) by lia.
    replace (sp + -16) with (sp - 16) by lia. rewrite H1. cbn [of_option mbind result_bind].
    replace (sp - 16 + 8) with (sp - 8) by lia. rewrite wrap_small by lia. by rewrite H2. }
  exists m2. split_and!.
  - cbn [run]. rewrite X0. reflexivity.
  - rewrite (load_store_other _ _ _ _ _ 8 (sp - 16) H2) by lia.
    rewrite (load_store_u64 _ _ _ _ H1). by rewrite wrap_small.
  - rewrite (load_store_u64 _ _ _ _ H2). by rewrite wrap_small.
Qed.

(** The frame taken down. *)
Definition unframed (x29 x30 sp : Z) (e : CPUARMState) : CPUARMState :=
  set_x sp_reg sp (set_x lr x30 (set_x fp x29 e)).

Lemma a64_pop_frame i rest e m x29 x30 :
  load 8 (a_xregs e sp_reg) m = Some x29 -> load 8 (a_xregs e sp_reg + 8) m = Some x30 ->
  0 <= a_xregs e sp_reg -> a_xregs e sp_reg + 16 < 2 ^ 64 ->
  go (LDP_post fp lr 16 :: rest) i e m =
  go rest (S i) (unframed x29 x30 (a_xregs e sp_reg + 16) e) m.
Proof.
  intros H1 H2 H0 H3. cbn [run exec]. rewrite H1. cbn [of_option mbind result_bind].
  rewrite (wrap_small 64 (a_xregs e sp_reg + 8)) by lia. rewrite H2. cbn [of_option mbind result_bind].
  by rewrite wrap_small by lia.
Qed.

(** Where the stubs trap. *)
Lemma a64_stub_shape code nr arg :
  (code, nr, arg) ∈ syscall_stubs ->
  exists i rest, code = STP_pre fp lr (-16) :: MOV fp sp_reg :: rest /\
    (forall e m, go rest 2 (framed e) m = Ok (Trap i (trapped nr arg i e) m)) /\
    drop (S i) code = [LDP_post fp lr 16; RET].
Proof.
  intros Hin. unfold syscall_stubs in Hin. rewrite !elem_of_cons, elem_of_nil in Hin.
  destruct_or!; simplify_eq; try done;
    [exists 5%nat|exists 3%nat|exists 3%nat|exists 5%nat|exists 3%nat|exists 5%nat];
    eexists; (split; [reflexivity|]); (split; [|reflexivity]); reflexivity.
Qed.

(** The argument registers at the trap. *)
Lemma a64_trapped_regs code nr arg i e :
  (code, nr, arg) ∈ syscall_stubs ->
  a_aarch64 (trapped nr arg i e) = a_aarch64 e /\
  a_tfsr_el0 (trapped nr arg i e) = a_tfsr_el0 e /\
  a_xregs (trapped nr arg i e) sp_reg = a_xregs e sp_reg - 16 /\
  forall r, (r <= 5)%nat -> a_xregs (trapped nr arg i e) r = a_xregs (with_cbret arg e) r.
Proof.
  intros Hin. unfold syscall_stubs in Hin. rewrite !elem_of_cons, elem_of_nil in Hin.
  destruct_or!; simplify_eq; try done; (split_and!; [done..|]); intros r Hr;
    do 6 (destruct r as [|r]; [done|]); lia.
Qed.

Context {K : Type}.

(** QEMU has nothing else to do when it stops in [v]. *)
Definition quiet (q : qemu_ops CPUARMState K) (v : vm CPUARMState K) : Prop :=
  aarch64_set_svcr q v = v /\ process_pending_signals q v = v.

Lemma trap_handed_a64 q sf v v' code nr arg i :
  (code, nr, arg) ∈ syscall_stubs -> a_tfsr_el0 (v_env v) = 0 ->
  cpu_exec q v = (EXCP_SWI, v') -> v_env v' = trapped nr arg i (v_env v) -> quiet q v' ->
  let a := a_xregs (with_cbret arg (v_env v)) in
  gyh_do_cpu q sf v =
  Ok (mk_DoSyscall nr (a 0%nat) (a 1%nat) (a 2%nat) (a 3%nat) (a 4%nat) (a 5%nat),
      upd (set_exclusive_addr (u64 (-1))) v').
Proof.
  intros Hin Ht Hx Henv [Hv Hs] a. unfold gyh_do_cpu. rewrite Hx.
  change (EXCP_SWI =? EXCP_SWI) with true. cbv beta iota zeta. rewrite Hv.
  destruct v' as [e' kern m bd rep]. cbn [v_env] in Henv. subst e'.
  unfold syscall_stubs in Hin. rewrite !elem_of_cons, elem_of_nil in Hin.
  destruct_or!; simplify_eq; try done;
    match goal with |- _ = Ok (?g, upd ?f ?w) =>
      transitivity (Ok (g, upd f (process_pending_signals q
        (if negb (a_tfsr_el0 (v_env v) =? 0)
         then force_sig_fault q SIGSEGV SEGV_MTEAERR 0 (upd (set_tfsr_el0 0) w) else w))));
        [reflexivity|rewrite Ht; cbn [Z.eqb negb]; by rewrite Hs]
    end.
Qed.

(** What such a stub does when it is called in [v]: it pushes a frame and
    traps with the number and the arguments that the emulator then hands to
    its handler, with the stack as the call handlers assert it; and when the
    emulator lets the guest go on, it returns to its caller with the stack
    pointer, frame pointer and return address restored. *)
Definition stub_spec (code : list instr) (nr : Z) (arg : option nat) (v : vm CPUARMState K) : Prop :=
  let e := v_env v in
  let sp := a_xregs e sp_reg in
  let a := a_xregs (with_cbret arg e) in
  exists i m' v', v' = set_mem m' (set_env (trapped nr arg i e) v) /\
    let v'' := upd (set_exclusive_addr (u64 (-1))) v' in
    go code 0 e (v_mem v) = Ok (Trap i (v_env v') m') /\
    (forall q sf, cpu_exec q v = (EXCP_SWI, v') -> quiet q v' ->
      gyh_do_cpu q sf v =
      Ok (mk_DoSyscall nr (a 0%nat) (a 1%nat) (a 2%nat) (a 3%nat) (a 4%nat) (a 5%nat), v'')) /\
    call_ctx v'' = Ok (CtxCall (a 0%nat) (u32 (a 1%nat)) (a 2%nat) (a 3%nat) (a 4%nat) (a 5%nat)
                         (u64 (sp - 16 - 64)) 64) /\
    call_grt_ctx v'' =
      Ok (CtxCallGrt (a 0%nat) (u32 (a 1%nat)) (a 2%nat) (a 3%nat) (u64 (sp - 16 - 64)) 64) /\
    (forall e2 m2, a_xregs e2 sp_reg = sp - 16 ->
      (forall x, sp - 16 <= x < sp -> m2 !! x = m' !! x) ->
      exists e3, resume exec code i e2 m2 = Ok (Return e3 m2) /\
        a_pc e3 = a_xregs e lr /\ a_xregs e3 sp_reg = sp /\ a_xregs e3 fp = a_xregs e fp /\
        forall r, r <> sp_reg -> r <> fp -> r <> lr -> a_xregs e3 r = a_xregs e2 r).

Lemma a64_stub_syscalls code nr arg v :
  let e := v_env v in
  let sp := a_xregs e sp_reg in
  (code, nr, arg) ∈ syscall_stubs -> a_aarch64 e = true -> a_tfsr_el0 e = 0 ->
  sp mod 16 = 0 -> 16 <= sp < 2 ^ 64 -> mapped 16 (sp - 16) (v_mem v) ->
  0 <= a_xregs e lr < 2 ^ 64 -> 0 <= a_xregs e fp < 2 ^ 64 ->
  stub_spec code nr arg v.
Proof.
  intros e sp Hin H64 Htf Hal Hsp Hmap Hlr Hfp. unfold stub_spec. fold e. fold sp.
  set (a := a_xregs (with_cbret arg e)).
  destruct (a64_stub_shape code nr arg Hin) as (i & rest & Hcode & Htrap & Hrest).
  destruct (a64_push_frame e (v_mem v) rest Hsp Hmap Hlr Hfp) as (m' & Hpush & Hl0 & Hl8).
  fold sp in Hl0, Hl8. destruct (a64_trapped_regs code nr arg i e Hin) as (Ha64 & _ & Hsp' & Hregs).
  fold sp in Hsp'. fold a in Hregs. rewrite H64 in Ha64.
  exists i, m', (set_mem m' (set_env (trapped nr arg i e) v)). split; [done|]. cbv zeta.
  assert (Z.land (sp - 16) 0xF = 0) as Hland.
  { change 0xF with (Z.ones 4). rewrite Z.land_ones by lia.
    change (2 ^ 4) with 16. Z.to_euclidean_division_equations. lia. }
  assert (load 8 (u64 (sp - 16 + 8)) m' = Some (a_xregs e lr)) as Hld.
  { rewrite wrap_small by lia. by replace (sp - 16 + 8) with (sp - 8) by lia. }
  set (r := a_xregs (trapped nr arg i e)) in *.
  split_and!.
  - rewrite Hcode, Hpush. apply Htrap.
  - intros q sf Hx Hs. by apply (trap_handed_a64 q sf v _ code nr arg i).
  - change (call_ctx _) with (_ ← check "env->aarch64" (a_aarch64 (trapped nr arg i e));
      _ ← check "(sp & 0xf) == 0" (Z.land (r sp_reg) 0xF =? 0);
      ra ← of_option "sp + 8" (load 8 (u64 (r sp_reg + 8)) m');
      Ok (CtxCall (r 0%nat) (u32 (r 1%nat)) (r 2%nat) (r 3%nat) (r 4%nat) (r 5%nat)
            (u64 (r sp_reg - 64)) 64)).
    rewrite Ha64, Hsp', Hland, Hld, !Hregs by lia. done.
  - change (call_grt_ctx _) with (_ ← check "env->aarch64" (a_aarch64 (trapped nr arg i e));
      _ ← check "(sp & 0xf) == 0" (Z.land (r sp_reg) 0xF =? 0);
      ra ← of_option "sp + 8" (load 8 (u64 (r sp_reg + 8)) m');
      Ok (CtxCallGrt (r 0%nat) (u32 (r 1%nat)) (r 2%nat) (r 3%nat) (u64 (r sp_reg - 64)) 64)).
    rewrite Ha64, Hsp', Hland, Hld, !Hregs by lia. done.
  - intros e2 m2 Hsp2 Hm2. unfold resume. rewrite Hrest.
    rewrite (a64_pop_frame (S i) [RET] e2 m2 (a_xregs e fp) (a_xregs e lr)); rewrite ?Hsp2; [| | |lia|].
    + eexists; split; [reflexivity|]. split; [done|].
      split; [change (sp - 16 + 16 = sp); lia|]. split; [done|].
      intros k Hr1 Hr2 Hr3. cbn. by rewrite !fn_lookup_insert_ne by congruence.
    + rewrite <- Hl0. apply load_ext. intros x Hx. apply Hm2. lia.
    + rewrite <- Hl8. replace (sp - 16 + 8) with (sp - 8) by lia. apply load_ext.
      intros x Hx. apply Hm2. lia.
    + lia.
Qed.

(** What the callback function does when the emulator enters it in [v1], with
    the callback's context saved at [ctx]: it calls the guest's stub with the
    arguments the host gave, on an aligned stack; and once the stub has
    returned, with the stack above it untouched, it makes the return system
    call in just the state from which the emulator goes back to the host
    code. *)
Definition callback_spec (cbStub func retPad argPad ctx : Z) (v1 : vm CPUARMState K) : Prop :=
  a_pc (v_env v1) = cbret /\
  exists e' m', go __gyh_callback_return__ 0 (v_env v1) (v_mem v1) = Ok (CallOut 2 e' m') /\
    a_pc e' = cbStub /\ a_xregs e' 0%nat = retPad /\ a_xregs e' 1%nat = argPad /\
    a_xregs e' 2%nat = func /\ a_xregs e' sp_reg mod 16 = 0 /\ a_xregs e' lr = addr 3 /\
    forall e2 m2, a_aarch64 e2 = true -> a_xregs e2 sp_reg = a_xregs e' sp_reg ->
      (forall x, a_xregs e' sp_reg <= x < ctx -> m2 !! x = m' !! x) ->
      exists e3, resume exec __gyh_callback_return__ 2 e2 m2 = Ok (Trap 5 e3 m2) /\
        a_xregs e3 8%nat = GYH_NR__gyh_callback_return__ /\
        cb_returned v1 (set_mem m2 (set_env e3 v1)).

Lemma a64_callback_stub cbStub func retPad argPad stk (v : vm CPUARMState K) sp ctx v1 :
  0 <= stk -> stk + 16 < 2 ^ 64 -> 16 <= ctx_addr stk ->
  mapped 16 (ctx_addr stk - 16) (v_mem v) -> 0 <= a_pc (v_env v) < 2 ^ 64 ->
  0 <= a_xregs (v_env v) fp < 2 ^ 64 ->
  enter_cb cbret cbStub func retPad argPad stk v = Ok (sp, ctx, v1) ->
  callback_spec cbStub func retPad argPad ctx v1.
Proof.
  intros H0 H1 H16 Hmap Hpc Hfp He. unfold enter_cb in He. inv_ok. simplify_eq.
  destruct (a64_ctx_addr_bounds stk H0 H1) as [Hmod Hb]. set (C := ctx_addr stk) in *.
  split; [done|]. set (e1 := cb_env cbret cbStub func retPad argPad stk (v_env v)).
  assert (a_xregs e1 sp_reg = C) as Hsp1 by done.
  destruct (a64_push_frame e1 (v_mem v) (drop 2 __gyh_callback_return__)) as (m' & Hpush & Hl0 & Hl8);
    rewrite ?Hsp1 in *; [lia|done|done|done|].
  exists (set_pc cbStub (set_x lr (addr 3) (framed e1))), m'. split; [exact Hpush|].
  set (e' := set_pc cbStub _). assert (a_xregs e' sp_reg = C - 16) as Hsp' by done. rewrite Hsp'.
  split_and!; [done..| |done|].
  - Z.to_euclidean_division_equations; lia.
  - intros e2 m2 H64 He2 Hm2. eexists. split.
    { unfold resume. cbn [drop __gyh_callback_return__].
      rewrite (a64_pop_frame 3 [MOVW 8 50906; SVC] e2 m2 (a_xregs e1 fp) (a_xregs e1 lr));
        rewrite ?He2; [reflexivity| | |lia|lia].
      - rewrite <- Hl0. apply load_ext. intros x Hx. apply Hm2. lia.
      - rewrite <- Hl8. replace (C - 16 + 8) with (C - 8) by lia. apply load_ext.
        intros x Hx. apply Hm2. lia. }
    split; [done|]. split; [|split; [|done]].
    + change (a_aarch64 e2 = a_aarch64 (v_env v)). congruence.
    + change (C - 16 + 16 = C). lia.
Qed.

(** C33: the guest runtime and the emulator fit together on aarch64. Every stub
    that makes a system call, called as a C function, hands the emulator what
    its handler expects and returns to its caller; and the callback function,
    entered by the emulator, runs the guest's stub and comes back to the
    return system call in the state the emulator needs. *)
Theorem a64_guest_rt :
  (forall code nr arg v, (code, nr, arg) ∈ syscall_stubs ->
     let e := v_env v in
     let sp := a_xregs e sp_reg in
     a_aarch64 e = true -> a_tfsr_el0 e = 0 ->
     sp mod 16 = 0 -> 16 <= sp < 2 ^ 64 -> mapped 16 (sp - 16) (v_mem v) ->
     0 <= a_xregs e lr < 2 ^ 64 -> 0 <= a_xregs e fp < 2 ^ 64 ->
     stub_spec code nr arg v) /\
  (forall cbStub func retPad argPad stk v sp ctx v1,
     0 <= stk -> stk + 16 < 2 ^ 64 -> 16 <= ctx_addr stk ->
     mapped 16 (ctx_addr stk - 16) (v_mem v) -> 0 <= a_pc (v_env v) < 2 ^ 64 ->
     0 <= a_xregs (v_env v) fp < 2 ^ 64 ->
     enter_cb cbret cbStub func retPad argPad stk v = Ok (sp, ctx, v1) ->
     callback_spec cbStub func retPad argPad ctx v1).
Proof.
  split.
  - intros. by apply a64_stub_syscalls.
  - intros cbStub func retPad argPad stk v sp ctx v1 H0 H1 H2 H3 H4 H5 He.
    by apply (a64_callback_stub cbStub func retPad argPad stk v sp).
Qed.
End exec.

(** ** Examples *)
Module ToyStubA64.
Definition x0 : nat -> Z := <[sp_reg := 0x7110]> (<[lr := 0x400100]> (fun _ => 0)).
Definition v : vm CPUARMState unit :=
  mk_vm (mk_arm x0 0x400000 0 0 0 0 true) tt (zeros 0x7000 0x120) (mk_breakdown 0 0 0 0 0) [].
Definition addr (i : nat) : Z := 0x6000 + 4 * Z.of_nat i.

Lemma a64_guest_rt_witness :
  stub_spec 0x5000 0x8000 addr __gyh_call__ GYH_NR__gyh_call__ None v /\
  exists sp ctx v1, enter_cb 0x5000 12 13 14 15 0x7060 v = Ok (sp, ctx, v1) /\
    callback_spec 0x5000 0x8000 addr 12 13 14 15 ctx v1.
Proof.
  destruct (a64_guest_rt (K := unit) 0x5000 0x8000 addr) as [H1 H2]. split.
  - apply H1; [do 3 constructor|reflexivity|reflexivity|reflexivity|split; [discriminate|reflexivity]
      |apply mapped_compute; vm_compute; reflexivity|split; [discriminate|reflexivity]
      |split; [discriminate|reflexivity]].
  - destruct (enter_cb 0x5000 12 13 14 15 0x7060 v) as [[[sp ctx] v1]| |] eqn:He;
      [|vm_compute in He; discriminate He..].
    exists sp, ctx, v1. split; [reflexivity|]. apply (H2 12 13 14 15 0x7060 v sp ctx v1);
      [discriminate|reflexivity|discriminate|apply mapped_compute; vm_compute; reflexivity
      |split; [discriminate|reflexivity]|split; [discriminate|reflexivity]|exact He].
Defined.
End ToyStubA64.
End AsmA64.
