(* ===== verification/AsmRv64.v ===== *)
(** * The guest runtime on riscv64

    Models [lib/guest_rt/riscv64.s] and shows that its stubs and the emulator
    ([ArchRv64]) agree on registers, stack and return addresses. *)

From S2P Require Import Prelude CMem Qlib Machine ArchRv64 GuestAsm.
#[local] Open Scope string_scope.
#[local] Open Scope Z_scope.

Module AsmRv64.
Import Rv64.

(** ** Instructions *)

Definition xS0 : nat := 8.

Inductive instr :=
| ADDI (rd rs : nat) (imm : Z)
| SD (rs : nat) (off : Z) (base : nat)
| LD (rd : nat) (off : Z) (base : nat)
| MV (rd rs : nat)
| LA (rd : nat)               (* the address of __gyh_callback_return__ *)
| LI (rd : nat) (n : Z)
| ECALL
| JALR (rs : nat)
| RET.

Section exec.
(** The address of [__gyh_callback_return__], and that of the instruction with
    a given index in the stub. *)
Context (cbret : Z) (addr : nat -> Z).

(** The target of a jump to a register. *)
Definition target (z : Z) : Z := Z.land z (Z.lnot 1).

Definition exec (i : nat) (ins : instr) (e : CPURISCVState) (m : cmem)
    : result (CPURISCVState * cmem + outcome CPURISCVState) :=
  match ins with
  | ADDI rd rs imm => Ok (inl (set_gpr rd (u64 (r_gpr e rs + imm)) e, m))
  | SD rs off base =>
      m ← of_option "sd" (store 8 (u64 (r_gpr e base + off)) (r_gpr e rs) m); Ok (inl (e, m))
  | LD rd off base =>
      v ← of_option "ld" (load 8 (u64 (r_gpr e base + off)) m); Ok (inl (set_gpr rd v e, m))
  | MV rd rs => Ok (inl (set_gpr rd (r_gpr e rs) e, m))
  | LA rd => Ok (inl (set_gpr rd cbret e, m))
  | LI rd n => Ok (inl (set_gpr rd n e, m))
  | ECALL => Ok (inr (Trap i (set_pc (addr i) e) m))
  | JALR rs => Ok (inr (CallOut i (set_pc (target (r_gpr e rs)) (set_gpr xRA (addr (S i)) e)) m))
  | RET => Ok (inr (Return (set_pc (target (r_gpr e xRA)) e) m))
  end.

(** ** The stubs *)

Definition __gyh_ctor__ : list instr :=
  [ADDI xSP xSP (-16); SD xRA 8 xSP; SD xS0 0 xSP; MV xS0 xSP; LA xA1; LI xA7 50046; ECALL;
   LD xS0 0 xSP; LD xRA 8 xSP; ADDI xSP xSP 16; RET].

Definition __gyh_dtor__ : list instr :=
  [ADDI xSP xSP (-16); SD xRA 8 xSP; SD xS0 0 xSP; MV xS0 xSP; LI xA7 50096; ECALL;
   LD xS0 0 xSP; LD xRA 8 xSP; ADDI xSP xSP 16; RET].

Definition __gyh_call__ : list instr :=
  [ADDI xSP xSP (-16); SD xRA 8 xSP; SD xS0 0 xSP; MV xS0 xSP; LI xA7 50406; ECALL;
   LD xS0 0 xSP; LD xRA 8 xSP; ADDI xSP xSP 16; RET].

Definition __gyh_callback_return__ : list instr :=
  [ADDI xSP xSP (-16); SD xRA 8 xSP; SD xS0 0 xSP; MV xS0 xSP; JALR xA3;
   LD xS0 0 xSP; LD xRA 8 xSP; ADDI xSP xSP 16; LI xA7 50906; ECALL].

Definition __gyh_ctor_grt__ : list instr :=
  [ADDI xSP xSP (-16); SD xRA 8 xSP; SD xS0 0 xSP; MV xS0 xSP; LA xA3; LI xA7 51046; ECALL;
   LD xS0 0 xSP; LD xRA 8 xSP; ADDI xSP xSP 16; RET].

Definition __gyh_call_grt__ : list instr :=
  [ADDI xSP xSP (-16); SD xRA 8 xSP; SD xS0 0 xSP; MV xS0 xSP; LI xA7 51406; ECALL;
   LD xS0 0 xSP; LD xRA 8 xSP; ADDI xSP xSP 16; RET].

Definition __gyh_ctor_fcp_cm__ : list instr :=
  [ADDI xSP xSP (-16); SD xRA 8 xSP; SD xS0 0 xSP; MV xS0 xSP; LA xA5; LI xA7 52046; ECALL;
   LD xS0 0 xSP; LD xRA 8 xSP; ADDI xSP xSP 16; RET].

Abbreviation go := (run exec).

(** ** Correctness *)

(** The stubs that make a system call and return, with its number and the
    register they pass the callback function in. *)
Definition syscall_stubs : list (list instr * Z * option nat) :=
  [(__gyh_ctor__, GYH_NR__gyh_ctor__, Some xA1);
   (__gyh_dtor__, GYH_NR__gyh_dtor__, None);
   (__gyh_call__, GYH_NR__gyh_call__, None);
   (__gyh_ctor_grt__, GYH_NR__gyh_ctor_grt__, Some xA3);
   (__gyh_call_grt__, GYH_NR__gyh_call_grt__, None);
   (__gyh_ctor_fcp_cm__, GYH_NR__gyh_ctor_fcp_cm__, Some xA5)].

Definition with_cbret (arg : option nat) (e : CPURISCVState) : CPURISCVState :=
  match arg with Some r => set_gpr r cbret e | None => e end.

(** After the first four instructions. *)
Definition framed (e : CPURISCVState) : CPURISCVState :=
  let sp := r_gpr e xSP - 16 in set_gpr xS0 sp (set_gpr xSP sp e).

(** The registers at the trap. *)
Definition trapped (nr : Z) (arg : option nat) (i : nat) (e : CPURISCVState) : CPURISCVState :=
  set_pc (addr i) (set_gpr xA7 nr (with_cbret arg (framed e))).

(** A frame of 16 bytes: return address and frame pointer. *)
Lemma push_frame e m rest :
  16 <= r_gpr e xSP < 2 ^ 64 -> mapped 16 (r_gpr e xSP - 16) m ->
  0 <= r_gpr e xRA < 2 ^ 64 -> 0 <= r_gpr e xS0 < 2 ^ 64 ->
  exists m', go (ADDI xSP xSP (-16) :: SD xRA 8 xSP :: SD xS0 0 xSP :: MV xS0 xSP :: rest) 0 e m =
      go rest 4 (framed e) m' /\
    load 8 (r_gpr e xSP - 16) m' = Some (r_gpr e xS0) /\
    load 8 (r_gpr e xSP - 8) m' = Some (r_gpr e xRA) /\
    forall x, ~ (r_gpr e xSP - 16 <= x < r_gpr e xSP) -> m' !! x = m !! x.
Proof.
  intros Hsp Hm Hra Hs0. set (sp := r_gpr e xSP) in *.
  destruct (store_Some 8 (sp - 8) (r_gpr e xRA) m) as [m1 H1]; [intros x Hx; apply Hm; lia|].
  destruct (store_Some 8 (sp - 16) (r_gpr e xS0) m1) as [m2 H2].
  { apply (mapped_store _ _ _ _ _ _ _ H1). intros x Hx. apply Hm. lia. }
  set (e1 := set_gpr xSP (sp - 16) e).
  assert (exec 0 (ADDI xSP xSP (-16)) e m = Ok (inl (e1, m))) as X0.
  { cbn [exec]. fold sp. rewrite wrap_small by lia. by replace (sp + -16) with (sp - 16) by lia. }
  assert (exec 1 (SD xRA 8 xSP) e1 m = Ok (inl (e1, m1))) as X1.
  { cbn [exec]. change (r_gpr e1 xSP) with (sp - 16). rewrite wrap_small by lia.
    replace (sp - 16 + 8) with (sp - 8) by lia. change (r_gpr e1 xRA) with (r_gpr e xRA). by rewrite H1. }
  assert (exec 2 (SD xS0 0 xSP) e1 m1 = Ok (inl (e1, m2))) as X2.
  { cbn [exec]. change (r_gpr e1 xSP) with (sp - 16). rewrite Z.add_0_r, wrap_small by lia.
    change (r_gpr e1 xS0) with (r_gpr e xS0). by rewrite H2. }
  exists m2. split_and!.
  - cbn [run]. rewrite X0. cbn [mbind result_bind]. rewrite X1. cbn [mbind result_bind].
    rewrite X2. reflexivity.
  - rewrite (load_store_u64 _ _ _ _ H2). by rewrite wrap_small.
  - rewrite (load_store_other _ _ _ _ _ 8 (sp - 8) H2) by lia.
    rewrite (load_store_u64 _ _ _ _ H1). by rewrite wrap_small.
  - intros x Hx. rewrite (store_outside _ _ _ _ _ H2) by lia. apply (store_outside _ _ _ _ _ H1). lia.
Qed.

(** The frame taken down. *)
Definition unframed (s0 ra sp : Z) (e : CPURISCVState) : CPURISCVState :=
  set_gpr xSP sp (set_gpr xRA ra (set_gpr xS0 s0 e)).

Lemma pop_frame i rest e m s0 ra :
  load 8 (r_gpr e xSP) m = Some s0 -> load 8 (r_gpr e xSP + 8) m = Some ra ->
  0 <= r_gpr e xSP -> r_gpr e xSP + 16 < 2 ^ 64 ->
  go (LD xS0 0 xSP :: LD xRA 8 xSP :: ADDI xSP xSP 16 :: rest) i e m =
  go rest (S (S (S i))) (unframed s0 ra (r_gpr e xSP + 16) e) m.
Proof.
  intros H1 H2 H0 H3. set (sp := r_gpr e xSP) in *.
  assert (exec i (LD xS0 0 xSP) e m = Ok (inl (set_gpr xS0 s0 e, m))) as X0.
  { cbn [exec]. fold sp. rewrite Z.add_0_r, wrap_small by lia. by rewrite H1. }
  assert (exec (S i) (LD xRA 8 xSP) (set_gpr xS0 s0 e) m =
          Ok (inl (set_gpr xRA ra (set_gpr xS0 s0 e), m))) as X1.
  { cbn [exec]. change (r_gpr (set_gpr xS0 s0 e) xSP) with sp. rewrite wrap_small by lia. by rewrite H2. }
  cbn [run]. rewrite X0. cbn [mbind result_bind]. rewrite X1. cbn [mbind result_bind exec].
  change (r_gpr (set_gpr xRA _ _) xSP) with sp. by rewrite wrap_small by lia.
Qed.

Lemma target_even z : Z.even z = true -> target z = z.
Proof.
  intros Hz. unfold target. rewrite <- Z.ldiff_land. change 1 with (Z.ones 1).
  rewrite Z.ldiff_ones_r by lia. rewrite Z.shiftl_mul_pow2, Z.shiftr_div_pow2 by lia.
  change (2 ^ 1) with 2. apply Z.even_spec in Hz as [k ->]. rewrite (Z.mul_comm 2 k), Z.div_mul by lia. lia.
Qed.

(** Where the stubs trap. *)
Lemma stub_shape code nr arg :
  (code, nr, arg) ∈ syscall_stubs ->
  exists i rest,
    code = ADDI xSP xSP (-16) :: SD xRA 8 xSP :: SD xS0 0 xSP :: MV xS0 xSP :: rest /\
    (forall e m, go rest 4 (framed e) m = Ok (Trap i (trapped nr arg i e) m)) /\
    drop (S i) code = [LD xS0 0 xSP; LD xRA 8 xSP; ADDI xSP xSP 16; RET].
Proof.
  intros Hin. unfold syscall_stubs in Hin. rewrite !elem_of_cons, elem_of_nil in Hin.
  destruct_or!; simplify_eq; try done;
    [exists 6%nat|exists 5%nat|exists 5%nat|exists 6%nat|exists 5%nat|exists 6%nat];
    eexists; (split; [reflexivity|]); (split; [|reflexivity]); reflexivity.
Qed.

(** The argument registers at the trap. *)
Lemma trapped_gprs code nr arg i e :
  (code, nr, arg) ∈ syscall_stubs ->
  r_gpr (trapped nr arg i e) xSP = r_gpr e xSP - 16 /\
  forall r, r ∈ [xA0; xA1; xA2; xA3; xA4; xA5] ->
    r_gpr (trapped nr arg i e) r = r_gpr (with_cbret arg e) r.
Proof.
  intros Hin. unfold syscall_stubs in Hin. rewrite !elem_of_cons, elem_of_nil in Hin.
  destruct_or!; simplify_eq; try done; (split; [done|]); intros r Hr;
    rewrite !elem_of_cons, elem_of_nil in Hr; by destruct_or!; subst.
Qed.

Context {K : Type}.

Lemma trap_handed_rv (q : qemu_ops CPURISCVState K) sf v v' code nr arg i :
  let v'' := upd (set_pc (u64 (addr i + 4))) v' in
  (code, nr, arg) ∈ syscall_stubs -> Z.land (r_elf_flags (v_env v)) EF_RISCV_RVE = 0 ->
  cpu_exec q v = (RISCV_EXCP_U_ECALL, v') -> v_env v' = trapped nr arg i (v_env v) ->
  process_pending_signals q v'' = v'' ->
  let a := r_gpr (with_cbret arg (v_env v)) in
  gyh_do_cpu q sf v = Ok (mk_DoSyscall nr (a xA0) (a xA1) (a xA2) (a xA3) (a xA4) (a xA5), v'').
Proof.
  intros v'' Hin Hfl Hx Henv Hs a. unfold gyh_do_cpu. rewrite Hx.
  lazy beta iota zeta delta [RISCV_EXCP_U_ECALL EXCP_INTERRUPT EXCP_ATOMIC Z.eqb Pos.eqb].
  assert (nr_reg (upd (set_pc (u64 (r_pc (v_env v') + 4))) v') = xA7) as Hnr.
  { unfold nr_reg. cbn. rewrite Henv.
    assert (r_elf_flags (trapped nr arg i (v_env v)) = r_elf_flags (v_env v)) as -> by by destruct arg.
    by rewrite Hfl. }
  rewrite Hnr. destruct v' as [e' kern m bd rep]. cbn in Henv. subst e'.
  unfold syscall_stubs in Hin. rewrite !elem_of_cons, elem_of_nil in Hin.
  destruct_or!; simplify_eq; try done;
    match goal with |- _ = Ok (?g, ?w) =>
      transitivity (Ok (g, process_pending_signals q w)); [reflexivity|by rewrite Hs]
    end.
Qed.

(** What such a stub does when it is called in [v]: it pushes a frame and
    traps with the number and the arguments that the emulator then hands to
    its handler, with the stack as the call handlers assert it; and when the
    emulator lets the guest go on, it returns to its caller with the stack
    pointer, frame pointer and return address restored. *)
Definition stub_spec (code : list instr) (nr : Z) (arg : option nat) (v : vm CPURISCVState K) : Prop :=
  let e := v_env v in
  let sp := r_gpr e xSP in
  let a := r_gpr (with_cbret arg e) in
  exists i m' v', v' = set_mem m' (set_env (trapped nr arg i e) v) /\
    let v'' := upd (set_pc (u64 (addr i + 4))) v' in
    go code 0 e (v_mem v) = Ok (Trap i (v_env v') m') /\
    (forall q sf, cpu_exec q v = (RISCV_EXCP_U_ECALL, v') -> process_pending_signals q v'' = v'' ->
      gyh_do_cpu q sf v =
      Ok (mk_DoSyscall nr (a xA0) (a xA1) (a xA2) (a xA3) (a xA4) (a xA5), v'')) /\
    call_ctx v'' = Ok (CtxCall (a xA0) (u32 (a xA1)) (a xA2) (a xA3) (a xA4) (a xA5)
                         (u64 (sp - 16 - 64)) 64) /\
    call_grt_ctx v'' =
      Ok (CtxCallGrt (a xA0) (u32 (a xA1)) (a xA2) (a xA3) (u64 (sp - 16 - 64)) 64) /\
    (forall e2 m2, r_gpr e2 xSP = sp - 16 ->
      (forall x, sp - 16 <= x < sp -> m2 !! x = m' !! x) ->
      exists e3, resume exec code i e2 m2 = Ok (Return e3 m2) /\
        r_pc e3 = r_gpr e xRA /\ r_gpr e3 xSP = sp /\ r_gpr e3 xS0 = r_gpr e xS0 /\
        forall r, r <> xSP -> r <> xS0 -> r <> xRA -> r_gpr e3 r = r_gpr e2 r).

Lemma rv64_stub_syscalls code nr arg v :
  let e := v_env v in
  let sp := r_gpr e xSP in
  (code, nr, arg) ∈ syscall_stubs -> Z.land (r_elf_flags e) EF_RISCV_RVE = 0 ->
  sp mod 16 = 0 -> 16 <= sp < 2 ^ 64 -> mapped 16 (sp - 16) (v_mem v) ->
  0 <= r_gpr e xRA < 2 ^ 64 -> 0 <= r_gpr e xS0 < 2 ^ 64 -> Z.even (r_gpr e xRA) = true ->
  stub_spec code nr arg v.
Proof.
  intros e sp Hin Hfl Hal Hsp Hmap Hra Hs0 Heven. unfold stub_spec. fold e. fold sp.
  set (a := r_gpr (with_cbret arg e)).
  destruct (stub_shape code nr arg Hin) as (i & rest & Hcode & Htrap & Hrest).
  destruct (push_frame e (v_mem v) rest Hsp Hmap Hra Hs0) as (m' & Hpush & Hl0 & Hl8 & _).
  fold sp in Hl0, Hl8. destruct (trapped_gprs code nr arg i e Hin) as [Hsp' Hregs].
  fold sp in Hsp'. fold a in Hregs.
  exists i, m', (set_mem m' (set_env (trapped nr arg i e) v)). split; [done|]. cbv zeta.
  assert (Z.land (sp - 16) 0xF = 0) as Hland.
  { change 0xF with (Z.ones 4). rewrite Z.land_ones by lia.
    change (2 ^ 4) with 16. Z.to_euclidean_division_equations. lia. }
  assert (load 8 (u64 (sp - 16 + 8)) m' = Some (r_gpr e xRA)) as Hld.
  { rewrite wrap_small by lia. by replace (sp - 16 + 8) with (sp - 8) by lia. }
  split_and!.
  - rewrite Hcode, Hpush. apply Htrap.
  - intros q sf Hx Hs. by apply (trap_handed_rv q sf v _ code nr arg i).
  - set (r := r_gpr (trapped nr arg i e)) in *.
    change (call_ctx _) with (_ ← check "(sp & 0xf) == 0" (Z.land (r xSP) 0xF =? 0);
      ra ← of_option "sp + 8" (load 8 (u64 (r xSP + 8)) m');
      Ok (CtxCall (r xA0) (u32 (r xA1)) (r xA2) (r xA3) (r xA4) (r xA5) (u64 (r xSP - 64)) 64)).
    rewrite Hsp', Hland, Hld, !Hregs by (repeat constructor). done.
  - set (r := r_gpr (trapped nr arg i e)) in *.
    change (call_grt_ctx _) with (_ ← check "(sp & 0xf) == 0" (Z.land (r xSP) 0xF =? 0);
      ra ← of_option "sp + 8" (load 8 (u64 (r xSP + 8)) m');
      Ok (CtxCallGrt (r xA0) (u32 (r xA1)) (r xA2) (r xA3) (u64 (r xSP - 64)) 64)).
    rewrite Hsp', Hland, Hld, !Hregs by (repeat constructor). done.
  - intros e2 m2 Hsp2 Hm2. unfold resume. rewrite Hrest.
    rewrite (pop_frame (S i) [RET] e2 m2 (r_gpr e xS0) (r_gpr e xRA)); rewrite ?Hsp2; [| | |lia|].
    + eexists; split; [reflexivity|]. cbn [r_pc set_pc].
      change (r_gpr (unframed _ _ _ _) xRA) with (r_gpr e xRA). split; [by apply target_even|].
      split; [change (sp - 16 + 16 = sp); lia|]. split; [done|].
      intros r Hr1 Hr2 Hr3. cbn. by rewrite !fn_lookup_insert_ne by congruence.
    + rewrite <- Hl0. apply load_ext. intros x Hx. apply Hm2. lia.
    + rewrite <- Hl8. replace (sp - 16 + 8) with (sp - 8) by lia. apply load_ext.
      intros x Hx. apply Hm2. lia.
    + lia.
Qed.

(** What the callback function does when the emulator enters it in [v1], with
    the callback's context saved at [ctx]: it calls the guest's stub with the
    arguments the host gave, on an aligned stack; and once the stub has
    returned, with the stack above it untouched, it makes the return system
    call in just the state from which the emulator goes back to the host
    code. *)
Definition callback_spec (cbStub func retPad argPad ctx : Z) (v1 : vm CPURISCVState K) : Prop :=
  r_pc (v_env v1) = cbret /\
  exists e' m', go __gyh_callback_return__ 0 (v_env v1) (v_mem v1) = Ok (CallOut 4 e' m') /\
    r_pc e' = cbStub /\ r_gpr e' xA0 = retPad /\ r_gpr e' xA1 = argPad /\
    r_gpr e' xA2 = func /\ r_gpr e' xSP mod 16 = 0 /\ r_gpr e' xRA = addr 5 /\
    forall e2 m2, r_gpr e2 xSP = r_gpr e' xSP ->
      (forall x, r_gpr e' xSP <= x < ctx -> m2 !! x = m' !! x) ->
      exists e3, resume exec __gyh_callback_return__ 4 e2 m2 = Ok (Trap 9 e3 m2) /\
        r_gpr e3 xA7 = GYH_NR__gyh_callback_return__ /\
        cb_returned v1 (set_mem m2 (set_env e3 v1)).

Lemma rv64_callback_stub cbStub func retPad argPad stk (v : vm CPURISCVState K) sp ctx v1 :
  0 <= stk -> stk + 16 < 2 ^ 64 -> 16 <= ctx_addr stk ->
  mapped 16 (ctx_addr stk - 16) (v_mem v) -> 0 <= r_pc (v_env v) < 2 ^ 64 ->
  0 <= r_gpr (v_env v) xS0 < 2 ^ 64 -> Z.even cbStub = true ->
  enter_cb cbret cbStub func retPad argPad stk v = Ok (sp, ctx, v1) ->
  callback_spec cbStub func retPad argPad ctx v1.
Proof.
  intros H0 H1 H16 Hmap Hpc Hs0 Heven He. unfold enter_cb in He. injection He as <- <- <-.
  destruct (rv64_ctx_addr_bounds stk H0 H1) as [Hmod Hb]. set (C := ctx_addr stk) in *.
  split; [done|]. set (e1 := cb_env cbret cbStub func retPad argPad stk (v_env v)).
  assert (r_gpr e1 xSP = C) as Hsp1 by done.
  destruct (push_frame e1 (v_mem v) (drop 4 __gyh_callback_return__)) as (m' & Hpush & Hl0 & Hl8 & _);
    rewrite ?Hsp1 in *; [lia|done|done|done|].
  exists (set_pc cbStub (set_gpr xRA (addr 5) (framed e1))), m'. split.
  { change (go __gyh_callback_return__ 0 e1 (v_mem v) =
      Ok (CallOut 4 (set_pc cbStub (set_gpr xRA (addr 5) (framed e1))) m')).
    transitivity (Ok (CallOut 4 (set_pc (target cbStub) (set_gpr xRA (addr 5) (framed e1))) m'));
      [exact Hpush|by rewrite target_even]. }
  set (e' := set_pc cbStub _). assert (r_gpr e' xSP = C - 16) as Hsp' by done. rewrite Hsp'.
  split_and!; [done..| |done|].
  - Z.to_euclidean_division_equations; lia.
  - intros e2 m2 He2 Hm2. eexists. split.
    { unfold resume. cbn [drop __gyh_callback_return__].
      rewrite (pop_frame 5 [LI xA7 50906; ECALL] e2 m2 (r_gpr e1 xS0) (r_gpr e1 xRA));
        rewrite ?He2; [reflexivity| | |lia|lia].
      - rewrite <- Hl0. apply load_ext. intros x Hx. apply Hm2. lia.
      - rewrite <- Hl8. replace (C - 16 + 8) with (C - 8) by lia. apply load_ext.
        intros x Hx. apply Hm2. lia. }
    split; [done|]. split; [|done]. change (C - 16 + 16 = C). lia.
Qed.

(** C34: the guest runtime and the emulator fit together on riscv64. Every stub
    that makes a system call, called as a C function, hands the emulator what
    its handler expects and returns to its caller; and the callback function,
    entered by the emulator, runs the guest's stub and comes back to the
    return system call in the state the emulator needs. *)
Theorem rv64_guest_rt :
  (forall code nr arg v, (code, nr, arg) ∈ syscall_stubs ->
     let e := v_env v in
     let sp := r_gpr e xSP in
     Z.land (r_elf_flags e) EF_RISCV_RVE = 0 ->
     sp mod 16 = 0 -> 16 <= sp < 2 ^ 64 -> mapped 16 (sp - 16) (v_mem v) ->
     0 <= r_gpr e xRA < 2 ^ 64 -> 0 <= r_gpr e xS0 < 2 ^ 64 -> Z.even (r_gpr e xRA) = true ->
     stub_spec code nr arg v) /\
  (forall cbStub func retPad argPad stk v sp ctx v1,
     0 <= stk -> stk + 16 < 2 ^ 64 -> 16 <= ctx_addr stk ->
     mapped 16 (ctx_addr stk - 16) (v_mem v) -> 0 <= r_pc (v_env v) < 2 ^ 64 ->
     0 <= r_gpr (v_env v) xS0 < 2 ^ 64 -> Z.even cbStub = true ->
     enter_cb cbret cbStub func retPad argPad stk v = Ok (sp, ctx, v1) ->
     callback_spec cbStub func retPad argPad ctx v1).
Proof.
  split.
  - intros. by apply rv64_stub_syscalls.
  - intros cbStub func retPad argPad stk v sp ctx v1 H0 H1 H2 H3 H4 H5 H6 He.
    by apply (rv64_callback_stub cbStub func retPad argPad stk v sp).
Qed.
End exec.

(** ** Examples *)
Module ToyStubRv.
Definition gpr0 : nat -> Z := <[xSP := 0x7110]> (<[xRA := 0x400100]> (fun _ => 0)).
Definition v : vm CPURISCVState unit :=
  mk_vm (mk_rv gpr0 0x400000 0 false) tt (zeros 0x7000 0x120) (mk_breakdown 0 0 0 0 0) [].
Definition addr (i : nat) : Z := 0x6000 + 4 * Z.of_nat i.

Lemma rv64_guest_rt_witness :
  stub_spec 0x5000 addr __gyh_call__ GYH_NR__gyh_call__ None v /\
  exists sp ctx v1, enter_cb 0x5000 12 13 14 15 0x7060 v = Ok (sp, ctx, v1) /\
    callback_spec 0x5000 addr 12 13 14 15 ctx v1.
Proof.
  destruct (rv64_guest_rt (K := unit) 0x5000 addr) as [H1 H2]. split.
  - apply H1; [do 3 constructor|reflexivity|reflexivity|split; [discriminate|reflexivity]
      |apply mapped_compute; vm_compute; reflexivity|split; [discriminate|reflexivity]
      |split; [discriminate|reflexivity]|reflexivity].
  - destruct (enter_cb 0x5000 12 13 14 15 0x7060 v) as [[[sp ctx] v1]| |] eqn:He;
      [|vm_compute in He; discriminate He..].
    exists sp, ctx, v1. split; [reflexivity|]. apply (H2 12 13 14 15 0x7060 v sp ctx v1);
      [discriminate|reflexivity|discriminate|apply mapped_compute; vm_compute; reflexivity
      |split; [discriminate|reflexivity]|split; [discriminate|reflexivity]|reflexivity|exact He].
Defined.
End ToyStubRv.
End AsmRv64.
