(* ===== verification/CpuLoop.v ===== *)
(** * The CPU loop

    Models [gyh_cpu_loop], [gyh_do_call] and [gyh_do_call_grt] of
    [qemu/linux-user/+gyh/gyh.c] over any architecture ([GuestArch]), and
    shows that the loop, which switches contexts through one global pointer
    and contexts kept in guest stack memory, implements an abstract machine
    in which guest and host frames nest on one stack. *)

From S2P Require Import Prelude CMem Qlib Machine.
#[local] Open Scope string_scope.
#[local] Open Scope Z_scope.

Section loop.
Context {E K : Type} `{GA : !GuestArch E K}.
Context (dl : dlfcn) (dir : string) (pageSize : Z).

(** The host code at an address, as a function of its arguments and memory. *)
Context (hostcode : Z -> option (list Z -> cmem -> hstep)).

Abbreviation vm := (vm E K).
Abbreviation mach := (mach E K).

(** ** Host code *)

(** The host side runs until it returns, which is where
    [setcontext(&gyh_cpu_loop_ctx)] goes back to the loop, or until a
    callback switches to the loop. *)
Definition run_host (h : hstep) (s : mach) : result mach :=
  match h with
  | HRet m => Ok (with_mem m s)
  | HCallback cbStub func retPad argPad stk m k =>
      ga_callback cbStub func retPad argPad stk k (with_mem m s)
  end.

Definition gyh_do_call (qlibUid funcUid retPad argPad extRefs cbStubs : Z) (s : mach)
    : result mach :=
  let s := with_ctx_to 0 s in
  func ← find_hfunc qlibUid funcUid (to_qst s);
  code ← of_option "func" (hostcode func);
  run_host (code [retPad; argPad; extRefs; cbStubs] (m_mem s)) s.

Definition gyh_do_call_grt (qlibUid funcUid retPad argPad : Z) (s : mach) : result mach :=
  let s := with_ctx_to 0 s in
  func ← find_hfunc qlibUid funcUid (to_qst s);
  code ← of_option "func" (hostcode func);
  run_host (code [retPad; argPad] (m_mem s)) s.

(** [swapcontext(&gyh_cpu_loop_ctx, gyh_cpu_loop_ctx_to)], up to the switch
    back. *)
Definition swap_to (s : mach) : result mach :=
  if gyh_cpu_loop_ctx_to s =? 0 then Ok s
  else
    c ← of_option "gyh_cpu_loop_ctx_to" (m_ctxs s !! gyh_cpu_loop_ctx_to s);
    match c with
    | CtxCall qlibUid funcUid retPad argPad extRefs cbStubs _ _ =>
        gyh_do_call qlibUid funcUid retPad argPad extRefs cbStubs s
    | CtxCallGrt qlibUid funcUid retPad argPad _ _ =>
        gyh_do_call_grt qlibUid funcUid retPad argPad s
    | CtxCallback sp k =>
        let s := ga_resume sp s in run_host (k (m_mem s)) s
    end.

(** ** The loop *)

Record timespec := mk_timespec { tv_sec : Z; tv_nsec : Z }.

Definition add_emu_nsecs (ts_begin ts_end : timespec) (v : vm) : vm :=
  let b := v_bd v in
  set_bd (mk_breakdown
    (i64 (gyh_breakdown_emu_nsecs b +
          ((tv_sec ts_end - tv_sec ts_begin) * 1000000000 +
           (tv_nsec ts_end - tv_nsec ts_begin))))
    (gyh_breakdown_syscalls b) (gyh_breakdown_calls b) (gyh_breakdown_callbacks b)
    (gyh_breakdown_callback_returns b)) v.

Definition bump_syscalls (v : vm) : vm :=
  let b := v_bd v in
  set_bd (mk_breakdown (gyh_breakdown_emu_nsecs b) (i64 (gyh_breakdown_syscalls b + 1))
    (gyh_breakdown_calls b) (gyh_breakdown_callbacks b)
    (gyh_breakdown_callback_returns b)) v.

Definition bump_calls (v : vm) : vm :=
  let b := v_bd v in
  set_bd (mk_breakdown (gyh_breakdown_emu_nsecs b) (gyh_breakdown_syscalls b)
    (i64 (gyh_breakdown_calls b + 1)) (gyh_breakdown_callbacks b)
    (gyh_breakdown_callback_returns b)) v.

Definition bump_callback_returns (v : vm) : vm :=
  let b := v_bd v in
  set_bd (mk_breakdown (gyh_breakdown_emu_nsecs b) (gyh_breakdown_syscalls b)
    (gyh_breakdown_calls b) (gyh_breakdown_callbacks b)
    (i64 (gyh_breakdown_callback_returns b + 1))) v.

Definition on_vm (f : vm -> vm) (s : mach) : mach := with_vm (f (m_vm s)) s.

(** The [switch] on the system call number. *)
Definition gyh_dispatch (g : gyh_DoSyscall) (s : mach) : result mach :=
  let num := gs_num g in
  if num =? 0 then Ok s else
  s ←
    (if num =? GYH_NR__gyh_ctor__ then
       on_qst (gyh_ctor dl dir (gs_arg1 g) (gs_arg2 g)) s
     else if num =? GYH_NR__gyh_dtor__ then on_qst (gyh_dtor dl (gs_arg1 g)) s
     else if num =? GYH_NR__gyh_call__ then ga_call (on_vm bump_calls s)
     else if num =? GYH_NR__gyh_callback_return__ then
       ga_callback_return (on_vm bump_callback_returns s)
     else if num =? GYH_NR__gyh_ctor_grt__ then
       on_qst (gyh_ctor_grt dl dir (gs_arg1 g) (gs_arg2 g) (gs_arg3 g) (gs_arg4 g)) s
     else if num =? GYH_NR__gyh_call_grt__ then ga_call_grt (on_vm bump_calls s)
     else if num =? GYH_NR__gyh_ctor_fcp_cm__ then
       on_qst (gyh_ctor_fcp_cm dl dir pageSize (gs_arg1 g) (gs_arg2 g) (gs_arg3 g)
                 (gs_arg4 g) (u32 (gs_arg5 g)) (gs_arg6 g)) s
     else Abort "Invalid gyh syscall");
  Ok (on_vm bump_syscalls s).

(** What follows the switch of contexts in one round. *)
Definition gyh_round (ts : timespec * timespec) (s : mach) : result mach :=
  '(g, v) ← ga_do_cpu (m_vm s);
  gyh_dispatch g (on_vm (add_emu_nsecs ts.1 ts.2) (with_vm v s)).

(** One round of the [for (;;)], given the clock readings in it. *)
Definition gyh_cpu_loop_step (ts : timespec * timespec) (s : mach) : result mach :=
  s ← swap_to s; gyh_round ts s.

Fixpoint gyh_cpu_loop (tss : list (timespec * timespec)) (s : mach) : result mach :=
  match tss with
  | [] => Ok s
  | ts :: tss => s ← gyh_cpu_loop_step ts s; gyh_cpu_loop tss s
  end.

(** ** The abstract machine

    No pointer to a next context and no contexts in memory: a call runs the
    host code at once, and the host code interrupted by callbacks is kept on a
    stack, innermost first. A frame is named by the stack address at which
    the callback left the guest; as stacks grow down, a new frame drops the
    frames below it (left behind by a non-local jump), and returning to a
    frame drops those below it too. *)

Record frame := mk_frame { fr_ctx : Z; fr_sp : Z; fr_k : cmem -> hstep }.

Record smach := mk_smach {
  s_vm : vm;
  s_qlibs : list gyh_Qlib;
  s_cbFunc : Z;
  s_prot : list (Z * Z);
  s_stack : list frame
}.

Definition s_with_vm (v : vm) (a : smach) : smach :=
  mk_smach v (s_qlibs a) (s_cbFunc a) (s_prot a) (s_stack a).

Definition s_with_stack (st : list frame) (a : smach) : smach :=
  mk_smach (s_vm a) (s_qlibs a) (s_cbFunc a) (s_prot a) st.

Definition s_to_qst (a : smach) : qst :=
  mk_qst (v_mem (s_vm a)) (s_qlibs a) (s_cbFunc a) (s_prot a).

Definition s_on_qst (f : qst -> result qst) (a : smach) : result smach :=
  q ← f (s_to_qst a);
  Ok (mk_smach (set_mem (q_mem q) (s_vm a)) (gyh_qlibs q) (gyh_cbFunc q) (q_prot q)
               (s_stack a)).

Definition above (ctx : Z) (st : list frame) : list frame :=
  filter (fun f => ctx < fr_ctx f) st.

Definition frame_at (ctx : Z) (st : list frame) : option frame :=
  List.find (fun f => fr_ctx f =? ctx) st.

(** A context saved on a stack is an object of its own: not null and not one
    of the static contexts. *)
Definition ctx_ok (ctx : Z) : bool :=
  (0 <? ctx) && negb (ctx =? ga_ctx_call) && negb (ctx =? ga_ctx_call_grt).

Definition s_run_host (h : hstep) (a : smach) : result smach :=
  match h with
  | HRet m => Ok (s_with_vm (set_mem m (s_vm a)) a)
  | HCallback cbStub func retPad argPad stk m k =>
      '(sp, ctx, v) ← enter_cb (s_cbFunc a) cbStub func retPad argPad stk
                        (set_mem m (s_vm a));
      _ ← check "frame" (ctx_ok ctx);
      Ok (s_with_stack (mk_frame ctx sp k :: above ctx (s_stack a)) (s_with_vm v a))
  end.

Definition s_call (q f : Z) (args : list Z) (a : smach) : result smach :=
  func ← find_hfunc q f (s_to_qst a);
  code ← of_option "func" (hostcode func);
  s_run_host (code args (v_mem (s_vm a))) a.

Definition s_enter (c : ucontext) (a : smach) : result smach :=
  match c with
  | CtxCall q f r p e b _ _ => s_call q f [r; p; e; b] a
  | CtxCallGrt q f r p _ _ => s_call q f [r; p] a
  | CtxCallback _ _ => Fault "not a call"
  end.

Definition s_return (a : smach) : result smach :=
  '(ctx, v) ← return_cb (s_vm a);
  f ← of_option "frame" (frame_at ctx (s_stack a));
  let a := s_with_stack (above ctx (s_stack a)) (s_with_vm (leave_cb (fr_sp f) (bump_syscalls v)) a) in
  s_run_host (fr_k f (v_mem (s_vm a))) a.

(** The runtime's system calls; the counter is advanced before host code runs. *)
Definition s_dispatch (g : gyh_DoSyscall) (a : smach) : result smach :=
  let num := gs_num g in
  let on_vm f a := s_with_vm (f (s_vm a)) a in
  if num =? 0 then Ok a
  else if num =? GYH_NR__gyh_ctor__ then
    on_vm bump_syscalls <$> s_on_qst (gyh_ctor dl dir (gs_arg1 g) (gs_arg2 g)) a
  else if num =? GYH_NR__gyh_dtor__ then
    on_vm bump_syscalls <$> s_on_qst (gyh_dtor dl (gs_arg1 g)) a
  else if num =? GYH_NR__gyh_call__ then
    c ← call_ctx (bump_calls (s_vm a));
    s_enter c (on_vm bump_syscalls (on_vm bump_calls a))
  else if num =? GYH_NR__gyh_callback_return__ then
    s_return (on_vm bump_callback_returns a)
  else if num =? GYH_NR__gyh_ctor_grt__ then
    on_vm bump_syscalls <$>
      s_on_qst (gyh_ctor_grt dl dir (gs_arg1 g) (gs_arg2 g) (gs_arg3 g) (gs_arg4 g)) a
  else if num =? GYH_NR__gyh_call_grt__ then
    c ← call_grt_ctx (bump_calls (s_vm a));
    s_enter c (on_vm bump_syscalls (on_vm bump_calls a))
  else if num =? GYH_NR__gyh_ctor_fcp_cm__ then
    on_vm bump_syscalls <$>
      s_on_qst (gyh_ctor_fcp_cm dl dir pageSize (gs_arg1 g) (gs_arg2 g) (gs_arg3 g)
                  (gs_arg4 g) (u32 (gs_arg5 g)) (gs_arg6 g)) a
  else Abort "Invalid gyh syscall".

Definition s_round (ts : timespec * timespec) (a : smach) : result smach :=
  '(g, v) ← ga_do_cpu (s_vm a);
  s_dispatch g (s_with_vm (add_emu_nsecs ts.1 ts.2 v) a).

Fixpoint s_loop (tss : list (timespec * timespec)) (a : smach) : result smach :=
  match tss with
  | [] => Ok a
  | ts :: tss => a ← s_round ts a; s_loop tss a
  end.

(** ** The invariant of the global pointer *)

Lemma run_host_ctx_to h s s' :
  gyh_cpu_loop_ctx_to s = 0 -> run_host h s = Ok s' -> gyh_cpu_loop_ctx_to s' = 0.
Proof.
  destruct h; simpl; intros Hto H; [by inv_ok; subst|].
  rewrite ga_callback_law in H by done. inv_ok. destruct a as [[sp ctx] v]. by inv_ok; subst.
Qed.

Lemma swap_to_clear s s' : swap_to s = Ok s' -> gyh_cpu_loop_ctx_to s' = 0.
Proof.
  unfold swap_to, gyh_do_call, gyh_do_call_grt.
  destruct (Z.eqb_spec (gyh_cpu_loop_ctx_to s) 0); intros H; [by inv_ok; subst|].
  inv_ok. destruct a; simpl in H; inv_ok; try (by eapply run_host_ctx_to; [|eassumption]).
  eapply run_host_ctx_to, H. by rewrite ga_resume_law.
Qed.

(** ** The simulation *)

Record refines (a : smach) (s : mach) : Prop := {
  rf_vm : m_vm s = s_vm a;
  rf_qlibs : m_qlibs s = s_qlibs a;
  rf_cbFunc : m_cbFunc s = s_cbFunc a;
  rf_prot : m_prot s = s_prot a;
  rf_frames : forall f, f ∈ s_stack a ->
    ctx_ok (fr_ctx f) = true /\
    m_ctxs s !! fr_ctx f = Some (CtxCallback (fr_sp f) (fr_k f))
}.

Lemma frame_at_Some ctx st f : frame_at ctx st = Some f -> f ∈ st /\ fr_ctx f = ctx.
Proof.
  intros H. apply List.find_some in H as [H1 H2].
  split; [by apply list_elem_of_In|lia].
Qed.

Lemma elem_of_above ctx st f : f ∈ above ctx st -> f ∈ st /\ ctx < fr_ctx f.
Proof. unfold above. rewrite list_elem_of_filter. tauto. Qed.

Lemma refines_vm f a s :
  refines a s -> refines (s_with_vm (f (s_vm a)) a) (on_vm f s).
Proof. intros [Hv ? ? ? ?]. split; simpl; try done. by rewrite Hv. Qed.

Lemma refines_qst f a s a' :
  refines a s -> s_on_qst f a = Ok a' ->
  exists s', on_qst f s = Ok s' /\ refines a' s' /\
             gyh_cpu_loop_ctx_to s' = gyh_cpu_loop_ctx_to s.
Proof.
  intros [Hv Hq Hc Hp Hf] H. unfold s_on_qst in H. inv_ok. subst.
  assert (to_qst s = s_to_qst a) as Heq.
  { unfold to_qst, s_to_qst, m_mem. by rewrite Hv, Hq, Hc, Hp. }
  unfold on_qst. rewrite Heq, E0. simpl.
  eexists; split; [done|]. split; [|done]. split; simpl; try done. by rewrite Hv.
Qed.

Lemma refines_ctx_to c a s : refines a s -> refines a (with_ctx_to c s).
Proof. by intros []. Qed.

Lemma refines_static c x a s :
  c = ga_ctx_call \/ c = ga_ctx_call_grt -> refines a s -> refines a (with_ctx c x s).
Proof.
  intros Hc [? ? ? ? Hf]. split; try done. intros f Hin.
  destruct (Hf f Hin) as [Hok Hl]. split; [done|]. simpl.
  rewrite lookup_insert_ne; [done|]. intros Heq.
  rewrite <- Heq in Hok. unfold ctx_ok in Hok. destruct Hc; subst c; lia.
Qed.

Lemma run_host_refines h a s a' :
  refines a s -> gyh_cpu_loop_ctx_to s = 0 -> s_run_host h a = Ok a' ->
  exists s', run_host h s = Ok s' /\ refines a' s'.
Proof.
  intros R Hto H. destruct h as [m|cbStub func retPad argPad stk m k]; simpl in *.
  - inv_ok. subst. eexists; split; [done|]. by apply (refines_vm (set_mem m)).
  - rewrite ga_callback_law by done. destruct R as [Hv Hq Hc Hp Hf].
    simpl. rewrite Hv, Hc. inv_ok. destruct a0 as [[sp ctx] v]. inv_ok. subst.
    rewrite E0. simpl. eexists; split; [done|]. split; try done. simpl.
    intros f [->|Hin]%elem_of_cons; simpl.
    + split; [done|]. by rewrite lookup_insert_eq.
    + apply elem_of_above in Hin as [Hin Hlt]. destruct (Hf f Hin) as [? Hl].
      split; [done|]. rewrite lookup_insert_ne; [done|lia].
Qed.

Lemma s_call_refines q f args a s a' :
  refines a s -> s_call q f args a = Ok a' ->
  exists s', (let s := with_ctx_to 0 s in
    func ← find_hfunc q f (to_qst s);
    code ← of_option "func" (hostcode func);
    run_host (code args (m_mem s)) s) = Ok s' /\ refines a' s'.
Proof.
  intros R H. unfold s_call in H. inv_ok. pose proof R as [Hv Hq Hc Hp _].
  assert (to_qst (with_ctx_to 0 s) = s_to_qst a) as Heq.
  { unfold to_qst, s_to_qst, m_mem. simpl. by rewrite Hv, Hq, Hc, Hp. }
  cbv zeta. rewrite Heq, E0. simpl. rewrite E1. simpl.
  unfold m_mem. simpl. rewrite Hv.
  eapply run_host_refines; [by apply refines_ctx_to|done|done].
Qed.

(** Entering the context a call made, on both machines. *)
Lemma swap_to_call x c a s a' :
  (x = ga_ctx_call \/ x = ga_ctx_call_grt) -> x <> 0 -> refines a s ->
  s_enter c a = Ok a' ->
  exists s', swap_to (with_ctx_to x (with_ctx x c s)) = Ok s' /\ refines a' s'.
Proof.
  intros Hx Hx0 R H. unfold swap_to, gyh_do_call, gyh_do_call_grt. simpl.
  destruct (Z.eqb_spec x 0); [done|]. rewrite lookup_insert_eq. simpl.
  destruct c; simpl in *; try done;
    (eapply (s_call_refines _ _ _ _ (with_ctx_to x (with_ctx x _ s))); [|exact H]);
    by apply refines_ctx_to, refines_static.
Qed.

Lemma swap_to_return ctx v a s a' :
  refines a s ->
  (f ← of_option "frame" (frame_at ctx (s_stack a));
   let a := s_with_stack (above ctx (s_stack a)) (s_with_vm (leave_cb (fr_sp f) v) a) in
   s_run_host (fr_k f (v_mem (s_vm a))) a) = Ok a' ->
  exists s', swap_to (with_ctx_to ctx (with_vm v s)) = Ok s' /\ refines a' s'.
Proof.
  intros R H. inv_ok. apply frame_at_Some in E0 as [Hin Hctx].
  destruct R as [Hv Hq Hc Hp Hf]. destruct (Hf _ Hin) as [Hok Hl]. subst ctx.
  unfold swap_to. simpl. unfold ctx_ok in Hok.
  destruct (Z.eqb_spec (fr_ctx a0) 0); [lia|]. rewrite Hl. simpl.
  rewrite ga_resume_law. unfold m_mem. simpl.
  eapply run_host_refines, H; [|done].
  split; try done. simpl. intros f Hf'. apply elem_of_above in Hf' as [? _]. by apply Hf.
Qed.

Lemma refines_step_qst f a s a' :
  refines a s -> gyh_cpu_loop_ctx_to s = 0 ->
  (fun a => s_with_vm (bump_syscalls (s_vm a)) a) <$> s_on_qst f a = Ok a' ->
  exists s', (s ← on_qst f s; Ok (on_vm bump_syscalls s)) ≫= swap_to = Ok s' /\ refines a' s'.
Proof.
  intros R Hto H. inv_ok. subst.
  destruct (refines_qst _ _ _ _ R E0) as (s' & -> & R' & Hto'). simpl.
  unfold swap_to. simpl. rewrite Hto', Hto. simpl.
  eexists; split; [done|]. by apply (refines_vm bump_syscalls).
Qed.

Lemma dispatch_refines g a s a' :
  ga_ctx_call <> 0 -> ga_ctx_call_grt <> 0 ->
  refines a s -> gyh_cpu_loop_ctx_to s = 0 ->
  s_dispatch g a = Ok a' ->
  exists s', gyh_dispatch g s ≫= swap_to = Ok s' /\ refines a' s'.
Proof.
  intros Hc Hg R Hto H. unfold s_dispatch in H. unfold gyh_dispatch. cbv zeta in *.
  destruct (gs_num g =? 0).
  { inv_ok. subst. unfold swap_to. simpl. rewrite Hto. by eexists. }
  destruct (gs_num g =? GYH_NR__gyh_ctor__); [by eapply refines_step_qst|].
  destruct (gs_num g =? GYH_NR__gyh_dtor__); [by eapply refines_step_qst|].
  destruct (gs_num g =? GYH_NR__gyh_call__).
  { rewrite ga_call_law by done. simpl. rewrite (rf_vm _ _ R). inv_ok. rewrite E0. simpl.
    eapply (swap_to_call ga_ctx_call _ _ (on_vm bump_syscalls (on_vm bump_calls s)));
      [by left|done| |done].
    exact (refines_vm bump_syscalls _ _ (refines_vm bump_calls _ _ R)). }
  destruct (gs_num g =? GYH_NR__gyh_callback_return__).
  { rewrite ga_callback_return_law by done. simpl. rewrite (rf_vm _ _ R).
    unfold s_return in H. simpl in H. inv_ok. destruct a0 as [ctx v]. rewrite E0. simpl.
    apply (swap_to_return ctx (bump_syscalls v) _ (on_vm bump_callback_returns s) a'
             (refines_vm bump_callback_returns _ _ R) H). }
  destruct (gs_num g =? GYH_NR__gyh_ctor_grt__); [by eapply refines_step_qst|].
  destruct (gs_num g =? GYH_NR__gyh_call_grt__).
  { rewrite ga_call_grt_law by done. simpl. rewrite (rf_vm _ _ R). inv_ok. rewrite E0. simpl.
    eapply (swap_to_call ga_ctx_call_grt _ _ (on_vm bump_syscalls (on_vm bump_calls s)));
      [by right|done| |done].
    exact (refines_vm bump_syscalls _ _ (refines_vm bump_calls _ _ R)). }
  destruct (gs_num g =? GYH_NR__gyh_ctor_fcp_cm__); [by eapply refines_step_qst|done].
Qed.

Lemma round_refines ts a s a' :
  ga_ctx_call <> 0 -> ga_ctx_call_grt <> 0 ->
  refines a s -> gyh_cpu_loop_ctx_to s = 0 ->
  s_round ts a = Ok a' ->
  exists s', gyh_round ts s ≫= swap_to = Ok s' /\ refines a' s'.
Proof.
  intros Hc Hg R Hto H. unfold s_round in H. unfold gyh_round. rewrite (rf_vm _ _ R).
  inv_ok. destruct a0 as [g v]. rewrite E0. simpl.
  eapply dispatch_refines; [done..| |done|exact H].
  destruct R. split; done.
Qed.

Lemma swap_to_idle s : gyh_cpu_loop_ctx_to s = 0 -> swap_to s = Ok s.
Proof. intros H. unfold swap_to. by rewrite H. Qed.

(** Every run of the abstract machine is a run of the loop. *)
Lemma loop_refines tss a s a' :
  ga_ctx_call <> 0 -> ga_ctx_call_grt <> 0 ->
  refines a s -> gyh_cpu_loop_ctx_to s = 0 ->
  s_loop tss a = Ok a' ->
  exists s', gyh_cpu_loop tss s ≫= swap_to = Ok s' /\ refines a' s' /\
             gyh_cpu_loop_ctx_to s' = 0.
Proof.
  intros Hc Hg. revert a s. induction tss as [|ts tss IH]; intros a s R Hto H; simpl in *.
  { inv_ok. subst. rewrite swap_to_idle by done. eauto. }
  inv_ok. destruct (round_refines ts a s a0 Hc Hg R Hto E0) as (s1 & Hs1 & R1).
  unfold gyh_cpu_loop_step. rewrite swap_to_idle by done. simpl. inv_ok.
  pose proof (swap_to_clear _ _ Hs1) as Hto1.
  destruct (IH _ _ R1 Hto1 H) as (s' & Hs' & HR).
  exists s'. split; [|done]. rewrite E1. simpl.
  destruct tss as [|ts' tss]; simpl in *.
  - rewrite swap_to_idle in Hs' by done. by rewrite Hs1.
  - unfold gyh_cpu_loop_step in *. rewrite Hs1. by rewrite swap_to_idle in Hs' by done.
Qed.


(** C12: a callback comes back to the host code that made it: once the guest
    function has run to its end, with the saved context in place, the return
    system call resumes that host code on the memory the guest left, with the
    program counter and stack pointer the guest had before the callback. *)
Theorem callback_roundtrip cbStub func retPad argPad stk k s s1 :
  0 <= ga_pc (m_env s) < 2 ^ 64 -> 0 <= stk -> stk + 24 < 2 ^ 64 ->
  gyh_cpu_loop_ctx_to s = 0 ->
  ga_callback cbStub func retPad argPad stk k s = Ok s1 ->
  exists ctx, is_Some (m_ctxs s1 !! ctx) /\ forall s2,
    gyh_cpu_loop_ctx_to s2 = 0 -> m_ctxs s2 !! ctx = m_ctxs s1 !! ctx ->
    cb_returned (m_vm s1) (m_vm s2) ->
    exists s3, ga_callback_return s2 ≫= swap_to = run_host (k (m_mem s2)) s3 /\
      gyh_cpu_loop_ctx_to s3 = 0 /\ m_mem s3 = m_mem s2 /\
      ga_pc (m_env s3) = ga_pc (m_env s) /\ ga_sp (m_env s3) = ga_sp (m_env s).
Proof.
  intros Hpc H0 H1 Hto H. rewrite ga_callback_law in H by done.
  inv_ok. destruct a as [[sp ctx] v]. inv_ok. subst. exists ctx. simpl.
  rewrite lookup_insert_eq. split; [done|].
  intros s2 Hto2 Hctx Hret.
  destruct (ga_enter_return _ _ _ _ _ _ _ _ _ _ _ Hpc H0 H1 E0 Hret)
    as (Hpos & v3 & Hr & Hm & Hp & Hs).
  rewrite ga_callback_return_law, Hr by done. simpl. unfold swap_to. simpl.
  destruct (Z.eqb_spec ctx 0); [lia|]. rewrite Hctx. simpl.
  rewrite ga_resume_law. unfold m_mem at 1. simpl. rewrite Hm. eexists; split; [done|]. done.
Qed.

End loop.
