(* ===== verification/Scenario.v ===== *)
(** * A run of the whole runtime on a riscv64 guest

    A guest calls a host function, the host function calls back into the
    guest, the guest function stores 41 and returns, and the host function
    returns one more than it found: three rounds of the loop, evaluated on
    the concrete definitions. *)

From S2P Require Import Prelude CMem Qlib Machine ArchRv64 CpuLoop.
#[local] Open Scope string_scope.
#[local] Open Scope Z_scope.

Module Scenario.
Import Rv64.

Definition set_nr (nr : Z) (v : vm CPURISCVState nat) : vm CPURISCVState nat :=
  set_env (set_gpr xA7 nr (v_env v)) v.

Definition at_phase (n : nat) (v : vm CPURISCVState nat) : vm CPURISCVState nat :=
  mk_vm (v_env v) n (v_mem v) (v_bd v) (v_reports v).

(** The guest program, one trap per phase. *)
Definition script (v : vm CPURISCVState nat) : Z * vm CPURISCVState nat :=
  match v_kern v with
  | 0%nat => (RISCV_EXCP_U_ECALL, at_phase 1 (set_nr GYH_NR__gyh_call__ v))
  | 1%nat =>
      (RISCV_EXCP_U_ECALL,
       at_phase 2 (set_nr GYH_NR__gyh_callback_return__
         (set_mem (default (v_mem v) (store 8 0x2008 41 (v_mem v))) v)))
  | _ => (EXCP_INTERRUPT, v)
  end.

(** The host function: result in 0x2000, callback result in 0x2008. *)
Definition host_rest (m : cmem) : hstep :=
  match load 8 0x2008 m with
  | Some x => HRet (default m (store 8 0x2000 (x + 1) m))
  | None => HRet m
  end.

Definition hostcode (a : Z) : option (list Z -> cmem -> hstep) :=
  if a =? 0x9000 then Some (fun _ m => HCallback 11 12 0x2008 0x2010 0x7008 m host_rest)
  else None.

Definition mem : cmem :=
  zeros 0x1000 4 ∪ zeros 0x2000 16 ∪ zeros 0x7100 16 ∪ region 0x8000 (le_bytes 8 0x9000).

Definition env : CPURISCVState :=
  mk_rv (<[xA0 := 0x1000]> (<[xA2 := 0x2000]> (<[xSP := 0x7100]> (fun _ => 0))))
        0x400000 0 false.

Definition qlibs : list gyh_Qlib := [mk_Qlib 1 7 0x8000 1 0 0].

Definition start : vm CPURISCVState nat := mk_vm env 0%nat mem ToyQemu.zero_bd [].
Definition concrete : mach CPURISCVState nat := mk_mach start qlibs 0x4000 [] 0 ∅.
Definition abstract : smach (E := CPURISCVState) (K := nat) :=
  mk_smach start qlibs 0x4000 [] [].

#[local] Instance toy_arch : GuestArch CPURISCVState nat :=
  Rv64.arch (ToyQemu.ops script) (mk_stat_file None true) 0x100 0x200.

Definition dl : dlfcn := mk_dlfcn (fun _ m => (0, m)) (fun _ _ _ => 0) (fun _ m => (0, m)).

Definition tick : timespec * timespec := (mk_timespec 0 0, mk_timespec 0 5).

Lemma related : refines abstract concrete.
Proof. split; try done. simpl. intros f Hf. by apply elem_of_nil in Hf. Qed.

Definition ticks : list (timespec * timespec) := [tick; tick; tick].

Definition after : smach (E := CPURISCVState) (K := nat) :=
  match s_loop dl "" 4096 hostcode ticks abstract with Ok a => a | _ => abstract end.

Definition in_callback : mach CPURISCVState nat :=
  match ga_callback 11 12 0x2008 0x2010 0x7008 host_rest concrete with
  | Ok s => s | _ => concrete
  end.

Lemma after_eq : s_loop dl "" 4096 hostcode ticks abstract = Ok after.
Proof. vm_compute. reflexivity. Qed.

Lemma after_result : load 8 0x2000 (v_mem (s_vm after)) = Some 42.
Proof. vm_compute. reflexivity. Qed.

Lemma in_callback_eq :
  ga_callback 11 12 0x2008 0x2010 0x7008 host_rest concrete = Ok in_callback.
Proof.
  assert (is_ok (ga_callback 11 12 0x2008 0x2010 0x7008 host_rest concrete) = true) as H
    by (vm_compute; reflexivity).
  unfold in_callback. destruct (ga_callback _ _ _ _ _ _ _); [reflexivity|discriminate H..].
Qed.

Lemma in_callback_mem : m_mem in_callback = mem.
Proof. vm_compute. reflexivity. Qed.

Lemma in_callback_ctx_to : gyh_cpu_loop_ctx_to in_callback = 0.
Proof. vm_compute. reflexivity. Qed.

Lemma in_callback_done : cb_returned (m_vm in_callback) (m_vm in_callback).
Proof. split; reflexivity. Qed.


(** The callback the host function makes, returning at once. *)
Lemma callback_roundtrip_witness :
  exists ctx, is_Some (m_ctxs in_callback !! ctx) /\
    exists s3, ga_callback_return in_callback ≫= swap_to hostcode
               = run_host (host_rest mem) s3 /\
      ga_pc (m_env s3) = 0x400000 /\ ga_sp (m_env s3) = 0x7100.
Proof.
  destruct (callback_roundtrip hostcode 11 12 0x2008 0x2010 0x7008 host_rest concrete
              in_callback) as (ctx & Hc & Hret);
    [split; [discriminate|reflexivity]|discriminate|reflexivity|reflexivity
    |exact in_callback_eq|].
  exists ctx. split; [exact Hc|].
  destruct (Hret in_callback in_callback_ctx_to eq_refl in_callback_done)
    as (s3 & Hs3 & _ & _ & Hpc & Hsp).
  exists s3. rewrite in_callback_mem in Hs3. split; [exact Hs3|]. split; [exact Hpc|exact Hsp].
Defined.

End Scenario.
