(* ===== verification/Mock.v ===== *)
(** * The mock runtime

    Models [lib/guest_rt/mock.c], which stands in for the emulator when the
    guest program is run natively: the same library table and constructors,
    and calls that run the host function at once on the caller's stack. The
    theorems compare it with the runtime in the emulator. *)

From S2P Require Import Prelude CMem Qlib Machine.
#[local] Open Scope string_scope.
#[local] Open Scope Z_scope.

Module Mock.

(** The static table, memory, and the ranges given to [mprotect]. *)
Record mst := mk_mst {
  ms_mem : cmem;
  sQlibs : list gyh_Qlib;
  ms_prot : list (Z * Z)
}.

(** [kQlibsEnd - sQlibs] *)
Definition kQlibs : nat := 1024.
#[global] Arguments kQlibs : simpl never.

Section mock.
Context (getenv : string -> option string) (dl : dlfcn).

(** [gyh_ctor] *)
Definition gyh_ctor (qlibUid : Z) (s : mst) : result (nat * mst) :=
  configDir ← (match getenv "GYHCALL_CONFIG_DIR" with
               | Some d => Ok d
               | None => Abort "environment 'GYHCALL_CONFIG_DIR' is not set"
               end);
  let qlib := first_free (sQlibs s) in
  if (qlib =? kQlibs)%nat then Abort "fail to assign index for qlib"
  else
  old ← of_option "gyh_qlibs" (sQlibs s !! qlib);
  uid0 ← of_option "qlibUid" (load 4 qlibUid (ms_mem s));
  qlibPath ← sprintf_buf 1024 (configDir +:+ "/host/" +:+ hex8 uid0 +:+ ".qso");
  let '(handle, m) := dlopen dl qlibPath (ms_mem s) in
  if handle =? 0 then Abort "dlerror" else
  uid ← of_option "qlibUid" (load 4 qlibUid m);
  hfunctbl ← dlsym_or_abort dl handle "__gyh_hfunctbl_" uid m;
  sizePtr ← dlsym_or_abort dl handle "__gyh_hfunctbl_size_" uid m;
  hfunctblSize ← of_option "hfunctblSize" (load 4 sizePtr m);
  m ← of_option "qlibUid" (store 4 qlibUid (Z.of_nat qlib) m);
  Ok (qlib, mk_mst m (<[qlib := mk_Qlib handle uid hfunctbl hfunctblSize
                                  (ql_extreftbl old) (ql_cbstubtbl old)]> (sQlibs s))
                   (ms_prot s)).

Definition __gyh_ctor__ (qlibUid : Z) (s : mst) : result mst := snd <$> gyh_ctor qlibUid s.

(** [sQlibs + i], with the checks that come first. *)
Definition qlib_of (i : Z) (s : mst) : result gyh_Qlib :=
  if Z.of_nat kQlibs <=? i then Abort "qlib is out of range" else
  qlib ← of_option "gyh_qlibs" (sQlibs s !! Z.to_nat i);
  if ql_handle qlib =? 0 then Abort "qlib is not set" else Ok qlib.

Definition __gyh_dtor__ (qlibUid : Z) (s : mst) : result mst :=
  i ← of_option "qlibUid" (load 4 qlibUid (ms_mem s));
  qlib ← qlib_of i s;
  let '(rc, m) := dlclose dl (ql_handle qlib) (ms_mem s) in
  if negb (rc =? 0) then Abort "dlerror" else
  m ← of_option "qlibUid" (store 4 qlibUid (ql_uid qlib) m);
  Ok (mk_mst m (sQlibs s) (ms_prot s)).

Definition query_hfunc (qlibUid funcUid : Z) (s : mst) : result Z :=
  qlib ← qlib_of qlibUid s;
  if ql_hfunctblSize qlib <=? funcUid then Abort "funcUid is out of range"
  else of_option "hfunctbl" (load 8 (u64 (ql_hfunctbl qlib + 8 * funcUid)) (ms_mem s)).

(** ** Global reference tables and FCP-CM *)

Definition gyh_ctor_grt (qlibUid extreftbl cbstubtbl : Z) (s : mst) : result (nat * mst) :=
  '(i, s) ← gyh_ctor qlibUid s;
  qlib ← of_option "gyh_qlibs" (sQlibs s !! i);
  extreftblPtr ← dlsym_or_abort dl (ql_handle qlib) "__gyh_extreftbl_" (ql_uid qlib) (ms_mem s);
  m ← of_option "extreftblPtr" (store 8 extreftblPtr extreftbl (ms_mem s));
  cbstubtblPtr ← dlsym_or_abort dl (ql_handle qlib) "__gyh_cbstubtbl_" (ql_uid qlib) m;
  m ← of_option "cbstubtblPtr" (store 8 cbstubtblPtr cbstubtbl m);
  Ok (i, mk_mst m (<[i := mk_Qlib (ql_handle qlib) (ql_uid qlib) (ql_hfunctbl qlib)
                            (ql_hfunctblSize qlib) extreftbl cbstubtbl]> (sQlibs s))
                (ms_prot s)).

Definition __gyh_ctor_grt__ (qlibUid extreftbl cbstubtbl : Z) (s : mst) : result mst :=
  snd <$> gyh_ctor_grt qlibUid extreftbl cbstubtbl s.

(** The body of the loop over the guest functions is the one of the emulator. *)
Definition __gyh_ctor_fcp_cm__ (pageSize qlibUid extreftbl cbstubtbl gfunctbl gfunctblSize : Z)
    (s : mst) : result mst :=
  '(i, s) ← gyh_ctor_grt qlibUid extreftbl cbstubtbl s;
  qlib ← of_option "gyh_qlibs" (sQlibs s !! i);
  functblPtr ← dlsym_or_abort dl (ql_handle qlib) "__gyh_functbl_" (ql_uid qlib) (ms_mem s);
  f ← fcp_cm_loop pageSize gfunctbl functblPtr (Z.to_nat gfunctblSize) 0
        (mk_fcp (ms_mem s) 0 0 (ms_prot s));
  Ok (mk_mst (f_mem f) (sQlibs s) (f_prot f)).

(** ** Calls *)

(** The code of the process: host functions, and callback stubs as functions
    of their arguments and memory. *)
Context (hostcode : Z -> option (list Z -> cmem -> hstep)).
Context (cbcode : Z -> option (list Z -> cmem -> result cmem)).

Definition __gyh_callback_return__ (retPad argPad gfunc cbStub : Z) (m : cmem) : result cmem :=
  f ← of_option "cbStub" (cbcode cbStub);
  f [retPad; argPad; gfunc] m.

Definition __gyh_callback__ (cbStub gfunc retPad argPad : Z) (m : cmem) : result cmem :=
  __gyh_callback_return__ retPad argPad gfunc cbStub m.

(** Host code run to its end, each callback made where it is met. *)
Fixpoint run_native (h : hstep) : result cmem :=
  match h with
  | HRet m => Ok m
  | HCallback cbStub func retPad argPad _ m k =>
      match __gyh_callback__ cbStub func retPad argPad m with
      | Ok m => run_native (k m)
      | Abort w => Abort w
      | Fault w => Fault w
      end
  end.

(** The stack the callee context is given: the [kFrameSize] bytes from
    [alloca], cut to a multiple of 16 at the high end. *)
Definition kFrameSize : Z := 256.

Definition callee_stack (stackLow : Z) : Z * Z :=
  let stackHigh := align_down 16 (u64 (stackLow + kFrameSize)) in
  (stackLow, u64 (stackHigh - stackLow)).

Definition with_mem (m : cmem) (s : mst) : mst := mk_mst m (sQlibs s) (ms_prot s).

(** [gyh_call]: the host function, then back to the call site. *)
Definition gyh_call (hfunc retPad argPad extRefs cbStubs : Z) (s : mst) : result mst :=
  code ← of_option "hfunc" (hostcode hfunc);
  m ← run_native (code [retPad; argPad; extRefs; cbStubs] (ms_mem s));
  Ok (with_mem m s).

Definition __gyh_call__ (qlibUid funcUid retPad argPad extRefs cbStubs : Z) (s : mst)
    : result mst :=
  i ← of_option "qlibUid" (load 4 qlibUid (ms_mem s));
  hfunc ← query_hfunc i funcUid s;
  gyh_call hfunc retPad argPad extRefs cbStubs s.

Definition gyh_call_grt (hfunc retPad argPad : Z) (s : mst) : result mst :=
  code ← of_option "hfunc" (hostcode hfunc);
  m ← run_native (code [retPad; argPad] (ms_mem s));
  Ok (with_mem m s).

Definition __gyh_call_grt__ (qlibUid funcUid retPad argPad : Z) (s : mst) : result mst :=
  i ← of_option "qlibUid" (load 4 qlibUid (ms_mem s));
  hfunc ← query_hfunc i funcUid s;
  gyh_call_grt hfunc retPad argPad s.

End mock.

(** ** Comparison with the emulator's runtime *)

(** The part of the emulator's state the mock has. *)
Definition of_qst (s : qst) : mst := mk_mst (q_mem s) (gyh_qlibs s) (q_prot s).

Section compare.
Context (getenv : string -> option string) (dl : dlfcn) (dir : string).
Context (env_dir : getenv "GYHCALL_CONFIG_DIR" = Some dir).

Lemma gyh_do_ctor_mock qlibUid cbFunc s cb :
  set_cbFunc (gyh_cbFunc s) cbFunc = Ok cb ->
  prod_map id of_qst <$> gyh_do_ctor dl dir qlibUid cbFunc s =
  gyh_ctor getenv dl qlibUid (of_qst s).
Proof using env_dir.
  intros Hcb. unfold gyh_do_ctor, gyh_ctor. rewrite Hcb, env_dir. simpl.
  change kQlibs with gyh_qlibs_size. destruct (_ =? gyh_qlibs_size)%nat; [done|].
  destruct (_ !! _); simpl; [|done]. destruct (load 4 qlibUid (q_mem s)); simpl; [|done].
  destruct (sprintf_buf _ _); simpl; [|done..]. destruct (dlopen dl _ _) as [h m].
  destruct (h =? 0); [done|]. destruct (load 4 qlibUid m); simpl; [|done].
  destruct (dlsym_or_abort dl h "__gyh_hfunctbl_" _ _); simpl; [|done..].
  destruct (dlsym_or_abort dl h "__gyh_hfunctbl_size_" _ _); simpl; [|done..].
  destruct (load 4 _ m); simpl; [|done]. by destruct (store _ _ _ _).
Qed.

Lemma gyh_do_ctor_grt_mock qlibUid extreftbl cbstubtbl cbFunc s cb :
  set_cbFunc (gyh_cbFunc s) cbFunc = Ok cb ->
  prod_map id of_qst <$> gyh_do_ctor_grt dl dir qlibUid extreftbl cbstubtbl cbFunc s =
  gyh_ctor_grt getenv dl qlibUid extreftbl cbstubtbl (of_qst s).
Proof using env_dir.
  intros Hcb. unfold gyh_do_ctor_grt, gyh_ctor_grt.
  rewrite <- (gyh_do_ctor_mock qlibUid cbFunc s cb Hcb).
  destruct (gyh_do_ctor _ _ _ _ _) as [[i s']| |]; simpl; [|done..].
  destruct (gyh_qlibs s' !! i) as [q|]; simpl; [|done].
  destruct (dlsym_or_abort dl _ "__gyh_extreftbl_" _ _); simpl; [|done..].
  destruct (store 8 _ extreftbl _); simpl; [|done].
  destruct (dlsym_or_abort dl _ "__gyh_cbstubtbl_" _ _); simpl; [|done..].
  by destruct (store 8 _ cbstubtbl _).
Qed.

Lemma query_hfunc_mock qlibUid funcUid s i q :
  load 4 qlibUid (q_mem s) = Some i -> gyh_qlibs s !! Z.to_nat i = Some q ->
  ql_handle q <> 0 ->
  (funcUid <> ql_hfunctblSize q ->
     find_hfunc qlibUid funcUid s = query_hfunc i funcUid (of_qst s)) /\
  (i < Z.of_nat kQlibs -> query_hfunc i (ql_hfunctblSize q) (of_qst s) =
     Abort "funcUid is out of range").
Proof.
  intros Hi Hq Hh. unfold find_hfunc, query_hfunc, qlib_at, qlib_of. rewrite Hi. simpl.
  rewrite Hq. simpl. change kQlibs with gyh_qlibs_size.
  rewrite (proj2 (Z.eqb_neq _ _) Hh). split.
  - intros Hf. destruct (_ <=? i); [done|]. simpl.
    destruct (Z.ltb_spec (ql_hfunctblSize q) funcUid), (Z.leb_spec (ql_hfunctblSize q) funcUid);
      try done; lia.
  - intros Hlt. destruct (Z.leb_spec (Z.of_nat gyh_qlibs_size) i); [lia|]. simpl.
    by rewrite Z.leb_refl.
Qed.

(** The mock runtime builds the library table as the emulator does: where
    the emulator accepts the callback entry, the three constructors and the
    destructor end in the same way, with the same table, memory and writable
    pages, or with the same failure; and a call finds the same host function
    in a loaded library, except that the mock rejects the index just past the
    table, which the emulator lets through. *)
Theorem mock_agrees qlibUid cbFunc s :
  is_ok (set_cbFunc (gyh_cbFunc s) cbFunc) = true ->
  of_qst <$> Qlib.gyh_ctor dl dir qlibUid cbFunc s =
    __gyh_ctor__ getenv dl qlibUid (of_qst s) /\
  (forall extreftbl cbstubtbl,
    of_qst <$> Qlib.gyh_ctor_grt dl dir qlibUid extreftbl cbstubtbl cbFunc s =
    __gyh_ctor_grt__ getenv dl qlibUid extreftbl cbstubtbl (of_qst s)) /\
  (forall pageSize extreftbl cbstubtbl gfunctbl gfunctblSize,
    of_qst <$> gyh_ctor_fcp_cm dl dir pageSize qlibUid extreftbl cbstubtbl
                 gfunctbl gfunctblSize cbFunc s =
    __gyh_ctor_fcp_cm__ getenv dl pageSize qlibUid extreftbl cbstubtbl
                 gfunctbl gfunctblSize (of_qst s)) /\
  of_qst <$> gyh_dtor dl qlibUid s = __gyh_dtor__ dl qlibUid (of_qst s) /\
  (forall i q funcUid,
    load 4 qlibUid (q_mem s) = Some i -> gyh_qlibs s !! Z.to_nat i = Some q ->
    ql_handle q <> 0 ->
    (funcUid <> ql_hfunctblSize q ->
       find_hfunc qlibUid funcUid s = query_hfunc i funcUid (of_qst s)) /\
    (i < Z.of_nat kQlibs -> query_hfunc i (ql_hfunctblSize q) (of_qst s) =
       Abort "funcUid is out of range")).
Proof using env_dir.
  intros Hok. destruct (set_cbFunc _ _) as [cb| |] eqn:Hcb; try done. clear Hok. split_and!.
  - unfold Qlib.gyh_ctor, __gyh_ctor__. rewrite <- (gyh_do_ctor_mock qlibUid cbFunc s cb Hcb).
    by destruct (gyh_do_ctor _ _ _ _ _) as [[]| |].
  - intros e c. unfold Qlib.gyh_ctor_grt, __gyh_ctor_grt__.
    rewrite <- (gyh_do_ctor_grt_mock qlibUid e c cbFunc s cb Hcb).
    by destruct (gyh_do_ctor_grt _ _ _ _ _ _ _) as [[]| |].
  - intros ps e c g n. unfold gyh_ctor_fcp_cm, gyh_do_ctor_fcp_cm, __gyh_ctor_fcp_cm__.
    rewrite <- (gyh_do_ctor_grt_mock qlibUid e c cbFunc s cb Hcb).
    destruct (gyh_do_ctor_grt _ _ _ _ _ _ _) as [[i s']| |]; simpl; [|done..].
    destruct (gyh_qlibs s' !! i); simpl; [|done].
    destruct (dlsym_or_abort _ _ _ _ _); simpl; [|done..].
    by destruct (fcp_cm_loop _ _ _ _ _ _).
  - unfold gyh_dtor, __gyh_dtor__, qlib_at, qlib_of. simpl.
    destruct (load 4 qlibUid _); simpl; [|done]. change kQlibs with gyh_qlibs_size.
    destruct (_ <=? _); simpl; [done|]. destruct (_ !! _) as [q|]; simpl; [|done].
    destruct (ql_handle q =? 0); simpl; [done|]. destruct (dlclose _ _ _) as [rc m].
    destruct (negb _); simpl; [done|]. by destruct (store _ _ _ _).
  - intros i q funcUid. apply query_hfunc_mock.
Qed.

(** The stack handed to the callee is aligned and inside the block. *)
Lemma callee_stack_ok stackLow :
  0 <= stackLow -> stackLow + kFrameSize < 2 ^ 64 ->
  (stackLow + (callee_stack stackLow).2) mod 16 = 0 /\
  240 < (callee_stack stackLow).2 <= kFrameSize.
Proof.
  intros H0 H1. unfold callee_stack, kFrameSize in *. simpl.
  rewrite (wrap_small 64 (stackLow + 256)) by lia.
  destruct (align_down_16 (stackLow + 256)) as [Ha Hb]; [lia|].
  rewrite wrap_small by lia. replace (stackLow + _) with (align_down 16 (stackLow + 256)) by lia.
  split; [done|lia].
Qed.

End compare.

(** ** Example: a loader that finds nothing *)
Module ToyMock.

Definition dl : dlfcn :=
  mk_dlfcn (fun _ m => (0, m)) (fun _ _ _ => 0) (fun _ m => (0, m)).

Lemma mock_agrees_witness :
  of_qst <$> Qlib.gyh_ctor dl "/cfg" 64 1 (gyh_init (zeros 64 4)) =
  __gyh_ctor__ (fun _ => Some "/cfg") dl 64 (of_qst (gyh_init (zeros 64 4))).
Proof. by apply (mock_agrees (fun _ => Some "/cfg") dl "/cfg" eq_refl 64 1). Defined.

End ToyMock.
End Mock.
