(* ===== verification/HostCall.v ===== *)
(** * A host call comes back

    A call into a host library runs host code, which calls back into the
    guest, which may call host code again. Here the whole of it is put
    together: if the guest code of every callback comes to its return system
    call, the loop comes back to the guest where it made the call, with what
    the host code left in memory and no context left over. What the host code
    leaves is what it leaves when it runs natively, as under [Mock]. *)

From S2P Require Import Prelude CMem Qlib Machine CpuLoop Mock ArchRv64 Scenario.
#[local] Open Scope string_scope.
#[local] Open Scope Z_scope.

(** What a callback [cbStub func retPad argPad], made at the stack depth
    [stk], may do to memory. *)
Definition cb_effect : Type := Z -> Z -> Z -> Z -> Z -> cmem -> cmem -> Prop.

(** Host code runs to its end and leaves some memory, if each callback it
    makes does to memory what it may. *)
Inductive host_done (R : cb_effect) : hstep -> cmem -> Prop :=
| hd_ret m : host_done R (HRet m) m
| hd_callback cbStub func retPad argPad stk m m' k mf :
    R cbStub func retPad argPad stk m m' -> host_done R (k m') mf ->
    host_done R (HCallback cbStub func retPad argPad stk m k) mf.

(** Native code runs to its end in this sense, and only there. *)
Definition native (cbcode : Z -> option (list Z -> cmem -> result cmem)) : cb_effect :=
  fun cbStub func retPad argPad _ m m' =>
    Mock.__gyh_callback__ cbcode cbStub func retPad argPad m = Ok m'.

Lemma host_done_native cbcode h mf :
  Mock.run_native cbcode h = Ok mf <-> host_done (native cbcode) h mf.
Proof.
  split.
  - revert mf. induction h as [m|cbStub func retPad argPad stk m k IH]; intros mf H; simpl in H.
    + injection H as ->. constructor.
    + destruct (Mock.__gyh_callback__ _ _ _ _ _ _) as [m'| |] eqn:Hcb; try done.
      econstructor; [exact Hcb|by apply IH].
  - induction 1 as [|cbStub func retPad argPad stk m m' k mf Hcb _ IH]; simpl; [done|].
    unfold native in Hcb. by rewrite Hcb.
Qed.

Section returns.
Context {E K : Type} `{GA : !GuestArch E K}.
Context (dl : dlfcn) (dir : string) (pageSize : Z).
Context (hostcode : Z -> option (list Z -> cmem -> hstep)).
Abbreviation smach := (smach (E := E) (K := K)).
Abbreviation s_loop := (s_loop dl dir pageSize hostcode).

(** The guest as it waits for the host call: where it is, the frames below
    it, the callback function it registered, and what its code relies on. *)
Context (R : cb_effect) (pc sp cb : Z) (st : list frame) (Inv : E -> Prop).

Record waiting (a : smach) : Prop := {
  wt_pc : ga_pc (v_env (s_vm a)) = pc;
  wt_sp : ga_sp (v_env (s_vm a)) = sp;
  wt_inv : Inv (v_env (s_vm a));
  wt_cb : s_cbFunc a = cb;
  wt_stack : s_stack a = st
}.

(** A run of the callback's guest code, entered in [a1], up to its return
    system call: rounds of the loop that leave the frames as they were (host
    calls and callbacks in between included), then the trap. *)
Definition guest_runs (v1 : vm E K) (spv : Z) (a1 : smach) (m' : cmem) : Prop :=
  exists tss a2 ts g v2,
    s_loop tss a1 = Ok a2 /\ s_stack a2 = s_stack a1 /\ s_cbFunc a2 = cb /\
    ga_do_cpu (s_vm a2) = Ok (g, v2) /\ gs_num g = GYH_NR__gyh_callback_return__ /\
    let v2 := bump_callback_returns (add_emu_nsecs ts.1 ts.2 v2) in
    cb_returned v1 v2 /\ v_mem v2 = m' /\
    forall ctx v3, return_cb v2 = Ok (ctx, v3) -> Inv (v_env (leave_cb spv v3)).

(** The guest answers: a callback that may turn [m] into [m'] can be entered
    below the frames there are, and its guest code runs to its return and
    leaves [m']. *)
Definition guest_answers : Prop :=
  forall a cbStub func retPad argPad stk m m' k,
    waiting a -> R cbStub func retPad argPad stk m m' ->
    exists spv ctx v1,
      enter_cb cb cbStub func retPad argPad stk (set_mem m (s_vm a)) = Ok (spv, ctx, v1) /\
      0 <= stk /\ stk + 24 < 2 ^ 64 /\ ctx_ok ctx = true /\ Forall (fun f => ctx < fr_ctx f) st /\
      guest_runs v1 spv (s_with_stack (mk_frame ctx spv k :: st) (s_with_vm v1 a)) m'.

Context (answers : guest_answers) (pc_ok : 0 <= pc < 2 ^ 64).

Lemma s_loop_app tss1 tss2 (a a1 : smach) :
  s_loop tss1 a = Ok a1 -> s_loop (tss1 ++ tss2)%list a = s_loop tss2 a1.
Proof.
  revert a. induction tss1 as [|ts tss1 IH]; intros a H; simpl in *; [by injection H as ->|].
  inv_ok. rewrite E0. by apply IH.
Qed.

Lemma above_all ctx l : Forall (fun f => ctx < fr_ctx f) l -> above ctx l = l.
Proof.
  unfold above. induction 1 as [|f l Hf _ IH]; [done|]. rewrite filter_cons_True by done. by rewrite IH.
Qed.

(** The return system call of a callback. *)
Lemma return_round ts g v2 ctx spv k v3 (a2 : smach) :
  ga_do_cpu (s_vm a2) = Ok (g, v2) -> gs_num g = GYH_NR__gyh_callback_return__ ->
  s_stack a2 = mk_frame ctx spv k :: st -> Forall (fun f => ctx < fr_ctx f) st ->
  return_cb (bump_callback_returns (add_emu_nsecs ts.1 ts.2 v2)) = Ok (ctx, v3) ->
  s_round dl dir pageSize hostcode ts a2 =
  let a3 := s_with_stack st (s_with_vm (leave_cb spv (bump_syscalls v3)) a2) in
  s_run_host (k (v_mem (s_vm a3))) a3.
Proof.
  intros Hcpu Hg Hst Hdeep Hret. unfold s_round. rewrite Hcpu. simpl. unfold s_dispatch.
  rewrite Hg. simpl. unfold s_return. simpl. rewrite Hret. simpl. rewrite Hst. unfold frame_at.
  simpl. rewrite Z.eqb_refl. simpl. unfold above at 1. rewrite filter_cons_False by (simpl; lia).
  fold (above ctx st). rewrite (above_all ctx st Hdeep). done.
Qed.

Lemma host_returns h mf :
  host_done R h mf -> forall a, waiting a ->
  exists tss a', (s_run_host h a ≫= s_loop tss) = Ok a' /\
    v_mem (s_vm a') = mf /\ waiting a'.
Proof using answers pc_ok.
  induction 1 as [m|cbStub func retPad argPad stk m m' k mf HR Hd IH]; intros a Ha.
  - exists [], (s_with_vm (set_mem m (s_vm a)) a). split; [done|]. split; [done|].
    destruct Ha. by split.
  - destruct (answers a cbStub func retPad argPad stk m m' k Ha HR)
      as (spv & ctx & v1 & He & H0 & H1 & Hok & Hdeep & tss & a2 & ts & g & v2 &
          Hl & Hst & Hcb & Hcpu & Hg & Hret & Hm' & Hinv).
    destruct Ha as [Hpc Hsp HI Hcba Hsta].
    assert (0 <= ga_pc (v_env (set_mem m (s_vm a))) < 2 ^ 64) as Hrange by (simpl; by rewrite Hpc).
    destruct (ga_enter_return _ _ _ _ _ _ (set_mem m (s_vm a)) _ _ _ _ Hrange H0 H1 He Hret) as (_ & v3 & Hr & Hmem & Hpc' & Hsp').
    specialize (Hinv _ _ Hr). simpl in Hst.
    set (a3 := s_with_stack st (s_with_vm (leave_cb spv (bump_syscalls v3)) a2)).
    assert (waiting a3) as Ha3.
    { unfold bump_syscalls in a3. unfold a3. rewrite ga_leave_bd. split; simpl; try done.
      - by rewrite Hpc'.
      - by rewrite Hsp'. }
    destruct (IH a3 Ha3) as (tss' & a' & Hrun & Hmf & Ha').
    exists (tss ++ ts :: tss')%list, a'. split; [|done].
    simpl. rewrite Hcba, He. simpl. rewrite Hok. simpl. rewrite Hsta, (above_all ctx st Hdeep).
    rewrite (s_loop_app _ _ _ _ Hl). cbn [CpuLoop.s_loop].
    rewrite (return_round ts g v2 ctx spv k v3 a2 Hcpu Hg Hst Hdeep Hr). cbv zeta. fold a3.
    assert (v_mem (s_vm a3) = m') as ->; [|done].
    unfold a3, bump_syscalls. simpl. rewrite ga_leave_bd. simpl. by rewrite Hmem.
Qed.

(** The host function a call context selects, and its arguments. *)
Definition call_entry (c : ucontext) : option (Z * Z * list Z) :=
  match c with
  | CtxCall q f r p e b _ _ => Some (q, f, [r; p; e; b])
  | CtxCallGrt q f r p _ _ => Some (q, f, [r; p])
  | CtxCallback _ _ => None
  end.

(** The guest makes a call, of either kind: the system call it traps with,
    the arguments the loop takes from its registers, and the host code they
    select. *)
Definition calls (ts : timespec * timespec) (a : smach) (v : vm E K) (h : hstep) : Prop :=
  exists g v0 c q f args func code,
    ga_do_cpu (s_vm a) = Ok (g, v0) /\ v = bump_calls (add_emu_nsecs ts.1 ts.2 v0) /\
    (gs_num g = GYH_NR__gyh_call__ /\ call_ctx v = Ok c \/
     gs_num g = GYH_NR__gyh_call_grt__ /\ call_grt_ctx v = Ok c) /\
    call_entry c = Some (q, f, args) /\
    find_hfunc q f (s_to_qst (s_with_vm v a)) = Ok func /\ hostcode func = Some code /\
    h = code args (v_mem v).

(** A call, on the abstract machine. *)
Lemma call_returns ts (a : smach) v h mf :
  calls ts a v h -> waiting (s_with_vm v a) -> host_done R h mf ->
  exists tss a', s_loop (ts :: tss) a = Ok a' /\ v_mem (s_vm a') = mf /\ waiting a'.
Proof using answers pc_ok.
  intros (g & v0 & c & q & f & args & func & code & Hcpu & -> & Hctx & Hc & Hf & Hcode & ->) Hw Hd.
  set (a1 := s_with_vm (bump_syscalls (bump_calls (add_emu_nsecs ts.1 ts.2 v0))) a).
  assert (waiting a1) as Hw1 by (destruct Hw; by split).
  destruct (host_returns _ _ Hd a1 Hw1) as (tss & a' & Hrun & Hmf & Ha').
  assert (s_enter hostcode c a1 =
          s_run_host (code args (v_mem (bump_calls (add_emu_nsecs ts.1 ts.2 v0)))) a1) as Henter.
  { assert (s_enter hostcode c a1 = s_call hostcode q f args a1) as ->
      by (destruct c; simpl in Hc |- *; by simplify_eq).
    unfold s_call. change (s_to_qst a1) with
      (s_to_qst (s_with_vm (bump_calls (add_emu_nsecs ts.1 ts.2 v0)) a)).
    rewrite Hf. simpl. by rewrite Hcode. }
  exists tss, a'. split; [|done]. cbn [CpuLoop.s_loop]. unfold s_round. rewrite Hcpu.
  cbn [mbind result_bind]. unfold s_dispatch.
  destruct Hctx as [[-> Hctx]|[-> Hctx]]; cbn -[s_enter s_run_host mbind];
    rewrite Hctx; cbn [mbind result_bind];
    change (s_enter hostcode c _) with (s_enter hostcode c a1); rewrite Henter; exact Hrun.
Qed.

End returns.

(** C6: a call into a host library comes back. Where the guest traps with one of
    the call system calls and its arguments select some host code, and the guest
    code of each callback that host code makes runs to its return (with host
    calls of its own in between, or not), the CPU loop returns to the guest
    after finitely many rounds: memory is what the host code left, the
    program counter, the stack pointer and the frames of enclosing callbacks
    are as at the call, and no context is left to enter. *)
Theorem host_call_returns {E K} `{GA : !GuestArch E K} dl dir pageSize hostcode
    R pc sp cb st Inv ts (a : smach (E := E) (K := K)) s v h mf :
  ga_ctx_call <> 0 -> ga_ctx_call_grt <> 0 -> refines a s -> gyh_cpu_loop_ctx_to s = 0 ->
  guest_answers dl dir pageSize hostcode R pc sp cb st Inv -> 0 <= pc < 2 ^ 64 ->
  calls hostcode ts a v h -> waiting pc sp cb st Inv (s_with_vm v a) -> host_done R h mf ->
  exists tss a' s',
    (gyh_cpu_loop dl dir pageSize hostcode (ts :: tss) s ≫= swap_to hostcode) = Ok s' /\
    m_mem s' = mf /\ ga_pc (m_env s') = pc /\ ga_sp (m_env s') = sp /\
    refines a' s' /\ s_stack a' = st /\ gyh_cpu_loop_ctx_to s' = 0.
Proof.
  intros Hc Hg Href Hto Hans Hpc Hcall Hw Hd.
  destruct (call_returns dl dir pageSize hostcode R pc sp cb st Inv Hans Hpc ts a v h mf Hcall Hw Hd)
    as (tss & a' & Hl & Hm & Hw').
  destruct (loop_refines dl dir pageSize hostcode (ts :: tss) a s a' Hc Hg Href Hto Hl)
    as (s' & Hs & R' & Hto').
  exists tss, a', s'. unfold m_mem, m_env. rewrite (rf_vm _ _ R'). destruct Hw'. done.
Qed.

(** ** Example: a riscv64 guest

    The guest of [Scenario], written without phases: the callback function at
    0x4000 stores 41 where its result goes and returns; the code elsewhere
    makes the call. *)
Module ToyCall.
Import Rv64 Scenario.

Definition script (v : vm CPURISCVState unit) : Z * vm CPURISCVState unit :=
  if r_pc (v_env v) =? 0x4000
  then (RISCV_EXCP_U_ECALL,
        set_env (set_gpr xA7 GYH_NR__gyh_callback_return__ (v_env v))
          (set_mem (default (v_mem v) (store 8 0x2008 41 (v_mem v))) v))
  else (RISCV_EXCP_U_ECALL, set_env (set_gpr xA7 GYH_NR__gyh_call__ (v_env v)) v).

#[local] Instance toy_arch : GuestArch CPURISCVState unit :=
  Rv64.arch (ToyQemu.ops script) (mk_stat_file None true) 0x100 0x200.

Definition start : vm CPURISCVState unit := mk_vm env tt mem ToyQemu.zero_bd [].
Definition abstract : smach (E := CPURISCVState) (K := unit) := mk_smach start qlibs 0x4000 [] [].
Definition concrete : mach CPURISCVState unit := mk_mach start qlibs 0x4000 [] 0 ∅.

(** What the callback does: one argument list, one depth, 41 stored. *)
Definition stores41 : cb_effect := fun cbStub func retPad argPad stk m m' =>
  cbStub = 11 /\ func = 12 /\ retPad = 0x2008 /\ argPad = 0x2010 /\ stk = 0x7008 /\
  store 8 0x2008 41 m = Some m'.

Definition Inv (e : CPURISCVState) : Prop := r_elf_flags e = 0.

(** The process in the host call. *)
Definition at_call : vm CPURISCVState unit :=
  match ga_do_cpu start with
  | Ok (_, v) => bump_calls (add_emu_nsecs tick.1 tick.2 v)
  | _ => start
  end.

Lemma toy_answers :
  guest_answers dl "" 4096 hostcode stores41 0x400004 0x7100 0x4000 [] Inv.
Proof.
  intros a cbStub func retPad argPad stk m m' k [Hpc Hsp HI Hcb Hst] (-> & -> & -> & -> & -> & Hm).
  destruct a as [[[gp pc fl ss] kn mm bd rep] ql cbf pr st]. unfold Inv in HI. simpl in *. subst.
  do 3 eexists. split; [reflexivity|]. split; [done|]. split; [done|]. split; [done|].
  split; [constructor|]. exists []. eexists. exists tick. do 2 eexists.
  split; [reflexivity|]. split; [reflexivity|]. split; [reflexivity|]. split; [reflexivity|].
  split; [reflexivity|]. split; [split; reflexivity|]. split; [simpl; by rewrite Hm|].
  intros ctx v3 Hr. injection Hr as <- <-. reflexivity.
Qed.

(** What the callback leaves, and the host function after it. *)
Definition mem41 : cmem := default mem (store 8 0x2008 41 mem).
Definition mem42 : cmem := default mem41 (store 8 0x2000 42 mem41).

Lemma toy_done : host_done stores41 (HCallback 11 12 0x2008 0x2010 0x7008 mem host_rest) mem42.
Proof.
  apply (hd_callback _ 11 12 0x2008 0x2010 0x7008 mem mem41).
  - split_and!; [done..|]. vm_compute. reflexivity.
  - assert (host_rest mem41 = HRet mem42) as -> by (vm_compute; reflexivity). constructor.
Qed.

Lemma toy_calls : calls hostcode tick abstract at_call (HCallback 11 12 0x2008 0x2010 0x7008 mem host_rest).
Proof.
  do 6 eexists. exists 0x9000. eexists. split; [reflexivity|]. split; [reflexivity|].
  split; [left; split; [reflexivity|vm_compute; reflexivity]|]. split; [reflexivity|].
  split; [vm_compute; reflexivity|]. split; reflexivity.
Qed.

Lemma toy_related : refines abstract concrete.
Proof. split; try done. simpl. intros f Hf. by apply elem_of_nil in Hf. Qed.

Lemma host_call_returns_witness : exists tss s',
  (gyh_cpu_loop dl "" 4096 hostcode (tick :: tss) concrete ≫= swap_to hostcode) = Ok s' /\
  load 8 0x2000 (m_mem s') = Some 42 /\ r_pc (m_env s') = 0x400004 /\ gyh_cpu_loop_ctx_to s' = 0.
Proof.
  destruct (host_call_returns dl "" 4096 hostcode stores41 0x400004 0x7100 0x4000 [] Inv tick
      abstract concrete at_call (HCallback 11 12 0x2008 0x2010 0x7008 mem host_rest) mem42)
    as (tss & a' & s' & Hs & Hm & Hpc & _ & _ & _ & Hto);
    [discriminate|discriminate|exact toy_related|reflexivity|exact toy_answers|split; done
    |exact toy_calls|split; reflexivity|exact toy_done|].
  exists tss, s'. split; [exact Hs|]. rewrite Hm. split; [vm_compute; reflexivity|].
  split; [exact Hpc|exact Hto].
Defined.
End ToyCall.
