(* ===== verification/LlvmIR.v ===== *)
(** * The part of LLVM IR the passes look at

    Types, attributes, values, instructions, functions and modules, as the
    passes of [lib/gyhcall] see them through LLVM's classes. Pointers to
    functions and other global values are modelled by their address, a [Z];
    the numbers LLVM gives to type and attribute kinds are parameters of the
    definitions that use them. *)

From S2P Require Import Prelude.
#[local] Open Scope Z_scope.

(** ** Types *)

(** [llvm::Type::TypeID] *)
Inductive TypeID :=
| HalfTyID | BFloatTyID | FloatTyID | DoubleTyID | X86_FP80TyID | FP128TyID
| PPC_FP128TyID | VoidTyID | LabelTyID | MetadataTyID | X86_MMXTyID | X86_AMXTyID
| TokenTyID | IntegerTyID | FunctionTyID | PointerTyID | StructTyID | ArrayTyID
| FixedVectorTyID | ScalableVectorTyID | TypedPointerTyID | TargetExtTyID.

#[export] Instance TypeID_eq_dec : EqDecision TypeID.
Proof. solve_decision. Defined.

(** [TPrim] is a type that is nothing but its kind. Pointers are opaque, so
    types are trees. *)
Inductive ty :=
| TPrim (id : TypeID)
| TInt (width : Z)
| TFun (ret : ty) (params : list ty) (vararg : bool)
| TPtr (addrspace : Z)
| TOpaque (name : string)
| TStruct (name : option string) (elems : list ty) (packed : bool)
| TArray (elem : ty) (n : Z)
| TFixedVec (elem : ty) (n : Z)
| TScalableVec (elem : ty) (n : Z)
| TTypedPtr (elem : ty) (addrspace : Z)
| TTargetExt (name : string).

Section ty_ind.
Context (P : ty -> Prop).
Context (Hprim : forall id, P (TPrim id)) (Hint : forall w, P (TInt w)).
Context (Hfun : forall r ps va, P r -> Forall P ps -> P (TFun r ps va)).
Context (Hptr : forall a, P (TPtr a)) (Hopaque : forall n, P (TOpaque n)).
Context (Hstruct : forall n es pk, Forall P es -> P (TStruct n es pk)).
Context (Harray : forall e n, P e -> P (TArray e n)).
Context (Hfixed : forall e n, P e -> P (TFixedVec e n)).
Context (Hscal : forall e n, P e -> P (TScalableVec e n)).
Context (Htyped : forall e a, P e -> P (TTypedPtr e a)).
Context (Hext : forall n, P (TTargetExt n)).

(** Induction on types with the hypothesis for every member of a list. *)
Fixpoint ty_induct (t : ty) : P t :=
  let all := fix all (l : list ty) : Forall P l :=
    match l with
    | [] => List.Forall_nil P
    | t :: l => @List.Forall_cons _ P t l (ty_induct t) (all l)
    end in
  match t with
  | TPrim id => Hprim id
  | TInt w => Hint w
  | TFun r ps va => Hfun r ps va (ty_induct r) (all ps)
  | TPtr a => Hptr a
  | TOpaque n => Hopaque n
  | TStruct n es pk => Hstruct n es pk (all es)
  | TArray e n => Harray e n (ty_induct e)
  | TFixedVec e n => Hfixed e n (ty_induct e)
  | TScalableVec e n => Hscal e n (ty_induct e)
  | TTypedPtr e a => Htyped e a (ty_induct e)
  | TTargetExt n => Hext n
  end.
End ty_ind.

(** A [FunctionType]. *)
Record functype := mk_functype { ft_ret : ty; ft_params : list ty; ft_vararg : bool }.

Definition ty_of_fun (t : functype) : ty := TFun (ft_ret t) (ft_params t) (ft_vararg t).

(** ** Attributes *)

Inductive attr :=
| AInvalid
| AEnum (kind : Z)
| AInt (kind value : Z)
| AString (key value : string)
| AType (kind : Z) (t : ty).

Definition attrset := list attr.

(** An [AttributeList]: the sets in LLVM's order, the function's first, then
    the return value's, then one per parameter; trailing empty sets are
    absent. *)
Definition attrlist := list attrset.

(** ** Values and instructions *)

Inductive gkind := KFunction (intrinsic : bool) | KVariable | KAlias.

(** A [GlobalValue] by its address. *)
Record gval := mk_gval { g_addr : Z; g_kind : gkind }.

Inductive value :=
| VGlobal (g : gval)
| VConstAggregate (ops : list value)
| VConstExpr (ops : list value)
| VInlineAsm
| VOther (id : Z).

Section value_ind.
Context (P : value -> Prop).
Context (Hglobal : forall g, P (VGlobal g)).
Context (Hagg : forall ops, Forall P ops -> P (VConstAggregate ops)).
Context (Hexpr : forall ops, Forall P ops -> P (VConstExpr ops)).
Context (Hasm : P VInlineAsm) (Hother : forall i, P (VOther i)).

(** Induction on values with the hypothesis for every operand. *)
Fixpoint value_induct (v : value) : P v :=
  let all := fix all (l : list value) : Forall P l :=
    match l with
    | [] => List.Forall_nil P
    | v :: l => @List.Forall_cons _ P v l (value_induct v) (all l)
    end in
  match v with
  | VGlobal g => Hglobal g
  | VConstAggregate ops => Hagg ops (all ops)
  | VConstExpr ops => Hexpr ops (all ops)
  | VInlineAsm => Hasm
  | VOther i => Hother i
  end.
End value_ind.

Inductive eh_kind :=
| Invoke | Resume | CatchSwitch | CatchReturn | CleanupReturn | LandingPad | CatchPad
| CleanupPad.

Inductive ins :=
| IIndirectBr (ops : list value)
| IEh (k : eh_kind) (ops : list value)
| ICall (callee : value) (args : list value) (fty : functype) (attrs : attrlist)
| IOther (ops : list value).

(** ** Functions and modules *)

Record func := mk_func {
  fn_addr : Z;
  fn_decl : bool;
  fn_type : functype;
  fn_attrs : attrlist;
  fn_body : list (list ins)
}.

Definition fn_ins (f : func) : list ins := concat (fn_body f).

Definition module := list func.
