(* ===== verification/TypeHash.v ===== *)
(** * Hashes of types, attributes and signatures

    Models [lib/gyhcall/type_hash.cpp]. LLVM's [hash_combine] is a parameter:
    a function of the sequence of values it is given, each with the C++ type
    it has at the call. *)

From S2P Require Import Prelude LlvmIR.
#[local] Open Scope Z_scope.

Inductive hval :=
| HEnum (id : Z)
| HUnsigned (n : Z)
| HU64 (n : Z)
| HBool (b : bool)
| HCode (h : Z)
| HOptCode (h : option Z)
| HStr (s : string).

Section hash.
(** The numbers of the type kinds, [hash_combine], [Type::isSized] and
    [Attribute::getKindAsEnum]. *)
Context (typeID : TypeID -> Z) (hash_combine : list hval -> Z).
Context (isSized : ty -> bool) (getKindAsEnum : attr -> Z).

(** The kinds the [switch] hashes by their number alone. *)
Definition plain_kind (id : TypeID) : bool :=
  match id with
  | HalfTyID | BFloatTyID | FloatTyID | DoubleTyID | FP128TyID | VoidTyID | LabelTyID
  | MetadataTyID | TokenTyID => true
  | _ => false
  end.

(** [for (auto x : l) { h = hash(x); if (!h) return {}; ret = hash_combine(ret, h); }],
    where [as_arg] is the form in which [h] is given to [hash_combine]. *)
Definition hash_fold {A} (as_arg : Z -> hval) (hash : A -> option Z)
    : Z -> list A -> option Z :=
  fix go (ret : Z) (l : list A) :=
    match l with
    | [] => Some ret
    | x :: l => h ← hash x; go (hash_combine [HCode ret; as_arg h]) l
    end.

Fixpoint type_hash (t : ty) : option Z :=
  match t with
  | TPrim id => if plain_kind id then Some (typeID id) else None
  | TInt w => Some (hash_combine [HEnum (typeID IntegerTyID); HUnsigned w])
  | TFun r ps va =>
      rh ← type_hash r;
      let ret := hash_combine [HCode (typeID FunctionTyID); HCode rh] in
      ret ← hash_fold HCode type_hash ret ps;
      Some (hash_combine [HCode ret; HBool va])
  | TPtr a => Some (hash_combine [HEnum (typeID PointerTyID); HUnsigned a])
  | TOpaque _ => None
  | TStruct _ es pk =>
      ret ← hash_fold (fun h => HOptCode (Some h)) type_hash (typeID StructTyID) es;
      Some (hash_combine [HCode ret; HBool pk; HBool (isSized t)])
  | TArray e n =>
      h ← type_hash e; Some (hash_combine [HCode (typeID ArrayTyID); HCode h; HU64 n])
  | TFixedVec e n =>
      h ← type_hash e; Some (hash_combine [HCode (typeID FixedVectorTyID); HCode h; HUnsigned n])
  | TScalableVec e n =>
      h ← type_hash e; Some (hash_combine [HCode (typeID ScalableVectorTyID); HCode h; HUnsigned n])
  | TTypedPtr _ _ | TTargetExt _ => None
  end.

Definition attribute_hash (a : attr) : option Z :=
  match a with
  | AInvalid => None
  | AEnum _ => Some (getKindAsEnum a)
  | AInt _ v => Some (hash_combine [HCode (getKindAsEnum a); HU64 v])
  | AString _ v => Some (hash_combine [HCode (getKindAsEnum a); HStr v])
  | AType _ t => Some (hash_combine [HCode (getKindAsEnum a); HOptCode (type_hash t)])
  end.

Definition attribute_set_hash (s : attrset) : option Z := hash_fold HCode attribute_hash 200000406 s.

Definition attribute_list_hash (l : attrlist) : option Z :=
  hash_fold HCode attribute_set_hash 200000906 l.

Definition signature_hash (t : functype) (attrs : attrlist) : option Z :=
  th ← type_hash (ty_of_fun t);
  let ret := hash_combine [HCode 20010313; HCode th] in
  ah ← attribute_list_hash attrs;
  Some (hash_combine [HCode ret; HCode ah]).

Definition function_hash (f : func) : option Z := signature_hash (fn_type f) (fn_attrs f).

Definition call_site_hash (fty : functype) (attrs : attrlist) : option Z := signature_hash fty attrs.

(** ** Which types have a hash *)

Fixpoint hashable (t : ty) : bool :=
  match t with
  | TPrim id => plain_kind id
  | TInt _ | TPtr _ => true
  | TFun r ps _ => hashable r && forallb hashable ps
  | TStruct _ es _ => forallb hashable es
  | TArray e _ | TFixedVec e _ | TScalableVec e _ => hashable e
  | TOpaque _ | TTypedPtr _ _ | TTargetExt _ => false
  end.

Lemma is_Some_bind {A B} (m : option A) (f : A -> B) :
  is_Some (x ← m; Some (f x)) <-> is_Some m.
Proof. destruct m; simpl; split; intros [? H]; try done; by eexists. Qed.

Lemma hash_fold_is_Some {A} as_arg (hash : A -> option Z) (ok : A -> bool) l :
  Forall (fun x => is_Some (hash x) <-> ok x = true) l ->
  forall ret, is_Some (hash_fold as_arg hash ret l) <-> forallb ok l = true.
Proof.
  induction 1 as [|x l Hx _ IH]; intros ret; simpl; [split; eauto|].
  rewrite andb_true_iff, <- Hx. destruct (hash x); simpl; [rewrite IH|].
  - split; [by split|by intros [_ ?]].
  - split; [by intros []%is_Some_None|by intros [[]%is_Some_None _]].
Qed.

(** A type has a hash exactly when nothing in it is an opaque structure, a
    typed pointer, a target extension type or one of the machine-specific
    primitive types: the hash never fails on anything else. *)
Theorem type_hash_defined t : is_Some (type_hash t) <-> hashable t = true.
Proof.
  induction t using ty_induct; simpl; try (rewrite is_Some_bind); try done;
    try (split; [by intros [? ?]|done]); try (split; eauto; fail).
  - destruct (plain_kind id); split; try done; eauto; by intros []%is_Some_None.
  - rewrite andb_true_iff, <- IHt. destruct (type_hash t) as [h|]; simpl.
    + rewrite is_Some_bind, hash_fold_is_Some by done. split; [by split|by intros [_ ?]].
    + split; [by intros []%is_Some_None|by intros [[]%is_Some_None _]].
  - by apply hash_fold_is_Some.
Qed.

(** ** Which types have the same hash *)

(** The hash does not depend on the names of structures. *)
Fixpoint erase (t : ty) : ty :=
  match t with
  | TFun r ps va => TFun (erase r) (map erase ps) va
  | TStruct _ es pk => TStruct None (map erase es) pk
  | TArray e n => TArray (erase e) n
  | TFixedVec e n => TFixedVec (erase e) n
  | TScalableVec e n => TScalableVec (erase e) n
  | TTypedPtr e a => TTypedPtr (erase e) a
  | _ => t
  end.

(** The arguments of the calls of [hash_combine] that hashing makes. *)
Definition fold_calls {A} (as_arg : Z -> hval) (hash : A -> option Z)
    (calls : A -> list (list hval)) : Z -> list A -> list (list hval) :=
  fix go (ret : Z) (l : list A) :=
    match l with
    | [] => []
    | x :: l =>
        let h := default 0 (hash x) in
        calls x ++ [HCode ret; as_arg h] :: go (hash_combine [HCode ret; as_arg h]) l
    end.

Fixpoint hash_calls (t : ty) : list (list hval) :=
  match t with
  | TInt w => [[HEnum (typeID IntegerTyID); HUnsigned w]]
  | TFun r ps va =>
      let c := [HCode (typeID FunctionTyID); HCode (default 0 (type_hash r))] in
      let ret := hash_combine c in
      hash_calls r ++ c :: fold_calls HCode type_hash hash_calls ret ps ++
      [[HCode (default 0 (hash_fold HCode type_hash ret ps)); HBool va]]
  | TPtr a => [[HEnum (typeID PointerTyID); HUnsigned a]]
  | TStruct _ es pk =>
      let as_arg h := HOptCode (Some h) in
      fold_calls as_arg type_hash hash_calls (typeID StructTyID) es ++
      [[HCode (default 0 (hash_fold as_arg type_hash (typeID StructTyID) es));
        HBool pk; HBool (isSized t)]]
  | TArray e n =>
      hash_calls e ++ [[HCode (typeID ArrayTyID); HCode (default 0 (type_hash e)); HU64 n]]
  | TFixedVec e n =>
      hash_calls e ++
      [[HCode (typeID FixedVectorTyID); HCode (default 0 (type_hash e)); HUnsigned n]]
  | TScalableVec e n =>
      hash_calls e ++
      [[HCode (typeID ScalableVectorTyID); HCode (default 0 (type_hash e)); HUnsigned n]]
  | _ => []
  end.

Section separation.
(** A set of calls on which [hash_combine] does not collide, neither with
    itself nor with the number of a type kind. *)
Context (C : list hval -> Prop).
Context (HID : forall i j, typeID i = typeID j -> i = j).
Context (HC : forall l1 l2, C l1 -> C l2 -> hash_combine l1 = hash_combine l2 -> l1 = l2).
Context (HCid : forall l i, C l -> hash_combine l <> typeID i).

Lemma hash_fold_app {A} as_arg (hash : A -> option Z) ret l1 l2 :
  hash_fold as_arg hash ret (l1 ++ l2) =
    (r ← hash_fold as_arg hash ret l1; hash_fold as_arg hash r l2).
Proof.
  revert ret. induction l1 as [|x l1 IH]; intros ret; simpl; [done|].
  destruct (hash x); simpl; [apply IH|done].
Qed.

Lemma fold_calls_app {A} as_arg (hash : A -> option Z) calls ret l1 l2 r :
  hash_fold as_arg hash ret l1 = Some r ->
  fold_calls as_arg hash calls ret (l1 ++ l2) =
    fold_calls as_arg hash calls ret l1 ++ fold_calls as_arg hash calls r l2.
Proof.
  revert ret. induction l1 as [|x l1 IH]; intros ret H; simpl in *; [by inversion H|].
  destruct (hash x); simpl in *; [|done]. rewrite (IH _ H). by rewrite <- app_assoc.
Qed.

(** The last step of a fold that is not empty. *)
Lemma hash_fold_snoc {A} as_arg (hash : A -> option Z) calls ret l x r :
  hash_fold as_arg hash ret (l ++ [x]) = Some r ->
  Forall C (fold_calls as_arg hash calls ret (l ++ [x])) ->
  exists r' h, hash_fold as_arg hash ret l = Some r' /\ hash x = Some h /\
    r = hash_combine [HCode r'; as_arg h] /\ C [HCode r'; as_arg h] /\
    Forall C (calls x) /\ Forall C (fold_calls as_arg hash calls ret l).
Proof.
  intros H Hc. rewrite hash_fold_app in H.
  destruct (hash_fold as_arg hash ret l) as [r'|] eqn:Hl; [|done]. simpl in H.
  destruct (hash x) as [h|] eqn:Hx; [|done]. simpl in H. injection H as <-.
  rewrite (fold_calls_app _ _ _ _ _ _ _ Hl) in Hc. simpl in Hc. rewrite Hx in Hc.
  apply Forall_app in Hc as [Hc1 Hc2]. apply Forall_app in Hc2 as [Hc2 Hc3].
  exists r', h. repeat split; try done. by inversion Hc3.
Qed.

(** Two folds with one result: one list of elements is a suffix of the other,
    up to [R], and what is left over leads from one start to the other. *)
Lemma hash_fold_inj {A} as_arg (hash : A -> option Z) calls (R : A -> A -> Prop) s1 s2 l1 l2 r :
  (forall h1 h2, as_arg h1 = as_arg h2 -> h1 = h2) ->
  (forall x y h, x ∈ l1 -> hash x = Some h -> hash y = Some h ->
     Forall C (calls x) -> Forall C (calls y) -> R x y) ->
  hash_fold as_arg hash s1 l1 = Some r -> hash_fold as_arg hash s2 l2 = Some r ->
  Forall C (fold_calls as_arg hash calls s1 l1) ->
  Forall C (fold_calls as_arg hash calls s2 l2) ->
  exists p q l1' l2', l1 = p ++ l1' /\ l2 = q ++ l2' /\ Forall2 R l1' l2' /\
    Forall C (fold_calls as_arg hash calls s1 p) /\
    Forall C (fold_calls as_arg hash calls s2 q) /\
    ((p = [] /\ hash_fold as_arg hash s2 q = Some s1) \/
     (q = [] /\ hash_fold as_arg hash s1 p = Some s2)).
Proof.
  intros Ha. revert l2 r. induction l1 as [|x l1 IH] using rev_ind; intros l2 r HR H1 H2 C1 C2.
  { exists [], l2, [], []. rewrite !app_nil_r. simpl in H1. injection H1 as <-.
    split_and!; try done; by left. }
  induction l2 as [|y l2 _] using rev_ind.
  { exists (l1 ++ [x]), [], [], []. rewrite !app_nil_r. simpl in H2. injection H2 as <-.
    split_and!; try done; by right. }
  destruct (hash_fold_snoc _ _ _ _ _ _ _ H1 C1) as (r1 & h1 & F1 & X1 & -> & K1 & D1 & E1).
  destruct (hash_fold_snoc _ _ _ _ _ _ _ H2 C2) as (r2 & h2 & F2 & X2 & Hr & K2 & D2 & E2).
  apply HC in Hr; [|done|done]. injection Hr as <- Heq. apply Ha in Heq as <-.
  destruct (IH l2 r1) as (p & q & l1' & l2' & -> & -> & HF & Hp & Hq & Hor); try done.
  { intros x' y' h Hin. apply HR. rewrite elem_of_app. by left. }
  exists p, q, (l1' ++ [x]), (l2' ++ [y]). rewrite !app_assoc. repeat split; try done.
  apply Forall2_app; [done|]. constructor; [|done].
  eapply HR; try done. rewrite elem_of_app, list_elem_of_singleton. by right.
Qed.

(** A fold that is not empty ends in a call. *)
Lemma hash_fold_call {A} as_arg (hash : A -> option Z) calls s q r :
  q <> [] -> hash_fold as_arg hash s q = Some r ->
  Forall C (fold_calls as_arg hash calls s q) ->
  exists r' h, r = hash_combine [HCode r'; as_arg h] /\ C [HCode r'; as_arg h] /\
    (r' = s \/ exists c, C c /\ r' = hash_combine c).
Proof.
  induction q as [|y q _] using rev_ind; [done|]. intros _ H Hc.
  destruct (hash_fold_snoc _ _ _ _ _ _ _ H Hc) as (r' & h & F & X & -> & K & D & E).
  exists r', h. repeat split; try done.
  destruct q as [|z q _] using rev_ind; [left; simpl in F; by injection F|right].
  destruct (hash_fold_snoc _ _ _ _ _ _ _ F E) as (r2 & h2 & _ & _ & -> & K2 & _). eauto.
Qed.

Lemma Forall2_map_erase l1 l2 :
  Forall2 (fun t1 t2 => erase t1 = erase t2) l1 l2 -> map erase l1 = map erase l2.
Proof. induction 1; simpl; by f_equal. Qed.

(** Equal structure hashes before the last step come from equal elements. *)
Lemma struct_fold_inj es1 es2 r :
  let as_arg h := HOptCode (Some h) in
  (forall t1 t2 h, t1 ∈ es1 -> type_hash t1 = Some h -> type_hash t2 = Some h ->
     Forall C (hash_calls t1) -> Forall C (hash_calls t2) -> erase t1 = erase t2) ->
  hash_fold as_arg type_hash (typeID StructTyID) es1 = Some r ->
  hash_fold as_arg type_hash (typeID StructTyID) es2 = Some r ->
  Forall C (fold_calls as_arg type_hash hash_calls (typeID StructTyID) es1) ->
  Forall C (fold_calls as_arg type_hash hash_calls (typeID StructTyID) es2) ->
  map erase es1 = map erase es2.
Proof.
  intros as_arg HR H1 H2 C1 C2.
  destruct (hash_fold_inj as_arg type_hash hash_calls
              (fun t1 t2 => erase t1 = erase t2)
              (typeID StructTyID) (typeID StructTyID) es1 es2 r) as
    (p & q & l1 & l2 & -> & -> & HF & Cp & Cq & Hor); try done; [by intros ? ? [=]|].
  assert (forall x, Forall C (fold_calls as_arg type_hash hash_calls (typeID StructTyID) x) ->
    hash_fold as_arg type_hash (typeID StructTyID) x = Some (typeID StructTyID) -> x = [])
    as Hnil.
  { intros x Cx Hx. destruct (decide (x = [])) as [|Hne]; [done|].
    destruct (hash_fold_call _ _ _ _ _ _ Hne Hx Cx) as (r' & h & He & Hk & _).
    by apply eq_sym, HCid in He. }
  destruct Hor as [[-> Hq]|[-> Hp]]; [rewrite (Hnil q)|rewrite (Hnil p)]; try done;
    by apply Forall2_map_erase.
Qed.

(** The same for the parameters of a function and its return type. *)
Lemma fun_fold_inj h1 h2 ps1 ps2 r :
  let c h := [HCode (typeID FunctionTyID); HCode h] in
  (forall t1 t2 h, t1 ∈ ps1 -> type_hash t1 = Some h -> type_hash t2 = Some h ->
     Forall C (hash_calls t1) -> Forall C (hash_calls t2) -> erase t1 = erase t2) ->
  C (c h1) -> C (c h2) ->
  hash_fold HCode type_hash (hash_combine (c h1)) ps1 = Some r ->
  hash_fold HCode type_hash (hash_combine (c h2)) ps2 = Some r ->
  Forall C (fold_calls HCode type_hash hash_calls (hash_combine (c h1)) ps1) ->
  Forall C (fold_calls HCode type_hash hash_calls (hash_combine (c h2)) ps2) ->
  h1 = h2 /\ map erase ps1 = map erase ps2.
Proof.
  intros c HR K1 K2 H1 H2 C1 C2.
  destruct (hash_fold_inj HCode type_hash hash_calls
              (fun t1 t2 => erase t1 = erase t2)
              (hash_combine (c h1)) (hash_combine (c h2)) ps1 ps2 r) as
    (p & q & l1 & l2 & -> & -> & HF & Cp & Cq & Hor); try done; [by intros ? ? [=]|].
  assert (forall x a b, C (c a) -> C (c b) ->
    Forall C (fold_calls HCode type_hash hash_calls (hash_combine (c a)) x) ->
    hash_fold HCode type_hash (hash_combine (c a)) x = Some (hash_combine (c b)) ->
    x = [] /\ a = b) as Hnil.
  { intros x a b Ka Kb Cx Hx. destruct (decide (x = [])) as [->|Hne].
    { simpl in Hx. injection Hx as Hx. apply HC in Hx; [|done..]. by injection Hx. }
    destruct (hash_fold_call _ _ _ _ _ _ Hne Hx Cx) as (r' & h & He & Hk & Hor').
    apply HC in He; [|done..]. injection He as He _. exfalso.
    destruct Hor' as [Hs|(d & Hd & Hs)]; rewrite Hs in He;
      apply eq_sym, HCid in He; done. }
  destruct Hor as [[-> Hq]|[-> Hp]].
  - destruct (Hnil q h2 h1) as [-> ->]; try done. by split; [|apply Forall2_map_erase].
  - destruct (Hnil p h1 h2) as [-> ->]; try done. by split; [|apply Forall2_map_erase].
Qed.

(** The binds of a hash that exists, with their results put into the calls. *)
Ltac open_hash :=
  repeat match goal with
  | H : (_ ≫= _) = Some _ |- _ =>
      let x := fresh "h" in let E := fresh "E" in apply bind_Some in H as (x & E & H)
  | H : (if plain_kind _ then _ else _) = Some _ |- _ => destruct (plain_kind _)
  | H : None = Some _ |- _ => discriminate H
  | H : Some _ = Some _ |- _ => injection H as H
  end;
  repeat match goal with
  | E : type_hash ?t = Some _, H : context [type_hash ?t] |- _ =>
      lazymatch H with E => fail | _ => rewrite E in H; simpl in H end
  | E : hash_fold ?a type_hash ?s ?l = Some _, H : context [hash_fold ?a type_hash ?s ?l] |- _ =>
      lazymatch H with E => fail | _ => rewrite E in H; simpl in H end
  end;
  repeat match goal with
  | H : Forall C (_ ++ _) |- _ => apply Forall_app in H as [? H]
  | H : Forall C (_ :: _) |- _ => apply Forall_cons_1 in H as [? H]
  end.

(** Equal calls, or a call equal to the number of a kind. *)
Ltac same_call :=
  subst; match goal with
  | H : hash_combine _ = hash_combine _ |- _ => apply HC in H; [|assumption..]; simplify_eq
  | H : hash_combine _ = typeID _ |- _ => by apply HCid in H
  | H : typeID _ = hash_combine _ |- _ => by apply eq_sym, HCid in H
  | H : typeID _ = typeID _ |- _ => apply HID in H; simplify_eq
  end;
  repeat match goal with H : typeID _ = typeID _ |- _ => by apply HID in H end.

Lemma type_hash_inj t1 t2 h :
  type_hash t1 = Some h -> type_hash t2 = Some h ->
  Forall C (hash_calls t1) -> Forall C (hash_calls t2) -> erase t1 = erase t2.
Proof.
  revert t2 h. induction t1 using ty_induct; intros t2 h0 H1 H2 C1 C2;
    destruct t2; simpl in *; open_hash; try (by same_call); same_call.
  - destruct (fun_fold_inj h2 h ps params h3) as [<- Hps]; try done.
    { intros t1' t2' h' Hin. rewrite Forall_forall in H. exact (H t1' Hin t2' h'). }
    f_equal; [by eapply IHt1|done].
  - f_equal. eapply struct_fold_inj; try done.
    intros t1' t2' h' Hin. rewrite Forall_forall in H. exact (H t1' Hin t2' h').
  - f_equal. by eapply IHt1.
  - f_equal. by eapply IHt1.
  - f_equal. by eapply IHt1.
Qed.

End separation.
(** Names do not matter, as far as LLVM's notion of a sized type does not
    look at them. *)
Lemma hash_fold_map {A} as_arg (hash : A -> option Z) (g : A -> A) l :
  Forall (fun x => hash (g x) = hash x) l ->
  forall ret, hash_fold as_arg hash ret (map g l) = hash_fold as_arg hash ret l.
Proof.
  induction 1 as [|x l Hx _ IH]; intros ret; simpl; [done|]. rewrite Hx.
  by destruct (hash x); simpl.
Qed.

Lemma type_hash_erase t :
  (forall t, isSized (erase t) = isSized t) -> type_hash (erase t) = type_hash t.
Proof.
  intros Hs. induction t using ty_induct; simpl; try done; try (by rewrite IHt).
  - rewrite IHt. destruct (type_hash t); simpl; [by rewrite hash_fold_map|done].
  - rewrite hash_fold_map by done. by rewrite <- (Hs (TStruct n es pk)).
Qed.

End hash.

(** C26: two types with a hash have the same one exactly when they are the same
    up to the names of structures, as long as [hash_combine] does not collide
    on the calls made for these two types. *)
Theorem type_hash_separates typeID hash_combine isSized t1 t2 h1 h2 :
  let calls := hash_calls typeID hash_combine isSized t1 ++
               hash_calls typeID hash_combine isSized t2 in
  (forall i j, typeID i = typeID j -> i = j) ->
  (forall l1 l2, l1 ∈ calls -> l2 ∈ calls -> hash_combine l1 = hash_combine l2 -> l1 = l2) ->
  (forall l i, l ∈ calls -> hash_combine l <> typeID i) ->
  (forall t, isSized (erase t) = isSized t) ->
  type_hash typeID hash_combine isSized t1 = Some h1 ->
  type_hash typeID hash_combine isSized t2 = Some h2 ->
  (h1 = h2 <-> erase t1 = erase t2).
Proof.
  intros calls HID HC HCid Hs H1 H2. split.
  - intros <-. eapply (type_hash_inj typeID hash_combine isSized (fun l => l ∈ calls));
      [done..| |]; apply Forall_forall; intros l Hl; apply elem_of_app; auto.
  - intros He. rewrite <- (type_hash_erase _ _ _ t1), He, type_hash_erase in H1 by done.
    congruence.
Qed.

(** ** Example *)

Module ToyHash.

#[local] Instance hval_eq_dec : EqDecision hval.
Proof. solve_decision. Defined.

Definition typeID (i : TypeID) : Z :=
  match i with
  | HalfTyID => 0 | BFloatTyID => 1 | FloatTyID => 2 | DoubleTyID => 3 | X86_FP80TyID => 4
  | FP128TyID => 5 | PPC_FP128TyID => 6 | VoidTyID => 7 | LabelTyID => 8
  | MetadataTyID => 9 | X86_MMXTyID => 10 | X86_AMXTyID => 11 | TokenTyID => 12
  | IntegerTyID => 13 | FunctionTyID => 14 | PointerTyID => 15 | StructTyID => 16
  | ArrayTyID => 17 | FixedVectorTyID => 18 | ScalableVectorTyID => 19
  | TypedPointerTyID => 20 | TargetExtTyID => 21
  end.

Definition word (v : hval) : Z :=
  match v with
  | HEnum n => 8 * n | HUnsigned n => 8 * n + 1 | HU64 n => 8 * n + 2
  | HBool b => if b then 11 else 3 | HCode h => 8 * h + 4
  | HOptCode h => 8 * default 0 h + 5 | HStr _ => 6
  end.

Definition hash_combine (l : list hval) : Z :=
  u64 (foldr (fun v acc => acc * 1000003 + word v) 4096 l).

Definition pair (name : string) : ty := TStruct (Some name) [TInt 32; TPtr 0] false.

Definition two_calls : list (list hval) :=
  hash_calls typeID hash_combine (fun _ => true) (pair "A"%string) ++
  hash_calls typeID hash_combine (fun _ => true) (pair "B"%string).

Lemma no_collision : Forall (fun l1 =>
  Forall (fun l2 => hash_combine l1 = hash_combine l2 -> l1 = l2) two_calls) two_calls.
Proof. apply (bool_decide_unpack _). by vm_compute. Qed.

Lemma no_kind : Forall (fun l => 21 < hash_combine l) two_calls.
Proof. apply (bool_decide_unpack _). by vm_compute. Qed.

Lemma type_hash_separates_witness :
  type_hash typeID hash_combine (fun _ => true) (pair "A"%string) =
  type_hash typeID hash_combine (fun _ => true) (pair "B"%string).
Proof.
  destruct (type_hash typeID hash_combine (fun _ => true) (pair "A"%string)) as [h1|] eqn:H1;
    [|discriminate H1].
  destruct (type_hash typeID hash_combine (fun _ => true) (pair "B"%string)) as [h2|] eqn:H2;
    [|discriminate H2].
  f_equal.
  apply (type_hash_separates typeID hash_combine (fun _ => true)
           (pair "A"%string) (pair "B"%string) h1 h2); try done.
  - by intros [] [].
  - intros l1 l2 Hl1 Hl2.
    pose proof (proj1 (Forall_forall _ _) no_collision l1 Hl1) as Hall.
    exact (proj1 (Forall_forall _ _) Hall l2 Hl2).
  - intros l i Hl He. pose proof (proj1 (Forall_forall _ _) no_kind l Hl) as Hlt.
    simpl in Hlt. rewrite He in Hlt. by destruct i.
Defined.

End ToyHash.
