(* ===== verification/Symtbl.v ===== *)
(** * The symbol table and the lists the passes share

    Models the data of [lib/gyhcall/Symtbl.hpp] and [lib/gyhcall/BwList.hpp]
    with the constructor of [StubInfo] and [filter_abi_attributes] of
    [lib/gyhcall/Symtbl.cpp]. A [std::map] is a [gmap]; where the code
    iterates over one, it does so in the order of its keys ([map_iter]). *)

From stdpp Require Export sorting.
From S2P Require Import Prelude LlvmIR.
#[local] Open Scope Z_scope.

(** ** Ordered iteration *)

Definition key_le {A} (x y : Z * A) : Prop := x.1 <= y.1.

#[export] Instance key_le_dec {A} : RelDecision (@key_le A).
Proof. intros x y. unfold key_le. apply _. Defined.

Definition map_iter {A} (m : gmap Z A) : list (Z * A) := merge_sort key_le (map_to_list m).

Lemma elem_of_map_iter {A} (m : gmap Z A) k v : (k, v) ∈ map_iter m <-> m !! k = Some v.
Proof.
  unfold map_iter. rewrite merge_sort_Permutation. apply elem_of_map_to_list.
Qed.

(** ** Tables whose entries carry a number *)

Class HasUid (A : Type) := {
  uid : A -> Z;
  set_uid : Z -> A -> A;
  uid_set_uid : forall n v, uid (set_uid n v) = n
}.

Definition UINT32_MAX : Z := 2 ^ 32 - 1.

(** [try_emplace(k, v)], with [uid = counter++] when the key is new. *)
Definition try_register {A} `{HasUid A} (k : Z) (v : A) (st : gmap Z A * Z) : gmap Z A * Z :=
  match st.1 !! k with
  | Some _ => st
  | None => (<[k := set_uid st.2 v]> st.1, u32 (st.2 + 1))
  end.

(** The numbers of a table were given out in order: [ks] lists its keys by
    number, and the counter is the next number. *)
Definition numbered {A} `{HasUid A} (ks : list Z) (st : gmap Z A * Z) : Prop :=
  NoDup ks /\
  (forall k, k ∈ ks <-> is_Some (st.1 !! k)) /\
  (forall i k, ks !! i = Some k -> exists v, st.1 !! k = Some v /\ uid v = u32 (Z.of_nat i)) /\
  st.2 = u32 (Z.of_nat (length ks)).

Lemma numbered_empty {A} `{HasUid A} : numbered [] (∅ : gmap Z A, 0).
Proof.
  split; [constructor|]. split; [|done].
  intros k. simpl. rewrite lookup_empty. split; [by intros ?%elem_of_nil|by intros []%is_Some_None].
Qed.

Lemma u32_succ n : u32 (u32 n + 1) = u32 (n + 1).
Proof. unfold wrap. by rewrite Z.add_mod_idemp_l. Qed.

Lemma numbered_insert {A} `{HasUid A} ks (m : gmap Z A) c k v :
  numbered ks (m, c) -> m !! k = None ->
  numbered (ks ++ [k]) (<[k := set_uid c v]> m, u32 (c + 1)).
Proof.
  intros (Hnd & Hk & Hi & Hc) Hm. simpl in *.
  assert (k ∉ ks) as Hni by (rewrite Hk, Hm; by intros []%is_Some_None).
  split; [|split; [|split]]; simpl.
  - apply NoDup_app. split; [done|]. split; [set_solver|]. apply NoDup_singleton.
  - intros k'. rewrite elem_of_app, Hk, list_elem_of_singleton.
    destruct (decide (k' = k)) as [->|Hne].
    + rewrite lookup_insert_eq. split; [by eexists|by right].
    + rewrite lookup_insert_ne by done. split; [by intros [?|?]|by left].
  - intros i k' Hi'. apply lookup_app_Some in Hi' as [Hi'|[Hle Hi']].
    + rewrite lookup_insert_ne; [by apply Hi|]. intros <-. by apply list_elem_of_lookup_2 in Hi'.
    + apply list_lookup_singleton_Some in Hi' as [Hz <-].
      exists (set_uid c v). rewrite lookup_insert_eq, uid_set_uid. split; [done|].
      rewrite Hc. do 2 f_equal. lia.
  - rewrite length_app, Hc, u32_succ. simpl. f_equal. lia.
Qed.

Lemma try_register_numbered {A} `{HasUid A} ks (st : gmap Z A * Z) k v :
  numbered ks st -> exists ks', numbered ks' (try_register k v st).
Proof.
  intros Hn. unfold try_register. destruct st as [m c]. simpl.
  destruct (m !! k) eqn:Hk; [by eexists|]. eexists. by apply numbered_insert.
Qed.

Lemma try_register_lookup {A} `{HasUid A} (st : gmap Z A * Z) k v k' :
  is_Some ((try_register k v st).1 !! k') <-> k' = k \/ is_Some (st.1 !! k').
Proof.
  unfold try_register. destruct (st.1 !! k) eqn:Hk; simpl.
  - split; [by right|]. intros [->|?]; [by rewrite Hk|done].
  - rewrite lookup_insert_is_Some. split; [naive_solver|].
    destruct (decide (k' = k)); naive_solver.
Qed.

(** A table numbers its entries one to one from zero. *)
Definition numbers {A} `{HasUid A} (t : gmap Z A) : Prop :=
  (forall k v, t !! k = Some v -> 0 <= uid v < Z.of_nat (size t)) /\
  (forall n, 0 <= n < Z.of_nat (size t) ->
     exists k v, t !! k = Some v /\ uid v = n /\
       forall k' v', t !! k' = Some v' -> uid v' = n -> k' = k).

(** A numbered table of at most [2 ^ 32] entries numbers its keys one to one
    from zero. *)
Lemma numbered_bijection {A} `{HasUid A} ks (m : gmap Z A) c :
  numbered ks (m, c) -> Z.of_nat (size m) <= 2 ^ 32 -> numbers m.
Proof.
  intros (Hnd & Hk & Hi & _) Hsz. simpl in *.
  assert (length ks = size m) as Hlen.
  { rewrite <- (size_list_to_set (C := gset Z)) by done. rewrite <- size_dom. f_equal.
    apply set_eq. intros k. rewrite elem_of_list_to_set, elem_of_dom. apply Hk. }
  assert (forall k v, m !! k = Some v ->
    exists i, ks !! i = Some k /\ uid v = Z.of_nat i /\ (i < size m)%nat) as Hinv.
  { intros k v Hv. destruct (proj1 (list_elem_of_lookup ks k)) as [i Hki]; [by apply Hk; eexists|].
    destruct (Hi i k Hki) as (v' & Hv' & Hu). rewrite Hv in Hv'. injection Hv' as <-.
    pose proof (lookup_lt_Some _ _ _ Hki). exists i. rewrite Hu, wrap_small by lia.
    split; [done|]. split; [done|lia]. }
  split.
  - intros k v Hv. destruct (Hinv k v Hv) as (i & _ & -> & ?). lia.
  - intros n Hn. destruct (lookup_lt_is_Some_2 ks (Z.to_nat n)) as [k Hki]; [lia|].
    destruct (Hi _ k Hki) as (v & Hv & Hu). rewrite Z2Nat.id, wrap_small in Hu by lia.
    exists k, v. split; [done|]. split; [done|]. intros k' v' Hv' Hu'.
    destruct (Hinv k' v' Hv') as (j & Hj & Hj' & _).
    assert (j = Z.to_nat n) as -> by lia. congruence.
Qed.

(** ** The tables *)

(** [mRet] and [mArg] are null for void and for no parameters; [mArg] is the
    literal structure of the parameter types. *)
Record StubInfo := mk_StubInfo {
  si_uid : Z;
  si_func : functype;
  si_attrs : attrlist;
  si_ret : option ty;
  si_arg : option (list ty)
}.

Definition is_void (t : ty) : bool :=
  match t with TPrim VoidTyID => true | _ => false end.

Definition new_StubInfo (funcTy : functype) (attrs : attrlist) : StubInfo :=
  mk_StubInfo UINT32_MAX funcTy attrs
    (if is_void (ft_ret funcTy) then None else Some (ft_ret funcTy))
    (match ft_params funcTy with [] => None | ps => Some ps end).

Definition set_attrs (a : attrlist) (s : StubInfo) : StubInfo :=
  mk_StubInfo (si_uid s) (si_func s) a (si_ret s) (si_arg s).

(** [mStubType] points into [mCallingStubs]; it is the key of the entry. *)
Record FuncInfo := mk_FuncInfo {
  fi_uid : Z;
  fi_stub : Z;
  fi_extrefs : list Z;
  fi_cbstubs : list Z
}.

Record GrefInfo := mk_GrefInfo { gi_uid : Z }.

#[export] Instance StubInfo_uid : HasUid StubInfo := {
  uid := si_uid;
  set_uid n s := mk_StubInfo n (si_func s) (si_attrs s) (si_ret s) (si_arg s);
  uid_set_uid n s := eq_refl
}.

#[export] Instance FuncInfo_uid : HasUid FuncInfo := {
  uid := fi_uid;
  set_uid n s := mk_FuncInfo n (fi_stub s) (fi_extrefs s) (fi_cbstubs s);
  uid_set_uid n s := eq_refl
}.

#[export] Instance GrefInfo_uid : HasUid GrefInfo := {
  uid := gi_uid; set_uid n s := mk_GrefInfo n; uid_set_uid n s := eq_refl
}.

Record Symtbl := mk_Symtbl {
  st_uid : Z;
  mCallingStubs : gmap Z StubInfo;
  mCallbackStubs : gmap Z StubInfo;
  mFunctbl : gmap Z FuncInfo;
  mGreftbl : gmap Z GrefInfo
}.

(** ** Attributes that matter to a call

    The sets of the return value and of the parameters are kept, the
    function's own is dropped. An empty set at the end of a list is no set. *)
Fixpoint trim (l : attrlist) : attrlist :=
  match l with
  | [] => []
  | s :: l =>
      match s, trim l with
      | [], [] => []
      | s, l => s :: l
      end
  end.

Definition filter_abi_attributes (l : attrlist) : attrlist :=
  match l with
  | [] => []
  | _ :: l => trim ([] :: l)
  end.

(** ** Black and white lists *)

Record FuncBw := mk_FuncBw {
  mOutline : option bool;
  mAnalyze : option bool;
  mChopOff : option bool;
  mTakeOut : option bool
}.

Record BwList := mk_BwList {
  mFuncs : gmap Z FuncBw;
  mCallees : gmap Z bool;
  mFCPcmChop : gset Z;
  mFCPcmChopOthers : bool
}.

Definition BwList_kNULL : BwList := mk_BwList ∅ ∅ ∅ false.

(** The entry of a function for one pass. *)
Definition bw_of (field : FuncBw -> option bool) (bw : BwList) (f : Z) : option bool :=
  match mFuncs bw !! f with Some b => field b | None => None end.
