(* ===== verification/Analyze.v ===== *)
(** * The analysis pass

    Models [lib/gyhcall/Analyze.cpp]: which functions of a module can be
    moved to the host, and the tables of the stubs, functions and global
    references they need. *)

From S2P Require Import Prelude LlvmIR TypeHash Symtbl.
#[local] Open Scope string_scope.
#[local] Open Scope Z_scope.

Inductive analyze_error :=
| UnspportedFunction (desc : string)
| UnspportedInstruction (desc : string)
| UnspportedAttribute (desc : string).

Section analyze.
(** The hash functions of [type_hash.cpp], the order in which a
    [SmallPtrSet] is iterated, and the black and white lists. *)
Context (function_hash : func -> option Z).
Context (call_site_hash : functype -> attrlist -> option Z).
Context (ptr_order : gset Z -> list Z).
Context (mBwList : BwList).

(** ** One function *)

(** The locals of [do_function]: [funcInfo.mExtRefArgs], [grefsInFunc],
    [callbackStubs] and [funcInfo.mCbStubArgs]. *)
Record fstate := mk_fstate {
  fs_extrefs : list Z;
  fs_grefs : gset Z;
  fs_stubs : gmap Z StubInfo;
  fs_cbstubs : list Z
}.

Definition fstate0 : fstate := mk_fstate [] ∅ ∅ [].

(** [if (grefsInFunc.insert(gv).second) mExtRefArgs.push_back(gv)] *)
Definition add_gref (g : gval) (s : fstate) : fstate :=
  if decide (g_addr g ∈ fs_grefs s) then s
  else mk_fstate (fs_extrefs s ++ [g_addr g]) ({[g_addr g]} ∪ fs_grefs s)
                 (fs_stubs s) (fs_cbstubs s).

Fixpoint do_operand (op : value) (s : fstate) : fstate :=
  match op with
  | VGlobal gv => add_gref gv s
  | VConstAggregate ops | VConstExpr ops => fold_left (fun s op => do_operand op s) ops s
  | _ => s
  end.

Definition do_operands (ops : list value) (s : fstate) : fstate :=
  fold_left (fun s op => do_operand op s) ops s.

(** The registration of the callback type of a call. *)
Definition add_callback (fty : functype) (attrs : attrlist) (s : fstate)
    : analyze_error + fstate :=
  if ft_vararg fty then inl (UnspportedInstruction "variadic call")
  else
    match call_site_hash fty attrs with
    | None => inl (UnspportedInstruction "callback type cannot be hashed")
    | Some h =>
        match fs_stubs s !! h with
        | Some _ => inr s
        | None =>
            let st := set_attrs (filter_abi_attributes attrs) (new_StubInfo fty []) in
            inr (mk_fstate (fs_extrefs s) (fs_grefs s) (<[h := st]> (fs_stubs s))
                           (fs_cbstubs s ++ [h]))
        end
    end.

Definition do_ins (i : ins) (s : fstate) : analyze_error + fstate :=
  match i with
  | IIndirectBr _ => inl (UnspportedInstruction "indirect branch")
  | IEh _ _ => inl (UnspportedInstruction "exception handling")
  | ICall callee args fty attrs =>
      match callee with
      | VInlineAsm => inl (UnspportedInstruction "inline assembly")
      | VGlobal gref =>
          let general :=
            match add_callback fty attrs (add_gref gref s) with
            | inl e => inl e
            | inr s => inr (do_operands args s)
            end in
          match g_kind gref with
          | KFunction intrinsic =>
              match mCallees mBwList !! g_addr gref with
              | Some true => inr (do_operands args s)
              | Some false => inl (UnspportedInstruction "blacklisted callee")
              | None => if intrinsic then inr (do_operands args s) else general
              end
          | _ => general
          end
      | _ =>
          match add_callback fty attrs s with
          | inl e => inl e
          | inr s => inr (do_operands args s)
          end
      end
  | IOther ops => inr (do_operands ops s)
  end.

Fixpoint do_body (l : list ins) (s : fstate) : analyze_error + fstate :=
  match l with
  | [] => inr s
  | i :: l => match do_ins i s with inl e => inl e | inr s => do_body l s end
  end.

(** No attribute is rejected: the list [kAttrs] is empty. *)
Definition check_function_attributes (attrs : attrlist) : option analyze_error := None.

(** ** The pass *)

(** [mResult] and the counters. *)
Record astate := mk_astate {
  an_calling : gmap Z StubInfo * Z;
  an_callback : gmap Z StubInfo * Z;
  an_func : gmap Z FuncInfo * Z;
  an_gref : gmap Z GrefInfo * Z
}.

Definition astate0 : astate := mk_astate (∅, 0) (∅, 0) (∅, 0) (∅, 0).

(** The part of [do_function] after the loop over the instructions. *)
Definition commit (func : func) (callingHash : Z) (fs : fstate) (a : astate) : astate :=
  let st := set_attrs (filter_abi_attributes (fn_attrs func)) (new_StubInfo (fn_type func) []) in
  let calling := try_register callingHash st (an_calling a) in
  let callback := fold_left (fun acc x => try_register x.1 x.2 acc)
                    (map_iter (fs_stubs fs)) (an_callback a) in
  let info := mk_FuncInfo (an_func a).2 callingHash (fs_extrefs fs) (fs_cbstubs fs) in
  let functbl :=
    (match (an_func a).1 !! fn_addr func with
     | Some _ => (an_func a).1
     | None => <[fn_addr func := info]> (an_func a).1
     end, u32 ((an_func a).2 + 1)) in
  let gref := fold_left (fun acc g => try_register g (mk_GrefInfo UINT32_MAX) acc)
                (ptr_order (fs_grefs fs)) (an_gref a) in
  mk_astate calling callback functbl gref.

Definition do_function (func : func) (a : astate) : analyze_error + astate :=
  if fn_decl func then inr a
  else if ft_vararg (fn_type func) then inl (UnspportedFunction "variadic function")
  else
    match check_function_attributes (fn_attrs func) with
    | Some e => inl e
    | None =>
        match function_hash func with
        | None => inl (UnspportedFunction "signature cannot be hashed")
        | Some callingHash =>
            match do_body (fn_ins func) fstate0 with
            | inl e => inl e
            | inr fs => inr (commit func callingHash fs a)
            end
        end
    end.

(** One round of the loop over the module, with the functions reported
    because the white list wants them. *)
Definition analyze_step (st : astate * list Z) (func : func) : astate * list Z :=
  let '(a, diags) := st in
  let bw := bw_of mAnalyze mBwList (fn_addr func) in
  match bw with
  | Some false => (a, diags)
  | _ =>
      match do_function func a with
      | inr a => (a, diags)
      | inl _ =>
          (a, match bw with Some true => (diags ++ [fn_addr func])%list | _ => diags end)
      end
  end.

Definition analyze (m : module) : astate * list Z := fold_left analyze_step m (astate0, []).

(** What the pass leaves in its [Symtbl], whose own number is chosen elsewhere. *)
Definition result_of (u : Z) (a : astate) : Symtbl :=
  mk_Symtbl u (an_calling a).1 (an_callback a).1 (an_func a).1 (an_gref a).1.

(** ** What an instruction needs, said without the traversal *)

(** The global values in an operand, left to right. *)
Fixpoint op_grefs (op : value) : list Z :=
  match op with
  | VGlobal gv => [g_addr gv]
  | VConstAggregate ops | VConstExpr ops => concat (map op_grefs ops)
  | _ => []
  end.

(** A call that stays a call of the same function on the host. *)
Definition kept_callee (callee : value) : bool :=
  match callee with
  | VGlobal (mk_gval a (KFunction intrinsic)) =>
      match mCallees mBwList !! a with Some b => b | None => intrinsic end
  | _ => false
  end.

Definition black_callee (callee : value) : bool :=
  match callee with
  | VGlobal (mk_gval a (KFunction _)) =>
      match mCallees mBwList !! a with Some b => negb b | None => false end
  | _ => false
  end.

Definition is_inline_asm (v : value) : bool :=
  match v with VInlineAsm => true | _ => false end.

(** The instruction does not keep its function on the guest. *)
Definition ins_ok (i : ins) : bool :=
  match i with
  | IIndirectBr _ | IEh _ _ => false
  | ICall callee _ fty attrs =>
      negb (is_inline_asm callee) && negb (black_callee callee) &&
      (kept_callee callee ||
       (negb (ft_vararg fty) && bool_decide (is_Some (call_site_hash fty attrs))))
  | IOther _ => true
  end.

(** The global values the instruction needs on the host. *)
Definition ins_grefs (i : ins) : list Z :=
  match i with
  | ICall callee args _ _ =>
      ((if kept_callee callee then [] else
          match callee with VGlobal g => [g_addr g] | _ => [] end) ++
       concat (map op_grefs args))%list
  | IOther ops | IIndirectBr ops | IEh _ ops => concat (map op_grefs ops)
  end.

(** The callback types the instruction needs. *)
Definition ins_callbacks (i : ins) : list Z :=
  match i with
  | ICall callee _ fty attrs =>
      if kept_callee callee then [] else option_list (call_site_hash fty attrs)
  | _ => []
  end.

(** First occurrences, in order. *)
Definition nub_onto (acc l : list Z) : list Z :=
  fold_left (fun acc x => if decide (x ∈ acc) then acc else (acc ++ [x])%list) l acc.

Definition nub (l : list Z) : list Z := nub_onto [] l.

(** The function can be moved to the host. *)
Definition offloadable (f : func) : bool :=
  negb (fn_decl f) && negb (ft_vararg (fn_type f)) &&
  bool_decide (is_Some (function_hash f)) && forallb ins_ok (fn_ins f).

Definition needed_grefs (f : func) : list Z := nub (concat (map ins_grefs (fn_ins f))).
Definition needed_callbacks (f : func) : list Z := nub (concat (map ins_callbacks (fn_ins f))).

(** *** Facts about first occurrences *)

Lemma nub_onto_app acc l1 l2 : nub_onto acc (l1 ++ l2) = nub_onto (nub_onto acc l1) l2.
Proof. unfold nub_onto. by rewrite fold_left_app. Qed.

Lemma elem_of_nub_onto acc l x : x ∈ nub_onto acc l <-> x ∈ acc \/ x ∈ l.
Proof.
  revert acc. induction l as [|y l IH]; intros acc; simpl.
  { split; [by left|]. by intros [?|?%elem_of_nil]. }
  rewrite IH, elem_of_cons. case_decide; [naive_solver|].
  rewrite elem_of_app, list_elem_of_singleton. naive_solver.
Qed.

Lemma NoDup_nub_onto acc l : NoDup acc -> NoDup (nub_onto acc l).
Proof.
  revert acc. induction l as [|y l IH]; intros acc Hnd; simpl; [done|].
  apply IH. case_decide; [done|].
  apply NoDup_app. split; [done|]. split; [|apply NoDup_singleton].
  intros x Hx ->%list_elem_of_singleton. done.
Qed.

(** *** The traversal computes them *)

(** A callback stub made for a call whose signature has the hash [h]. *)
Definition made_for_call (h : Z) (v : StubInfo) : Prop :=
  exists fty attrs u, call_site_hash fty attrs = Some h /\
    v = set_uid u (set_attrs (filter_abi_attributes attrs) (new_StubInfo fty [])).

(** The locals are consistent: the set holds what the list holds, and the
    stubs are those of the listed hashes, each made for its hash. *)
Definition fs_wf (s : fstate) : Prop :=
  (forall x, x ∈ fs_grefs s <-> x ∈ fs_extrefs s) /\
  (forall h, is_Some (fs_stubs s !! h) <-> h ∈ fs_cbstubs s) /\
  (forall h v, fs_stubs s !! h = Some v -> made_for_call h v).

(** From [s] to [s'] the references [l] and the callbacks [c] were added. *)
Definition adds (l c : list Z) (s s' : fstate) : Prop :=
  fs_wf s' /\ fs_extrefs s' = nub_onto (fs_extrefs s) l /\
  fs_cbstubs s' = nub_onto (fs_cbstubs s) c.

Lemma adds_refl s : fs_wf s -> adds [] [] s s.
Proof. by intros H. Qed.

Lemma adds_trans l1 c1 l2 c2 s1 s2 s3 :
  adds l1 c1 s1 s2 -> adds l2 c2 s2 s3 -> adds (l1 ++ l2) (c1 ++ c2) s1 s3.
Proof.
  intros (_ & Hl1 & Hc1) (Hw & Hl2 & Hc2). split; [done|].
  by rewrite !nub_onto_app, <- Hl1, <- Hc1.
Qed.

Lemma add_gref_adds g s : fs_wf s -> adds [g_addr g] [] s (add_gref g s).
Proof.
  intros [Hg Hs]. unfold add_gref, adds, nub_onto. simpl.
  destruct (decide (g_addr g ∈ fs_grefs s)) as [Hin|Hin]; simpl.
  - split; [done|]. rewrite decide_True by (by apply Hg). done.
  - rewrite decide_False by (by rewrite <- Hg). split; [|done].
    split; [|done]. intros x. simpl.
    rewrite elem_of_union, elem_of_singleton, elem_of_app, list_elem_of_singleton, Hg. tauto.
Qed.

Lemma fold_adds {A} (f : fstate -> A -> fstate) (refs : A -> list Z) l :
  Forall (fun x => forall s, fs_wf s -> adds (refs x) [] s (f s x)) l ->
  forall s, fs_wf s -> adds (concat (map refs l)) [] s (fold_left f l s).
Proof.
  induction 1 as [|x l Hx _ IH]; intros s Hs; simpl; [by apply adds_refl|].
  specialize (Hx s Hs). apply (adds_trans _ [] _ [] _ _ _ Hx). apply IH, Hx.
Qed.

Lemma do_operand_adds op : forall s, fs_wf s -> adds (op_grefs op) [] s (do_operand op s).
Proof.
  induction op using value_induct; intros s Hs; simpl;
    [by apply add_gref_adds|by apply fold_adds|by apply fold_adds|by apply adds_refl..].
Qed.

Lemma do_operands_adds ops s :
  fs_wf s -> adds (concat (map op_grefs ops)) [] s (do_operands ops s).
Proof. apply fold_adds. apply Forall_forall. intros op _. apply do_operand_adds. Qed.

Lemma add_callback_adds fty attrs s :
  fs_wf s ->
  match call_site_hash fty attrs with
  | Some h =>
      if ft_vararg fty then exists e, add_callback fty attrs s = inl e
      else exists s', add_callback fty attrs s = inr s' /\ adds [] [h] s s'
  | None => exists e, add_callback fty attrs s = inl e
  end.
Proof.
  intros (Hg & Hs & Hm). unfold add_callback.
  destruct (ft_vararg fty); [by destruct (call_site_hash fty attrs); eexists|].
  destruct (call_site_hash fty attrs) as [h|] eqn:Hcs; [|by eexists].
  unfold adds, nub_onto. simpl. destruct (fs_stubs s !! h) as [st|] eqn:Hh.
  - exists s. rewrite decide_True by (apply Hs; by rewrite Hh). done.
  - eexists; split; [done|]. simpl.
    rewrite decide_False by (rewrite <- Hs, Hh; by intros []%is_Some_None).
    split; [|done]. split; [done|]. split; intros h'; simpl.
    + rewrite lookup_insert_is_Some, elem_of_app, list_elem_of_singleton, Hs.
      destruct (decide (h' = h)); naive_solver.
    + intros v. rewrite lookup_insert_Some. intros [[<- <-]|[_ Hv]]; [|by apply Hm].
      by exists fty, attrs, UINT32_MAX.
Qed.

(** One call whose callee is not kept: reference, callback, arguments. *)
Lemma general_call_adds refs fty attrs args s s1 :
  adds refs [] s s1 ->
  let r := match add_callback fty attrs s1 with
           | inl e => inl e | inr s => inr (do_operands args s)
           end in
  if negb (ft_vararg fty) && bool_decide (is_Some (call_site_hash fty attrs))
  then exists s', r = inr s' /\
    adds (refs ++ concat (map op_grefs args)) (option_list (call_site_hash fty attrs)) s s'
  else exists e, r = inl e.
Proof.
  intros Ha. pose proof (add_callback_adds fty attrs s1 (proj1 Ha)) as Hc.
  destruct (call_site_hash fty attrs) as [h|]; simpl.
  - rewrite andb_true_r.
    destruct (ft_vararg fty); simpl; [by destruct Hc as [e ->]; eexists|].
    destruct Hc as (s2 & -> & H2). eexists; split; [done|].
    pose proof (adds_trans _ _ _ _ _ _ _ Ha H2) as H3. rewrite app_nil_r in H3.
    apply (adds_trans _ _ _ [] _ _ _ H3), do_operands_adds, H2.
  - rewrite andb_false_r.
    destruct Hc as [e ->]. by eexists.
Qed.

Lemma do_ins_adds i s :
  fs_wf s ->
  if ins_ok i then exists s', do_ins i s = inr s' /\ adds (ins_grefs i) (ins_callbacks i) s s'
  else exists e, do_ins i s = inl e.
Proof.
  intros Hs. destruct i as [ops|k ops|callee args fty attrs|ops]; simpl; try by eexists.
  - destruct callee as [[a k]|ops|ops| |id]; simpl; try by eexists.
    + pose proof (general_call_adds _ fty attrs args s _ (add_gref_adds (mk_gval a k) s Hs)) as G.
      destruct k as [intr| |]; [|exact G|exact G].
      destruct (mCallees mBwList !! a) as [[]|]; simpl; [|by eexists|].
      * eexists; split; [done|]. by apply do_operands_adds.
      * destruct intr; simpl; [|exact G]. eexists; split; [done|]. by apply do_operands_adds.
    + exact (general_call_adds _ fty attrs args s s (adds_refl s Hs)).
    + exact (general_call_adds _ fty attrs args s s (adds_refl s Hs)).
    + exact (general_call_adds _ fty attrs args s s (adds_refl s Hs)).
  - eexists; split; [done|]. by apply do_operands_adds.
Qed.

Lemma do_body_adds l s :
  fs_wf s ->
  if forallb ins_ok l
  then exists s', do_body l s = inr s' /\
    adds (concat (map ins_grefs l)) (concat (map ins_callbacks l)) s s'
  else exists e, do_body l s = inl e.
Proof.
  revert s. induction l as [|i l IH]; intros s Hs; simpl.
  { eexists; split; [done|by apply adds_refl]. }
  pose proof (do_ins_adds i s Hs) as Hi. destruct (ins_ok i); simpl.
  - destruct Hi as (s1 & -> & H1). specialize (IH s1 (proj1 H1)).
    destruct (forallb ins_ok l); [|done]. destruct IH as (s2 & -> & H2).
    eexists; split; [done|]. by eapply adds_trans.
  - destruct Hi as [e ->]. by eexists.
Qed.

Lemma fstate0_wf : fs_wf fstate0.
Proof.
  split; [set_solver|]. split; intros h; simpl; rewrite lookup_empty; [|done].
  split; [by intros []%is_Some_None|by intros ?%elem_of_nil].
Qed.

Lemma do_function_spec f a :
  if offloadable f
  then exists h fs, function_hash f = Some h /\ do_function f a = inr (commit f h fs a) /\
    fs_wf fs /\ fs_extrefs fs = needed_grefs f /\ fs_cbstubs fs = needed_callbacks f
  else do_function f a = inr a \/ exists e, do_function f a = inl e.
Proof.
  unfold offloadable, do_function, needed_grefs, needed_callbacks, nub. simpl.
  destruct (fn_decl f); simpl; [by left|].
  destruct (ft_vararg (fn_type f)); simpl; [right; by eexists|].
  destruct (function_hash f) as [h|]; simpl; [|right; by eexists].
  pose proof (do_body_adds (fn_ins f) fstate0 fstate0_wf) as Hb.
  destruct (forallb ins_ok (fn_ins f)).
  - destruct Hb as (fs & -> & Hw & Hl & Hc). by exists h, fs.
  - destruct Hb as [e ->]. right. by eexists.
Qed.

(** ** The pass over a module *)

(** The function is offloadable and not on the black list. *)
Definition accepted (f : func) : bool :=
  offloadable f && negb (bool_decide (bw_of mAnalyze mBwList (fn_addr f) = Some false)).

Lemma analyze_step_spec st f :
  if accepted f
  then exists h fs, function_hash f = Some h /\ (analyze_step st f).1 = commit f h fs st.1 /\
    fs_wf fs /\ fs_extrefs fs = needed_grefs f /\ fs_cbstubs fs = needed_callbacks f
  else (analyze_step st f).1 = st.1.
Proof.
  destruct st as [a d]. unfold accepted, analyze_step.
  destruct (bw_of mAnalyze mBwList (fn_addr f)) as [[]|] eqn:Hbw; simpl;
    rewrite ?andb_false_r, ?andb_true_r; try done;
    pose proof (do_function_spec f a) as Hf;
    (destruct (offloadable f);
      [destruct Hf as (h & fs & Hh & -> & Hw & Hl & Hc); by exists h, fs
      |destruct Hf as [->|[e ->]]; done]).
Qed.

Section invariant.
Context (Horder : forall s, ptr_order s ≡ₚ elements s).

(** A stub registered for the signature of [f]. *)
Definition stub_made_for (f : func) (v : StubInfo) : Prop :=
  exists u, v = set_uid u (set_attrs (filter_abi_attributes (fn_attrs f))
                             (new_StubInfo (fn_type f) [])).

(** The state after the functions [fs]. *)
Record ainv (fs : list func) (a : astate) : Prop := {
  ai_calling : exists ks, numbered ks (an_calling a);
  ai_callback : exists ks, numbered ks (an_callback a);
  ai_func : exists ks, numbered ks (an_func a);
  ai_gref : exists ks, numbered ks (an_gref a);
  ai_calling_iff : forall h, is_Some ((an_calling a).1 !! h) <->
    exists f, f ∈ fs /\ accepted f /\ function_hash f = Some h;
  ai_callback_iff : forall h, is_Some ((an_callback a).1 !! h) <->
    exists f, f ∈ fs /\ accepted f /\ h ∈ needed_callbacks f;
  ai_gref_iff : forall g, is_Some ((an_gref a).1 !! g) <->
    exists f, f ∈ fs /\ accepted f /\ g ∈ needed_grefs f;
  ai_func_iff : forall x, is_Some ((an_func a).1 !! x) <->
    exists f, f ∈ fs /\ accepted f /\ fn_addr f = x;
  ai_func_info : forall f info, f ∈ fs -> (an_func a).1 !! fn_addr f = Some info ->
    function_hash f = Some (fi_stub info) /\ fi_extrefs info = needed_grefs f /\
    fi_cbstubs info = needed_callbacks f;
  ai_calling_stub : forall h v, (an_calling a).1 !! h = Some v ->
    exists f, f ∈ fs /\ function_hash f = Some h /\ stub_made_for f v;
  ai_callback_stub : forall h v, (an_callback a).1 !! h = Some v -> made_for_call h v
}.

Lemma ainv_nil : ainv [] astate0.
Proof.
  assert (forall A (h : Z) (P : func -> Prop), is_Some ((∅ : gmap Z A) !! h) <->
    exists f, f ∈ [] /\ P f) as He.
  { intros A h P. rewrite lookup_empty. split; [by intros []%is_Some_None|].
    by intros (f & ?%elem_of_nil & _). }
  split; try (eexists; apply numbered_empty); intros; simpl; try apply He.
  - by apply elem_of_nil in H.
  - done.
  - done.
Qed.

(** Registering a list of keys. *)
Lemma fold_register_numbered {A B} `{HasUid A} (key : B -> Z) (val : B -> A) l st ks :
  numbered ks st ->
  exists ks', numbered ks' (fold_left (fun acc x => try_register (key x) (val x) acc) l st).
Proof.
  revert st ks. induction l as [|x l IH]; intros st ks Hn; simpl; [by eexists|].
  destruct (try_register_numbered ks st (key x) (val x) Hn) as [ks' Hn']. by eapply IH.
Qed.

Lemma fold_register_lookup {A B} `{HasUid A} (key : B -> Z) (val : B -> A) l st k :
  is_Some ((fold_left (fun acc x => try_register (key x) (val x) acc) l st).1 !! k) <->
  k ∈ map key l \/ is_Some (st.1 !! k).
Proof.
  revert st. induction l as [|x l IH]; intros st; simpl.
  { split; [by right|]. by intros [?%elem_of_nil|?]. }
  rewrite IH, try_register_lookup, elem_of_cons. tauto.
Qed.

(** Adding an accepted function to the list of those seen. *)
Lemma accepted_app (fs : list func) f (P : func -> Prop) :
  accepted f ->
  (exists g, g ∈ (fs ++ [f])%list /\ accepted g /\ P g) <->
  (exists g, g ∈ fs /\ accepted g /\ P g) \/ P f.
Proof.
  intros Hacc. split.
  - intros (g & [Hg| ->%list_elem_of_singleton]%elem_of_app & Ha & Hp); [left; by eexists|by right].
  - intros [(g & Hg & Ha & Hp)|Hp]; eexists; rewrite elem_of_app; [by eauto|].
    split; [right; by apply list_elem_of_singleton|done].
Qed.

Lemma rejected_app (fs : list func) f (P : func -> Prop) :
  ~ accepted f ->
  (exists g, g ∈ (fs ++ [f])%list /\ accepted g /\ P g) <-> (exists g, g ∈ fs /\ accepted g /\ P g).
Proof.
  intros Hacc. split.
  - intros (g & [Hg| ->%list_elem_of_singleton]%elem_of_app & Ha & Hp); [by eexists|done].
  - intros (g & Hg & Ha & Hp). exists g. rewrite elem_of_app. by eauto.
Qed.

Lemma commit_callback_lookup f h fs a k :
  fs_wf fs ->
  is_Some ((an_callback (commit f h fs a)).1 !! k) <->
  is_Some ((an_callback a).1 !! k) \/ k ∈ fs_cbstubs fs.
Proof.
  intros (_ & Hs & _). simpl. rewrite fold_register_lookup, <- Hs.
  assert (k ∈ map fst (map_iter (fs_stubs fs)) <-> is_Some (fs_stubs fs !! k)) as ->; [|tauto].
  rewrite list_elem_of_fmap. split.
  - intros ([k' v] & -> & Hin%elem_of_map_iter). by eexists.
  - intros [v Hv]. exists (k, v). by rewrite elem_of_map_iter.
Qed.

Lemma commit_callback_made f h fs a :
  fs_wf fs -> (forall h v, (an_callback a).1 !! h = Some v -> made_for_call h v) ->
  forall k v, (an_callback (commit f h fs a)).1 !! k = Some v -> made_for_call k v.
Proof.
  intros (_ & _ & Hm) Ha. simpl.
  assert (forall x, x ∈ map_iter (fs_stubs fs) -> made_for_call x.1 x.2) as Hl.
  { intros [k v] Hin%elem_of_map_iter. by apply Hm. }
  revert Ha Hl. generalize (an_callback a) as st. generalize (map_iter (fs_stubs fs)) as l.
  induction l as [|[k0 v0] l IH]; intros st Ha Hl k v; simpl; [by apply Ha|].
  apply IH; [|intros x Hx; apply Hl; by right]. intros k' v'. unfold try_register.
  destruct (st.1 !! k0); simpl; [by apply Ha|]. rewrite lookup_insert_Some.
  intros [[<- <-]|[_ Hv]]; [|by apply Ha].
  destruct (Hl (k0, v0)) as (fty & attrs & u & Hh & Hv0); [by left|]. simpl in Hh, Hv0.
  exists fty, attrs, st.2. split; [done|]. by rewrite Hv0.
Qed.

Lemma commit_gref_lookup f h fs a g :
  fs_wf fs ->
  is_Some ((an_gref (commit f h fs a)).1 !! g) <->
  is_Some ((an_gref a).1 !! g) \/ g ∈ fs_extrefs fs.
Proof.
  intros [Hg _]. simpl.
  rewrite (fold_register_lookup (fun g => g) (fun _ => mk_GrefInfo UINT32_MAX)).
  rewrite map_id, Horder, elem_of_elements, Hg. tauto.
Qed.

Lemma ainv_commit fs f h s a :
  fn_addr f ∉ map fn_addr fs -> accepted f -> function_hash f = Some h -> fs_wf s ->
  fs_extrefs s = needed_grefs f -> fs_cbstubs s = needed_callbacks f ->
  ainv fs a -> ainv (fs ++ [f]) (commit f h s a).
Proof.
  intros Hni Hacc Hh Hw Hl Hc [[k1 N1] [k2 N2] [k3 N3] [k4 N4] I1 I2 I3 I4 I5 I6 I7].
  assert ((an_func a).1 !! fn_addr f = None) as Hnew.
  { apply eq_None_not_Some. rewrite I4. intros (g & Hg & _ & He).
    apply Hni. rewrite <- He. by apply list_elem_of_fmap_2. }
  split.
  - eapply try_register_numbered, N1.
  - eapply fold_register_numbered, N2.
  - exists (k3 ++ [fn_addr f])%list. simpl. rewrite Hnew. destruct (an_func a) as [m c].
    exact (numbered_insert k3 m c (fn_addr f) (mk_FuncInfo c h (fs_extrefs s) (fs_cbstubs s))
             N3 Hnew).
  - eapply (fold_register_numbered (fun g => g)), N4.
  - intros h'. simpl. rewrite try_register_lookup, I1, accepted_app by done. naive_solver.
  - intros h'. rewrite commit_callback_lookup, I2, accepted_app, Hc by done. naive_solver.
  - intros g. rewrite commit_gref_lookup, I3, accepted_app, Hl by done. naive_solver.
  - intros x. simpl. rewrite Hnew, accepted_app, lookup_insert_is_Some, I4 by done.
    destruct (decide (fn_addr f = x)); naive_solver.
  - intros g info. simpl. rewrite Hnew.
    intros [Hg| ->%list_elem_of_singleton]%elem_of_app.
    + rewrite lookup_insert_ne; [by apply I5|].
      intros He. apply Hni. rewrite He. by apply list_elem_of_fmap_2.
    + rewrite lookup_insert_eq. intros [= <-]. done.
  - intros h' v. simpl. unfold try_register.
    destruct ((an_calling a).1 !! h) eqn:Hk; simpl.
    + intros (g & ? & ?)%I6. exists g. rewrite elem_of_app. by eauto.
    + destruct (decide (h' = h)) as [->|Hne].
      * rewrite lookup_insert_eq. intros [= <-]. exists f.
        rewrite elem_of_app, list_elem_of_singleton. split; [by right|]. split; [done|by eexists].
      * rewrite lookup_insert_ne by done. intros (g & ? & ?)%I6.
        exists g. rewrite elem_of_app. by eauto.
  - by apply commit_callback_made.
Qed.

Lemma ainv_skip fs f a :
  fn_addr f ∉ map fn_addr fs -> ~ accepted f -> ainv fs a -> ainv (fs ++ [f]) a.
Proof.
  intros Hni Hacc [N1 N2 N3 N4 I1 I2 I3 I4 I5 I6 I7].
  split; try done; intros x; rewrite ?rejected_app by done; try done;
    [|intros v (g & ? & ?)%I6; exists g; rewrite elem_of_app; by eauto].
  intros info [Hx| ->%list_elem_of_singleton]%elem_of_app; [by apply I5|].
  intros Hs. assert (is_Some ((an_func a).1 !! fn_addr f)) as Hs' by (by eexists).
  apply I4 in Hs' as (g & Hg & _ & He). exfalso. apply Hni. rewrite <- He.
  by apply list_elem_of_fmap_2.
Qed.

Lemma analyze_ainv m : NoDup (map fn_addr m) -> ainv m (analyze m).1.
Proof.
  unfold analyze. induction m as [|f m IH] using rev_ind; intros Hnd; [apply ainv_nil|].
  rewrite fold_left_app. simpl. rewrite map_app in Hnd.
  apply NoDup_app in Hnd as (Hnd & Hdisj & _).
  assert (fn_addr f ∉ map fn_addr m) as Hni.
  { intros Hin. apply (Hdisj _ Hin). simpl. by apply list_elem_of_singleton. }
  pose proof (analyze_step_spec (fold_left analyze_step m (astate0, [])) f) as Hs.
  specialize (IH Hnd). destruct (accepted f) eqn:Hacc.
  - destruct Hs as (h & fs & Hh & -> & Hw & Hl & Hc).
    apply ainv_commit; try done. by rewrite Hacc.
  - rewrite Hs. apply ainv_skip; [done| |done]. intros Ht. by rewrite Hacc in Ht.
Qed.

End invariant.

(** C7: the analysis takes exactly the functions it can: a function of the
    module is in the function table when, and only when, it has a body, is not
    black-listed or variadic, its signature can be hashed, and none of its
    instructions is one that keeps it on the guest; the table then holds its
    signature's stub and, in order of first use and without repetition, the
    global references and callback types its code needs. *)
Theorem analyze_functbl m f :
  (forall s, ptr_order s ≡ₚ elements s) -> NoDup (map fn_addr m) -> f ∈ m ->
  match (an_func (analyze m).1).1 !! fn_addr f with
  | Some info =>
      accepted f /\ function_hash f = Some (fi_stub info) /\
      fi_extrefs info = needed_grefs f /\ fi_cbstubs info = needed_callbacks f
  | None => ~ accepted f
  end.
Proof.
  intros Ho Hnd Hf. pose proof (analyze_ainv Ho m Hnd) as [_ _ _ _ _ _ _ I4 I5 _ _].
  destruct ((an_func (analyze m).1).1 !! fn_addr f) as [info|] eqn:Hi.
  - assert (is_Some ((an_func (analyze m).1).1 !! fn_addr f)) as Hs by (by eexists).
    apply I4 in Hs as (g & Hg & Ha & He).
    assert (g = f) as -> by (by eapply NoDup_map_inj). split; [done|]. by apply I5.
  - intros Ha. assert (is_Some ((an_func (analyze m).1).1 !! fn_addr f)) as [? Hs].
    { apply I4. by exists f. }
    congruence.
Qed.

(** The tables of the analysis are closed and minimal: the table of
    signatures, of callback types and of global references hold exactly what
    the functions in the function table need. *)
Theorem analyze_closed m :
  (forall s, ptr_order s ≡ₚ elements s) -> NoDup (map fn_addr m) ->
  let a := (analyze m).1 in
  (forall h, is_Some ((an_calling a).1 !! h) <->
     exists f, f ∈ m /\ accepted f /\ function_hash f = Some h) /\
  (forall h, is_Some ((an_callback a).1 !! h) <->
     exists f, f ∈ m /\ accepted f /\ h ∈ needed_callbacks f) /\
  (forall g, is_Some ((an_gref a).1 !! g) <->
     exists f, f ∈ m /\ accepted f /\ g ∈ needed_grefs f).
Proof. intros Ho Hnd. by destruct (analyze_ainv Ho m Hnd). Qed.

(** C14: the numbers given out by the analysis are dense and unique: each of the
    four tables, when it has no more than [2 ^ 32] entries, numbers them one to
    one from zero, so that they can index the arrays the later passes build. *)
Theorem analyze_numbers m :
  (forall s, ptr_order s ≡ₚ elements s) -> NoDup (map fn_addr m) ->
  let st := result_of 0 (analyze m).1 in
  (Z.of_nat (size (mCallingStubs st)) <= 2 ^ 32 -> numbers (mCallingStubs st)) /\
  (Z.of_nat (size (mCallbackStubs st)) <= 2 ^ 32 -> numbers (mCallbackStubs st)) /\
  (Z.of_nat (size (mFunctbl st)) <= 2 ^ 32 -> numbers (mFunctbl st)) /\
  (Z.of_nat (size (mGreftbl st)) <= 2 ^ 32 -> numbers (mGreftbl st)).
Proof.
  intros Ho Hnd. destruct (analyze_ainv Ho m Hnd) as [[k1 N1] [k2 N2] [k3 N3] [k4 N4] _ _ _ _ _ _ _].
  simpl. destruct (analyze m) as [[[t1 c1] [t2 c2] [t3 c3] [t4 c4]] d]. simpl in *.
  split_and!; intros Hs; by eapply numbered_bijection.
Qed.

End analyze.

(** ** Example

    Three functions: [work] calls an external function, an intrinsic and
    passes a constant expression on a global variable twice; [talk] makes a
    variadic call; [hidden] is black-listed. *)
Module ToyModule.
Import ToyHash.

Definition fhash : func -> option Z :=
  function_hash typeID hash_combine (fun _ => true) (fun _ => 5).
Definition chash : functype -> attrlist -> option Z :=
  call_site_hash typeID hash_combine (fun _ => true) (fun _ => 5).

Definition i32t : ty := TInt 32.
Definition sig : functype := mk_functype i32t [i32t] false.
Definition var_sig : functype := mk_functype i32t [TPtr 0] true.

Definition ext : value := VGlobal (mk_gval 0x500 (KFunction false)).
Definition intrinsic : value := VGlobal (mk_gval 0x600 (KFunction true)).
Definition table : value := VConstExpr [VGlobal (mk_gval 0x700 KVariable); VOther 1].

Definition work : func := mk_func 0x100 false sig []
  [[ICall ext [table] sig []; ICall intrinsic [table] sig []]; [IOther [VOther 2]]].
Definition talk : func := mk_func 0x200 false sig [] [[ICall ext [] var_sig []]].
Definition hidden : func := mk_func 0x300 false sig [] [[IOther [table]]].

Definition bw : BwList :=
  mk_BwList {[ 0x300 := mk_FuncBw None (Some false) None None ]} ∅ ∅ false.

Definition m : module := [work; talk; hidden].

Lemma addrs_distinct : NoDup (map fn_addr m).
Proof. apply (bool_decide_unpack _). by vm_compute. Qed.

Lemma analyze_functbl_witness :
  exists info, (an_func (analyze fhash chash elements bw m).1).1 !! 0x100 = Some info /\
    fi_extrefs info = [0x500; 0x700].
Proof.
  pose proof (analyze_functbl fhash chash elements bw m work (fun s => Permutation_refl _)
                addrs_distinct ltac:(by left)) as H.
  change (fn_addr work) with 0x100 in H.
  destruct ((an_func (analyze fhash chash elements bw m).1).1 !! 0x100) as [info|].
  - exists info. split; [done|]. destruct H as (_ & _ & -> & _). by vm_compute.
  - exfalso. apply H. by vm_compute.
Defined.

Lemma analyze_closed_witness :
  is_Some ((an_gref (analyze fhash chash elements bw m).1).1 !! 0x700) /\
  (an_gref (analyze fhash chash elements bw m).1).1 !! 0x600 = None.
Proof.
  destruct (analyze_closed fhash chash elements bw m (fun s => Permutation_refl _)
              addrs_distinct) as (_ & _ & Hg).
  split; [|by vm_compute]. apply Hg. exists work. split; [by left|]. split; [by vm_compute|].
  apply (bool_decide_unpack _). by vm_compute.
Defined.

Lemma analyze_numbers_witness :
  numbers (mGreftbl (result_of 0 (analyze fhash chash elements bw m).1)).
Proof.
  destruct (analyze_numbers fhash chash elements bw m (fun s => Permutation_refl _)
              addrs_distinct) as (_ & _ & _ & Hg).
  apply Hg. by vm_compute.
Defined.

End ToyModule.
