(* ===== verification/StubCode.v ===== *)
(** * The code the passes generate, by what it computes

    [ChopOff] and [TakeOut] build small functions with LLVM's [IRBuilder]. The
    models of these builders compute what the built code computes: each
    [Create...] call is the operation it emits, in a monad over the memory of
    the process the code runs in. *)

From S2P Require Import Prelude LlvmIR.
#[local] Open Scope string_scope.
#[local] Open Scope Z_scope.

(** First-class values: numbers (and addresses), aggregates, [undef]. *)
Inductive rv :=
| RInt (z : Z)
| RAgg (l : list rv)
| RUndef.

(** Memory: the values stored at addresses, and the stack pointer [alloca]
    takes its blocks from, one cell for each. *)
Record rstate := mk_rstate { r_cells : gmap Z rv; r_sp : Z }.

Definition sem (A : Type) : Type := rstate -> result (A * rstate).

#[export] Instance sem_ret : MRet sem := fun A x s => Ok (x, s).
#[export] Instance sem_bind : MBind sem := fun A B f m s =>
  match m s with
  | Ok (x, s') => f x s'
  | Abort w => Abort w
  | Fault w => Fault w
  end.

Definition lift {A} (r : result A) : sem A := fun s => x ← r; Ok (x, s).

Definition nullptr : rv := RInt 0.

(** A block of eight bytes that holds nothing of what was on the stack before. *)
Definition fresh_cell (a : Z) (m : gmap Z rv) : gmap Z rv :=
  <[a := RUndef]> (filter (fun e => ~ (a <= e.1 < a + 8)) m).

Definition CreateAlloca : sem rv := fun s =>
  Ok (RInt (r_sp s), mk_rstate (fresh_cell (r_sp s) (r_cells s)) (r_sp s + 8)).

Definition CreateStackSave : sem Z := fun s => Ok (r_sp s, s).
Definition CreateStackRestore (sp : Z) : sem unit := fun s => Ok (tt, mk_rstate (r_cells s) sp).

Definition CreateStore (v p : rv) : sem unit := fun s =>
  match p with
  | RInt a =>
      match r_cells s !! a with
      | Some _ => Ok (tt, mk_rstate (<[a := v]> (r_cells s)) (r_sp s))
      | None => Fault "store"
      end
  | _ => Fault "store"
  end.

Definition CreateLoad (p : rv) : sem rv := fun s =>
  match p with
  | RInt a =>
      match r_cells s !! a with
      | Some v => Ok (v, s)
      | None => Fault "load"
      end
  | _ => Fault "load"
  end.

(** [getelementptr ptr, p, i] *)
Definition CreateGEP (p : rv) (i : Z) : result rv :=
  match p with RInt a => Ok (RInt (a + 8 * i)) | _ => Fault "getelementptr" end.

Definition undef_aggregate (n : nat) : rv := RAgg (replicate n RUndef).

Definition CreateInsertValue (agg v : rv) (i : nat) : result rv :=
  match agg with
  | RAgg l =>
      if (i <? length l)%nat then Ok (RAgg (<[i := v]> l)) else Fault "insertvalue"
  | _ => Fault "insertvalue"
  end.

Definition CreateExtractValue (agg : rv) (i : nat) : result rv :=
  match agg with
  | RAgg l => of_option "extractvalue" (l !! i)
  | _ => Fault "extractvalue"
  end.

(** [for (i, v) in enumerate(vs): agg = insertvalue agg, v, i] *)
Fixpoint insert_values (i : nat) (vs : list rv) (agg : rv) : result rv :=
  match vs with
  | [] => Ok agg
  | v :: vs => agg ← CreateInsertValue agg v i; insert_values (S i) vs agg
  end.

(** [for i in [i, i + n): extractvalue agg, i] *)
Fixpoint extract_values (i n : nat) (agg : rv) : result (list rv) :=
  match n with
  | O => Ok []
  | S n =>
      v ← CreateExtractValue agg i;
      vs ← extract_values (S i) n agg;
      Ok (v :: vs)
  end.

(** The body of a function: what it [alloca]ed is gone when it returns. *)
Definition function_body {A} (m : sem A) : sem A := fun s =>
  match m s with
  | Ok (x, s') => Ok (x, mk_rstate (r_cells s') (r_sp s))
  | Abort w => Abort w
  | Fault w => Fault w
  end.

(** ** Facts *)

Lemma bind_step {A B} (m : sem A) (f : A -> sem B) s x s' :
  m s = Ok (x, s') -> (m ≫= f) s = f x s'.
Proof. intros H. unfold mbind, sem_bind. by rewrite H. Qed.

Lemma fresh_cell_eq a m : fresh_cell a m !! a = Some RUndef.
Proof. apply lookup_insert_eq. Qed.

Lemma fresh_cell_ne a m b : ~ (a <= b < a + 8) -> fresh_cell a m !! b = m !! b.
Proof.
  intros Hb. unfold fresh_cell. rewrite lookup_insert_ne by lia.
  destruct (m !! b) as [v|] eqn:Hm.
  - by apply map_lookup_filter_Some.
  - apply map_lookup_filter_None. by left.
Qed.

Lemma fresh_cell_in a m b : a < b < a + 8 -> fresh_cell a m !! b = None.
Proof.
  intros Hb. unfold fresh_cell. rewrite lookup_insert_ne by lia.
  apply map_lookup_filter_None. right. intros v _ Hn. simpl in Hn. lia.
Qed.

Lemma insert_values_from done vs :
  insert_values (length done) vs (RAgg (done ++ replicate (length vs) RUndef))
  = Ok (RAgg (done ++ vs)).
Proof.
  revert done. induction vs as [|v vs IH]; intros dn; simpl; [done|].
  rewrite length_app. simpl. destruct (Nat.ltb_spec (length dn) (length dn + S (length (replicate (length vs) RUndef)))); [|lia].
  simpl. rewrite insert_app_r_alt, Nat.sub_diag by lia. simpl.
  specialize (IH (dn ++ [v])%list). rewrite length_app, Nat.add_1_r in IH. simpl in IH.
  rewrite <- !app_assoc in IH. exact IH.
Qed.

(** Inserting all the members one after the other builds the aggregate. *)
Lemma insert_values_all vs :
  insert_values 0 vs (undef_aggregate (length vs)) = Ok (RAgg vs).
Proof. apply (insert_values_from []). Qed.

Lemma extract_values_from done vs :
  extract_values (length done) (length vs) (RAgg (done ++ vs)) = Ok vs.
Proof.
  revert done. induction vs as [|v vs IH]; intros dn; simpl; [done|].
  rewrite list_lookup_middle by done. simpl.
  specialize (IH (dn ++ [v])%list). rewrite length_app, Nat.add_1_r, <- app_assoc in IH.
  simpl in IH. by rewrite IH.
Qed.

(** Extracting all the members gives them back. *)
Lemma extract_values_all vs : extract_values 0 (length vs) (RAgg vs) = Ok vs.
Proof. apply (extract_values_from []). Qed.
