(* ===== verification/ChopOff.v ===== *)
(** * The guest side: chopping functions off

    Models [lib/gyhcall/ChopOff.cpp]: the stubs by which the host calls guest
    functions, the tables of callback stubs and global references, the choice
    of the functions to chop and the prefix data they get, the code that
    replaces the body of a chopped function, and the constructor and destructor
    of the module. *)

From S2P Require Import Prelude LlvmIR Symtbl StubCode Qlib.
#[local] Open Scope string_scope.
#[local] Open Scope Z_scope.

Module ChopOff.

Record Config := mk_Config {
  mDebug : bool;
  mUseGRT : bool;
  mUseFCPcm : bool;
  mMinBasicBlocks : Z;
  mMinInstructions : Z
}.

(** The defaults of the header. *)
Definition default_Config : Config := mk_Config false false false 2 10.

(** ** Tables

    [std::vector<Constant*> tbl(n, nullptr); for (...) tbl[uid] = value;] *)
Fixpoint fill_table {B} (entries : list (Z * B)) (tbl : list (option B))
    : result (list (option B)) :=
  match entries with
  | [] => Ok tbl
  | (i, v) :: entries =>
      if (0 <=? i) && (i <? Z.of_nat (length tbl))
      then fill_table entries (<[Z.to_nat i := Some v]> tbl)
      else Fault "index out of range"
  end.

Definition table_of {A B} `{HasUid A} (value : Z -> B) (t : gmap Z A) : result (list (option B)) :=
  fill_table (map (fun '(k, v) => (uid v, value k)) (map_iter t)) (replicate (size t) None).

Lemma fill_table_ok {B} (entries : list (Z * B)) tbl :
  (forall e, e ∈ entries -> 0 <= e.1 < Z.of_nat (length tbl)) ->
  NoDup (map fst entries) ->
  exists tbl', fill_table entries tbl = Ok tbl' /\ length tbl' = length tbl /\
    (forall e, e ∈ entries -> tbl' !! Z.to_nat e.1 = Some (Some e.2)) /\
    (forall j, 0 <= j -> j ∉ map fst entries -> tbl' !! Z.to_nat j = tbl !! Z.to_nat j).
Proof.
  revert tbl. induction entries as [|[i v] es IH]; intros tbl Hr Hnd; simpl.
  { exists tbl. split_and!; try done. by intros e ?%elem_of_nil. }
  pose proof (Hr (i, v) ltac:(by left)) as Hi. simpl in Hi.
  destruct (Z.leb_spec 0 i), (Z.ltb_spec i (Z.of_nat (length tbl))); try lia. simpl.
  apply NoDup_cons in Hnd as [Hni Hnd].
  destruct (IH (<[Z.to_nat i := Some v]> tbl)) as (tbl' & Ht & Hlen & Hin & Hout).
  { intros e He. rewrite length_insert. apply Hr. by right. }
  { done. }
  exists tbl'. rewrite length_insert in Hlen. split_and!; try done.
  - intros e [->|He]%elem_of_cons; [|by apply Hin]. simpl.
    rewrite Hout by (done || lia). apply list_lookup_insert_eq. lia.
  - intros j Hj Hnj. rewrite elem_of_cons in Hnj.
    rewrite Hout by (done || naive_solver). apply list_lookup_insert_ne.
    intros He. apply Hnj. left. lia.
Qed.

(** A table filled from entries that are numbered one to one has every entry
    at its number and no hole. *)
Lemma table_of_ok {A B} `{HasUid A} (value : Z -> B) (t : gmap Z A) :
  numbers t ->
  exists tbl, table_of value t = Ok tbl /\ length tbl = size t /\
    (forall k v, t !! k = Some v -> tbl !! Z.to_nat (uid v) = Some (Some (value k))) /\
    Forall is_Some tbl.
Proof.
  intros [Hb Hu]. unfold table_of.
  set (es := map (fun '(k, v) => (uid v, value k)) (map_iter t)).
  assert (forall e, e ∈ es <-> exists k v, t !! k = Some v /\ e = (uid v, value k)) as Hes.
  { intros e. unfold es. rewrite list_elem_of_fmap. split.
    - intros ([k v] & -> & Hin%elem_of_map_iter). by exists k, v.
    - intros (k & v & Hk & ->). exists (k, v). by rewrite elem_of_map_iter. }
  destruct (fill_table_ok es (replicate (size t) None)) as (tbl & Ht & Hlen & Hin & _).
  { intros e (k & v & Hk & ->)%Hes. simpl. rewrite length_replicate. by eapply Hb. }
  { unfold es. rewrite map_map. unfold map_iter.
    apply (NoDup_fmap_2_strong (fun x => (let '(k, v) := x in (uid v, value k)).1)).
    - intros [k1 v1] [k2 v2] H1 H2 He. simpl in He.
      rewrite merge_sort_Permutation, elem_of_map_to_list in H1.
      rewrite merge_sort_Permutation, elem_of_map_to_list in H2.
      destruct (Hu (uid v1)) as (k & v & _ & _ & Hk); [by eapply Hb|].
      assert (k1 = k2) as -> by (rewrite (Hk _ _ H1), (Hk _ _ H2) by done; done).
      congruence.
    - rewrite merge_sort_Permutation. apply NoDup_map_to_list. }
  rewrite length_replicate in Hlen. exists tbl. split_and!; try done.
  - intros k v Hk. apply (Hin (uid v, value k)), Hes. by exists k, v.
  - apply Forall_lookup_2. intros i x Hi. pose proof (lookup_lt_Some _ _ _ Hi).
    destruct (Hu (Z.of_nat i)) as (k & v & Hk & Hv & _); [lia|].
    assert (tbl !! Z.to_nat (uid v) = Some (Some (value k))) as Hx.
    { apply (Hin (uid v, value k)), Hes. by exists k, v. }
    rewrite Hv, Nat2Z.id, Hi in Hx. injection Hx as ->. by eexists.
Qed.

(** The tables of [gen_grt] and [gen_ctor_dtor]: callback stubs, global
    references and guest functions by number. [stub_addr] is the address of
    the stub [gen_cb_stubs] made for a hash. *)
Definition gen_cbstubtbl (stub_addr : Z -> Z) (st : Symtbl) : result (list (option Z)) :=
  table_of stub_addr (mCallbackStubs st).

Definition gen_extreftbl (st : Symtbl) : result (list (option Z)) :=
  table_of (fun gref => gref) (mGreftbl st).

Definition gen_gfunctbl (st : Symtbl) : result (list (option Z)) :=
  table_of (fun func => func) (mFunctbl st).

(** ** Callback stubs *)

(** The code of [__gyh_callback_<hash>]; [call] calls a guest function. *)
Definition cb_stub (call : rv -> list rv -> sem rv) (st : StubInfo) (retPad argPad gfunc : rv)
    : sem unit :=
  function_body (
    args ← (match si_arg st with
            | Some elems =>
                argStruct ← CreateLoad argPad;
                lift (extract_values 0 (length elems) argStruct)
            | None => mret []
            end);
    ret ← call gfunc args;
    match si_ret st with
    | Some _ => CreateStore ret retPad
    | None => mret tt
    end).

(** [gen_cb_stubs]: one stub for every callback type. *)
Definition gen_cb_stubs (stub_addr : Z -> Z) (st : Symtbl) : gmap Z Z :=
  map_imap (fun hc _ => Some (stub_addr hc)) (mCallbackStubs st).

(** ** Which functions to chop *)

(** What [calc_benefits] does to a module: the prefix data it sets, the
    functions chosen, and the functions the white list misses. *)
Record benefits := mk_benefits {
  bn_prefix : gmap Z (Z * Z);
  bn_chosen : list (Z * FuncInfo);
  bn_missed : list Z
}.

Section benefits.
Context (cfg : Config) (bwl : BwList).
(** [hasPrefixData], [size] and [getInstructionCount] of the functions. *)
Context (hasPrefixData : Z -> bool) (size getInstructionCount : Z -> Z).

Definition benefit_step (b : benefits) (e : Z * FuncInfo) : benefits :=
  let '(func, info) := e in
  let bw := bw_of mChopOff bwl func in
  match bw with
  | Some false => b
  | _ =>
      let b :=
        if mUseFCPcm cfg && negb (hasPrefixData func)
        then mk_benefits (<[func := (kFCPcmMagic, fi_uid info)]> (bn_prefix b))
                         (bn_chosen b) (bn_missed b)
        else b in
      let dont := mk_benefits (bn_prefix b) (bn_chosen b)
        (match bw with Some true => (bn_missed b ++ [func])%list | _ => bn_missed b end) in
      if mUseFCPcm cfg &&
         negb (Bool.eqb (bool_decide (func ∈ mFCPcmChop bwl)) (mFCPcmChopOthers bwl))
      then dont
      else if (mMinBasicBlocks cfg <? size func) &&
              (mMinInstructions cfg <? getInstructionCount func)
      then mk_benefits (bn_prefix b) (bn_chosen b ++ [e])%list (bn_missed b)
      else dont
  end.

Definition calc_benefits (st : Symtbl) : benefits :=
  fold_left benefit_step (map_iter (mFunctbl st)) (mk_benefits ∅ [] []).

(** *** What is chosen and what gets a prefix *)

Definition gets_prefix (func : Z) : bool :=
  mUseFCPcm cfg && negb (hasPrefixData func) &&
  negb (bool_decide (bw_of mChopOff bwl func = Some false)).

Definition gets_chopped (func : Z) : bool :=
  negb (bool_decide (bw_of mChopOff bwl func = Some false)) &&
  (negb (mUseFCPcm cfg) ||
   Bool.eqb (bool_decide (func ∈ mFCPcmChop bwl)) (mFCPcmChopOthers bwl)) &&
  (mMinBasicBlocks cfg <? size func) && (mMinInstructions cfg <? getInstructionCount func).

Lemma benefit_step_spec b func info :
  bn_prefix (benefit_step b (func, info)) =
    (if gets_prefix func then <[func := (kFCPcmMagic, fi_uid info)]> (bn_prefix b)
     else bn_prefix b) /\
  bn_chosen (benefit_step b (func, info)) =
    (bn_chosen b ++ if gets_chopped func then [(func, info)] else [])%list.
Proof.
  unfold benefit_step, gets_prefix, gets_chopped.
  generalize (bool_decide (func ∈ mFCPcmChop bwl)) as x.
  generalize (mFCPcmChopOthers bwl) as o.
  generalize ((mMinBasicBlocks cfg <? size func)) as p.
  generalize ((mMinInstructions cfg <? getInstructionCount func)) as i.
  intros i p o x.
  destruct (bw_of mChopOff bwl func) as [[]|]; simpl; rewrite ?andb_false_r; simpl;
    destruct (mUseFCPcm cfg), (hasPrefixData func), x, o, p, i; simpl;
    rewrite ?app_nil_r; done.
Qed.

#[local] Arguments benefit_step : simpl never.

Lemma benefits_fold l b :
  (forall f i1 i2, (f, i1) ∈ l -> (f, i2) ∈ l -> i1 = i2) ->
  bn_chosen (fold_left benefit_step l b)
    = (bn_chosen b ++ List.filter (fun e => gets_chopped e.1) l)%list /\
  forall f, bn_prefix (fold_left benefit_step l b) !! f =
    match List.find (fun e => e.1 =? f) l with
    | Some e => if gets_prefix f then Some (kFCPcmMagic, fi_uid e.2) else bn_prefix b !! f
    | None => bn_prefix b !! f
    end.
Proof.
  revert b. induction l as [|[f0 i0] l IH]; intros b Hfun; simpl; [by rewrite app_nil_r|].
  destruct (benefit_step_spec b f0 i0) as [Hp Hc].
  destruct (IH (benefit_step b (f0, i0))) as [IH1 IH2].
  { intros f i1 i2 H1 H2. apply (Hfun f); by right. }
  split.
  - rewrite IH1, Hc. by destruct (gets_chopped f0); rewrite <- app_assoc.
  - intros f. rewrite IH2, Hp. destruct (Z.eqb_spec f0 f) as [->|Hne].
    + destruct (List.find (fun e => e.1 =? f) l) as [[f' i']|] eqn:Hfd; simpl.
      * apply List.find_some in Hfd as [Hin He%Z.eqb_eq]. simpl in He. subst f'.
        rewrite (Hfun f i' i0); [|right; by apply list_elem_of_In|by left].
        destruct (gets_prefix f); [done|done].
      * destruct (gets_prefix f); [by rewrite lookup_insert_eq|done].
    + destruct (gets_prefix f0); [|done]. by rewrite lookup_insert_ne.
Qed.

Lemma elem_of_chosen (st : Symtbl) f info :
  (f, info) ∈ bn_chosen (calc_benefits st) <->
    mFunctbl st !! f = Some info /\ gets_chopped f = true.
Proof.
  unfold calc_benefits.
  destruct (benefits_fold (map_iter (mFunctbl st)) (mk_benefits ∅ [] [])) as [-> _].
  { intros g i1 i2 H1%elem_of_map_iter H2%elem_of_map_iter. congruence. }
  simpl. by rewrite list_elem_of_In, filter_In, <- list_elem_of_In, elem_of_map_iter.
Qed.

Lemma bn_prefix_spec (st : Symtbl) f :
  bn_prefix (calc_benefits st) !! f =
    match mFunctbl st !! f with
    | Some info => if gets_prefix f then Some (kFCPcmMagic, fi_uid info) else None
    | None => None
    end.
Proof.
  unfold calc_benefits.
  destruct (benefits_fold (map_iter (mFunctbl st)) (mk_benefits ∅ [] [])) as [_ Hp].
  { intros g i1 i2 H1%elem_of_map_iter H2%elem_of_map_iter. congruence. }
  rewrite Hp. simpl. rewrite lookup_empty.
  destruct (List.find (fun e => e.1 =? f) (map_iter (mFunctbl st))) as [[f' i]|] eqn:Hfd.
  - apply List.find_some in Hfd as [Hin He%Z.eqb_eq]. simpl in He. subst f'.
    apply list_elem_of_In, elem_of_map_iter in Hin. by rewrite Hin.
  - destruct (mFunctbl st !! f) as [i|] eqn:Hi; [|done]. exfalso.
    apply elem_of_map_iter, list_elem_of_In in Hi.
    apply (List.find_none _ _ Hfd) in Hi. simpl in Hi. lia.
Qed.

(** C35: the functions chopped off are exactly those of the function table that
    are not black-listed, have more than the minimum of basic blocks and
    instructions and, with FCP-CM, are selected by the FCP-CM list; the prefix
    with the magic number and the function's number is put exactly on the
    functions that are not black-listed and had no prefix, so a black-listed
    function, which is still in the table the constructor checks, has none. *)
Theorem calc_benefits_spec (st : Symtbl) :
  let b := calc_benefits st in
  (forall f info, (f, info) ∈ bn_chosen b <->
     mFunctbl st !! f = Some info /\ gets_chopped f = true) /\
  (forall f, bn_prefix b !! f =
     match mFunctbl st !! f with
     | Some info => if gets_prefix f then Some (kFCPcmMagic, fi_uid info) else None
     | None => None
     end).
Proof. split; [apply elem_of_chosen|apply bn_prefix_spec]. Qed.

End benefits.

(** ** The chopped function *)

Section chop.
Context (cfg : Config) (cbStubs : gmap Z Z) (mGyhQlibUid : Z).

(** The runtime's entry points, [__gyh_call__] and [__gyh_call_grt__]. *)
Context (mGyhCall : list rv -> sem unit) (mGyhCallGRT : list rv -> sem unit).

(** An array of pointers in a fresh block, null when there are none. *)
Definition pointer_pad (ps : list rv) : sem rv :=
  match ps with
  | [] => mret nullptr
  | _ =>
      val ← lift (insert_values 0 ps (undef_aggregate (length ps)));
      pad ← CreateAlloca;
      _ ← CreateStore val pad;
      mret pad
  end.

(** [cbStubs.find(h)], which the code asserts to succeed. *)
Fixpoint find_stubs (hs : list Z) : result (list rv) :=
  match hs with
  | [] => Ok []
  | h :: hs =>
      a ← (match cbStubs !! h with Some a => Ok a | None => Abort "it != cbStubs.end()" end);
      l ← find_stubs hs;
      Ok (RInt a :: l)
  end.

(** The code [chop_gfuncs] puts in place of the body of a function. *)
Definition chopped (st : StubInfo) (info : FuncInfo) (args : list rv) : sem rv :=
  function_body (
    retPad ← (match si_ret st with None => mret nullptr | Some _ => CreateAlloca end);
    argPad ←
      (match si_arg st with
       | None => mret nullptr
       | Some argsType =>
           argsVal ← lift (insert_values 0 args (undef_aggregate (length argsType)));
           argPad ← CreateAlloca;
           _ ← CreateStore argsVal argPad;
           mret argPad
       end);
    _ ←
      (if negb (mUseGRT cfg) then
         extRefArg ← pointer_pad (map RInt (fi_extrefs info));
         cbs ← lift (find_stubs (fi_cbstubs info));
         cbStubArg ← pointer_pad cbs;
         mGyhCall [RInt mGyhQlibUid; RInt (fi_uid info); retPad; argPad; extRefArg; cbStubArg]
       else
         mGyhCallGRT [RInt mGyhQlibUid; RInt (fi_uid info); retPad; argPad]);
    match si_ret st with
    | None => mret RUndef
    | Some _ => CreateLoad retPad
    end).

End chop.

(** ** The pass *)

(** What the pass adds to a module: the callback stubs, the two tables of
    global references, the prefixes, the functions whose body is replaced, the
    table of guest functions, and the calls its constructor and its destructor
    make. *)
Record guest_mod := mk_guest_mod {
  gm_cbStubs : gmap Z Z;
  gm_cbstubtbl : option (list (option Z));
  gm_extreftbl : option (list (option Z));
  gm_benefits : benefits;
  gm_gfunctbl : option (list (option Z));
  gm_ctor : string * list Z;
  gm_dtor : string * list Z
}.

Section pass.
Context (cfg : Config) (bwl : BwList).
Context (hasPrefixData : Z -> bool) (size_of getInstructionCount : Z -> Z).
(** The addresses of the callback stubs and of the variables of the pass. *)
Context (stub_addr : Z -> Z) (mGyhQlibUid mGyhExtreftbl mGyhCbstubtbl mGyhGfunctbl : Z).

Definition gen_grt (st : Symtbl)
    : result (option (list (option Z)) * option (list (option Z))) :=
  if mUseGRT cfg then
    cbstubtbl ← gen_cbstubtbl stub_addr st;
    extreftbl ← gen_extreftbl st;
    Ok (Some cbstubtbl, Some extreftbl)
  else Ok (None, None).

Definition gen_ctor_dtor (st : Symtbl)
    : result (option (list (option Z)) * (string * list Z) * (string * list Z)) :=
  '(gfunctbl, ctor) ←
    (if negb (mUseGRT cfg) then Ok (None, ("__gyh_ctor__", [mGyhQlibUid]))
     else if negb (mUseFCPcm cfg) then
       Ok (None, ("__gyh_ctor_grt__", [mGyhQlibUid; mGyhExtreftbl; mGyhCbstubtbl]))
     else
       gfuncs ← gen_gfunctbl st;
       Ok (Some gfuncs, ("__gyh_ctor_fcp_cm__",
             [mGyhQlibUid; mGyhExtreftbl; mGyhCbstubtbl; mGyhGfunctbl;
              u32 (Z.of_nat (size (mFunctbl st)))])));
  Ok (gfunctbl, ctor, ("__gyh_dtor__", [mGyhQlibUid])).

(** [ChopOff::operator()] *)
Definition chop_off (st : Symtbl) : result guest_mod :=
  let cbStubs := gen_cb_stubs stub_addr st in
  '(cbstubtbl, extreftbl) ← gen_grt st;
  let b := calc_benefits cfg bwl hasPrefixData size_of getInstructionCount st in
  '(gfunctbl, ctor, dtor) ← gen_ctor_dtor st;
  Ok (mk_guest_mod cbStubs cbstubtbl extreftbl b gfunctbl ctor dtor).

End pass.

End ChopOff.
