(* ===== verification/TakeOut.v ===== *)
(** * The host side: taking functions out

    Models [lib/gyhcall/TakeOut.cpp]: the tables of host functions, the code
    that unpacks a call from the guest and loads the references of the
    function it runs, and the code that packs a call back into the guest. The
    calls that print debug output are left out. *)

From S2P Require Import Prelude LlvmIR Symtbl Analyze StubCode Qlib ChopOff.
#[local] Open Scope string_scope.
#[local] Open Scope Z_scope.

Module TakeOut.

Record Config := mk_Config {
  mDebug : bool;
  mUseGRT : bool;
  mUseFCP : bool;
  mUseFCPcm : bool
}.

Section take_out.
Context (cfg : Config) (bwl : BwList) (st : Symtbl).

(** ** The lists *)

(** [blackList] *)
Definition black (func : Z) : bool :=
  bool_decide (bw_of mTakeOut bwl func = Some false).

(** [mWhiteCallees]: the functions a declaration is created for. *)
Definition mWhiteCallees (func : Z) : bool :=
  match mCallees bwl !! func with
  | Some bw => negb bw
  | None => false
  end.

(** ** What becomes of a call *)

Inductive call_action :=
| KeepWhite | MakeIntrinsic | CallHostFunction | DoCallback.

(** ** The tables of host functions

    An entry is the function whose stub is there, or null. *)
Definition gen_hfuncs : result (list (option (option Z))) :=
  ChopOff.table_of (fun func => if black func then None else Some func) (mFunctbl st).

(** [mFcpFuncMap], which only the fast call paths fill. *)
Definition mFcpFuncMap : gset Z :=
  if mUseFCP cfg
  then filter (fun func => black func = false /\ mWhiteCallees func = false) (dom (mFunctbl st))
  else ∅.

(** Every function that is taken out is in it. *)
Definition all_fcp : bool :=
  forallb (fun '(func, _) => black func || bool_decide (func ∈ mFcpFuncMap))
          (map_iter (mFunctbl st)).

(** The branches of [do_instruction] for a call. *)
Definition do_call (callee : value) : call_action :=
  match callee with
  | VGlobal (mk_gval func (KFunction intrinsic)) =>
      if mWhiteCallees func then KeepWhite
      else if intrinsic then MakeIntrinsic
      else if mUseFCP cfg && bool_decide (func ∈ mFcpFuncMap) then CallHostFunction
      else DoCallback
  | _ => DoCallback
  end.

(** The table [__gyh_functbl_<uid>] of [gen_functbl]; [mFcpFuncMap.at] fails
    for a function that has no host function. *)
Definition gen_functbl : result (list (option (option Z))) :=
  _ ← check "mFcpFuncMap.at" all_fcp;
  ChopOff.table_of (fun func => if black func then None else Some func) (mFunctbl st).

(** What the pass reports, declares and defines in the host's module. *)
Record host_mod := mk_host_mod {
  hm_missed : list Z;
  hm_white : list Z;
  hm_hfuncs : list (option (option Z));
  hm_functbl : option (list (option (option Z)))
}.

(** [TakeOut::operator()]. The stubs of the fast call paths assert that their
    function is in [mFcpFuncMap]. *)
Definition take_out : result host_mod :=
  let missed := List.filter (fun func => bool_decide (bw_of mTakeOut bwl func = Some true) &&
                  negb (bool_decide (is_Some (mFunctbl st !! func)))) (map fst (map_iter (mFuncs bwl))) in
  let white := List.filter mWhiteCallees (map fst (map_iter (mCallees bwl))) in
  _ ← check "it != mFcpFuncMap.end()" (negb (mUseGRT cfg && mUseFCP cfg) || all_fcp);
  hfuncs ← gen_hfuncs;
  functbl ← (if mUseFCPcm cfg then Some <$> gen_functbl else Ok None);
  Ok (mk_host_mod missed white hfuncs functbl).

(** ** From the guest to the host *)

(** The addresses of the variables [__gyh_extreftbl_<uid>] and
    [__gyh_cbstubtbl_<uid>]. *)
Context (mGyhExtreftbl mGyhCbstubtbl : Z).

(** The arguments, from the structure [argPad] points to. *)
Definition load_args (stub : StubInfo) (argPad : rv) : sem (list rv) :=
  match si_arg stub with
  | Some _ =>
      args ← CreateLoad argPad;
      lift (extract_values 0 (length (ft_params (si_func stub))) args)
  | None => mret []
  end.

(** References by key, from the array an argument points to. *)
Definition load_pad (keys : list Z) (pad : rv) : sem (gmap Z rv) :=
  match keys with
  | [] => mret ∅
  | _ =>
      arr ← CreateLoad pad;
      vals ← lift (extract_values 0 (length keys) arr);
      mret (list_to_map (zip keys vals))
  end.

(** References by key, from the table a global variable points to. *)
Fixpoint load_table {A} `{HasUid A} (tbl : Z) (t : gmap Z A) (keys : list Z) (acc : gmap Z rv)
    : sem (gmap Z rv) :=
  match keys with
  | [] => mret acc
  | k :: keys =>
      e ← lift (match t !! k with Some e => Ok e | None => Abort "it != end()" end);
      base ← CreateLoad (RInt tbl);
      p ← lift (CreateGEP base (uid e));
      v ← CreateLoad p;
      load_table tbl t keys (<[k := v]> acc)
  end.

(** The body of a function, cloned for the host: it runs with the values its
    references and callback stubs were replaced by. *)
Context (body : Z -> gmap Z rv -> gmap Z rv -> list rv -> sem rv).

(** [do_hstubcvt] without fast call paths: the stub is the host function. *)
Definition hstub (func : Z) (stub : StubInfo) (info : FuncInfo)
    (retPad argPad extRefArg cbStubArg : rv) : sem unit :=
  function_body (
    args ← load_args stub argPad;
    extRefs ← (if negb (mUseGRT cfg) then load_pad (fi_extrefs info) extRefArg
               else load_table mGyhExtreftbl (mGreftbl st) (fi_extrefs info) ∅);
    cbStubs ← (if negb (mUseGRT cfg) then load_pad (fi_cbstubs info) cbStubArg
               else load_table mGyhCbstubtbl (mCallbackStubs st) (fi_cbstubs info) ∅);
    ret ← body func extRefs cbStubs args;
    match si_ret stub with
    | Some _ => CreateStore ret retPad
    | None => mret tt
    end).

(** The host function of the fast call path: it loads its references itself. *)
Definition fcp_hfunc (func : Z) (info : FuncInfo) (args : list rv) : sem rv :=
  function_body (
    extRefs ← load_table mGyhExtreftbl (mGreftbl st) (fi_extrefs info) ∅;
    cbStubs ← load_table mGyhCbstubtbl (mCallbackStubs st) (fi_cbstubs info) ∅;
    body func extRefs cbStubs args).

(** [do_hstubcvt] with fast call paths: the stub calls the host function. *)
Definition fcp_hstub (func : Z) (stub : StubInfo) (info : FuncInfo) (retPad argPad : rv)
    : sem unit :=
  function_body (
    args ← load_args stub argPad;
    ret ← fcp_hfunc func info args;
    match si_ret stub with
    | Some _ => CreateStore ret retPad
    | None => mret tt
    end).

(** ** From the host to the guest *)

(** The runtime's [__gyh_callback__(cbStub, func, retPad, argPad)]. *)
Context (mGyhCallback : rv -> rv -> rv -> rv -> sem unit).

(** The code that replaces a call of type [fty], whose signature hashes to [h]. *)
Definition do_callback (cbStubMap : gmap Z rv) (h : Z) (fty : functype)
    (callee : rv) (args : list rv) : sem rv :=
  stackSave ← CreateStackSave;
  cbStub ← lift (match cbStubMap !! h with Some v => Ok v | None => Abort "mCbStubMap.at" end);
  retPad ← (if is_void (ft_ret fty) then mret nullptr else CreateAlloca);
  argPad ←
    (match args with
     | [] => mret nullptr
     | _ =>
         argsVal ← lift (insert_values 0 args (undef_aggregate (length args)));
         argPad ← CreateAlloca;
         _ ← CreateStore argsVal argPad;
         mret argPad
     end);
  _ ← mGyhCallback cbStub callee retPad argPad;
  ret ← (if is_void (ft_ret fty) then mret RUndef else CreateLoad retPad);
  _ ← CreateStackRestore stackSave;
  mret ret.

(** The cross-module fast path: a guest function whose prefix carries the
    magic number is called at its host address. *)
Definition do_fcp_cm (call_host : Z -> list rv -> sem rv) (cbStubMap : gmap Z rv) (h : Z)
    (fty : functype) (callee : rv) (args : list rv) : sem rv :=
  pm ← lift (CreateGEP callee (-2));
  magic ← CreateLoad pm;
  pa ← lift (CreateGEP callee (-1));
  hfuncAddr ← CreateLoad pa;
  match magic, hfuncAddr with
  | RInt m, RInt a =>
      if m =? Z.lxor kFCPcmMagic a then call_host a args
      else do_callback cbStubMap h fty callee args
  | _, _ => lift (Fault "magic")
  end.

End take_out.

(** ** Calls and the callback types the analysis registered *)

Section calls.
Context (function_hash : func -> option Z) (call_site_hash : functype -> attrlist -> option Z).
Context (cfg : Config) (bwl : BwList) (st : Symtbl).

(** The callee is on the white list of callees. *)
Definition white_listed (callee : value) : bool :=
  match callee with
  | VGlobal (mk_gval a (KFunction _)) => bool_decide (mCallees bwl !! a = Some true)
  | _ => false
  end.

Lemma accepted_ins_ok f i :
  accepted function_hash call_site_hash bwl f -> i ∈ fn_ins f ->
  ins_ok call_site_hash bwl i = true.
Proof.
  unfold accepted, offloadable. intros H Hi.
  apply Is_true_true, andb_true_iff in H as [H _]. apply andb_true_iff in H as [_ H].
  rewrite forallb_forall in H. apply H. by apply list_elem_of_In.
Qed.

(** The code a function becomes on the host finds the callback stub of
    every call it has to make back into the guest: the stub's type was
    registered for the function by the analysis. *)
Theorem take_out_stubs f callee args fty attrs :
  accepted function_hash call_site_hash bwl f ->
  ICall callee args fty attrs ∈ fn_ins f ->
  do_call cfg bwl st callee = DoCallback -> white_listed callee = false ->
  exists h, call_site_hash fty attrs = Some h /\ h ∈ needed_callbacks call_site_hash bwl f.
Proof.
  intros Hacc Hin Hdo Hw. pose proof (accepted_ins_ok f _ Hacc Hin) as Hok.
  assert (kept_callee bwl callee = false) as Hk.
  { destruct callee as [[a [intr| |]]|ops|ops| |id]; try done. simpl in *.
    unfold mWhiteCallees in Hdo. destruct (mCallees bwl !! a) as [[]|]; try done.
    by destruct intr. }
  simpl in Hok. rewrite Hk in Hok. simpl in Hok.
  destruct (call_site_hash fty attrs) as [h|] eqn:Hh; [|by rewrite !andb_false_r in Hok].
  exists h. split; [done|]. unfold needed_callbacks, nub. rewrite elem_of_nub_onto. right.
  apply list_elem_of_In, in_concat. exists [h]. split; [|by left].
  apply in_map_iff. exists (ICall callee args fty attrs).
  split; [simpl; by rewrite Hk, Hh|by apply list_elem_of_In].
Qed.


End calls.

(** ** Example *)
Module ToyCalls.
Import ToyModule.

Definition cfg : Config := mk_Config false false false false.

Lemma take_out_stubs_witness :
  exists h, chash sig [] = Some h /\ h ∈ needed_callbacks chash bw work.
Proof.
  apply (take_out_stubs fhash chash cfg bw (mk_Symtbl 0 ∅ ∅ ∅ ∅) work ext [table] sig []);
    [by vm_compute|by left|by vm_compute|by vm_compute].
Defined.

Definition white : BwList := mk_BwList ∅ {[ 0x500 := true ]} ∅ false.


End ToyCalls.
End TakeOut.
