(* ===== verification/Body.v ===== *)
(** * Function bodies and what they compute

    The bodies of LLVM functions, in the detail in which [TakeOut.cpp]
    rewrites them: operands with constants that contain references to global
    values, instructions in basic blocks, phi nodes and terminators. The same
    type holds the guest's bodies and the ones made for the host, which contain
    the calls of the runtime. [run] executes a body. *)

From S2P Require Import Prelude LlvmIR Symtbl StubCode.
#[local] Open Scope string_scope.
#[local] Open Scope Z_scope.

(** ** Syntax *)

(** Local values: those of the function as it was compiled, the references
    loaded by a host function, and the values of the instructions that the
    expansion of constants puts into the entry block and before other
    instructions. *)
Inductive id := Src (x : Z) | Ext (g : Z) | Hoist (n : nat) | Tmp (n : nat).

#[export] Instance id_eq_dec : EqDecision id.
Proof. solve_decision. Defined.

(** [ConstantStruct], [ConstantArray] and [ConstantVector] *)
Inductive agg_kind := ConstantStruct | ConstantArray | ConstantVector.

(** What a [MetadataAsValue] holds: a [ValueAsMetadata], a [DIArgList] or
    another node. *)
Inductive metadata (A : Type) :=
| MValue (v : A)
| MArgList (args : list A)
| MNode (n : Z).
Arguments MValue {A} v.
Arguments MArgList {A} args.
Arguments MNode {A} n.

Inductive operand :=
| OGlobal (g : gval)
| OConst (c : rv)
| OAggregate (k : agg_kind) (ops : list operand)
| OExpr (opcode : Z) (ops : list operand)
| OLocal (x : id)
| OAsm
| OMetadata (m : metadata operand).

Section operand_ind.
Context (P : operand -> Prop).
Context (Hglobal : forall g, P (OGlobal g)) (Hconst : forall c, P (OConst c)).
Context (Hagg : forall k ops, Forall P ops -> P (OAggregate k ops)).
Context (Hexpr : forall c ops, Forall P ops -> P (OExpr c ops)).
Context (Hlocal : forall x, P (OLocal x)) (Hasm : P OAsm).
Context (Hval : forall v, P v -> P (OMetadata (MValue v))).
Context (Hargs : forall l, Forall P l -> P (OMetadata (MArgList l))).
Context (Hnode : forall n, P (OMetadata (MNode n))).

(** Induction on operands with the hypothesis for every member of a list. *)
Fixpoint operand_induct (o : operand) : P o :=
  let all := fix all (l : list operand) : Forall P l :=
    match l with
    | [] => List.Forall_nil P
    | o :: l => @List.Forall_cons _ P o l (operand_induct o) (all l)
    end in
  match o with
  | OGlobal g => Hglobal g
  | OConst c => Hconst c
  | OAggregate k ops => Hagg k ops (all ops)
  | OExpr c ops => Hexpr c ops (all ops)
  | OLocal x => Hlocal x
  | OAsm => Hasm
  | OMetadata (MValue v) => Hval v (operand_induct v)
  | OMetadata (MArgList l) => Hargs l (all l)
  | OMetadata (MNode n) => Hnode n
  end.
End operand_ind.

(** The instructions; those that start with [H] are what a call becomes in a
    host function: a call of a kept callee, of an intrinsic, of another host
    function, a callback into the guest, and a callback with the test for a
    host address in front of the function. [IOp] is an instruction that only
    computes. Indirect branches and the instructions of exception handling keep
    a function in the guest; what they do is not modelled. *)
Inductive instr :=
| IOp (opcode : Z) (ops : list operand)
| IInsert (k : agg_kind) (agg v : operand) (i : nat)
| ILoad (p : operand)
| IStore (v p : operand)
| IAlloca
| ICallSite (callee : operand) (args : list operand) (fty : functype) (attrs : attrlist)
| HWhite (f : Z) (args : list operand) (fty : functype)
| HIntrinsic (f : Z) (args : list operand) (fty : functype)
| HHost (f : Z) (args : list operand) (fty : functype)
| HCallback (h : Z) (fty : functype) (callee : operand) (args : list operand)
| HFcpCm (h : Z) (fty : functype) (callee : operand) (args : list operand)
| IIndirect (ops : list operand)
| IException (k : eh_kind) (ops : list operand).

Inductive term :=
| TBr (l : Z)
| TCondBr (c : operand) (l1 l2 : Z)
| TSwitch (c : operand) (default : Z) (cases : list (Z * Z))
| TRet (v : option operand)
| TUnreachable.

Record phi := mk_phi { phi_id : id; phi_incoming : list (Z * operand) }.

Record block := mk_block {
  b_phis : list phi;
  b_ins : list (id * instr);
  b_term : term
}.

Record body := mk_body { f_params : list Z; f_entry : Z; f_blocks : list (Z * block) }.

Definition block_at (l : Z) (bs : list (Z * block)) : option block :=
  snd <$> List.find (fun b => b.1 =? l) bs.

(** ** Execution *)

(** What an execution depends on: the value of a constant expression, the
    addresses of global values, and the calls. *)
Record machine := mk_machine {
  m_expr : Z -> list rv -> rv;
  m_global : gval -> result rv;
  m_intrinsic : Z -> list rv -> sem rv;
  m_call : rv -> list rv -> sem rv;
  m_white : Z -> list rv -> sem rv;
  m_host : Z -> list rv -> sem rv;
  m_callback : Z -> functype -> rv -> list rv -> sem rv;
  m_fcp_cm : Z -> functype -> rv -> list rv -> sem rv
}.

Definition regs := id -> option rv.

Section run.
Context (M : machine).

(** Metadata has no value; a node is only told from other nodes. *)
Fixpoint eval (r : regs) (o : operand) : result rv :=
  match o with
  | OGlobal g => m_global M g
  | OConst c => Ok c
  | OAggregate _ ops => RAgg <$> mapM (eval r) ops
  | OExpr c ops => m_expr M c <$> mapM (eval r) ops
  | OLocal x => of_option "value" (r x)
  | OAsm => Fault "inline assembly"
  | OMetadata (MNode n) => Ok (RInt n)
  | OMetadata _ => Ok RUndef
  end.

Definition evals (r : regs) (ops : list operand) : result (list rv) := mapM (eval r) ops.

(** An access to the stack beyond the stack pointer is undefined. *)
Definition live (p : rv) : sem unit := fun s =>
  match p with
  | RInt a => if a <? r_sp s then Ok (tt, s) else Fault "dead stack"
  | _ => Fault "address"
  end.

(** The result of a call of a [void] function is not a value. *)
Definition result_of_call (fty : functype) (m : sem rv) : sem rv :=
  v ← m; mret (if is_void (ft_ret fty) then RUndef else v).

Definition is_intrinsic (callee : operand) : option Z :=
  match callee with
  | OGlobal (mk_gval f (KFunction true)) => Some f
  | _ => None
  end.

Definition exec_ins (r : regs) (i : instr) : sem rv :=
  match i with
  | IOp c ops => vs ← lift (evals r ops); mret (m_expr M c vs)
  | IInsert _ agg v i =>
      a ← lift (eval r agg); v ← lift (eval r v); lift (CreateInsertValue a v i)
  | ILoad p => p ← lift (eval r p); _ ← live p; CreateLoad p
  | IStore v p =>
      v ← lift (eval r v); p ← lift (eval r p); _ ← live p; _ ← CreateStore v p; mret RUndef
  | IAlloca => CreateAlloca
  | ICallSite callee args fty _ =>
      vs ← lift (evals r args);
      match is_intrinsic callee with
      | Some f => result_of_call fty (m_intrinsic M f vs)
      | None => f ← lift (eval r callee); result_of_call fty (m_call M f vs)
      end
  | HWhite f args fty => vs ← lift (evals r args); result_of_call fty (m_white M f vs)
  | HIntrinsic f args fty => vs ← lift (evals r args); result_of_call fty (m_intrinsic M f vs)
  | HHost f args fty => vs ← lift (evals r args); result_of_call fty (m_host M f vs)
  | HCallback h fty callee args =>
      vs ← lift (evals r args); f ← lift (eval r callee); m_callback M h fty f vs
  | HFcpCm h fty callee args =>
      vs ← lift (evals r args); f ← lift (eval r callee); m_fcp_cm M h fty f vs
  | IIndirect _ | IException _ _ => lift (Fault "not modelled")
  end.

Fixpoint exec_list (l : list (id * instr)) (r : regs) : sem regs :=
  match l with
  | [] => mret r
  | (x, i) :: l => v ← exec_ins r i; exec_list l (<[x := Some v]> r)
  end.

(** The phi nodes of a block read their values before any of them is set. *)
Fixpoint exec_phis (pred : Z) (ps : list phi) (r0 r : regs) : result regs :=
  match ps with
  | [] => Ok r
  | p :: ps =>
      o ← of_option "incoming" (snd <$> List.find (fun e => e.1 =? pred) (phi_incoming p));
      v ← eval r0 o;
      exec_phis pred ps r0 (<[phi_id p := Some v]> r)
  end.

(** Where a block goes, or what the function returns. *)
Definition exec_term (r : regs) (t : term) : result (Z + rv) :=
  match t with
  | TBr l => Ok (inl l)
  | TCondBr c l1 l2 =>
      v ← eval r c;
      match v with
      | RInt z => Ok (inl (if z =? 0 then l2 else l1))
      | _ => Fault "branch on undef"
      end
  | TSwitch c d cases =>
      v ← eval r c;
      match v with
      | RInt z => Ok (inl (default d (snd <$> List.find (fun e => e.1 =? z) cases)))
      | _ => Fault "switch on undef"
      end
  | TRet None => Ok (inr RUndef)
  | TRet (Some o) => inr <$> eval r o
  | TUnreachable => Fault "unreachable"
  end.

(** [fuel] is the number of blocks that may be executed. *)
Fixpoint run (fuel : nat) (bs : list (Z * block)) (pred l : Z) (r : regs) : sem rv :=
  match fuel with
  | O => lift (Fault "fuel")
  | S fuel =>
      b ← lift (of_option "block" (block_at l bs));
      r ← lift (exec_phis pred (b_phis b) r r);
      r ← exec_list (b_ins b) r;
      t ← lift (exec_term r (b_term b));
      match t with
      | inl l' => run fuel bs l l' r
      | inr v => mret v
      end
  end.

End run.

(** The label of the block before the first one. *)
Definition no_block : Z := -1.

Definition arg_regs (params : list Z) (args : list rv) : regs :=
  fold_right (fun '(x, v) r => <[Src x := Some v]> r) (fun _ => None) (zip params args).

(** A call of a function with this body. *)
Definition run_body (M : machine) (fuel : nat) (f : body) (args : list rv) : sem rv :=
  function_body (run M fuel (f_blocks f) no_block (f_entry f) (arg_regs (f_params f) args)).

(** ** A body as the analysis sees it *)

Fixpoint erase_op (o : operand) : value :=
  match o with
  | OGlobal g => VGlobal g
  | OAggregate _ ops => VConstAggregate (map erase_op ops)
  | OExpr _ ops => VConstExpr (map erase_op ops)
  | OAsm => VInlineAsm
  | _ => VOther 0
  end.

Definition erase_ins (i : instr) : ins :=
  match i with
  | IOp _ ops => IOther (map erase_op ops)
  | IInsert _ a v _ => IOther [erase_op a; erase_op v]
  | ILoad p => IOther [erase_op p]
  | IStore v p => IOther [erase_op v; erase_op p]
  | IAlloca => IOther []
  | ICallSite callee args fty attrs =>
      ICall (erase_op callee) (map erase_op args) fty attrs
  | HWhite _ args _ | HIntrinsic _ args _ | HHost _ args _ => IOther (map erase_op args)
  | HCallback _ _ callee args | HFcpCm _ _ callee args => IOther (map erase_op (callee :: args))
  | IIndirect ops => IIndirectBr (map erase_op ops)
  | IException k ops => IEh k (map erase_op ops)
  end.

Definition erase_term (t : term) : ins :=
  match t with
  | TCondBr c _ _ | TSwitch c _ _ | TRet (Some c) => IOther [erase_op c]
  | _ => IOther []
  end.

Definition erase_phi (p : phi) : ins := IOther (map (fun e => erase_op e.2) (phi_incoming p)).

Definition erase_block (b : block) : list ins :=
  map erase_phi (b_phis b) ++ map (fun e => erase_ins e.2) (b_ins b) ++ [erase_term (b_term b)].

Definition erase (addr : Z) (fty : functype) (attrs : attrlist) (f : body) : func :=
  mk_func addr false fty attrs (map (fun b => erase_block b.2) (f_blocks f)).
