(* ===== verification/TakeBody.v ===== *)
(** * The host side: rewriting the body of a function

    Models the second half of [lib/gyhcall/TakeOut.cpp]: [do_function],
    [do_instruction], [do_operand] and [do_metadata], which turn the copy of a
    guest function's body into code for the host. References to global values
    become the values the host function loaded, constants that contain them are
    expanded into instructions, and calls go to intrinsics, host functions or
    back into the guest. The copy itself is LLVM's [CloneFunctionInto], and the
    code of a callback is that of [TakeOut.do_callback] and
    [TakeOut.do_fcp_cm]. *)

From S2P Require Import Prelude LlvmIR Symtbl Analyze StubCode Qlib ChopOff TakeOut Body.
#[local] Open Scope string_scope.
#[local] Open Scope Z_scope.

(** ** Generating instructions

    A computation that appends instructions at the insertion point and takes
    the names of their values from a counter. *)

Definition gen (A : Type) : Type := nat -> result (A * list (id * instr) * nat).

#[export] Instance gen_ret : MRet gen := fun A x n => Ok (x, [], n).
#[export] Instance gen_bind : MBind gen := fun A B f m n =>
  match m n with
  | Ok (x, l1, n1) =>
      match f x n1 with
      | Ok (y, l2, n2) => Ok (y, (l1 ++ l2)%list, n2)
      | Abort w => Abort w
      | Fault w => Fault w
      end
  | Abort w => Abort w
  | Fault w => Fault w
  end.

#[export] Instance gen_fmap : FMap gen := fun A B f m n =>
  match m n with
  | Ok (x, l, n') => Ok (f x, l, n')
  | Abort w => Abort w
  | Fault w => Fault w
  end.

Definition gabort {A} (why : string) : gen A := fun _ => Abort why.

(** An instruction that was there already stays, after the new ones. *)
Definition place (x : id) (i : instr) : gen unit := fun n => Ok (tt, [(x, i)], n).

Section take_body.
Context (cfg : TakeOut.Config) (bwl : BwList) (st : Symtbl).
Context (call_site_hash : functype -> attrlist -> option Z).
(** The domain of [mExtRefsMap]; the intrinsics whose calls are
    [DbgValueInst]s; and whether the operands of a global value that is not in
    [mExtRefsMap], such as the initializer of a variable, contain one that is. *)
Context (extRefs : list Z) (is_dbg_value : Z -> bool) (refers : Z -> bool).

(** ** Operands *)

Section operand.
(** How new values are named, and whether [mInstruction] is a
    [DbgValueInst]. *)
Context (mk : nat -> id) (dbg : bool).

Definition emit (i : instr) : gen operand := fun n => Ok (OLocal (mk n), [(mk n, i)], S n).

(** [for (i, newOp) in enumerate(newOps): val = insertvalue val, newOp, i] *)
Fixpoint insert_ops (k : agg_kind) (i : nat) (val : operand) (newOps : list operand)
    : gen operand :=
  match newOps with
  | [] => mret val
  | newOp :: newOps =>
      val ← emit (IInsert k val newOp i);
      insert_ops k (S i) val newOps
  end.

(** Rewriting gives the new value and whether it is another one than before. *)
Definition do_metadata (rec : operand -> gen (bool * operand)) (md : metadata operand)
    : gen (bool * metadata operand) :=
  match md with
  | MValue v =>
      '(changed, newVal) ← rec v;
      mret (if changed : bool then (true, MValue newVal) else (false, md))
  | MArgList args =>
      news ← mapM (fun v =>
        '(changed, newVal) ← rec v;
        mret (match newVal with
              | OGlobal _ => (true, OConst RUndef)
              | _ => (changed : bool, newVal)
              end)) args;
      mret (if existsb fst news then (true, MArgList (map snd news)) else (false, md))
  | MNode _ => mret (false, md)
  end.

Fixpoint do_operand (op : operand) : gen (bool * operand) :=
  match op with
  | OGlobal g =>
      if bool_decide (g_addr g ∈ extRefs) then mret (true, OLocal (Ext (g_addr g)))
      else if dbg then mret (true, OConst RUndef)
      else if refers (g_addr g) then gabort "unexpected GlobalValue in Constant"
      else mret (false, op)
  | OAggregate k ops =>
      news ← mapM do_operand ops;
      if existsb fst news then
        val ← insert_ops k 0 (OConst (undef_aggregate (length ops))) (map snd news);
        mret (true, val)
      else mret (false, op)
  | OExpr c ops =>
      news ← mapM do_operand ops;
      if existsb fst news then
        ins ← emit (IOp c (map snd news));
        mret (true, ins)
      else mret (false, op)
  | OMetadata m =>
      '(changed, md) ← do_metadata do_operand m;
      mret (if changed : bool then (true, OMetadata md) else (false, op))
  | OConst _ | OLocal _ | OAsm => mret (false, op)
  end.

Definition new_operand (op : operand) : gen operand := snd <$> do_operand op.

End operand.

(** ** Instructions *)

(** [do_instruction]. The operands of a call are rewritten first, its callee
    only where the call is handed to the runtime. *)
Definition do_call_site (x : id) (callee : operand) (args : list operand) (fty : functype)
    (attrs : attrlist) : gen unit :=
  let dbg := match is_intrinsic callee with Some f => is_dbg_value f | None => false end in
  newArgs ← mapM (new_operand Tmp dbg) args;
  match TakeOut.do_call cfg bwl st (erase_op callee), callee with
  | TakeOut.KeepWhite, OGlobal f => place x (HWhite (g_addr f) newArgs fty)
  | TakeOut.MakeIntrinsic, OGlobal f => place x (HIntrinsic (g_addr f) newArgs fty)
  | TakeOut.CallHostFunction, OGlobal f => place x (HHost (g_addr f) newArgs fty)
  | _, _ =>
      newCallee ← new_operand Tmp dbg callee;
      match call_site_hash fty attrs with
      | Some h =>
          place x (if TakeOut.mUseFCPcm cfg then HFcpCm h fty newCallee newArgs
                   else HCallback h fty newCallee newArgs)
      | None => gabort "callback type cannot be hashed"
      end
  end.

Definition do_instruction (e : id * instr) : gen unit :=
  let '(x, i) := e in
  let op := new_operand Tmp false in
  match i with
  | IOp c ops => newOps ← mapM op ops; place x (IOp c newOps)
  | IInsert k agg v i => agg ← op agg; v ← op v; place x (IInsert k agg v i)
  | ILoad p => p ← op p; place x (ILoad p)
  | IStore v p => v ← op v; p ← op p; place x (IStore v p)
  | IAlloca => place x IAlloca
  | ICallSite callee args fty attrs => do_call_site x callee args fty attrs
  | _ => gabort "host instruction"
  end.

Definition do_term (t : term) : gen term :=
  let op := new_operand Tmp false in
  match t with
  | TCondBr c l1 l2 => c ← op c; mret (TCondBr c l1 l2)
  | TSwitch c d cases => c ← op c; mret (TSwitch c d cases)
  | TRet (Some v) => v ← op v; mret (TRet (Some v))
  | TBr _ | TRet None | TUnreachable => mret t
  end.

(** The constants of a phi node are expanded in the entry block. *)
Definition do_phi (p : phi) : gen phi :=
  inc ← mapM (fun e => o ← new_operand Hoist false e.2; mret (e.1, o)) (phi_incoming p);
  mret (mk_phi (phi_id p) inc).

(** Rewriting a block also gives what it adds to the entry block. *)
Definition do_block (b : block) (h t : nat) : result (list (id * instr) * block * nat * nat) :=
  '(phis, hoisted, h) ← mapM do_phi (b_phis b) h;
  '(newTerm, ins, t) ← (_ ← mapM do_instruction (b_ins b); do_term (b_term b)) t;
  Ok (hoisted, mk_block phis ins newTerm, h, t).

Fixpoint do_blocks (bs : list (Z * block)) (h t : nat)
    : result (list (id * instr) * list (Z * block)) :=
  match bs with
  | [] => Ok ([], [])
  | (l, b) :: bs =>
      '(hoisted, b, h, t) ← do_block b h t;
      '(hoisted', bs) ← do_blocks bs h t;
      Ok ((hoisted ++ hoisted')%list, (l, b) :: bs)
  end.

(** The function on the host: the instructions of the entry block after the
    references are loaded, and the rewritten blocks. *)
Definition do_function (f : body) : result (list (id * instr) * body) :=
  '(hoisted, bs) ← do_blocks (f_blocks f) 0 0;
  Ok (hoisted, mk_body (f_params f) (f_entry f) bs).

(** ** Well-formed source bodies

    What LLVM's verifier asks of a body, and the restrictions under which the
    rewriting is right: constants contain only constants, metadata refers to
    global values only in [llvm.dbg.value], and a callee is a global value or a
    local one. *)

Fixpoint const_op (o : operand) : bool :=
  match o with
  | OGlobal _ | OConst _ => true
  | OAggregate _ ops | OExpr _ ops => forallb const_op ops
  | _ => false
  end.

Definition src_id (x : id) : bool := match x with Src _ => true | _ => false end.

Definition plain_op (o : operand) : bool :=
  match o with OLocal x => src_id x | _ => const_op o end.

Definition meta_val (dbg : bool) (o : operand) : bool :=
  plain_op o && (dbg || bool_decide (op_grefs (erase_op o) = [])).

Definition arg_op (dbg : bool) (o : operand) : bool :=
  match o with
  | OMetadata (MValue v) => meta_val dbg v
  | OMetadata (MArgList l) => forallb (meta_val dbg) l
  | OMetadata (MNode _) => true
  | _ => plain_op o
  end.

Definition callee_op (o : operand) : bool :=
  match o with OGlobal _ => true | OLocal x => src_id x | _ => false end.

Definition is_dbg (callee : operand) : bool :=
  match is_intrinsic callee with Some f => is_dbg_value f | None => false end.

Definition wf_ins (e : id * instr) : bool :=
  src_id e.1 &&
  match e.2 with
  | IOp _ ops => forallb plain_op ops
  | IInsert _ a v _ => plain_op a && plain_op v
  | ILoad p => plain_op p
  | IStore v p => plain_op v && plain_op p
  | IAlloca => true
  | ICallSite callee args fty _ =>
      callee_op callee && forallb (arg_op (is_dbg callee)) args &&
      (ft_vararg fty || (length args =? length (ft_params fty))%nat)
  | _ => false
  end.

Definition wf_term (t : term) : bool :=
  match t with
  | TCondBr c _ _ | TSwitch c _ _ | TRet (Some c) => plain_op c
  | _ => true
  end.

Definition wf_phi (p : phi) : bool :=
  src_id (phi_id p) && forallb (fun e => plain_op e.2) (phi_incoming p).

Definition wf_block (b : block) : bool :=
  forallb wf_phi (b_phis b) && forallb wf_ins (b_ins b) && wf_term (b_term b).

Definition wf_body (f : body) : bool := forallb (fun b => wf_block b.2) (f_blocks f).

End take_body.

(** ** Running a rewritten function

    With the references it loaded and its arguments. *)

Definition ext_regs (refs : gmap Z rv) (r : regs) : regs :=
  fun x => match x with Ext g => refs !! g | _ => r x end.

Definition run_host (H : machine) (fuel : nat) (hf : list (id * instr) * body)
    (refs : gmap Z rv) (args : list rv) : sem rv :=
  r ← exec_list H hf.1 (ext_regs refs (arg_regs (f_params hf.2) args));
  run H fuel (f_blocks hf.2) no_block (f_entry hf.2) r.
