(* ===== verification/TakeBodyOk.v ===== *)
(** * The rewritten body computes what the body did

    The proof that the rewriting of [TakeBody] is right: what a function of
    the guest computes, its host version computes, if calls of intrinsics, of
    host functions and callbacks do what the calls they replace do. A small
    logic for the generated instructions carries the expansion of constants;
    phi nodes find the constants hoisted into the entry block; and the
    rewriting succeeds on every function the analysis accepts. *)

From S2P Require Import Prelude LlvmIR Symtbl Analyze StubCode Qlib ChopOff TakeOut Body TakeBody.
#[local] Open Scope string_scope.
#[local] Open Scope Z_scope.

(** ** Lemmas on the interpreter and the generator *)

Lemma gen_bind_inv {A B} (m : gen A) (f : A -> gen B) n y l n2 :
  (m ≫= f) n = Ok (y, l, n2) ->
  exists x l1 n1 l2, m n = Ok (x, l1, n1) /\ f x n1 = Ok (y, l2, n2) /\ l = (l1 ++ l2)%list.
Proof.
  unfold mbind, gen_bind. destruct (m n) as [[[x l1] n1]| |]; [|done..].
  destruct (f x n1) as [[[y' l2] n2']| |] eqn:E; [|done..].
  intros [= <- <- <-]. by exists x, l1, n1, l2.
Qed.

Lemma gen_mapM_length {A B} (f : A -> gen B) l n bs E n' :
  mapM f l n = Ok (bs, E, n') -> length bs = length l.
Proof.
  revert n bs E n'. induction l as [|a l IH]; intros n bs E n'; simpl; [by intros [= <- _ _]|].
  intros (b & l1 & n1 & l2 & _ & (bs' & l3 & n2 & l4 & Hm & Hr & _)%gen_bind_inv & _)%gen_bind_inv.
  injection Hr as <- _ _. simpl. f_equal. by eapply IH.
Qed.

Lemma exec_list_app M l1 l2 r r1 s s1 :
  exec_list M l1 r s = Ok (r1, s1) ->
  exec_list M (l1 ++ l2) r s = exec_list M l2 r1 s1.
Proof.
  revert r s. induction l1 as [|[x i] l1 IH]; intros r s; simpl; [by intros [= <- <-]|].
  unfold mbind, sem_bind. destruct (exec_ins M r i s) as [[v s']| |]; [|done..]. apply IH.
Qed.

(** A way of naming new values that no other name can meet. *)
Class Fresh (mk : nat -> id) := {
  fresh_inj : forall i j, mk i = mk j -> i = j;
  fresh_src : forall i x, mk i <> Src x;
  fresh_ext : forall i g, mk i <> Ext g
}.

#[export] Instance Hoist_fresh : Fresh Hoist.
Proof. by split; [intros i j [= ->]|..]. Qed.

#[export] Instance Tmp_fresh : Fresh Tmp.
Proof. by split; [intros i j [= ->]|..]. Qed.

(** *** A logic for generated code *)

Section logic.
Context (H : machine) (extRefs : list Z) (mk : nat -> id) `{!Fresh mk}.

(** The references the host function has loaded. *)
Definition loaded (r : regs) : Prop := forall g, g ∈ extRefs -> r (Ext g) = Some (RInt g).

(** [r'] differs from [r] only in the new values numbered from [n] to [n']. *)
Definition frame (n n' : nat) (r r' : regs) : Prop :=
  forall x, (forall k, (n <= k < n')%nat -> x <> mk k) -> r' x = r x.

(** [rh] still has the new values that [r] has. *)
Definition knows (n n' : nat) (r rh : regs) : Prop :=
  loaded rh /\ forall k, (n <= k < n')%nat -> rh (mk k) = r (mk k).

(** The code generated by [m] runs without touching memory, and where the
    values it computes are known its result is as [Q] says. *)
Definition gok {A} (P : regs -> Prop) (m : gen A) (Q : regs -> A -> Prop) : Prop :=
  forall n0 n x E n', (n0 <= n)%nat -> m n = Ok (x, E, n') ->
    (n <= n')%nat /\ forall r s, loaded r -> (forall rh, knows n0 n r rh -> P rh) ->
      exists r', exec_list H E r s = Ok (r', s) /\ frame n n' r r' /\
        forall rh, knows n0 n' r' rh -> Q rh x.

Lemma frame_refl n r : frame n n r r.
Proof. done. Qed.

Lemma frame_trans n1 n2 n3 r1 r2 r3 :
  (n1 <= n2 <= n3)%nat -> frame n1 n2 r1 r2 -> frame n2 n3 r2 r3 -> frame n1 n3 r1 r3.
Proof. intros Hn F1 F2 x Hx. rewrite F2, F1; [done|intros; apply Hx; lia..]. Qed.

Lemma frame_loaded n n' r r' : frame n n' r r' -> loaded r -> loaded r'.
Proof. intros F L g Hg. rewrite F; [by apply L|]. intros k _ Hk. by apply (fresh_ext k g). Qed.

Lemma knows_refl n n' r : loaded r -> knows n n' r r.
Proof. done. Qed.

Lemma knows_frame n0 n n' r r' rh :
  (n0 <= n <= n')%nat -> frame n n' r r' -> knows n0 n' r' rh -> knows n0 n r rh.
Proof.
  intros Hn F [L K]. split; [done|]. intros k Hk. rewrite K by lia. apply F.
  intros j Hj He%fresh_inj. lia.
Qed.

Lemma gok_ret {A} (P : regs -> Prop) (Q : regs -> A -> Prop) x :
  (forall rh, loaded rh -> P rh -> Q rh x) -> gok P (mret x) Q.
Proof.
  intros HQ n0 n y E n' Hn [= <- <- <-]. split; [lia|]. intros r s L HP.
  exists r. split; [done|]. split; [done|]. intros rh K. apply HQ; [apply K|by apply HP].
Qed.

Lemma gok_weaken {A} (P P' : regs -> Prop) (Q Q' : regs -> A -> Prop) m :
  (forall rh, P' rh -> P rh) -> (forall rh x, Q rh x -> Q' rh x) -> gok P m Q -> gok P' m Q'.
Proof.
  intros HP HQ Hm n0 n x E n' Hn Hr. destruct (Hm n0 n x E n' Hn Hr) as [Hle Hx]. split; [done|].
  intros r s L K. destruct (Hx r s L) as (r' & He & F & HK); [by intros; apply HP, K|].
  exists r'. split; [done|]. split; [done|]. intros. by apply HQ, HK.
Qed.

Lemma gok_post {A} P (Q Q' : regs -> A -> Prop) m :
  (forall rh x, Q rh x -> Q' rh x) -> gok P m Q -> gok P m Q'.
Proof. intros HQ. by apply gok_weaken. Qed.

Lemma gok_bind {A B} P (m : gen A) (f : A -> gen B) (Q : regs -> A -> Prop) Q' :
  gok P m Q ->
  (forall x, (exists n E n', m n = Ok (x, E, n')) -> gok (fun rh => P rh /\ Q rh x) (f x) Q') ->
  gok P (m ≫= f) Q'.
Proof.
  intros Hm Hf n0 n y E n2 Hn (x & l1 & n1 & l2 & E1 & E2 & ->)%gen_bind_inv.
  destruct (Hm n0 n x l1 n1 Hn E1) as [Hle1 H1].
  destruct (Hf x ltac:(eauto) n0 n1 y l2 n2 ltac:(lia) E2) as [Hle2 H2]. split; [lia|].
  intros r s L HP. destruct (H1 r s L HP) as (r1 & X1 & F1 & K1).
  destruct (H2 r1 s) as (r2 & X2 & F2 & K2); [by eapply frame_loaded| |].
  { intros rh K. split; [|by apply K1]. apply HP. eapply knows_frame; [|done..]. lia. }
  exists r2. split; [by rewrite (exec_list_app _ _ _ _ _ _ _ X1)|].
  split; [by eapply frame_trans|done].
Qed.

Lemma gok_fmap {A B} P (m : gen A) (f : A -> B) (Q : regs -> B -> Prop) :
  gok P m (fun rh x => Q rh (f x)) -> gok P (f <$> m) Q.
Proof.
  intros Hm n0 n y E n' Hn Hr. unfold fmap, gen_fmap in Hr.
  destruct (m n) as [[[x l] n1]| |] eqn:E1; [|done..]. injection Hr as <- <- <-.
  by apply (Hm n0 n x l n1).
Qed.

Lemma gok_mapM {A B} (f : A -> gen B) (Q : regs -> A -> B -> Prop) l P :
  (forall a P, a ∈ l -> gok P (f a) (fun rh b => P rh /\ Q rh a b)) ->
  gok P (mapM f l) (fun rh bs => P rh /\ Forall2 (Q rh) l bs).
Proof.
  revert P. induction l as [|a l IH]; intros P Hf; simpl.
  { apply gok_ret. by intros rh _ HP. }
  eapply gok_bind; [apply Hf; by left|]. intros b _.
  eapply gok_bind; [apply IH; intros; apply Hf; by right|]. intros bs _.
  apply gok_ret. intros rh _ [_ [[HP [_ Hb]] Hbs]]. split; [done|]. by constructor.
Qed.

(** An instruction whose value does not depend on anything else. *)
Lemma gok_emit P i v :
  (forall rh s, loaded rh -> P rh -> exec_ins H rh i s = Ok (v, s)) ->
  gok P (emit mk i) (fun rh o => P rh /\ eval H rh o = Ok v).
Proof.
  intros Hi n0 n o E n' Hn [= <- <- <-]. split; [lia|]. intros r s L HP.
  exists (<[mk n := Some v]> r). split; [|split].
  - simpl. unfold mbind, sem_bind. rewrite Hi; [done..|]. by apply HP, knows_refl.
  - intros x Hx. apply fn_lookup_insert_ne. intros <-. apply (Hx n); [lia|done].
  - intros rh [Lh K]. split.
    + apply HP. split; [done|]. intros k Hk. rewrite K by lia.
      apply fn_lookup_insert_ne. intros He%fresh_inj. lia.
    + cbn [eval]. rewrite K by lia. unfold insert, fn_insert. by rewrite decide_True.
Qed.

End logic.

(** *** Expanded constants *)

Section consts.
Context (H : machine) (extRefs : list Z) (refers : Z -> bool) (mk : nat -> id) `{!Fresh mk}.
Context (dbg : bool).

#[local] Abbreviation gok := (gok H extRefs mk).
#[local] Abbreviation do_op := (do_operand extRefs refers mk dbg).

(** The value of a constant, where a reference that has not been loaded, which
    only debug information has, is undefined. *)
Fixpoint hval (o : operand) : rv :=
  match o with
  | OGlobal g => if bool_decide (g_addr g ∈ extRefs) then RInt (g_addr g) else RUndef
  | OConst c => c
  | OAggregate _ ops => RAgg (map hval ops)
  | OExpr c ops => m_expr H c (map hval ops)
  | _ => RUndef
  end.

(** [o] refers only to what is loaded. *)
Definition covered (o : operand) : Prop := forall g, g ∈ op_grefs (erase_op o) -> g ∈ extRefs.

Lemma covered_ops ops :
  (forall g, g ∈ concat (map op_grefs (map erase_op ops)) -> g ∈ extRefs) -> Forall covered ops.
Proof.
  intros Hc. apply Forall_forall. intros o Ho g Hg. apply Hc, list_elem_of_In, in_concat.
  exists (op_grefs (erase_op o)). split; [|by apply list_elem_of_In].
  apply in_map, in_map, list_elem_of_In, Ho.
Qed.

Lemma mapM_eval M r (v : operand -> rv) ops :
  Forall (fun o => eval M r o = Ok (v o)) ops -> mapM (eval M r) ops = Ok (map v ops).
Proof.
  induction 1 as [|o ops Ho _ IH]; simpl; [done|]. rewrite Ho. simpl. by rewrite IH.
Qed.

Lemma gok_insert_ops k vs P news done val :
  length vs = length news ->
  (forall rh, loaded extRefs rh -> P rh ->
     eval H rh val = Ok (RAgg (done ++ replicate (length news) RUndef))) ->
  (forall rh, loaded extRefs rh -> P rh -> Forall2 (fun o v => eval H rh o = Ok v) news vs) ->
  gok P (insert_ops mk k (length done) val news)
    (fun rh o => P rh /\ eval H rh o = Ok (RAgg (done ++ vs))).
Proof.
  revert P done val vs. induction news as [|o news IH]; intros P dn val vs Hlen Hval Hops.
  { destruct vs; [|done]. apply gok_ret. intros rh L HP. by split; [|apply Hval]. }
  destruct vs as [|v vs]; [done|]. simpl.
  eapply (gok_bind H extRefs mk).
  { apply (gok_emit H extRefs mk P _ (RAgg ((dn ++ [v]) ++ replicate (length news) RUndef))).
    intros rh s L HP. pose proof (Hops rh L HP) as Hf. inversion Hf; subst.
    simpl. unfold mbind, sem_bind, lift. rewrite Hval by done. simpl.
    match goal with He : eval H rh o = _ |- _ => rewrite He end. simpl.
    rewrite length_app. simpl.
    destruct (Nat.ltb_spec (length dn) (length dn + S (length (replicate (length news) RUndef))));
      [|lia].
    rewrite insert_app_r_alt, Nat.sub_diag by lia. simpl. by rewrite <- app_assoc. }
  intros val' _. apply (gok_weaken _ _ _ (fun rh => P rh /\ P rh /\ eval H rh val' =
    Ok (RAgg ((dn ++ [v]) ++ replicate (length news) RUndef))) _
    (fun rh o => (P rh /\ P rh /\ eval H rh val' = Ok (RAgg ((dn ++ [v]) ++ replicate (length news) RUndef)))
       /\ eval H rh o = Ok (RAgg ((dn ++ [v]) ++ vs)))); [done| |].
  { intros rh x [[HP _] He]. by rewrite <- app_assoc in He. }
  replace (S (length dn)) with (length (dn ++ [v])) by (rewrite length_app; simpl; lia).
  apply IH; [simpl in Hlen; lia|by intros rh L [_ [_ ?]]|].
  intros rh L [HP _]. pose proof (Hops rh L HP) as Hf. by inversion Hf.
Qed.

(** Rewritten operands, when all of them have the value they should. *)
Definition op_post (rh : regs) (o : operand) (x : bool * operand) : Prop :=
  (x.1 = false -> x.2 = o) /\ eval H rh x.2 = Ok (hval o).

Lemma post_evals rh ops news :
  Forall2 (op_post rh) ops news ->
  Forall2 (fun o v => eval H rh o = Ok v) (map snd news) (map hval ops).
Proof. induction 1 as [|o x ops news [_ He] _ IH]; simpl; by constructor. Qed.

Lemma post_mapM rh ops news :
  Forall2 (op_post rh) ops news -> mapM (eval H rh) (map snd news) = Ok (map hval ops).
Proof.
  induction 1 as [|o x ops news [_ He] _ IH]; simpl; [done|]. rewrite He. simpl. by rewrite IH.
Qed.

Lemma post_unchanged rh ops news :
  Forall2 (op_post rh) ops news -> existsb fst news = false -> map snd news = ops.
Proof.
  induction 1 as [|o [c o'] ops news [Hc _] _ IH]; simpl; [done|].
  intros [-> Hn]%orb_false_iff. f_equal; [by apply Hc|by apply IH].
Qed.

Lemma do_operands_const ops :
  Forall (fun o => const_op o = true -> dbg = true \/ covered o ->
    forall P, gok P (do_op o) (fun rh x => P rh /\ op_post rh o x)) ops ->
  forallb const_op ops = true ->
  dbg = true \/ (forall g, g ∈ concat (map op_grefs (map erase_op ops)) -> g ∈ extRefs) ->
  forall P, gok P (mapM do_op ops) (fun rh news => P rh /\ Forall2 (op_post rh) ops news).
Proof.
  intros IH Hc Hd P. apply (gok_mapM H extRefs mk do_op op_post). intros a P' Ha.
  rewrite Forall_forall in IH. rewrite forallb_forall in Hc.
  apply IH; [done|by apply Hc, list_elem_of_In|]. destruct Hd as [|Hd]; [by left|right].
  apply covered_ops in Hd. rewrite Forall_forall in Hd. by apply Hd.
Qed.

Lemma do_operand_const o :
  const_op o = true -> dbg = true \/ covered o ->
  forall P, gok P (do_op o) (fun rh x => P rh /\ op_post rh o x).
Proof.
  induction o as [g|c|k ops IH|c ops IH|x| |v IH|l IH|n] using operand_induct;
    intros Hc Hd P; try done; cbn [do_operand].
  - case_bool_decide as Hg.
    { apply gok_ret. intros rh L HP. split; [done|]. split; [done|]. cbn. rewrite L by done.
      by rewrite bool_decide_true. }
    destruct dbg.
    { apply gok_ret. intros rh L HP. split; [done|]. split; [done|]. cbn.
      by rewrite bool_decide_false. }
    destruct Hd as [|Hd]; [done|]. destruct Hg. apply Hd. by left.
  - by apply gok_ret.
  - eapply (gok_bind H extRefs mk); [by apply do_operands_const|].
    intros news (n1 & E1 & n1' & Hlen%gen_mapM_length). destruct (existsb fst news) eqn:Hn.
    + eapply (gok_bind H extRefs mk).
      * apply (gok_insert_ops k (map hval ops) _ (map snd news) [] _).
        { by rewrite !length_map. }
        { intros rh L HP. cbn [eval app]. by rewrite length_map, Hlen. }
        { intros rh L [_ [_ Hp]]. by apply post_evals. }
      * intros val _. apply gok_ret. intros rh L [[HP _] [_ He]]. done.
    + apply gok_ret. intros rh L [HP [_ Hp]]. split; [done|]. split; [done|].
      cbn. pose proof (post_mapM _ _ _ Hp) as Hm. rewrite (post_unchanged _ _ _ Hp Hn) in Hm.
      by rewrite Hm.
  - eapply (gok_bind H extRefs mk); [by apply do_operands_const|].
    intros news _. destruct (existsb fst news) eqn:Hn.
    + eapply (gok_bind H extRefs mk).
      * apply (gok_emit H extRefs mk _ _ (m_expr H c (map hval ops))).
        intros rh s L [_ [_ Hp]]. cbn. unfold mbind, sem_bind, lift, evals.
        by rewrite (post_mapM _ _ _ Hp).
      * intros val _. apply gok_ret. intros rh L [[HP _] [_ He]]. done.
    + apply gok_ret. intros rh L [HP [_ Hp]]. split; [done|]. split; [done|].
      cbn. pose proof (post_mapM _ _ _ Hp) as Hm. rewrite (post_unchanged _ _ _ Hp Hn) in Hm.
      by rewrite Hm.
Qed.

(** *** Operands of the guest's code *)

Context (G : machine) (HG : m_global G = fun g => Ok (RInt (g_addr g))).
Context (Hexpr : m_expr G = m_expr H).

(** [rh] has the values [rg] has. *)
Definition agree (rg rh : regs) : Prop :=
  forall x v, rg (Src x) = Some v -> rh (Src x) = Some v.

(** With the values of [rh] the host's operand is what the guest's is. *)
Definition matches (rh : regs) (o o' : operand) : Prop :=
  forall rg v, agree rg rh -> eval G rg o = Ok v -> eval H rh o' = Ok v.

Lemma eval_const r o : const_op o = true -> covered o -> eval G r o = Ok (hval o).
Proof.
  induction o as [g|c|k ops IH|c ops IH|x| |v IH|l IH|n] using operand_induct;
    intros Hc Hd; try done; cbn [eval hval].
  - rewrite HG, bool_decide_true; [done|]. apply Hd. by left.
  - rewrite (mapM_eval G r hval); [done|]. simpl in Hc. rewrite forallb_forall in Hc.
    apply covered_ops in Hd. rewrite Forall_forall in *. intros o Ho.
    apply IH; [done|by apply Hc, list_elem_of_In|by apply Hd].
  - rewrite (mapM_eval G r hval), Hexpr; [done|]. simpl in Hc. rewrite forallb_forall in Hc.
    apply covered_ops in Hd. rewrite Forall_forall in *. intros o Ho.
    apply IH; [done|by apply Hc, list_elem_of_In|by apply Hd].
Qed.

Lemma do_operand_plain o P :
  plain_op o = true -> covered o -> gok P (do_op o) (fun rh x => P rh /\ matches rh o x.2).
Proof.
  intros Hp Hc. destruct (const_op o) eqn:Hk.
  - eapply gok_weaken; [done| |by apply do_operand_const; [|right]]. cbv beta.
    intros rh x [HP [_ He]]. split; [done|]. intros rg v _ Hg.
    rewrite (eval_const rg o Hk Hc) in Hg. by rewrite He.
  - destruct o as [| | | |x| |]; try done; [simpl in *; congruence..|].
    destruct x as [x| | |]; try done. apply gok_ret. intros rh L HP. split; [done|].
    intros rg v Ha Hv. cbn in *. apply of_option_Ok_inv in Hv. by rewrite (Ha _ _ Hv).
Qed.

Lemma do_operand_meta v P :
  meta_val dbg v = true -> gok P (do_op v) (fun rh _ => P rh).
Proof.
  unfold meta_val. intros [Hp Hd]%andb_true_iff. destruct (const_op v) eqn:Hk.
  - eapply gok_weaken; [done| |apply do_operand_const; [done|]]; [by cbv beta; intros rh x [HP _]|].
    destruct dbg; [by left|right]. simpl in Hd. intros g. apply bool_decide_eq_true in Hd.
    rewrite Hd. by intros ?%elem_of_nil.
  - destruct v as [| | | |x| |]; try done; [simpl in *; congruence..|].
    apply gok_ret. by intros rh _ HP.
Qed.

Lemma do_operand_arg o P :
  arg_op dbg o = true -> covered o -> gok P (do_op o) (fun rh x => P rh /\ matches rh o x.2).
Proof.
  intros Ha Hc. destruct o as [| | | | | |[v|l|n]]; try (by apply do_operand_plain); cbn in Ha.
  - cbn [do_operand do_metadata]. eapply (gok_bind H extRefs mk).
    { eapply (gok_bind H extRefs mk); [by apply do_operand_meta|]. intros [c o'] _.
      apply (gok_ret H extRefs mk _ (fun rh x => P rh /\ match x.2 with MNode _ => False | _ => True end)).
      intros rh L [_ HP]. split; [done|]. by destruct c. }
    intros [c md] _. apply gok_ret. intros rh L [_ [HP Hm]]. split; [done|].
    intros rg w _ [= <-]. simpl in Hm. by destruct c, md.
  - cbn [do_operand do_metadata]. eapply (gok_bind H extRefs mk).
    { eapply (gok_bind H extRefs mk).
      { apply (gok_mapM H extRefs mk _ (fun _ _ _ => True)). intros v P' Hv.
        eapply (gok_bind H extRefs mk).
        - apply do_operand_meta. rewrite forallb_forall in Ha. by apply Ha, list_elem_of_In.
        - intros [c o'] _. apply gok_ret. by intros rh L [_ HP]. }
      intros news _.
      apply (gok_ret H extRefs mk _ (fun rh x => P rh /\ match x.2 with MNode _ => False | _ => True end)).
      intros rh L [HP _]. split; [done|]. by destruct (existsb fst news). }
    intros [c md] _. apply gok_ret. intros rh L [_ [HP Hm]]. split; [done|].
    intros rg w _ [= <-]. simpl in Hm. by destruct c, md.
  - apply gok_ret. intros rh _ HP. split; [done|]. by intros rg w _ Hw.
Qed.

Lemma new_operand_arg o P :
  arg_op dbg o = true -> covered o ->
  gok P (new_operand extRefs refers mk dbg o) (fun rh o' => P rh /\ matches rh o o').
Proof. intros Ha Hc. by apply gok_fmap, do_operand_arg. Qed.

Lemma new_operands_arg ops P :
  forallb (arg_op dbg) ops = true -> Forall covered ops ->
  gok P (mapM (new_operand extRefs refers mk dbg) ops)
    (fun rh ops' => P rh /\ Forall2 (matches rh) ops ops').
Proof.
  intros Ha Hc. apply (gok_mapM H extRefs mk _ matches). intros o P' Ho.
  rewrite forallb_forall in Ha. rewrite Forall_forall in Hc.
  apply new_operand_arg; [by apply Ha, list_elem_of_In|by apply Hc].
Qed.

Lemma matches_evals rg rh ops ops' vs :
  agree rg rh -> Forall2 (matches rh) ops ops' -> evals G rg ops = Ok vs -> evals H rh ops' = Ok vs.
Proof.
  intros Ha Hm. revert vs. unfold evals.
  induction Hm as [|o o' ops ops' Ho _ IH]; intros vs; simpl; [done|]. intros Hv. inv_ok.
  rewrite (Ho rg a Ha E). simpl. by rewrite (IH _ E0).
Qed.

End consts.

(** ** Simulation *)

(** Two states that differ at most in the dead part of the stack. *)
Definition same (s t : rstate) : Prop :=
  r_sp s = r_sp t /\ forall a, a < r_sp s -> r_cells s !! a = r_cells t !! a.

(** What [g] computes, [h] computes, and neither gives up live stack. *)
Definition simulates (g h : sem rv) : Prop :=
  forall s t v s', same s t -> g s = Ok (v, s') ->
    r_sp s <= r_sp s' /\ exists t', h t = Ok (v, t') /\ same s' t'.

Lemma same_refl s : same s s.
Proof. done. Qed.

Lemma live_same p s t u s' : same s t -> live p s = Ok (u, s') -> s' = s /\ live p t = Ok (tt, t).
Proof.
  intros [Hsp _]. unfold live. destruct p; try done. rewrite Hsp. destruct (_ <? _); [|done].
  by intros [= _ <-].
Qed.

Lemma load_same p s t u s1 v s' :
  same s t -> live p s = Ok (u, s1) -> CreateLoad p s = Ok (v, s') ->
  s' = s /\ CreateLoad p t = Ok (v, t).
Proof.
  intros [Hsp Hc]. unfold live, CreateLoad. destruct p as [a| |]; try done.
  destruct (Z.ltb_spec a (r_sp s)) as [Ha|]; [|done]. intros _. rewrite <- (Hc a Ha).
  destruct (r_cells s !! a); [|done]. by intros [= -> <-].
Qed.

Lemma store_same v p s t u s1 w s' :
  same s t -> live p s = Ok (u, s1) -> CreateStore v p s = Ok (w, s') ->
  r_sp s' = r_sp s /\ exists t', CreateStore v p t = Ok (tt, t') /\ same s' t'.
Proof.
  intros [Hsp Hc]. unfold live, CreateStore. destruct p as [a| |]; try done.
  destruct (Z.ltb_spec a (r_sp s)) as [Ha|]; [|done]. intros _. rewrite <- (Hc a Ha).
  destruct (r_cells s !! a); [|done]. intros [= <- <-]. split; [done|]. eexists.
  split; [done|]. split; [done|]. simpl. intros b Hb.
  destruct (decide (b = a)) as [->|]; [by rewrite !lookup_insert_eq|].
  rewrite !lookup_insert_ne by done. by apply Hc.
Qed.

Lemma alloca_same : simulates CreateAlloca CreateAlloca.
Proof.
  intros s t v s' [Hsp Hc] [= <- <-]. simpl. split; [lia|]. rewrite Hsp. eexists. split; [done|].
  split; [done|]. simpl. intros a Ha. destruct (decide (a = r_sp t)) as [->|].
  - by rewrite !fresh_cell_eq.
  - destruct (decide (a < r_sp t)).
    + rewrite !fresh_cell_ne by lia. apply Hc. lia.
    + rewrite !fresh_cell_in by lia. done.
Qed.

Lemma simulates_result fty g h :
  simulates g h -> simulates (result_of_call fty g) (result_of_call fty h).
Proof.
  intros Hs s t v s' Hst. unfold result_of_call, mbind, sem_bind.
  destruct (g s) as [[w s1]| |] eqn:Hg; [|done..]. intros [= <- <-].
  destruct (Hs s t w s1 Hst Hg) as (Hle & t' & Ht & Hst'). split; [done|].
  exists t'. by rewrite Ht.
Qed.

Section sim.
Context (cfg : TakeOut.Config) (bwl : BwList) (st : Symtbl).
Context (call_site_hash : functype -> attrlist -> option Z).
Context (extRefs cbStubs : list Z) (is_dbg_value : Z -> bool) (refers : Z -> bool).
Context (G H : machine).

(** The signatures of the calls in question. *)
Context (site : functype -> attrlist -> Prop).

(** What the host's machine is to the guest's. *)
Class Offloads := {
  off_global : m_global G = fun g => Ok (RInt (g_addr g));
  off_expr : m_expr G = m_expr H;
  off_intrinsic : forall f vs, simulates (m_intrinsic G f vs) (m_intrinsic H f vs);
  off_host : forall f vs, TakeOut.mUseFCP cfg = true -> f ∈ TakeOut.mFcpFuncMap cfg bwl st ->
    simulates (m_call G (RInt f) vs) (m_host H f vs);
  off_callback : forall fty attrs h f vs, site fty attrs ->
    call_site_hash fty attrs = Some h -> h ∈ cbStubs -> length vs = length (ft_params fty) ->
    simulates (result_of_call fty (m_call G f vs))
      (if TakeOut.mUseFCPcm cfg then m_fcp_cm H h fty f vs else m_callback H h fty f vs)
}.

Context `{!Offloads}.

(** The instruction is one the analysis accepted, and it found its references
    and its callback type; and the white list does not name its callee. *)
Definition analyzed_ins (i : ins) : Prop :=
  ins_ok call_site_hash bwl i = true /\
  (forall g, g ∈ ins_grefs bwl i -> g ∈ extRefs) /\
  (forall h, h ∈ ins_callbacks call_site_hash bwl i -> h ∈ cbStubs) /\
  match i with
  | ICall callee _ fty attrs => TakeOut.white_listed bwl callee = false /\ site fty attrs
  | _ => True
  end.

#[local] Abbreviation gok := (gok H extRefs Tmp).
#[local] Abbreviation matches := (matches H G).
#[local] Abbreviation covered := (covered extRefs).

(** Only the values of the function and of its instructions change. *)
Definition keeps (r r' : regs) : Prop :=
  forall x, (forall k, x <> Tmp k) -> src_id x = false -> r' x = r x.

(** The generated code for an instruction, given the code for its operands. *)
Definition ins_sim (e : id * instr) (m : gen unit) : Prop :=
  forall n u E n' rg s rg' s' rh t,
    m n = Ok (u, E, n') -> exec_list G [e] rg s = Ok (rg', s') ->
    same s t -> agree rg rh -> loaded extRefs rh ->
    r_sp s <= r_sp s' /\
    exists rh' t', exec_list H E rh t = Ok (rh', t') /\ same s' t' /\ agree rg' rh' /\
      keeps rh rh'.

Lemma ins_sim_intro {A} x i (m : gen A) (i' : A -> instr) (Q : regs -> A -> Prop) :
  src_id x = true ->
  gok (fun _ => True) m Q ->
  (forall a rg rh, agree rg rh -> Q rh a -> simulates (exec_ins G rg i) (exec_ins H rh (i' a))) ->
  ins_sim (x, i) (a ← m; place x (i' a)).
Proof.
  intros Hx Hm Hi n u E n' rg s rg' s' rh t
    (a & l1 & n1 & l2 & E1 & E2 & ->)%gen_bind_inv Hg Hst Hag Hl.
  injection E2 as <- <- <-.
  destruct (Hm n n a l1 n1 ltac:(lia) E1) as [Hle Hx1].
  destruct (Hx1 rh t Hl) as (r' & X1 & F & K); [done|].
  assert (agree rg r') as Hag'.
  { intros y v Hy. rewrite F; [by apply Hag|]. done. }
  simpl in Hg. unfold mbind, sem_bind in Hg.
  destruct (exec_ins G rg i s) as [[v s1]| |] eqn:Hv; [|done..]. injection Hg as <- <-.
  destruct (Hi a rg r' Hag' (K r' (knows_refl _ _ _ _ _ (frame_loaded _ _ _ _ _ _ F Hl))) s t v s1 Hst Hv)
    as (Hsp & t' & Ht & Hst'). split; [done|].
  exists (<[x := Some v]> r'), t'. split; [|split; [done|split]].
  - rewrite (exec_list_app _ _ _ _ _ _ _ X1). simpl. unfold mbind, sem_bind. by rewrite Ht.
  - destruct x as [x| | |]; try done. intros y w. unfold insert, fn_insert.
    destruct (decide _); [done|apply Hag'].
  - intros y Hy Hs. unfold insert, fn_insert. rewrite decide_False by congruence.
    apply F. done.
Qed.

Lemma ins_sim_ext e (m m' : gen unit) : (forall n, m n = m' n) -> ins_sim e m' -> ins_sim e m.
Proof. intros He Hs n u E n' rg s rg' s' rh t. rewrite He. apply Hs. Qed.

Lemma bind_lift {A B} (m : result A) (f : A -> sem B) s v s' :
  (lift m ≫= f) s = Ok (v, s') -> exists x, m = Ok x /\ f x s = Ok (v, s').
Proof. unfold mbind, sem_bind, lift. destruct m as [x| |]; try done. eauto. Qed.

Lemma bind_pair {A B} (m1 : gen A) (m2 : gen B) x (f : A * B -> instr) n :
  (a ← m1; b ← m2; place x (f (a, b))) n
  = ((a ← m1; b ← m2; mret (a, b)) ≫= fun ab => place x (f ab)) n.
Proof.
  unfold mbind, gen_bind. destruct (m1 n) as [[[a l1] n1]| |]; [|done..].
  destruct (m2 n1) as [[[b l2] n2]| |]; [|done..]. simpl. by rewrite app_nil_r, <- app_assoc.
Qed.

(** An instruction that first computes the values of its operands. *)
Lemma sim_evals {A} (mg mh : result A) (fg fh : A -> sem rv) :
  (forall x, mg = Ok x -> mh = Ok x) -> (forall x, mg = Ok x -> simulates (fg x) (fh x)) ->
  simulates (lift mg ≫= fg) (lift mh ≫= fh).
Proof.
  intros Hm Hf s t v s' Hst (x & Hx & Hg)%bind_lift.
  destruct (Hf x Hx s t v s' Hst Hg) as (Hle & t' & Ht & Hst'). split; [done|].
  exists t'. split; [|done]. unfold mbind at 1, sem_bind at 1, lift. by rewrite (Hm x Hx).
Qed.

Lemma sim_ret v : simulates (mret v) (mret v).
Proof. intros s t w s' Hst [= <- <-]. split; [lia|]. by exists t. Qed.

Lemma sim_lift (r : result rv) : simulates (lift r) (lift r).
Proof.
  intros s t w s' Hst. unfold lift. destruct r; try done. intros [= <- <-]. split; [lia|].
  by exists t.
Qed.

Lemma sim_load p : simulates (_ ← live p; CreateLoad p) (_ ← live p; CreateLoad p).
Proof.
  intros s t v s' Hst. unfold mbind, sem_bind.
  destruct (live p s) as [[u s1]| |] eqn:Hl; [|done..].
  destruct (live_same p s t u s1 Hst Hl) as [-> Hl']. rewrite Hl'. intros Hv.
  destruct (load_same p s t u s v s' Hst Hl Hv) as [-> Hv']. split; [lia|]. by exists t.
Qed.

Lemma sim_store v p :
  simulates (_ ← live p; _ ← CreateStore v p; mret RUndef)
            (_ ← live p; _ ← CreateStore v p; mret RUndef).
Proof.
  intros s t w s' Hst. unfold mbind, sem_bind.
  destruct (live p s) as [[u s1]| |] eqn:Hl; [|done..].
  destruct (live_same p s t u s1 Hst Hl) as [-> Hl']. rewrite Hl'.
  destruct (CreateStore v p s) as [[u2 s2]| |] eqn:Hv; [|done..]. intros [= <- <-].
  destruct (store_same v p s t u s u2 s2 Hst Hl Hv) as (Hsp & t' & Ht & Hst').
  split; [lia|]. exists t'. by rewrite Ht.
Qed.

Lemma plain_arg dbg o : plain_op o = true -> arg_op dbg o = true.
Proof. by destruct o. Qed.

Lemma gok_op o P :
  plain_op o = true -> covered o ->
  gok P (new_operand extRefs refers Tmp false o) (fun rh o' => P rh /\ matches rh o o').
Proof.
  intros. apply new_operand_arg; [exact _|apply off_global|apply off_expr|by apply plain_arg|done].
Qed.

Lemma gok_ops dbg ops P :
  forallb (arg_op dbg) ops = true -> Forall covered ops ->
  gok P (mapM (new_operand extRefs refers Tmp dbg) ops)
    (fun rh ops' => P rh /\ Forall2 (matches rh) ops ops').
Proof. intros. apply new_operands_arg; [exact _|apply off_global|apply off_expr|done..]. Qed.

Lemma gok_op2 o1 o2 :
  plain_op o1 = true -> plain_op o2 = true -> covered o1 -> covered o2 ->
  gok (fun _ => True)
    (a ← new_operand extRefs refers Tmp false o1; b ← new_operand extRefs refers Tmp false o2;
     mret (a, b))
    (fun rh x => matches rh o1 x.1 /\ matches rh o2 x.2).
Proof.
  intros. eapply (gok_bind H extRefs Tmp); [by apply gok_op|]. intros a _.
  eapply (gok_bind H extRefs Tmp); [by apply gok_op|]. intros b _.
  apply gok_ret. by intros rh _ [[_ [_ ?]] [_ ?]].
Qed.

(** *** Instructions that are not calls *)

#[local] Abbreviation do_ins := (do_instruction cfg bwl st call_site_hash extRefs is_dbg_value refers).

Lemma do_plain_sim e :
  wf_ins is_dbg_value e = true -> analyzed_ins (erase_ins e.2) ->
  (forall callee args fty attrs, e.2 <> ICallSite callee args fty attrs) ->
  ins_sim e (do_ins e).
Proof.
  destruct e as [x i]. unfold wf_ins. intros [Hx Hw]%andb_true_iff (_ & Hr & _) Hcall. simpl in *.
  destruct i as [c ops|k a v j|p|v p| |callee args fty attrs| | | | | | |]; try done; simpl in Hr.
  - apply covered_ops in Hr. apply (ins_sim_intro x _ _ (IOp c) (fun rh ops' => Forall2 (matches rh) ops ops')); [done| |].
    + eapply gok_post; [|apply gok_ops; [|done]]; [by intros rh ops' [_ ?]|].
      rewrite forallb_forall in *. intros o Ho. by apply plain_arg, Hw.
    + intros ops' rg rh Ha Hm. simpl. apply sim_evals.
      * intros vs. by apply matches_evals.
      * intros vs _. rewrite off_expr. apply sim_ret.
  - apply andb_true_iff in Hw as [Hw1 Hw2]. apply (covered_ops _ [a; v]) in Hr.
    apply Forall_cons in Hr as [Hr1 [Hr2 _]%Forall_cons].
    eapply ins_sim_ext; [|apply (ins_sim_intro x _ _ (fun '(a, v) => IInsert k a v j) _ Hx
      (gok_op2 a v Hw1 Hw2 Hr1 Hr2))].
    + intros n. apply (bind_pair _ _ x (fun '(a, v) => IInsert k a v j)).
    + intros [a' v'] rg rh Ha [Hm1 Hm2]. simpl. apply sim_evals; [intros y; by apply Hm1|].
      intros y _. apply sim_evals; [intros z; by apply Hm2|]. intros z _. apply sim_lift.
  - apply (covered_ops _ [p]) in Hr. apply Forall_cons in Hr as [Hr _].
    apply (ins_sim_intro x _ _ ILoad (fun rh p' => matches rh p p')); [done| |].
    + eapply gok_post; [|by apply gok_op]. by intros rh o' [_ ?].
    + intros p' rg rh Ha Hm. simpl. apply sim_evals; [intros y; by apply Hm|].
      intros y _. apply sim_load.
  - apply andb_true_iff in Hw as [Hw1 Hw2]. apply (covered_ops _ [v; p]) in Hr.
    apply Forall_cons in Hr as [Hr1 [Hr2 _]%Forall_cons].
    eapply ins_sim_ext; [|apply (ins_sim_intro x _ _ (fun '(v, p) => IStore v p) _ Hx
      (gok_op2 v p Hw1 Hw2 Hr1 Hr2))].
    + intros n. apply (bind_pair _ _ x (fun '(v, p) => IStore v p)).
    + intros [a' v'] rg rh Ha [Hm1 Hm2]. simpl. apply sim_evals; [intros y; by apply Hm1|].
      intros y _. apply sim_evals; [intros z; by apply Hm2|]. intros z _. apply sim_store.
  - eapply ins_sim_ext; [|apply (ins_sim_intro x _ (mret tt) (fun _ => IAlloca) (fun _ _ => True) Hx)].
    + done.
    + by apply gok_ret.
    + intros _ rg rh _ _. apply alloca_same.
  - by destruct (Hcall callee args fty attrs).
Qed.

(** *** Calls *)

Lemma evals_length M r ops vs : evals M r ops = Ok vs -> length vs = length ops.
Proof.
  unfold evals. revert vs. induction ops as [|o ops IH]; intros vs; simpl; [by intros [= <-]|].
  intros Hv. inv_ok. simpl. f_equal. by apply IH.
Qed.

#[local] Abbreviation args_code dbg args := (mapM (new_operand extRefs refers Tmp dbg) args).

(** A call that keeps its arguments and needs no callee value. *)
Lemma direct_sim x callee args fty attrs dbg (mkc : list operand -> instr) :
  src_id x = true -> forallb (arg_op dbg) args = true -> Forall covered args ->
  (forall rg rh args', agree rg rh -> Forall2 (matches rh) args args' ->
     simulates (exec_ins G rg (ICallSite callee args fty attrs)) (exec_ins H rh (mkc args'))) ->
  ins_sim (x, ICallSite callee args fty attrs) (a ← args_code dbg args; place x (mkc a)).
Proof.
  intros Hx Ha Hc Hs.
  apply (ins_sim_intro x _ _ mkc (fun rh args' => Forall2 (matches rh) args args')); [done| |].
  - eapply gok_post; [|by apply gok_ops]. by intros rh args' [_ ?].
  - intros args' rg rh Hag Hm. by apply Hs.
Qed.

(** A call that is handed to the runtime. *)
Lemma callback_sim x callee args fty attrs h :
  src_id x = true -> forallb (arg_op false) args = true -> Forall covered args ->
  plain_op callee = true -> covered callee -> is_intrinsic callee = None ->
  site fty attrs -> call_site_hash fty attrs = Some h -> h ∈ cbStubs ->
  length args = length (ft_params fty) ->
  ins_sim (x, ICallSite callee args fty attrs)
    (a ← args_code false args; c ← new_operand extRefs refers Tmp false callee;
     place x (if TakeOut.mUseFCPcm cfg then HFcpCm h fty c a else HCallback h fty c a)).
Proof.
  intros Hx Ha Hc Hp Hcc Hi Hsite Hh Hcb Hlen.
  eapply ins_sim_ext; [intros n; apply (bind_pair _ _ x (fun '(a, c) =>
    if TakeOut.mUseFCPcm cfg then HFcpCm h fty c a else HCallback h fty c a))|].
  apply (ins_sim_intro x _ _ _ (fun rh ac => Forall2 (matches rh) args ac.1 /\ matches rh callee ac.2));
    [done| |].
  - eapply (gok_bind H extRefs Tmp); [by apply gok_ops|]. intros a _.
    eapply (gok_bind H extRefs Tmp); [by apply gok_op|]. intros c _.
    apply gok_ret. by intros rh _ [[_ [_ ?]] [_ ?]].
  - intros [args' callee'] rg rh Hag [Hm1 Hm2]. simpl in Hm1, Hm2.
    assert (simulates (exec_ins G rg (ICallSite callee args fty attrs))
      (vs ← lift (evals H rh args'); f ← lift (eval H rh callee');
       if TakeOut.mUseFCPcm cfg then m_fcp_cm H h fty f vs else m_callback H h fty f vs)) as Hs.
    { simpl. rewrite Hi. apply sim_evals; [intros vs; by apply matches_evals|].
      intros vs Hvs. apply sim_evals; [intros f; by apply Hm2|]. intros f _.
      apply (off_callback fty attrs h f vs Hsite Hh Hcb). by rewrite (evals_length _ _ _ _ Hvs). }
    by destruct (TakeOut.mUseFCPcm cfg).
Qed.

Lemma callback_facts callee args fty attrs :
  analyzed_ins (ICall callee args fty attrs) -> kept_callee bwl callee = false ->
  exists h, call_site_hash fty attrs = Some h /\ h ∈ cbStubs /\ ft_vararg fty = false.
Proof.
  intros (Hok & _ & Hcb & _) Hk. simpl in Hok, Hcb. rewrite Hk in *. simpl in Hok.
  destruct (call_site_hash fty attrs) as [h|] eqn:Hh; [|by rewrite !andb_false_r in Hok].
  exists h. split; [done|]. split; [apply Hcb; by left|].
  destruct (ft_vararg fty); [|done]. by rewrite !andb_false_r in Hok.
Qed.

(** What becomes of a call in a function the analysis accepted. *)
Lemma call_cases callee args fty attrs :
  callee_op callee = true -> analyzed_ins (ICall (erase_op callee) args fty attrs) ->
  (kept_callee bwl (erase_op callee) = false /\ is_intrinsic callee = None /\ covered callee /\
   TakeOut.do_call cfg bwl st (erase_op callee) = TakeOut.DoCallback) \/
  (exists a, callee = OGlobal (mk_gval a (KFunction true)) /\
   TakeOut.do_call cfg bwl st (erase_op callee) = TakeOut.MakeIntrinsic) \/
  (exists a, callee = OGlobal (mk_gval a (KFunction false)) /\
   TakeOut.do_call cfg bwl st (erase_op callee) = TakeOut.CallHostFunction /\
   TakeOut.mUseFCP cfg = true /\ a ∈ TakeOut.mFcpFuncMap cfg bwl st).
Proof.
  intros Hce (Hok & Hrefs & _ & Hwl & _).
  assert (kept_callee bwl (erase_op callee) = false -> covered callee) as Hcov.
  { intros Hk g Hg. apply Hrefs. simpl. rewrite Hk. apply elem_of_app. left.
    by destruct callee. }
  destruct callee as [[a [intr| |]]| | | |y| |]; try done;
    [|left; by (split; [|split; [|split; [apply Hcov|]]])..].
  simpl in *. unfold TakeOut.mWhiteCallees. destruct (mCallees bwl !! a) as [[]|] eqn:Hm.
  { by rewrite bool_decide_true in Hwl. }
  { done. }
  destruct intr; [right; left; by exists a|].
  destruct (TakeOut.mUseFCP cfg && bool_decide (a ∈ TakeOut.mFcpFuncMap cfg bwl st)) eqn:Hf.
  - right; right. exists a. apply andb_true_iff in Hf as [? ?%bool_decide_eq_true]. done.
  - left. split; [done|]. split; [done|]. split; [by apply Hcov|done].
Qed.

Lemma do_call_site_sim x callee args fty attrs :
  wf_ins is_dbg_value (x, ICallSite callee args fty attrs) = true ->
  analyzed_ins (erase_ins (ICallSite callee args fty attrs)) ->
  ins_sim (x, ICallSite callee args fty attrs) (do_ins (x, ICallSite callee args fty attrs)).
Proof.
  unfold wf_ins. simpl. intros Hw Han.
  rewrite !andb_true_iff in Hw. destruct Hw as (Hx & (Hce & Hargs) & Hlen).
  assert (Forall covered args) as Hcov.
  { apply covered_ops. intros g Hg. apply Han. simpl. apply elem_of_app. by right. }
  unfold do_call_site. unfold is_dbg in Hargs.
  destruct (call_cases _ _ _ _ Hce Han) as [(Hk & Hi & Hcc & ->)|[(a & -> & ->)|(a & -> & -> & Hf & Ha)]].
  - destruct (callback_facts _ _ _ _ Han Hk) as (h & Hh & Hin & Hv). rewrite Hi, Hh in *.
    rewrite Hv in Hlen. simpl in Hlen. apply Nat.eqb_eq in Hlen.
    eapply ins_sim_ext; [done|apply (callback_sim x callee args fty attrs h); try done].
    + by destruct callee.
    + apply Han.
  - apply (direct_sim x _ args fty attrs _ (fun a' => HIntrinsic a a' fty)); [done..|].
    intros rg rh args' Hag Hmm. simpl. apply sim_evals; [intros vs; by apply matches_evals|].
    intros vs _. apply simulates_result, off_intrinsic.
  - apply (direct_sim x _ args fty attrs _ (fun a' => HHost a a' fty)); [done..|].
    intros rg rh args' Hag Hmm. simpl. apply sim_evals; [intros vs; by apply matches_evals|].
    intros vs _. rewrite off_global. by apply simulates_result, off_host.
Qed.

Lemma do_instruction_sim e :
  wf_ins is_dbg_value e = true -> analyzed_ins (erase_ins e.2) -> ins_sim e (do_ins e).
Proof.
  intros Hw Ha. destruct e as [x i]. destruct i; try (by apply do_plain_sim).
  by apply do_call_site_sim.
Qed.

(** *** Blocks *)

Lemma keeps_trans r1 r2 r3 : keeps r1 r2 -> keeps r2 r3 -> keeps r1 r3.
Proof. intros K1 K2 x Hx Hs. by rewrite K2, K1. Qed.

Lemma keeps_loaded r r' : keeps r r' -> loaded extRefs r -> loaded extRefs r'.
Proof. intros K L g Hg. rewrite K by done. by apply L. Qed.

Lemma exec_cons M e l r s r' s' :
  exec_list M (e :: l) r s = Ok (r', s') ->
  exists r1 s1, exec_list M [e] r s = Ok (r1, s1) /\ exec_list M l r1 s1 = Ok (r', s').
Proof.
  destruct e as [x i]. simpl. unfold mbind, sem_bind.
  destruct (exec_ins M r i s) as [[v s1]| |]; [|done..]. eauto.
Qed.

Lemma do_inss_sim l n us E n' rg s rg' s' rh t :
  forallb (wf_ins is_dbg_value) l = true ->
  Forall (fun e => analyzed_ins (erase_ins e.2)) l ->
  mapM do_ins l n = Ok (us, E, n') -> exec_list G l rg s = Ok (rg', s') ->
  same s t -> agree rg rh -> loaded extRefs rh ->
  r_sp s <= r_sp s' /\
  exists rh' t', exec_list H E rh t = Ok (rh', t') /\ same s' t' /\ agree rg' rh' /\ keeps rh rh'.
Proof.
  revert n us E rg s rh t. induction l as [|e l IH]; intros n us E rg s rh t Hw Ha Hm Hx Hst Hag L.
  { injection Hm as <- <- <-. injection Hx as <- <-. split; [lia|]. by exists rh, t. }
  simpl in Hw, Hm. apply andb_true_iff in Hw as [Hw1 Hw2]. apply Forall_cons in Ha as [Ha1 Ha2].
  apply gen_bind_inv in Hm as (u & E1 & n1 & E2 & H1 & H2 & ->).
  apply gen_bind_inv in H2 as (us' & E3 & n2 & E4 & H3 & H4 & ->). injection H4 as <- <- <-.
  apply exec_cons in Hx as (rg1 & s1 & Hx1 & Hx2).
  destruct (do_instruction_sim e Hw1 Ha1 n u E1 n1 rg s rg1 s1 rh t H1 Hx1 Hst Hag L)
    as (Hle1 & rh1 & t1 & X1 & Hst1 & Hag1 & K1).
  destruct (IH n1 us' E3 rg1 s1 rh1 t1 Hw2 Ha2 H3 Hx2 Hst1 Hag1 (keeps_loaded _ _ K1 L))
    as (Hle2 & rh2 & t2 & X2 & Hst2 & Hag2 & K2).
  split; [lia|]. exists rh2, t2.
  rewrite (exec_list_app _ _ _ _ _ _ _ X1), app_nil_r. split; [done|]. split; [done|].
  split; [done|]. by eapply keeps_trans.
Qed.

Lemma do_term_sim tm :
  wf_term tm = true -> (forall g, g ∈ ins_grefs bwl (erase_term tm) -> g ∈ extRefs) ->
  gok (fun _ => True) (do_term extRefs refers tm)
    (fun rh tm' => forall rg z, agree rg rh -> exec_term G rg tm = Ok z -> exec_term H rh tm' = Ok z).
Proof.
  intros Hw Hr. destruct tm as [l|c l1 l2|c d cases|[v|]|]; simpl in *;
    try (apply gok_ret; by intros rh _ _ rg z _); apply (covered_ops _ [_]) in Hr;
    apply Forall_cons in Hr as [Hr _];
    (eapply (gok_bind H extRefs Tmp); [by apply gok_op|]); intros o _; apply gok_ret;
    intros rh _ [_ [_ Hm]] rg z Hag Hz; simpl in *; inv_ok; erewrite Hm by done; done.
Qed.

Lemma do_code_sim b n tm E n' rg s rg' s' z rh t :
  wf_block is_dbg_value b = true -> Forall analyzed_ins (erase_block b) ->
  (_ ← mapM do_ins (b_ins b); do_term extRefs refers (b_term b)) n = Ok (tm, E, n') ->
  exec_list G (b_ins b) rg s = Ok (rg', s') -> exec_term G rg' (b_term b) = Ok z ->
  same s t -> agree rg rh -> loaded extRefs rh ->
  r_sp s <= r_sp s' /\
  exists rh' t', exec_list H E rh t = Ok (rh', t') /\ exec_term H rh' tm = Ok z /\
    same s' t' /\ agree rg' rh' /\ keeps rh rh'.
Proof.
  unfold wf_block, erase_block. rewrite !andb_true_iff. intros [[_ Hw] Hwt] Ha
    (us & E1 & n1 & E2 & H1 & H2 & ->)%gen_bind_inv Hx Hz Hst Hag L.
  rewrite !Forall_app in Ha. destruct Ha as (_ & Ha & Hat).
  rewrite Forall_map in Ha. apply Forall_cons in Hat as [(_ & Hat & _) _].
  destruct (do_inss_sim _ _ _ _ _ _ _ _ _ _ _ Hw Ha H1 Hx Hst Hag L)
    as (Hle & rh1 & t1 & X1 & Hst1 & Hag1 & K1).
  pose proof (keeps_loaded _ _ K1 L) as L1.
  destruct (do_term_sim _ Hwt Hat n1 n1 tm E2 n' ltac:(lia) H2) as [_ Hx2].
  destruct (Hx2 rh1 t1 L1) as (rh2 & X2 & F & Kn); [done|].
  assert (agree rg' rh2) as Hag2 by (intros y v Hy; rewrite F; [by apply Hag1|done]).
  split; [done|]. exists rh2, t1. rewrite (exec_list_app _ _ _ _ _ _ _ X1).
  split; [done|]. split; [|split; [done|split; [done|]]].
  - eapply (Kn rh2); [|exact Hag2|exact Hz]. apply knows_refl.
    by eapply (frame_loaded extRefs Tmp).
  - eapply keeps_trans; [done|]. intros y Hy Hs. apply F. intros k _. apply Hy.
Qed.

(** *** Phi nodes *)

#[local] Abbreviation gokH := (TakeBodyOk.gok H extRefs Hoist).

Definition phi_ok (rh : regs) (p p' : phi) : Prop :=
  phi_id p = phi_id p' /\ src_id (phi_id p) = true /\
  Forall2 (fun e e' => e.1 = e'.1 /\ matches rh e.2 e'.2) (phi_incoming p) (phi_incoming p').

Lemma do_phi_ok p P :
  wf_phi p = true -> analyzed_ins (erase_phi p) ->
  gokH P (do_phi extRefs refers p) (fun rh p' => P rh /\ phi_ok rh p p').
Proof.
  unfold wf_phi. intros [Hs Hw]%andb_true_iff (_ & Hr & _).
  eapply (gok_bind H extRefs Hoist).
  - apply (gok_mapM H extRefs Hoist _ (fun rh e e' => e.1 = e'.1 /\ matches rh e.2 e'.2)).
    intros e P' He. eapply (gok_bind H extRefs Hoist).
    + apply (new_operand_arg H extRefs refers Hoist false G off_global off_expr).
      * apply plain_arg. rewrite forallb_forall in Hw. by apply Hw, list_elem_of_In.
      * simpl in Hr. rewrite <- (map_map snd erase_op) in Hr. apply covered_ops in Hr.
        rewrite Forall_forall in Hr. apply Hr. by apply list_elem_of_fmap_2.
    + intros o _. apply gok_ret. intros rh _ [_ [HP Hm]]. done.
  - intros inc _. apply gok_ret. intros rh _ [_ [HP Hf]]. done.
Qed.

Lemma find_incoming rh pred inc inc' o :
  Forall2 (fun e e' => e.1 = e'.1 /\ matches rh e.2 e'.2) inc inc' ->
  snd <$> List.find (fun e => e.1 =? pred) inc = Some o ->
  exists o', snd <$> List.find (fun e => e.1 =? pred) inc' = Some o' /\ matches rh o o'.
Proof.
  induction 1 as [|[l a] [l' a'] inc inc' [He Hm] _ IH]; simpl in *; [done|]. subst l'.
  destruct (l =? pred); [|done]. intros [= <-]. by exists a'.
Qed.

Lemma exec_phis_sim pred ps ps' rg0 rg rg' rh0 rh :
  Forall2 (phi_ok rh0) ps ps' -> agree rg0 rh0 -> agree rg rh ->
  exec_phis G pred ps rg0 rg = Ok rg' ->
  exists rh', exec_phis H pred ps' rh0 rh = Ok rh' /\ agree rg' rh' /\ keeps rh rh'.
Proof.
  intros Hf Hag0. revert rg rh. induction Hf as [|p p' ps ps' (Hid & Hs & Hin) _ IH];
    intros rg rh Hag; simpl; [intros [= <-]; by exists rh|].
  intros Hx. inv_ok.
  destruct (find_incoming _ _ _ _ _ Hin E) as (o' & Ho & Hm). rewrite Ho. simpl.
  rewrite (Hm rg0 _ Hag0 E0). simpl. rewrite <- Hid.
  destruct (IH (<[phi_id p := Some a0]> rg) (<[phi_id p := Some a0]> rh)) as (rh' & X & A & K); [|done|].
  { intros y w. unfold insert, fn_insert. destruct (decide _); [done|apply Hag]. }
  exists rh'. split; [done|]. split; [done|]. eapply keeps_trans; [|done].
  intros y _ Hy. unfold insert, fn_insert. rewrite decide_False; [done|congruence].
Qed.

(** *** Functions *)

Definition wf_blk (b : Z * block) : Prop :=
  wf_block is_dbg_value b.2 = true /\ Forall analyzed_ins (erase_block b.2).

(** The rewritten block, where the values of the entry block are known. *)
Definition blk_ok (rh : regs) (b b' : Z * block) : Prop :=
  b.1 = b'.1 /\ Forall2 (phi_ok rh) (b_phis b.2) (b_phis b'.2) /\ wf_blk b /\
  exists n n', (_ ← mapM do_ins (b_ins b.2); do_term extRefs refers (b_term b.2)) n
    = Ok (b_term b'.2, b_ins b'.2, n').

#[local] Abbreviation do_blks := (do_blocks cfg bwl st call_site_hash extRefs is_dbg_value refers).

Lemma do_phis_ok b :
  wf_blk b -> gokH (fun _ => True) (mapM (do_phi extRefs refers) (b_phis b.2))
    (fun rh ps' => Forall2 (phi_ok rh) (b_phis b.2) ps').
Proof.
  unfold wf_blk, wf_block, erase_block. rewrite !andb_true_iff, Forall_app.
  intros [[[Hw _] _] [Ha _]]. eapply gok_post; [|apply (gok_mapM H extRefs Hoist _ phi_ok)].
  - by intros rh ps' [_ ?].
  - intros p P Hp. apply do_phi_ok.
    + rewrite forallb_forall in Hw. by apply Hw, list_elem_of_In.
    + rewrite Forall_map, Forall_forall in Ha. by apply Ha.
Qed.

Lemma do_blocks_ok bs h t hoisted bs' :
  Forall wf_blk bs -> do_blks bs h t = Ok (hoisted, bs') ->
  exists h', (h <= h')%nat /\ forall r s, loaded extRefs r ->
    exists r', exec_list H hoisted r s = Ok (r', s) /\ frame Hoist h h' r r' /\
      forall rh, knows extRefs Hoist h h' r' rh -> Forall2 (blk_ok rh) bs bs'.
Proof.
  intros Hw. revert h t hoisted bs'.
  induction Hw as [|[l b] bs Hb _ IH]; intros h t hoisted bs' Hd; simpl in Hd.
  { injection Hd as <- <-. exists h. split; [done|]. intros r s L. exists r. split; [done|].
    split; [done|]. by intros. }
  apply bind_Ok_inv in Hd as ([[[e1 b'] h1] t1] & Hblk & Hd).
  apply bind_Ok_inv in Hd as ([e2 bs1] & Hrest & Hd). injection Hd as <- <-.
  unfold do_block in Hblk. apply bind_Ok_inv in Hblk as ([[ps e1'] h1'] & Hph & Hblk).
  apply bind_Ok_inv in Hblk as ([[tm ins] t1'] & Hcode & Hblk). injection Hblk as <- <- <- <-.
  destruct (do_phis_ok (l, b) Hb h h ps e1' h1' ltac:(lia) Hph) as [Hle1 Hx1].
  destruct (IH h1' t1' e2 bs1 Hrest) as (h2 & Hle2 & Hx2). exists h2. split; [lia|].
  intros r s L. destruct (Hx1 r s L) as (r1 & X1 & F1 & K1); [done|].
  assert (loaded extRefs r1) as L1 by (by eapply (frame_loaded extRefs Hoist)).
  destruct (Hx2 r1 s L1) as (r2 & X2 & F2 & K2). exists r2.
  split; [by rewrite (exec_list_app _ _ _ _ _ _ _ X1)|].
  split; [by eapply (frame_trans Hoist h h1' h2)|]. intros rh Kn.
  assert (knows extRefs Hoist h h1' r1 rh) as Kn1.
  { eapply (knows_frame extRefs Hoist h h1' h2); [lia|exact F2|exact Kn]. }
  constructor.
  - split; [done|]. split; [by apply K1|]. split; [done|]. by exists t, t1'.
  - apply K2. destruct Kn as [Lh Kn]. split; [done|]. intros k Hk. apply Kn. lia.
Qed.

Lemma block_at_ok rh l bs bs' b :
  Forall2 (blk_ok rh) bs bs' -> block_at l bs = Some b ->
  exists b', block_at l bs' = Some b' /\ blk_ok rh (l, b) (l, b').
Proof.
  unfold block_at. induction 1 as [|[l1 b1] [l2 b2] bs bs' Hb _ IH]; simpl; [done|].
  pose proof Hb as [He _]. simpl in He. subst l2.
  destruct (Z.eqb_spec l1 l) as [->|]; [|done]. intros [= <-]. by exists b2.
Qed.

(** The blocks run as before as long as the values of the entry block, known
    from [r1], are there. *)
Lemma run_sim h r1 bs bs' :
  (forall rh, knows extRefs Hoist 0 h r1 rh -> Forall2 (blk_ok rh) bs bs') ->
  forall fuel pred l rg rh, agree rg rh -> knows extRefs Hoist 0 h r1 rh ->
  simulates (run G fuel bs pred l rg) (run H fuel bs' pred l rh).
Proof.
  intros Hbs fuel. induction fuel as [|fuel IH]; intros pred l rg rh Hag Kn s t v s' Hst Hr; [done|].
  simpl in Hr. apply bind_lift in Hr as (b & Hb%of_option_Ok_inv & Hr).
  apply bind_lift in Hr as (rg1 & Hph & Hr).
  destruct (block_at_ok rh l bs bs' b (Hbs rh Kn) Hb) as (b' & Hb' & _ & Hps & [Hw Ha] & n & n' & Hc).
  simpl in Hps, Hc, Hw, Ha.
  destruct (exec_phis_sim _ _ _ _ _ _ _ _ Hps Hag Hag Hph) as (rh1 & Hph' & Hag1 & K1).
  unfold mbind in Hr at 1. unfold sem_bind in Hr at 1.
  destruct (exec_list G (b_ins b) rg1 s) as [[rg2 s2]| |] eqn:Hx; [|done..].
  apply bind_lift in Hr as (z & Hz & Hr).
  assert (forall r r', keeps r r' -> knows extRefs Hoist 0 h r1 r -> knows extRefs Hoist 0 h r1 r') as HK.
  { intros r r' Kp [L Kn']. split; [by eapply keeps_loaded|]. intros k Hk.
    rewrite Kp by done. by apply Kn'. }
  pose proof (HK _ _ K1 Kn) as Kn1.
  destruct (do_code_sim b n _ _ n' rg1 s rg2 s2 z rh1 t Hw Ha Hc Hx Hz Hst Hag1 (proj1 Kn1))
    as (Hle & rh2 & t2 & X2 & Hz' & Hst2 & Hag2 & K2).
  pose proof (HK _ _ K2 Kn1) as Kn2.
  assert (forall m, run H (S fuel) bs' pred l rh t = m <->
    (match z with inl l' => run H fuel bs' l l' rh2 | inr v => mret v end) t2 = m) as Hrun.
  { intros m. simpl. unfold mbind, sem_bind, lift. rewrite Hb'. simpl. rewrite Hph'. simpl.
    rewrite X2, Hz'. done. }
  destruct z as [l'|w].
  - destruct (IH l l' rg2 rh2 Hag2 Kn2 s2 t2 v s' Hst2 Hr) as (Hle2 & t' & Ht & Hst').
    split; [lia|]. exists t'. split; [by apply Hrun|done].
  - injection Hr as <- <-. split; [done|]. exists t2. split; [by apply Hrun|done].
Qed.

(** The rewritten function computes what the function did. *)
Lemma do_function_sim f hf fuel refs args :
  Forall wf_blk (f_blocks f) ->
  do_function cfg bwl st call_site_hash extRefs is_dbg_value refers f = Ok hf ->
  (forall g, g ∈ extRefs -> refs !! g = Some (RInt g)) ->
  simulates (run G fuel (f_blocks f) no_block (f_entry f) (arg_regs (f_params f) args))
            (run_host H fuel hf refs args).
Proof.
  intros Hw Hd Hrefs. unfold do_function in Hd.
  apply bind_Ok_inv in Hd as ([hoisted bs'] & Hd & [= <-]).
  destruct (do_blocks_ok _ _ _ _ _ Hw Hd) as (h & _ & Hx). intros s t v s' Hst Hr.
  set (r0 := ext_regs refs (arg_regs (f_params f) args)).
  destruct (Hx r0 t) as (r1 & X1 & F1 & K1); [intros g Hg; by apply Hrefs|].
  assert (loaded extRefs r1) as L1.
  { eapply (frame_loaded extRefs Hoist); [done|]. intros g Hg. by apply Hrefs. }
  destruct (run_sim h r1 _ _ K1 fuel no_block (f_entry f) (arg_regs (f_params f) args) r1)
    with s t v s' as (Hle & t' & Ht & Hst'); try done.
  { intros x w Hw'. rewrite F1; [|done]. exact Hw'. }
  split; [done|]. exists t'. split; [|done]. unfold run_host, mbind, sem_bind. simpl.
  fold r0. by rewrite X1.
Qed.

(** *** The rewriting does not fail *)

Definition gtotal {A} (m : gen A) : Prop := forall n, exists x E n', m n = Ok (x, E, n').

Lemma total_ret {A} (x : A) : gtotal (mret x).
Proof. intros n. by eexists _, _, _. Qed.

Lemma total_place x i : gtotal (place x i).
Proof. intros n. by eexists _, _, _. Qed.

Lemma total_emit mk i : gtotal (emit mk i).
Proof. intros n. by eexists _, _, _. Qed.

Lemma total_bind {A B} (m : gen A) (f : A -> gen B) :
  gtotal m -> (forall x, gtotal (f x)) -> gtotal (m ≫= f).
Proof.
  intros Hm Hf n. destruct (Hm n) as (x & E & n1 & H1). destruct (Hf x n1) as (y & E2 & n2 & H2).
  eexists _, _, _. unfold mbind, gen_bind. by rewrite H1, H2.
Qed.

Lemma total_fmap {A B} (m : gen A) (f : A -> B) : gtotal m -> gtotal (f <$> m).
Proof.
  intros Hm n. destruct (Hm n) as (x & E & n1 & H1). eexists _, _, _.
  unfold fmap, gen_fmap. by rewrite H1.
Qed.

Lemma total_mapM {A B} (f : A -> gen B) l : (forall x, x ∈ l -> gtotal (f x)) -> gtotal (mapM f l).
Proof.
  induction l as [|a l IH]; intros Hf; simpl; [apply total_ret|].
  apply total_bind; [apply Hf; by left|]. intros b. apply total_bind; [|intros; apply total_ret].
  apply IH. intros x Hx. apply Hf. by right.
Qed.

(** Takes a generator apart, down to the parts that are not elementary. *)
Ltac gtot :=
  repeat match goal with
  | |- gtotal (mret _) => apply total_ret
  | |- gtotal (place _ _) => apply total_place
  | |- gtotal (emit _ _) => apply total_emit
  | |- gtotal (_ ≫= _) => apply total_bind; [|intros ?]
  | |- gtotal (let '(_, _) := ?x in _) => destruct x
  | |- gtotal (if ?b then _ else _) => destruct b
  end.

Lemma total_insert_ops mk k ops i val : gtotal (insert_ops mk k i val ops).
Proof. revert i val. induction ops; intros i val; simpl; gtot; auto. Qed.

Lemma total_ops mk dbg ops :
  Forall (fun o => plain_op o = true -> dbg = true \/ covered o ->
    gtotal (do_operand extRefs refers mk dbg o)) ops ->
  forallb const_op ops = true ->
  dbg = true \/ (forall g, g ∈ concat (map op_grefs (map erase_op ops)) -> g ∈ extRefs) ->
  gtotal (mapM (do_operand extRefs refers mk dbg) ops).
Proof.
  intros IH Hp Hd. apply total_mapM. intros o Ho. rewrite Forall_forall in IH.
  rewrite forallb_forall in Hp. apply list_elem_of_In in Ho as Ho'.
  specialize (Hp o Ho'). apply IH; [done|by destruct o|].
  destruct Hd as [|Hd]; [by left|right]. apply covered_ops in Hd.
  rewrite Forall_forall in Hd. by apply Hd.
Qed.

Lemma total_plain mk dbg o :
  plain_op o = true -> dbg = true \/ covered o -> gtotal (do_operand extRefs refers mk dbg o).
Proof.
  induction o as [g|c|k ops IH|c ops IH|x| |v IH|l IH|n] using operand_induct;
    intros Hp Hd; try done; cbn [do_operand]; try apply total_ret.
  - case_bool_decide as Hg; [apply total_ret|]. destruct dbg; [apply total_ret|].
    destruct Hd as [|Hd]; [done|]. destruct Hg. apply Hd. by left.
  - gtot; [|apply total_insert_ops]. by apply total_ops.
  - gtot. by apply total_ops.
Qed.

Lemma total_meta mk dbg v :
  meta_val dbg v = true -> gtotal (do_operand extRefs refers mk dbg v).
Proof.
  unfold meta_val. intros [Hp Hd]%andb_true_iff. apply total_plain; [done|].
  destruct dbg; [by left|right]. apply bool_decide_eq_true in Hd. intros g. rewrite Hd.
  by intros ?%elem_of_nil.
Qed.

Lemma total_arg mk dbg o :
  arg_op dbg o = true -> covered o -> gtotal (new_operand extRefs refers mk dbg o).
Proof.
  intros Ha Hc. apply total_fmap.
  destruct o as [| | | | | |[v|l|n]]; try (apply total_plain; [done|by right]);
    cbn [do_operand do_metadata]; simpl in Ha; gtot.
  - by apply total_meta.
  - apply total_mapM. intros v Hv. gtot.
    apply total_meta. rewrite forallb_forall in Ha. by apply Ha, list_elem_of_In.
Qed.

Lemma total_op mk o :
  plain_op o = true -> covered o -> gtotal (new_operand extRefs refers mk false o).
Proof. intros. apply total_arg; [by apply plain_arg|done]. Qed.

Lemma total_args mk dbg ops :
  forallb (arg_op dbg) ops = true -> Forall covered ops ->
  gtotal (mapM (new_operand extRefs refers mk dbg) ops).
Proof.
  intros Ha Hc. apply total_mapM. intros o Ho. rewrite forallb_forall in Ha.
  rewrite Forall_forall in Hc. apply total_arg; [by apply Ha, list_elem_of_In|by apply Hc].
Qed.

Lemma total_instruction e :
  wf_ins is_dbg_value e = true -> analyzed_ins (erase_ins e.2) -> gtotal (do_ins e).
Proof.
  destruct e as [x i]. unfold wf_ins. intros [_ Hw]%andb_true_iff Han.
  pose proof Han as (_ & Hr & _). simpl in Hw, Hr.
  destruct i as [c ops|k a v j|p|v p| |callee args fty attrs| | | | | | |]; try done; simpl in *; gtot.
  - apply covered_ops in Hr. apply total_args; [|done].
    rewrite forallb_forall in *. intros o Ho. by apply plain_arg, Hw.
  - apply andb_true_iff in Hw as [Hw1 Hw2]. apply (covered_ops _ [a; v]) in Hr.
    apply Forall_cons in Hr as [Hr1 _]. by apply total_op.
  - apply andb_true_iff in Hw as [Hw1 Hw2]. apply (covered_ops _ [a; v]) in Hr.
    apply Forall_cons in Hr as [_ [Hr2 _]%Forall_cons]. by apply total_op.
  - apply (covered_ops _ [p]) in Hr. apply Forall_cons in Hr as [Hr _]. by apply total_op.
  - apply andb_true_iff in Hw as [Hw1 Hw2]. apply (covered_ops _ [v; p]) in Hr.
    apply Forall_cons in Hr as [Hr1 _]. by apply total_op.
  - apply andb_true_iff in Hw as [Hw1 Hw2]. apply (covered_ops _ [v; p]) in Hr.
    apply Forall_cons in Hr as [_ [Hr2 _]%Forall_cons]. by apply total_op.
  - rewrite !andb_true_iff in Hw. destruct Hw as [[Hce Hargs] _].
    unfold do_call_site. gtot.
    { apply total_args; [done|]. apply covered_ops. intros g Hg. apply Hr, elem_of_app. by right. }
    destruct (call_cases _ _ _ _ Hce Han) as [(Hk & Hi & Hcov & ->)|[(b & -> & ->)|(b & -> & -> & _)]];
      try apply total_place.
    destruct (callback_facts _ _ _ _ Han Hk) as (h & -> & _).
    gtot. rewrite Hi. apply total_op; [by destruct callee|done].
Qed.

Lemma total_term tm :
  wf_term tm = true -> (forall g, g ∈ ins_grefs bwl (erase_term tm) -> g ∈ extRefs) ->
  gtotal (do_term extRefs refers tm).
Proof.
  intros Hw Hr. destruct tm as [l|c l1 l2|c d cases|[v|]|]; simpl in *; gtot;
    apply (covered_ops _ [_]) in Hr; apply Forall_cons in Hr as [Hr _]; by apply total_op.
Qed.

Lemma total_phi p : wf_phi p = true -> analyzed_ins (erase_phi p) -> gtotal (do_phi extRefs refers p).
Proof.
  unfold wf_phi. intros [_ Hw]%andb_true_iff (_ & Hr & _). unfold do_phi. gtot.
  apply total_mapM. intros e He. gtot. apply total_op.
  - rewrite forallb_forall in Hw. by apply Hw, list_elem_of_In.
  - simpl in Hr. rewrite <- (map_map snd erase_op) in Hr. apply covered_ops in Hr.
    rewrite Forall_forall in Hr. apply Hr. by apply list_elem_of_fmap_2.
Qed.

Lemma total_blocks bs h t : Forall wf_blk bs -> exists r, do_blks bs h t = Ok r.
Proof.
  intros Hw. revert h t. induction Hw as [|[l b] bs [Hb Ha] _ IH]; intros h t; [by eexists|].
  unfold wf_block, erase_block in *. simpl in Hb, Ha. rewrite !andb_true_iff in Hb.
  destruct Hb as [[Hb1 Hb2] Hb3]. rewrite !Forall_app, !Forall_map, !Forall_forall in Ha.
  destruct Ha as (Ha1 & Ha2 & Ha3). rewrite forallb_forall in Hb1, Hb2. simpl. unfold do_block.
  destruct (total_mapM (do_phi extRefs refers) (b_phis b)) with h as (ps & e1 & h1 & ->).
  { intros p Hp. apply total_phi; [by apply Hb1, list_elem_of_In|by apply Ha1]. }
  simpl. assert (gtotal (_ ← mapM do_ins (b_ins b); do_term extRefs refers (b_term b))) as Ht.
  { apply total_bind.
    - apply total_mapM. intros e He. apply total_instruction; [by apply Hb2, list_elem_of_In|by apply Ha2].
    - intros _. apply total_term; [done|]. by apply (Ha3 (erase_term (b_term b))); left. }
  destruct (Ht t) as (tm & e2 & t1 & ->). simpl. destruct (IH h1 t1) as [[e3 bs'] ->]. by eexists.
Qed.

(** *** Functions the analysis accepted *)

Context (function_hash : func -> option Z).

(** No call of a callee on the white list, which [TakeOut] does not keep. *)
Definition no_white (g : func) : bool :=
  forallb (fun i => match i with
                    | ICall callee _ _ _ => negb (TakeOut.white_listed bwl callee)
                    | _ => true
                    end) (fn_ins g).

Lemma elem_of_needed {A} (need : A -> list Z) (l : list A) i x :
  i ∈ l -> x ∈ need i -> x ∈ nub (concat (map need l)).
Proof.
  intros Hi Hx. unfold nub. rewrite elem_of_nub_onto. right. apply list_elem_of_In, in_concat.
  exists (need i). split; [apply in_map; by apply list_elem_of_In|by apply list_elem_of_In].
Qed.

Lemma accepted_blocks f addr fty attrs :
  let g := erase addr fty attrs f in
  wf_body is_dbg_value f = true -> accepted function_hash call_site_hash bwl g ->
  (forall x, x ∈ needed_grefs bwl g -> x ∈ extRefs) ->
  (forall h, h ∈ needed_callbacks call_site_hash bwl g -> h ∈ cbStubs) ->
  no_white g = true ->
  (forall callee args t a, ICall callee args t a ∈ fn_ins g -> site t a) ->
  Forall wf_blk (f_blocks f).
Proof.
  intros g Hw Hacc Hr Hc Hn Hsite. apply Forall_forall. intros b Hb.
  unfold wf_body in Hw. rewrite forallb_forall in Hw.
  split; [by apply Hw, list_elem_of_In|]. apply Forall_forall. intros i Hi.
  assert (i ∈ fn_ins g) as Hg.
  { unfold fn_ins. apply list_elem_of_In, in_concat. exists (erase_block b.2).
    split; [|by apply list_elem_of_In]. simpl. apply (in_map (fun b => erase_block b.2)).
    by apply list_elem_of_In. }
  split; [by eapply TakeOut.accepted_ins_ok|].
  split; [intros x Hx; by apply Hr, (elem_of_needed _ _ i)|].
  split; [intros x Hx; by apply Hc, (elem_of_needed _ _ i)|].
  unfold no_white in Hn. rewrite forallb_forall in Hn. apply list_elem_of_In in Hg as Hg'.
  specialize (Hn i Hg'). destruct i; try done. split; [by apply negb_true_iff|by eapply Hsite].
Qed.

Lemma accepted_function f addr fty attrs :
  let g := erase addr fty attrs f in
  wf_body is_dbg_value f = true -> accepted function_hash call_site_hash bwl g ->
  (forall x, x ∈ needed_grefs bwl g -> x ∈ extRefs) ->
  (forall h, h ∈ needed_callbacks call_site_hash bwl g -> h ∈ cbStubs) ->
  no_white g = true ->
  (forall callee args t a, ICall callee args t a ∈ fn_ins g -> site t a) ->
  exists hf, do_function cfg bwl st call_site_hash extRefs is_dbg_value refers f = Ok hf /\
    forall fuel refs args, (forall x, x ∈ extRefs -> refs !! x = Some (RInt x)) ->
      simulates (run G fuel (f_blocks f) no_block (f_entry f) (arg_regs (f_params f) args))
                (run_host H fuel hf refs args).
Proof.
  intros g Hw Hacc Hr Hc Hn Hsite.
  pose proof (accepted_blocks f addr fty attrs Hw Hacc Hr Hc Hn Hsite) as Hbs.
  destruct (total_blocks (f_blocks f) 0 0 Hbs) as [[hoisted bs] Hd].
  assert (do_function cfg bwl st call_site_hash extRefs is_dbg_value refers f
          = Ok (hoisted, mk_body (f_params f) (f_entry f) bs)) as Hf
    by (unfold do_function; by rewrite Hd).
  eexists. split; [done|]. intros fuel refs args Hx. by apply do_function_sim.
Qed.


End sim.

(** ** Example

    A function that uses a global variable in a constant expression and in a
    phi node, and calls an external function. *)
Module ToyBody.
Import ToyModule.

Definition var : operand := OGlobal (mk_gval 0x700 KVariable).
Definition gep : operand := OExpr 34 [var; OConst (RInt 8)].
Definition ext_fn : operand := OGlobal (mk_gval 0x500 (KFunction false)).

Definition f : body := mk_body [0] 1
  [ (1, mk_block []
      [ (Src 1, IOp 13 [OLocal (Src 0); gep]);
        (Src 2, ICallSite ext_fn [OLocal (Src 1)] sig []);
        (Src 3, IStore (OLocal (Src 2)) var) ]
      (TBr 2));
    (2, mk_block [mk_phi (Src 4) [(1, gep)]]
      [ (Src 5, ILoad var);
        (Src 6, IOp 13 [OLocal (Src 4); OLocal (Src 5)]) ]
      (TRet (Some (OLocal (Src 6))))) ].

(** The operations above are additions, and the external function doubles. *)
Definition add (c : Z) (vs : list rv) : rv :=
  match vs with [RInt x; RInt y] => RInt (x + y) | _ => RUndef end.
Definition double (g : rv) (args : list rv) : sem rv :=
  match args with [RInt x] => mret (RInt (2 * x)) | _ => mret RUndef end.
Definition none {A} : A -> list rv -> sem rv := fun _ _ => lift (Fault "none").
Definition none4 (h : Z) (fty : functype) (g : rv) (args : list rv) : sem rv := lift (Fault "none").

Definition G : machine :=
  mk_machine add (fun g => Ok (RInt (g_addr g))) none double none none none4 none4.
Definition H : machine :=
  mk_machine add (fun _ => Fault "symbol") none none none none
    (fun _ fty g args => result_of_call fty (double g args)) none4.

Definition cfg : TakeOut.Config := TakeOut.mk_Config false false false false.
Definition st : Symtbl := mk_Symtbl 0 ∅ ∅ ∅ ∅.
Definition refs : list Z := [0x700; 0x500].
Definition cbs : list Z := option_list (chash sig []).
Definition refmap : gmap Z rv := {[ 0x700 := RInt 0x700; 0x500 := RInt 0x500 ]}.

Lemma sim_double g args : simulates (double g args) (double g args).
Proof. destruct args as [|[x| |] [|]]; apply sim_ret. Qed.

#[local] Instance toy_offloads : Offloads cfg bw st chash cbs G H (fun _ _ => True).
Proof.
  split; [done..| | |]; intros.
  - intros s t v s' _ Hs. discriminate Hs.
  - done.
  - apply simulates_result, sim_double.
Qed.

Definition s0 : rstate := mk_rstate {[ 0x700 := RInt 0 ]} 0x10000.


End ToyBody.
