(* ===== verification/HostClosed.v ===== *)
(** * The rewritten body refers only to what the host has

    A host function lives in another module than the guest function it was
    made from: it must not mention the guest's global values. This file types
    the bodies [TakeBody] produces: no instruction, phi node or terminator has
    a global value among its operands, the references it uses are ones the
    function loads, and no guest call is left. *)

From S2P Require Import Prelude LlvmIR Symtbl Analyze StubCode TakeOut Body TakeBody TakeBodyOk.
#[local] Open Scope string_scope.
#[local] Open Scope Z_scope.

Section closed.
Context (extRefs : list Z).

(** Debug information is not code: what it mentions is not linked. *)
Fixpoint host_op (o : operand) : bool :=
  match o with
  | OGlobal _ | OAsm => false
  | OConst _ | OMetadata _ => true
  | OAggregate _ ops | OExpr _ ops => forallb host_op ops
  | OLocal (Ext g) => bool_decide (g ∈ extRefs)
  | OLocal _ => true
  end.

Definition host_ins (e : id * instr) : bool :=
  match e.2 with
  | IOp _ ops => forallb host_op ops
  | IInsert _ a v _ => host_op a && host_op v
  | ILoad p => host_op p
  | IStore v p => host_op v && host_op p
  | IAlloca => true
  | ICallSite _ _ _ _ => false
  | HWhite _ args _ | HIntrinsic _ args _ | HHost _ args _ => forallb host_op args
  | HCallback _ _ callee args | HFcpCm _ _ callee args => host_op callee && forallb host_op args
  | IIndirect _ | IException _ _ => false
  end.

Definition host_term (t : term) : bool :=
  match t with
  | TCondBr c _ _ | TSwitch c _ _ | TRet (Some c) => host_op c
  | _ => true
  end.

Definition host_phi (p : phi) : bool := forallb (fun e => host_op e.2) (phi_incoming p).

Definition host_block (b : Z * block) : bool :=
  forallb host_phi (b_phis b.2) && forallb host_ins (b_ins b.2) && host_term (b_term b.2).

(** ** Generated code *)

(** All that [m] generates is typed, and its result is as [Q] says. *)
Definition gtyped {A} (m : gen A) (Q : A -> Prop) : Prop :=
  forall n x E n', m n = Ok (x, E, n') -> forallb host_ins E = true /\ Q x.

Lemma gtyped_ret {A} (x : A) (Q : A -> Prop) : Q x -> gtyped (mret x) Q.
Proof. by intros HQ n y E n' [= <- <- <-]. Qed.

Lemma gtyped_post {A} (m : gen A) (Q Q' : A -> Prop) :
  gtyped m Q -> (forall x, Q x -> Q' x) -> gtyped m Q'.
Proof. intros Hm HQ n x E n' Hr. destruct (Hm _ _ _ _ Hr). auto. Qed.

Lemma gtyped_bind {A B} (m : gen A) (f : A -> gen B) Q Q' :
  gtyped m Q -> (forall x, Q x -> gtyped (f x) Q') -> gtyped (m ≫= f) Q'.
Proof.
  intros Hm Hf n y E n2 (x & l1 & n1 & l2 & E1 & E2 & ->)%gen_bind_inv.
  destruct (Hm _ _ _ _ E1) as [H1 HQ]. destruct (Hf x HQ _ _ _ _ E2) as [H2 HQ'].
  split; [|done]. by rewrite forallb_app, H1, H2.
Qed.

Lemma gtyped_fmap {A B} (m : gen A) (f : A -> B) (Q : B -> Prop) :
  gtyped m (fun x => Q (f x)) -> gtyped (f <$> m) Q.
Proof.
  intros Hm n y E n' Hr. unfold fmap, gen_fmap in Hr.
  destruct (m n) as [[[x l] n1]| |] eqn:E1; [|done..]. injection Hr as <- <- <-. by eapply Hm.
Qed.

Lemma gtyped_mapM {A B} (f : A -> gen B) (Q : A -> B -> Prop) l :
  (forall a, a ∈ l -> gtyped (f a) (Q a)) -> gtyped (mapM f l) (Forall2 Q l).
Proof.
  induction l as [|a l IH]; intros Hf; simpl; [by apply gtyped_ret|].
  eapply gtyped_bind; [apply Hf; by left|]. intros b Hb.
  eapply gtyped_bind; [apply IH; intros; apply Hf; by right|]. intros bs Hbs.
  apply gtyped_ret. by constructor.
Qed.

Lemma gtyped_emit mk i : host_ins (mk 0%nat, i) = true ->
  (forall n, host_op (OLocal (mk n)) = true) -> gtyped (emit mk i) (fun o => host_op o = true).
Proof.
  intros Hi Hmk n o E n' [= <- <- <-]. split; [|apply Hmk].
  change (host_ins (mk 0%nat, i) && true = true). by rewrite andb_true_r.
Qed.

Lemma gtyped_place x i : host_ins (x, i) = true -> gtyped (place x i) (fun _ => True).
Proof. intros Hi n o E n' [= <- <- <-]. cbn [forallb]. by rewrite andb_true_r. Qed.

Lemma Forall2_host (l : list operand) l' :
  Forall2 (fun _ o' => host_op o' = true) l l' -> forallb host_op l' = true.
Proof. induction 1 as [|o o' l l' Ho _ IH]; simpl; [done|]. by rewrite Ho. Qed.

(** ** Operands *)

Section operand.
Context (refers : Z -> bool) (mk : nat -> id) (dbg : bool).
Context (Hmk : forall n, host_op (OLocal (mk n)) = true).

#[local] Abbreviation do_op := (do_operand extRefs refers mk dbg).

Lemma insert_ops_typed k ops i val :
  host_op val = true -> forallb host_op ops = true ->
  gtyped (insert_ops mk k i val ops) (fun o => host_op o = true).
Proof.
  revert i val. induction ops as [|o ops IH]; intros i val Hv Ho; simpl; [by apply gtyped_ret|].
  simpl in Ho. apply andb_true_iff in Ho as [Ho1 Ho2].
  eapply gtyped_bind; [apply gtyped_emit; [cbn; by rewrite Hv, Ho1|done]|]. intros v Hv'. by apply IH.
Qed.

(** A rewritten operand is typed, and is the operand if it did not change. *)
Definition op_typed (o : operand) (x : bool * operand) : Prop :=
  host_op x.2 = true /\ (x.1 = false -> x.2 = o).

Lemma news_typed ops news :
  Forall2 op_typed ops news ->
  forallb host_op (map snd news) = true /\ (existsb fst news = false -> map snd news = ops).
Proof.
  induction 1 as [|o [c o'] ops news [Ho Hc] _ [IH1 IH2]]; simpl in *; [done|]. rewrite Ho, IH1.
  split; [done|]. intros [-> Hn]%orb_false_iff. f_equal; [by apply Hc|by apply IH2].
Qed.

Lemma do_ops_typed ops :
  Forall (fun o => const_op o = true -> dbg = true \/ covered extRefs o ->
    gtyped (do_op o) (op_typed o)) ops ->
  forallb const_op ops = true ->
  dbg = true \/ (forall g, g ∈ concat (map op_grefs (map erase_op ops)) -> g ∈ extRefs) ->
  gtyped (mapM do_op ops) (Forall2 op_typed ops).
Proof.
  intros IH Hc Hd. apply gtyped_mapM. intros o Ho. rewrite Forall_forall in IH.
  rewrite forallb_forall in Hc. apply IH; [done|by apply Hc, list_elem_of_In|].
  destruct Hd as [|Hd]; [by left|right]. apply covered_ops in Hd. rewrite Forall_forall in Hd.
  by apply Hd.
Qed.

Lemma do_const_typed o :
  const_op o = true -> dbg = true \/ covered extRefs o -> gtyped (do_op o) (op_typed o).
Proof.
  induction o as [g|c|k ops IH|c ops IH|x| |v IH|l IH|n] using operand_induct;
    intros Hc Hd; try done; cbn [do_operand].
  - case_bool_decide as Hg; [apply gtyped_ret; split; [by apply bool_decide_eq_true|done]|].
    destruct Hd as [->|Hd]; [by apply gtyped_ret|]. destruct Hg. apply Hd. by left.
  - by apply gtyped_ret.
  - eapply gtyped_bind; [by apply do_ops_typed|]. intros news [Ht Hu]%news_typed.
    destruct (existsb fst news).
    + eapply gtyped_bind; [by apply insert_ops_typed|]. intros val Hv. by apply gtyped_ret.
    + apply gtyped_ret. split; [|done]. rewrite Hu in Ht by done. exact Ht.
  - eapply gtyped_bind; [by apply do_ops_typed|]. intros news [Ht Hu]%news_typed.
    destruct (existsb fst news).
    + eapply gtyped_bind; [by apply gtyped_emit|]. intros val Hv. by apply gtyped_ret.
    + apply gtyped_ret. split; [|done]. rewrite Hu in Ht by done. exact Ht.
Qed.

Lemma do_plain_typed o :
  plain_op o = true -> dbg = true \/ covered extRefs o -> gtyped (do_op o) (op_typed o).
Proof.
  intros Hp Hd. destruct (const_op o) eqn:Hk; [by apply do_const_typed|].
  destruct o as [| | | |x| |]; try done; [simpl in *; congruence..|].
  apply gtyped_ret. by destruct x.
Qed.

Lemma do_meta_typed v : meta_val dbg v = true -> gtyped (do_op v) (op_typed v).
Proof.
  unfold meta_val. intros [Hp Hd]%andb_true_iff. apply do_plain_typed; [done|].
  destruct dbg; [by left|right]. apply bool_decide_eq_true in Hd. intros g. rewrite Hd.
  by intros ?%elem_of_nil.
Qed.

Lemma new_operand_typed o :
  arg_op dbg o = true -> covered extRefs o ->
  gtyped (new_operand extRefs refers mk dbg o) (fun o' => host_op o' = true).
Proof.
  intros Ha Hc. apply gtyped_fmap.
  destruct o as [| | | | | |[v|l|n]];
    try (eapply gtyped_post; [apply do_plain_typed; [exact Ha|by right]|by intros ? []]; fail);
    cbn [do_operand do_metadata]; simpl in Ha.
  - eapply (gtyped_bind _ _ (fun _ => True)); [|intros [c md] _; apply gtyped_ret; by destruct c].
    eapply gtyped_bind; [by apply do_meta_typed|]. intros [c o'] _. by apply gtyped_ret.
  - eapply (gtyped_bind _ _ (fun _ => True)); [|intros [c md] _; apply gtyped_ret; by destruct c].
    eapply gtyped_bind; [|intros news _; by apply gtyped_ret].
    apply (gtyped_mapM _ (fun _ _ => True)). intros v Hv. eapply gtyped_bind.
    + apply do_meta_typed. rewrite forallb_forall in Ha. by apply Ha, list_elem_of_In.
    + intros [c o'] _. by apply gtyped_ret.
  - by apply gtyped_ret.
Qed.

Lemma new_operands_typed ops :
  forallb (arg_op dbg) ops = true -> Forall (covered extRefs) ops ->
  gtyped (mapM (new_operand extRefs refers mk dbg) ops) (fun l => forallb host_op l = true).
Proof.
  intros Ha Hc n x E n' Hx.
  destruct (gtyped_mapM (new_operand extRefs refers mk dbg) (fun _ o' => host_op o' = true) ops)
    with n x E n' as [H1 H2]; [|done|split; [done|by eapply Forall2_host]].
  intros o Ho. rewrite forallb_forall in Ha. rewrite Forall_forall in Hc.
  apply new_operand_typed; [by apply Ha, list_elem_of_In|by apply Hc].
Qed.

End operand.

(** ** Instructions and blocks *)

Section code.
Context (cfg : TakeOut.Config) (bwl : BwList) (st : Symtbl).
Context (call_site_hash : functype -> attrlist -> option Z) (cbStubs : list Z).
Context (is_dbg_value refers : Z -> bool) (site : functype -> attrlist -> Prop).

#[local] Abbreviation analyzed := (analyzed_ins bwl call_site_hash extRefs cbStubs site).
#[local] Abbreviation do_ins := (do_instruction cfg bwl st call_site_hash extRefs is_dbg_value refers).

Lemma op_typed_tmp o :
  plain_op o = true -> covered extRefs o ->
  gtyped (new_operand extRefs refers Tmp false o) (fun o' => host_op o' = true).
Proof. intros. apply new_operand_typed; [done|by apply plain_arg|done]. Qed.

Lemma do_instruction_typed e :
  wf_ins is_dbg_value e = true -> analyzed (erase_ins e.2) -> gtyped (do_ins e) (fun _ => True).
Proof.
  destruct e as [x i]. unfold wf_ins. intros [_ Hw]%andb_true_iff Han.
  pose proof Han as (_ & Hr & _). simpl in Hw, Hr.
  destruct i as [c ops|k a v j|p|v p| |callee args fty attrs| | | | | | |]; try done; simpl in *.
  - apply covered_ops in Hr. eapply gtyped_bind; [apply new_operands_typed; [done| |done]|].
    { rewrite forallb_forall in *. intros o Ho. by apply plain_arg, Hw. }
    intros ops' Ho. by apply gtyped_place.
  - apply andb_true_iff in Hw as [Hw1 Hw2]. apply (covered_ops _ [a; v]) in Hr.
    apply Forall_cons in Hr as [Hr1 [Hr2 _]%Forall_cons].
    eapply gtyped_bind; [by apply op_typed_tmp|]. intros a' Ha.
    eapply gtyped_bind; [by apply op_typed_tmp|]. intros v' Hv.
    apply gtyped_place. cbn. by rewrite Ha, Hv.
  - apply (covered_ops _ [p]) in Hr. apply Forall_cons in Hr as [Hr _].
    eapply gtyped_bind; [by apply op_typed_tmp|]. intros p' Hp. by apply gtyped_place.
  - apply andb_true_iff in Hw as [Hw1 Hw2]. apply (covered_ops _ [v; p]) in Hr.
    apply Forall_cons in Hr as [Hr1 [Hr2 _]%Forall_cons].
    eapply gtyped_bind; [by apply op_typed_tmp|]. intros a' Ha.
    eapply gtyped_bind; [by apply op_typed_tmp|]. intros v' Hv.
    apply gtyped_place. cbn. by rewrite Ha, Hv.
  - by apply gtyped_place.
  - rewrite !andb_true_iff in Hw. destruct Hw as [[Hce Hargs] _]. unfold do_call_site.
    eapply gtyped_bind.
    { apply new_operands_typed; [done|exact Hargs|]. apply covered_ops. intros g Hg.
      apply Hr, elem_of_app. by right. }
    intros args' Ha.
    destruct (call_cases cfg bwl st call_site_hash extRefs cbStubs site _ _ _ _ Hce Han)
      as [(Hk & Hi & Hcov & ->)|[(b & -> & ->)|(b & -> & -> & _)]]; [|by apply gtyped_place..].
    destruct (callback_facts bwl call_site_hash extRefs cbStubs site _ _ _ _ Han Hk) as (h & -> & _).
    rewrite Hi. eapply gtyped_bind; [apply op_typed_tmp; [by destruct callee|done]|].
    intros c Hc. apply gtyped_place. destruct (TakeOut.mUseFCPcm cfg); cbn; by rewrite Hc, Ha.
Qed.

Lemma do_term_typed tm :
  wf_term tm = true -> (forall g, g ∈ ins_grefs bwl (erase_term tm) -> g ∈ extRefs) ->
  gtyped (do_term extRefs refers tm) (fun tm' => host_term tm' = true).
Proof.
  intros Hw Hr. destruct tm as [l|c l1 l2|c d cases|[v|]|]; simpl in *; try (by apply gtyped_ret);
    apply (covered_ops _ [_]) in Hr; apply Forall_cons in Hr as [Hr _];
    (eapply gtyped_bind; [by apply op_typed_tmp|]); intros o Ho; by apply gtyped_ret.
Qed.

Lemma do_phi_typed p :
  wf_phi p = true -> analyzed (erase_phi p) ->
  gtyped (do_phi extRefs refers p) (fun p' => host_phi p' = true).
Proof.
  unfold wf_phi. intros [_ Hw]%andb_true_iff (_ & Hr & _).
  eapply gtyped_bind; [apply (gtyped_mapM _ (fun _ e' => host_op e'.2 = true))|].
  - intros e He. eapply gtyped_bind.
    + apply new_operand_typed; [done| |].
      * apply plain_arg. rewrite forallb_forall in Hw. by apply Hw, list_elem_of_In.
      * simpl in Hr. rewrite <- (map_map snd erase_op) in Hr. apply covered_ops in Hr.
        rewrite Forall_forall in Hr. apply Hr. by apply list_elem_of_fmap_2.
    + intros o Ho. by apply gtyped_ret.
  - intros inc Hi. apply gtyped_ret. unfold host_phi. simpl.
    clear -Hi. induction Hi as [|e e' l l' He _ IH]; simpl; [done|]. by rewrite He.
Qed.

Lemma do_blocks_typed bs h t hoisted bs' :
  Forall (wf_blk bwl call_site_hash extRefs cbStubs is_dbg_value site) bs ->
  do_blocks cfg bwl st call_site_hash extRefs is_dbg_value refers bs h t = Ok (hoisted, bs') ->
  forallb host_ins hoisted = true /\ forallb host_block bs' = true.
Proof.
  intros Hw. revert h t hoisted bs'.
  induction Hw as [|[l b] bs [Hb Ha] _ IH]; intros h t hoisted bs' Hd; simpl in Hd.
  { by injection Hd as <- <-. }
  apply bind_Ok_inv in Hd as ([[[e1 b'] h1] t1] & Hblk & Hd).
  apply bind_Ok_inv in Hd as ([e2 bs1] & Hrest & Hd). injection Hd as <- <-.
  unfold do_block in Hblk. apply bind_Ok_inv in Hblk as ([[ps e1'] h1'] & Hph & Hblk).
  apply bind_Ok_inv in Hblk as ([[tm ins] t1'] & Hcode & Hblk). injection Hblk as <- <- <- <-.
  destruct (IH _ _ _ _ Hrest) as [IH1 IH2]. simpl in Hb, Ha.
  unfold wf_block, erase_block in *. rewrite !andb_true_iff in Hb. destruct Hb as [[Hb1 Hb2] Hb3].
  rewrite !Forall_app, !Forall_map, !Forall_forall in Ha. destruct Ha as (Ha1 & Ha2 & Ha3).
  rewrite forallb_forall in Hb1, Hb2.
  destruct (gtyped_mapM (do_phi extRefs refers) (fun _ p' => host_phi p' = true) (b_phis b))
    with h ps e1' h1' as [T1 T2]; [|done|].
  { intros p Hp. apply do_phi_typed; [by apply Hb1, list_elem_of_In|by apply Ha1]. }
  assert (gtyped (_ ← mapM do_ins (b_ins b); do_term extRefs refers (b_term b))
            (fun tm' => host_term tm' = true)) as Ht.
  { eapply gtyped_bind; [apply (gtyped_mapM _ (fun _ _ => True))|].
    - intros e He. apply do_instruction_typed; [by apply Hb2, list_elem_of_In|by apply Ha2].
    - intros _ _. apply do_term_typed; [done|]. by apply (Ha3 (erase_term (b_term b))); left. }
  destruct (Ht _ _ _ _ Hcode) as [T3 T4]. rewrite forallb_app, T1, IH1. split; [done|].
  simpl. rewrite IH2, andb_true_r. unfold host_block. simpl. rewrite T3, T4, !andb_true_r.
  clear -T2. induction T2 as [|p p' l l' Hp _ IH]; simpl; [done|]. by rewrite Hp.
Qed.

End code.
End closed.

