(* ===== verification/Offload.v ===== *)
(** * A call through both halves

    Puts the code of [ChopOff] and of [TakeOut] together: a call of a chopped
    guest function runs the body of the function on the host with the
    arguments, global references and callback stubs it needs and returns its
    result, and a call the host code makes back runs the guest function it
    names. *)

From S2P Require Import Prelude LlvmIR Symtbl Analyze StubCode Qlib ChopOff TakeOut.
#[local] Open Scope string_scope.
#[local] Open Scope Z_scope.

(** ** Stack discipline *)

(** [s'] has what [s] has below the stack pointer of [s], and more stack. *)
Definition extends (s s' : rstate) : Prop :=
  r_sp s <= r_sp s' /\ forall a, a < r_sp s -> r_cells s' !! a = r_cells s !! a.

(** [p] points to the aggregate of [vs]; there is nothing to point to when
    there are no values. *)
Definition holds (p : rv) (vs : list rv) (s : rstate) : Prop :=
  vs = [] \/ exists a, p = RInt a /\ a < r_sp s /\ r_cells s !! a = Some (RAgg vs).

Lemma extends_refl s : extends s s.
Proof. done. Qed.

Lemma extends_trans s1 s2 s3 : extends s1 s2 -> extends s2 s3 -> extends s1 s3.
Proof.
  intros [H1 H1'] [H2 H2']. split; [lia|]. intros a Ha. rewrite H2', H1' by lia. done.
Qed.

#[export] Hint Resolve extends_refl : core.

Lemma holds_extends p vs s s' : extends s s' -> holds p vs s -> holds p vs s'.
Proof.
  intros [H H'] [->|(a & -> & Ha & Hc)]; [by left|]. right. exists a.
  split; [done|]. split; [lia|]. by rewrite H'.
Qed.

Lemma alloca_extends s : extends s (mk_rstate (fresh_cell (r_sp s) (r_cells s)) (r_sp s + 8)).
Proof. split; simpl; [lia|]. intros a Ha. apply fresh_cell_ne. lia. Qed.

(** ** Pads *)

Lemma pointer_pad_ok ps s :
  exists p s', ChopOff.pointer_pad ps s = Ok (p, s') /\ extends s s' /\ holds p ps s'.
Proof.
  destruct ps as [|v ps]; [exists nullptr, s; split; [done|]; split; [done|by left]|].
  unfold ChopOff.pointer_pad, lift, mbind, sem_bind. rewrite insert_values_all. simpl.
  unfold CreateStore. simpl. rewrite fresh_cell_eq.
  eexists _, _. split; [done|]. simpl. split.
  - split; simpl; [lia|]. intros a Ha. rewrite lookup_insert_ne, fresh_cell_ne by lia. done.
  - right. exists (r_sp s). simpl. rewrite lookup_insert_eq. split; [done|]. split; [lia|done].
Qed.

(** What [new_StubInfo] sets. *)
Definition stub_wf (stub : StubInfo) : Prop :=
  si_ret stub = (if is_void (ft_ret (si_func stub)) then None else Some (ft_ret (si_func stub))) /\
  si_arg stub = (match ft_params (si_func stub) with [] => None | ps => Some ps end).

Lemma new_StubInfo_wf fty attrs u :
  stub_wf (set_uid u (set_attrs attrs (new_StubInfo fty []))).
Proof. done. Qed.

(** The pad for the arguments is the pad of a list of pointers. *)
Lemma arg_pad_eq stub args :
  stub_wf stub -> length args = length (ft_params (si_func stub)) ->
  forall s,
  (match si_arg stub with
   | None => mret nullptr
   | Some argsType =>
       argsVal ← lift (insert_values 0 args (undef_aggregate (length argsType)));
       argPad ← CreateAlloca;
       _ ← CreateStore argsVal argPad;
       mret argPad
   end) s = ChopOff.pointer_pad args s.
Proof.
  intros [_ Ha] Hlen s. rewrite Ha.
  destruct (ft_params (si_func stub)) as [|t ts]; destruct args as [|v vs]; try done.
  by rewrite <- Hlen.
Qed.

Lemma load_args_ok stub args p s :
  stub_wf stub -> length args = length (ft_params (si_func stub)) -> holds p args s ->
  TakeOut.load_args stub p s = Ok (args, s).
Proof.
  intros [_ Ha] Hlen Hp. unfold TakeOut.load_args. rewrite Ha, <- Hlen.
  destruct (ft_params (si_func stub)) as [|t ts]; destruct args as [|v vs]; try done.
  destruct Hp as [|(a & -> & _ & Hc)]; [done|].
  unfold mbind, sem_bind, CreateLoad, lift. rewrite Hc, extract_values_all. done.
Qed.

Lemma zip_map_lookup (l : list Z) (g : Z -> rv) k :
  k ∈ l -> (list_to_map (zip l (map g l)) : gmap Z rv) !! k = Some (g k).
Proof.
  induction l as [|x l IH]; [by intros ?%elem_of_nil|]. simpl.
  destruct (decide (k = x)) as [->|Hne]; [by rewrite lookup_insert_eq|].
  intros [?|Hk]%elem_of_cons; [done|]. rewrite lookup_insert_ne by done. by apply IH.
Qed.

Lemma load_pad_ok keys (g : Z -> rv) p s :
  holds p (map g keys) s ->
  exists m, TakeOut.load_pad keys p s = Ok (m, s) /\ forall k, k ∈ keys -> m !! k = Some (g k).
Proof.
  intros Hp. destruct keys as [|k ks].
  { eexists. split; [done|]. by intros k ?%elem_of_nil. }
  destruct Hp as [|(a & -> & _ & Hc)]; [done|].
  unfold TakeOut.load_pad, mbind, sem_bind, CreateLoad, lift. rewrite Hc.
  replace (length (k :: ks)) with (length (map g (k :: ks))) by (apply length_map).
  rewrite extract_values_all.
  exists (list_to_map (zip (k :: ks) (map g (k :: ks)))). split; [done|].
  intros k'. apply zip_map_lookup.
Qed.

(** A table of pointers in memory, with a variable that points to it. *)
Definition table_at {A} `{HasUid A} (var : Z) (t : gmap Z A) (value : Z -> rv) (s : rstate)
    : Prop :=
  exists base, var < r_sp s /\ r_cells s !! var = Some (RInt base) /\
    forall k e, t !! k = Some e ->
      base + 8 * uid e < r_sp s /\ r_cells s !! (base + 8 * uid e) = Some (value k).

Lemma table_at_extends {A} `{HasUid A} var (t : gmap Z A) value s s' :
  extends s s' -> table_at var t value s -> table_at var t value s'.
Proof.
  intros [Hs Hc] (base & Hv & Hl & Ht). exists base. rewrite Hc by done.
  split; [lia|]. split; [done|]. intros k e Hk. destruct (Ht k e Hk) as [Hb He].
  rewrite Hc by done. split; [lia|done].
Qed.

Lemma load_table_ok {A} `{HasUid A} var (t : gmap Z A) value s keys acc :
  table_at var t value s -> Forall (fun k => is_Some (t !! k)) keys ->
  exists m, TakeOut.load_table var t keys acc s = Ok (m, s) /\
    (forall k, k ∈ keys -> m !! k = Some (value k)) /\
    (forall k, k ∉ keys -> m !! k = acc !! k).
Proof.
  intros (base & Hv & Hl & Ht) Hk. revert acc.
  induction Hk as [|k ks [e He] _ IH]; intros acc; simpl.
  { exists acc. split; [done|]. split; [by intros k ?%elem_of_nil|done]. }
  unfold mbind, sem_bind, lift, CreateLoad at 1. rewrite He. simpl. rewrite Hl. simpl.
  unfold CreateLoad. rewrite (proj2 (Ht k e He)).
  destruct (IH (<[k := value k]> acc)) as (m & Hm & Hin & Hout).
  exists m. split; [exact Hm|]. split.
  - intros k' Hk'. destruct (decide (k' ∈ ks)); [by apply Hin|].
    rewrite Hout by done. apply elem_of_cons in Hk' as [->|?]; [|done]. by rewrite lookup_insert_eq.
  - intros k' Hk'. rewrite not_elem_of_cons in Hk'. rewrite Hout by naive_solver.
    rewrite lookup_insert_ne; [done|]. naive_solver.
Qed.

(** ** The call *)

Section offload.
Context (ccfg : ChopOff.Config) (tcfg : TakeOut.Config) (bwl : BwList) (st : Symtbl).
Context (stub_addr : Z -> Z) (mGyhQlibUid mGyhExtreftbl mGyhCbstubtbl : Z).
Context (body : Z -> gmap Z rv -> gmap Z rv -> list rv -> sem rv).

(** The host function a table entry stands for. *)
Definition host_entry (f : Z) (stub : StubInfo) (info : FuncInfo)
    (retPad argPad extRefs cbStubs : rv) : sem unit :=
  if TakeOut.mUseFCP tcfg
  then TakeOut.fcp_hstub st mGyhExtreftbl mGyhCbstubtbl body f stub info retPad argPad
  else TakeOut.hstub tcfg st mGyhExtreftbl mGyhCbstubtbl body f stub info
         retPad argPad extRefs cbStubs.

(** The runtime between the halves: the function number of a call selects an
    entry of the table of host functions. *)
Definition host_call (hfuncs : list (option (option Z))) (u : Z) (retPad argPad extRefs cbStubs : rv)
    : sem unit :=
  match hfuncs !! Z.to_nat u with
  | Some (Some (Some f)) =>
      match mFunctbl st !! f with
      | Some info =>
          match mCallingStubs st !! fi_stub info with
          | Some stub => host_entry f stub info retPad argPad extRefs cbStubs
          | None => lift (Fault "stub")
          end
      | None => lift (Fault "function")
      end
  | _ => lift (Fault "null host function")
  end.

Definition gyh_call (hfuncs : list (option (option Z))) (l : list rv) : sem unit :=
  match l with
  | [_; RInt u; retPad; argPad; extRefs; cbStubs] =>
      host_call hfuncs u retPad argPad extRefs cbStubs
  | _ => lift (Fault "__gyh_call__")
  end.

Definition gyh_call_grt (hfuncs : list (option (option Z))) (l : list rv) : sem unit :=
  match l with
  | [_; RInt u; retPad; argPad] => host_call hfuncs u retPad argPad nullptr nullptr
  | _ => lift (Fault "__gyh_call_grt__")
  end.

(** The body finds the guest's addresses of what it refers to. *)
Definition env_ok (info : FuncInfo) (refs cbs : gmap Z rv) : Prop :=
  (forall g, g ∈ fi_extrefs info -> refs !! g = Some (RInt g)) /\
  (forall h, h ∈ fi_cbstubs info -> cbs !! h = Some (RInt (stub_addr h))).

(** What the references are loaded from: the pads of the call, or the tables
    the constructor left. *)
Definition refs_at (info : FuncInfo) (extRefs cbStubs : rv) (s : rstate) : Prop :=
  if TakeOut.mUseGRT tcfg
  then table_at mGyhExtreftbl (mGreftbl st) RInt s /\
       table_at mGyhCbstubtbl (mCallbackStubs st) (fun h => RInt (stub_addr h)) s
  else holds extRefs (map RInt (fi_extrefs info)) s /\
       holds cbStubs (map (fun h => RInt (stub_addr h)) (fi_cbstubs info)) s.

(** The tables have what the function needs. *)
Definition closed_info (info : FuncInfo) : Prop :=
  Forall (fun g => is_Some (mGreftbl st !! g)) (fi_extrefs info) /\
  Forall (fun h => is_Some (mCallbackStubs st !! h)) (fi_cbstubs info).

Definition put_ret (stub : StubInfo) (a : Z) (r : rv) (m : gmap Z rv) : gmap Z rv :=
  match si_ret stub with Some _ => <[a := r]> m | None => m end.

(** Running a body that ends, and storing its result. *)
Lemma body_store stub (m : sem rv) retPad a r s s2 :
  m s = Ok (r, s2) ->
  (si_ret stub <> None -> retPad = RInt a /\ is_Some (r_cells s2 !! a)) ->
  function_body (ret ← m; match si_ret stub with
                          | Some _ => CreateStore ret retPad | None => mret tt end) s
  = Ok (tt, mk_rstate (put_ret stub a r (r_cells s2)) (r_sp s)).
Proof.
  intros Hm Hr. unfold function_body, mbind, sem_bind, put_ret. rewrite Hm.
  destruct (si_ret stub); [|done].
  destruct Hr as [-> [v Hv]]; [done|]. unfold CreateStore. by rewrite Hv.
Qed.

Lemma host_entry_ok f stub info args retPad argPad extRefs cbStubs a s :
  stub_wf stub -> length args = length (ft_params (si_func stub)) ->
  closed_info info -> (TakeOut.mUseFCP tcfg = true -> TakeOut.mUseGRT tcfg = true) ->
  holds argPad args s -> refs_at info extRefs cbStubs s ->
  exists refs cbs, env_ok info refs cbs /\ forall r s2,
    body f refs cbs args s = Ok (r, s2) ->
    (si_ret stub <> None -> retPad = RInt a /\ is_Some (r_cells s2 !! a)) ->
    host_entry f stub info retPad argPad extRefs cbStubs s
    = Ok (tt, mk_rstate (put_ret stub a r (r_cells s2)) (r_sp s)).
Proof.
  intros Hwf Hlen [Hc1 Hc2] Hfcp Hargs Hrefs. unfold refs_at in Hrefs.
  assert (exists refs cbs, env_ok info refs cbs /\
    (if TakeOut.mUseGRT tcfg
     then TakeOut.load_table mGyhExtreftbl (mGreftbl st) (fi_extrefs info) ∅ s = Ok (refs, s) /\
       TakeOut.load_table mGyhCbstubtbl (mCallbackStubs st) (fi_cbstubs info) ∅ s = Ok (cbs, s)
     else TakeOut.load_pad (fi_extrefs info) extRefs s = Ok (refs, s) /\
       TakeOut.load_pad (fi_cbstubs info) cbStubs s = Ok (cbs, s))) as (refs & cbs & Henv & Hld).
  { destruct (TakeOut.mUseGRT tcfg), Hrefs as [H1 H2].
    - destruct (load_table_ok _ _ _ s (fi_extrefs info) ∅ H1 Hc1) as (m1 & E1 & L1 & _).
      destruct (load_table_ok _ _ _ s (fi_cbstubs info) ∅ H2 Hc2) as (m2 & E2 & L2 & _).
      by exists m1, m2.
    - destruct (load_pad_ok _ _ _ _ H1) as (m1 & E1 & L1).
      destruct (load_pad_ok _ (fun h => RInt (stub_addr h)) _ _ H2) as (m2 & E2 & L2).
      by exists m1, m2. }
  exists refs, cbs. split; [done|]. intros r s2 Hb Hr. unfold host_entry.
  pose proof (load_args_ok stub args argPad s Hwf Hlen Hargs) as Hla.
  destruct (TakeOut.mUseFCP tcfg) eqn:Hf.
  - rewrite (Hfcp eq_refl) in Hld. destruct Hld as [E1 E2].
    eapply eq_trans;
      [|apply (body_store stub
                (TakeOut.fcp_hfunc st mGyhExtreftbl mGyhCbstubtbl body f info args)
                retPad a r s (mk_rstate (r_cells s2) (r_sp s))); [|done]].
    + unfold TakeOut.fcp_hstub, function_body, mbind, sem_bind. by rewrite Hla.
    + unfold TakeOut.fcp_hfunc, function_body, mbind, sem_bind. by rewrite E1, E2, Hb.
  - rewrite <- (body_store stub (body f refs cbs args) retPad a r s s2) by done.
    unfold TakeOut.hstub, function_body, mbind, sem_bind. rewrite Hla.
    destruct (TakeOut.mUseGRT tcfg); destruct Hld as [E1 E2]; simpl; by rewrite E1, E2.
Qed.

Lemma ret_pad_ok stub s :
  exists p s', (match si_ret stub with None => mret nullptr | Some _ => CreateAlloca end) s
    = Ok (p, s') /\ extends s s' /\
    (si_ret stub <> None ->
       p = RInt (r_sp s) /\ is_Some (r_cells s' !! r_sp s) /\ r_sp s < r_sp s').
Proof.
  destruct (si_ret stub); [|exists nullptr, s; by split; [|split]].
  eexists _, _. split; [done|]. split; [apply alloca_extends|]. simpl.
  rewrite fresh_cell_eq. split; [done|]. split; [done|lia].
Qed.

Lemma find_stubs_ok hs :
  Forall (fun h => is_Some (mCallbackStubs st !! h)) hs ->
  ChopOff.find_stubs (ChopOff.gen_cb_stubs stub_addr st) hs
  = Ok (map (fun h => RInt (stub_addr h)) hs).
Proof.
  induction 1 as [|h hs [e He] _ IH]; simpl; [done|].
  unfold ChopOff.gen_cb_stubs in *. rewrite map_lookup_imap, He. simpl. by rewrite IH.
Qed.

(** The number of a function leads to its entry in the table. *)
Lemma host_call_entry hfuncs f info stub retPad argPad extRefs cbStubs :
  TakeOut.gen_hfuncs bwl st = Ok hfuncs -> numbers (mFunctbl st) ->
  mFunctbl st !! f = Some info -> mCallingStubs st !! fi_stub info = Some stub ->
  TakeOut.black bwl f = false ->
  host_call hfuncs (fi_uid info) retPad argPad extRefs cbStubs
  = host_entry f stub info retPad argPad extRefs cbStubs.
Proof.
  intros Hh Hn Hf Hs Hb.
  destruct (ChopOff.table_of_ok (fun func => if TakeOut.black bwl func then None else Some func)
              _ Hn) as (tbl & Ht & _ & Hl & _).
  unfold TakeOut.gen_hfuncs in Hh. rewrite Hh in Ht. injection Ht as <-.
  pose proof (Hl f info Hf) as He. simpl in He. rewrite Hb in He.
  unfold host_call. by rewrite He, Hf, Hs.
Qed.

(** The whole of a chopped function, given a call that runs the host entry
    after the pads are made. *)
Lemma chopped_ok hfuncs f info stub args s :
  ChopOff.mUseGRT ccfg = TakeOut.mUseGRT tcfg ->
  TakeOut.gen_hfuncs bwl st = Ok hfuncs -> numbers (mFunctbl st) ->
  mFunctbl st !! f = Some info -> mCallingStubs st !! fi_stub info = Some stub ->
  TakeOut.black bwl f = false -> stub_wf stub ->
  length args = length (ft_params (si_func stub)) -> closed_info info ->
  (TakeOut.mUseGRT tcfg = true -> refs_at info nullptr nullptr s) ->
  exists retPad argPad extRefs cbStubs s1,
    extends s s1 /\ holds argPad args s1 /\ refs_at info extRefs cbStubs s1 /\
    (si_ret stub <> None ->
       retPad = RInt (r_sp s) /\ is_Some (r_cells s1 !! r_sp s) /\ r_sp s < r_sp s1) /\
    forall r m2,
      host_entry f stub info retPad argPad extRefs cbStubs s1
        = Ok (tt, mk_rstate (put_ret stub (r_sp s) r m2) (r_sp s1)) ->
      ChopOff.chopped ccfg (ChopOff.gen_cb_stubs stub_addr st) mGyhQlibUid
        (gyh_call hfuncs) (gyh_call_grt hfuncs) stub info args s
      = Ok (match si_ret stub with Some _ => r | None => RUndef end,
            mk_rstate (put_ret stub (r_sp s) r m2) (r_sp s)).
Proof.
  intros Hgrt Hh Hn Hf Hs Hb Hwf Hlen [Hc1 Hc2] Htbl.
  destruct (ret_pad_ok stub s) as (retPad & s1 & E1 & X1 & Hr).
  destruct (pointer_pad_ok args s1) as (argPad & s2 & E2 & X2 & Ha).
  assert (extends s s2) as X12 by (by eapply extends_trans).
  assert (forall s3, extends s2 s3 -> si_ret stub <> None ->
    retPad = RInt (r_sp s) /\ is_Some (r_cells s3 !! r_sp s) /\ r_sp s < r_sp s3) as Hr3.
  { intros s3 X3 Hne. destruct (Hr Hne) as (-> & Hsome & Hlt). split; [done|].
    destruct (extends_trans _ _ _ X2 X3) as [Hsp Hx]. rewrite Hx by done. split; [done|lia]. }
  assert (forall r m2 sp, match si_ret stub with
      | Some _ => CreateLoad retPad | None => mret RUndef end
      (mk_rstate (put_ret stub (r_sp s) r m2) sp)
    = Ok (match si_ret stub with Some _ => r | None => RUndef end,
          mk_rstate (put_ret stub (r_sp s) r m2) sp)) as Hend.
  { intros r m2 sp. unfold put_ret. destruct (si_ret stub); [|done].
    destruct Hr as [-> _]; [done|]. unfold CreateLoad. simpl. by rewrite lookup_insert_eq. }
  destruct (TakeOut.mUseGRT tcfg) eqn:Hg.
  - exists retPad, argPad, nullptr, nullptr, s2. split; [done|]. split; [done|].
    split; [|split; [by apply Hr3|]].
    { specialize (Htbl eq_refl). unfold refs_at in *. rewrite Hg in *.
      destruct Htbl. split; by eapply table_at_extends. }
    intros r m2 He. unfold ChopOff.chopped, function_body, mbind, sem_bind.
    rewrite E1, (arg_pad_eq stub args Hwf Hlen), E2, Hgrt. simpl.
    unfold gyh_call_grt. erewrite host_call_entry by done. rewrite He. rewrite Hend. done.
  - destruct (pointer_pad_ok (map RInt (fi_extrefs info)) s2) as (extRefs & s3 & E3 & X3 & He3).
    destruct (pointer_pad_ok (map (fun h => RInt (stub_addr h)) (fi_cbstubs info)) s3)
      as (cbStubs & s4 & E4 & X4 & He4).
    assert (extends s2 s4) as X24 by (by eapply extends_trans).
    exists retPad, argPad, extRefs, cbStubs, s4. split; [by eapply extends_trans|].
    split; [exact (holds_extends _ _ _ _ X24 Ha)|]. split; [|split; [by apply Hr3|]].
    { unfold refs_at. rewrite Hg. split; [exact (holds_extends _ _ _ _ X4 He3)|done]. }
    intros r m2 He. unfold ChopOff.chopped, function_body, mbind, sem_bind.
    rewrite E1, (arg_pad_eq stub args Hwf Hlen), E2, Hgrt. simpl. rewrite E3.
    unfold lift. rewrite find_stubs_ok by done. simpl. rewrite E4.
    unfold gyh_call. erewrite host_call_entry by done. rewrite He. rewrite Hend. done.
Qed.

Lemma offload_run hfuncs f info stub args s :
  ChopOff.mUseGRT ccfg = TakeOut.mUseGRT tcfg ->
  (TakeOut.mUseFCP tcfg = true -> TakeOut.mUseGRT tcfg = true) ->
  TakeOut.gen_hfuncs bwl st = Ok hfuncs -> numbers (mFunctbl st) ->
  mFunctbl st !! f = Some info -> mCallingStubs st !! fi_stub info = Some stub ->
  TakeOut.black bwl f = false -> stub_wf stub ->
  length args = length (ft_params (si_func stub)) -> closed_info info ->
  (TakeOut.mUseGRT tcfg = true -> refs_at info nullptr nullptr s) ->
  exists refs cbs s1, env_ok info refs cbs /\ extends s s1 /\
    forall r s2, body f refs cbs args s1 = Ok (r, s2) ->
      (forall a, a < r_sp s1 -> is_Some (r_cells s1 !! a) -> is_Some (r_cells s2 !! a)) ->
      exists s3,
        ChopOff.chopped ccfg (ChopOff.gen_cb_stubs stub_addr st) mGyhQlibUid
          (gyh_call hfuncs) (gyh_call_grt hfuncs) stub info args s
        = Ok (match si_ret stub with Some _ => r | None => RUndef end, s3) /\
        r_sp s3 = r_sp s /\
        forall a, a < r_sp s -> r_cells s3 !! a = r_cells s2 !! a.
Proof.
  intros Hgrt Hfcp Hh Hn Hf Hs Hb Hwf Hlen Hc Htbl.
  destruct (chopped_ok hfuncs f info stub args s) as
    (retPad & argPad & extRefs & cbStubs & s1 & X & Ha & Hr & Hret & Hrun); try done.
  destruct (host_entry_ok f stub info args retPad argPad extRefs cbStubs (r_sp s) s1)
    as (refs & cbs & Henv & Hentry); try done.
  exists refs, cbs, s1. split; [done|]. split; [done|]. intros r s2 Hbody Hkeep.
  eexists. split; [apply (Hrun r (r_cells s2)), (Hentry r s2 Hbody)|].
  - intros Hne. destruct (Hret Hne) as (-> & Hsome & Hlt). split; [done|]. by apply Hkeep.
  - simpl. split; [done|]. intros a Hlt. unfold put_ret.
    destruct (si_ret stub); [|done]. rewrite lookup_insert_ne; [done|lia].
Qed.

(** C4: calling a chopped function is running its body on the host: the guest
    stub, the table of host functions and the host stub together hand the body
    the caller's arguments and the guest addresses of all its global
    references and callback stubs, and give its result back to the caller,
    with or without the global reference tables and the fast call paths. *)
Theorem offload_call hfuncs f info stub args s :
  ChopOff.mUseGRT ccfg = TakeOut.mUseGRT tcfg ->
  (TakeOut.mUseFCP tcfg = true -> TakeOut.mUseGRT tcfg = true) ->
  TakeOut.gen_hfuncs bwl st = Ok hfuncs -> numbers (mFunctbl st) ->
  mFunctbl st !! f = Some info -> mCallingStubs st !! fi_stub info = Some stub ->
  TakeOut.black bwl f = false -> stub_wf stub ->
  length args = length (ft_params (si_func stub)) -> closed_info info ->
  (TakeOut.mUseGRT tcfg = true -> refs_at info nullptr nullptr s) ->
  exists refs cbs s1, env_ok info refs cbs /\ extends s s1 /\
    forall r s2, body f refs cbs args s1 = Ok (r, s2) ->
      (forall a, a < r_sp s1 -> is_Some (r_cells s1 !! a) -> is_Some (r_cells s2 !! a)) ->
      exists s3,
        ChopOff.chopped ccfg (ChopOff.gen_cb_stubs stub_addr st) mGyhQlibUid
          (gyh_call hfuncs) (gyh_call_grt hfuncs) stub info args s
        = Ok (match si_ret stub with Some _ => r | None => RUndef end, s3) /\
        r_sp s3 = r_sp s /\
        forall a, a < r_sp s -> r_cells s3 !! a = r_cells s2 !! a.
Proof. apply offload_run. Qed.

End offload.

(** ** Callbacks *)

Section callback.
Context (st : Symtbl) (stub_addr : Z -> Z).

(** Calling a guest function. *)
Context (call : rv -> list rv -> sem rv).

(** The runtime between the halves: [__gyh_callback__] runs the guest stub it
    is given, here the one of the type hashed to [h]. *)
Definition gyh_callback (h : Z) (cbStub func retPad argPad : rv) : sem unit :=
  match cbStub, mCallbackStubs st !! h with
  | RInt a, Some stub =>
      if a =? stub_addr h then ChopOff.cb_stub call stub retPad argPad func
      else lift (Fault "stub")
  | _, _ => lift (Fault "stub")
  end.

Lemma cb_stub_ok stub args retPad argPad gfunc a s r s2 :
  stub_wf stub -> length args = length (ft_params (si_func stub)) -> holds argPad args s ->
  call gfunc args s = Ok (r, s2) ->
  (si_ret stub <> None -> retPad = RInt a /\ is_Some (r_cells s2 !! a)) ->
  ChopOff.cb_stub call stub retPad argPad gfunc s
  = Ok (tt, mk_rstate (put_ret stub a r (r_cells s2)) (r_sp s)).
Proof.
  intros Hwf Hlen Ha Hc Hr. rewrite <- (body_store stub (call gfunc args) retPad a r s s2) by done.
  unfold ChopOff.cb_stub, function_body, mbind, sem_bind.
  pose proof (load_args_ok stub args argPad s Hwf Hlen Ha) as Hl.
  unfold TakeOut.load_args, mbind, sem_bind in Hl.
  destruct Hwf as [_ Harg]. rewrite Harg in *.
  destruct (ft_params (si_func stub)); [by injection Hl as <-|]. by rewrite Hl.
Qed.

Lemma callback_run cbStubMap h stub gfunc args s :
  cbStubMap !! h = Some (RInt (stub_addr h)) -> mCallbackStubs st !! h = Some stub ->
  stub_wf stub -> length args = length (ft_params (si_func stub)) ->
  exists s1, extends s s1 /\ forall r s2,
    call gfunc args s1 = Ok (r, s2) ->
    (forall a, a < r_sp s1 -> is_Some (r_cells s1 !! a) -> is_Some (r_cells s2 !! a)) ->
    exists s3,
      TakeOut.do_callback (gyh_callback h) cbStubMap h (si_func stub) gfunc args s
      = Ok (match si_ret stub with Some _ => r | None => RUndef end, s3) /\
      r_sp s3 = r_sp s /\ forall a, a < r_sp s -> r_cells s3 !! a = r_cells s2 !! a.
Proof.
  intros Hm Hst Hwf Hlen.
  destruct (ret_pad_ok stub s) as (retPad & s1 & E1 & X1 & Hr).
  destruct (pointer_pad_ok args s1) as (argPad & s2 & E2 & X2 & Ha).
  exists s2. split; [by eapply extends_trans|]. intros r s3 Hc Hkeep.
  assert (si_ret stub <> None -> retPad = RInt (r_sp s) /\ is_Some (r_cells s3 !! r_sp s)) as Hr3.
  { intros Hne. destruct (Hr Hne) as (-> & Hsome & Hlt). split; [done|].
    destruct X2 as [Hsp X2]. apply Hkeep; [lia|]. by rewrite X2. }
  pose proof (cb_stub_ok stub args retPad argPad gfunc (r_sp s) s2 r s3 Hwf Hlen Ha Hc Hr3) as Hcb.
  exists (mk_rstate (put_ret stub (r_sp s) r (r_cells s3)) (r_sp s)). split.
  - destruct Hwf as [Hret _].
    assert ((if is_void (ft_ret (si_func stub)) then mret nullptr else CreateAlloca) s
            = Ok (retPad, s1)) as Hrp by (rewrite Hret in E1; by destruct (is_void _)).
    unfold TakeOut.do_callback. erewrite bind_step by reflexivity.
    erewrite bind_step by (unfold lift; rewrite Hm; reflexivity).
    erewrite bind_step by exact Hrp.
    erewrite bind_step by (destruct args; exact E2).
    erewrite bind_step by (unfold gyh_callback; rewrite Hst, Z.eqb_refl; exact Hcb).
    unfold put_ret. rewrite Hret in *. destruct (is_void _); [done|].
    destruct Hr as [-> _]; [done|].
    erewrite bind_step by (unfold CreateLoad; simpl; rewrite lookup_insert_eq; reflexivity).
    reflexivity.
  - simpl. split; [done|]. intros a Hlt. unfold put_ret.
    destruct (si_ret stub); [|done]. rewrite lookup_insert_ne; [done|lia].
Qed.

(** C10: a call the host code makes through a callback stub is a call of the
    guest function it names: the packing on the host and the unpacking in the
    guest stub hand over the arguments and bring the result back, and the
    host's stack is as before. *)
Theorem callback_call cbStubMap h stub gfunc args s :
  cbStubMap !! h = Some (RInt (stub_addr h)) -> mCallbackStubs st !! h = Some stub ->
  stub_wf stub -> length args = length (ft_params (si_func stub)) ->
  exists s1, extends s s1 /\ forall r s2,
    call gfunc args s1 = Ok (r, s2) ->
    (forall a, a < r_sp s1 -> is_Some (r_cells s1 !! a) -> is_Some (r_cells s2 !! a)) ->
    exists s3,
      TakeOut.do_callback (gyh_callback h) cbStubMap h (si_func stub) gfunc args s
      = Ok (match si_ret stub with Some _ => r | None => RUndef end, s3) /\
      r_sp s3 = r_sp s /\ forall a, a < r_sp s -> r_cells s3 !! a = r_cells s2 !! a.
Proof. apply callback_run. Qed.

End callback.

(** ** What the analysis guarantees to both halves *)

Section analyzed.
Context (function_hash : func -> option Z) (call_site_hash : functype -> attrlist -> option Z).
Context (ptr_order : gset Z -> list Z) (bwl : BwList) (m : module) (u : Z).
Context (Horder : forall s, ptr_order s ≡ₚ elements s) (Hnd : NoDup (map fn_addr m)).

Definition analyzed : Symtbl :=
  result_of u (analyze function_hash call_site_hash ptr_order bwl m).1.

(** Every table fits its numbers. *)
Definition tables_fit : Prop :=
  Z.of_nat (size (mCallbackStubs analyzed)) <= 2 ^ 32 /\
  Z.of_nat (size (mFunctbl analyzed)) <= 2 ^ 32 /\
  Z.of_nat (size (mGreftbl analyzed)) <= 2 ^ 32.

Lemma analyzed_numbers :
  tables_fit ->
  numbers (mCallbackStubs analyzed) /\ numbers (mFunctbl analyzed) /\ numbers (mGreftbl analyzed).
Proof.
  intros (F2 & F3 & F4).
  destruct (analyze_ainv function_hash call_site_hash ptr_order bwl Horder m Hnd)
    as [_ [k2 N2] [k3 N3] [k4 N4] _ _ _ _ _ _ _].
  unfold analyzed in *. simpl in *.
  destruct (analyze _ _ _ _ _) as [[[t1 c1] [t2 c2] [t3 c3] [t4 c4]] d]. simpl in *.
  split_and!; by eapply numbered_bijection.
Qed.

(** The entry of a table at the place of a function. *)
Lemma table_of_at {A B C} `{HasUid A} (v1 : Z -> B) (v2 : Z -> C) (t : gmap Z A) tbl1 tbl2 i x :
  numbers t -> ChopOff.table_of v1 t = Ok tbl1 -> ChopOff.table_of v2 t = Ok tbl2 ->
  tbl1 !! i = Some x -> exists k, x = Some (v1 k) /\ tbl2 !! i = Some (Some (v2 k)).
Proof.
  intros Hn H1 H2 Hi.
  destruct (ChopOff.table_of_ok v1 t Hn) as (t1 & E1 & L1 & A1 & _).
  destruct (ChopOff.table_of_ok v2 t Hn) as (t2 & E2 & _ & A2 & _).
  rewrite H1 in E1. injection E1 as <-. rewrite H2 in E2. injection E2 as <-.
  pose proof (lookup_lt_Some _ _ _ Hi). destruct Hn as [_ Hu].
  destruct (Hu (Z.of_nat i)) as (k & v & Hk & Hv & _); [lia|].
  specialize (A1 k v Hk). specialize (A2 k v Hk). rewrite Hv, Nat2Z.id in *.
  exists k. split; [congruence|done].
Qed.

End analyzed.

(** The tables both passes build from an analysis have no hole and agree:
    every callback stub, global reference and function gets its entry, and
    the guest's and the host's function tables have the same length and the
    same function at the same place (or null, for a function kept out of the
    host by the black list). *)
Theorem analyzed_tables function_hash call_site_hash ptr_order bwl m u stub_addr :
  let st := analyzed function_hash call_site_hash ptr_order bwl m u in
  (forall s, ptr_order s ≡ₚ elements s) -> NoDup (map fn_addr m) ->
  tables_fit function_hash call_site_hash ptr_order bwl m u ->
  exists cbt ext gft hft,
    ChopOff.gen_cbstubtbl stub_addr st = Ok cbt /\ Forall is_Some cbt /\
    ChopOff.gen_extreftbl st = Ok ext /\ Forall is_Some ext /\
    ChopOff.gen_gfunctbl st = Ok gft /\ Forall is_Some gft /\
    TakeOut.gen_hfuncs bwl st = Ok hft /\ length hft = length gft /\
    forall i f, gft !! i = Some (Some f) ->
      hft !! i = Some (Some (if TakeOut.black bwl f then None else Some f)).
Proof.
  intros st Ho Hnd Hfit.
  destruct (analyzed_numbers _ _ _ _ _ _ Ho Hnd Hfit) as (N2 & N3 & N4).
  destruct (ChopOff.table_of_ok stub_addr _ N2) as (cbt & E1 & _ & _ & F1).
  destruct (ChopOff.table_of_ok (fun gref => gref) _ N4) as (ext & E2 & _ & _ & F2).
  destruct (ChopOff.table_of_ok (fun func => func) _ N3) as (gft & E3 & L3 & _ & F3).
  destruct (ChopOff.table_of_ok (fun func => if TakeOut.black bwl func then None else Some func)
              _ N3) as (hft & E4 & L4 & _ & _).
  exists cbt, ext, gft, hft. split_and!; try done; [congruence|].
  intros i f Hi. destruct (table_of_at _ _ _ _ _ _ _ N3 E3 E4 Hi) as (k & [= ->] & Hk). done.
Qed.

(** An analysis is all a call needs: for every function in the function
    table, its signature's stub, the global references and the callback types
    it uses are in the tables, the functions are numbered one to one, and the
    table of host functions can be built, which is what the correctness of an
    offloaded call asks of the symbol table. *)
Lemma analysis_ready function_hash call_site_hash ptr_order bwl m u f info :
  let st := analyzed function_hash call_site_hash ptr_order bwl m u in
  (forall s, ptr_order s ≡ₚ elements s) -> NoDup (map fn_addr m) ->
  tables_fit function_hash call_site_hash ptr_order bwl m u ->
  f ∈ m -> mFunctbl st !! fn_addr f = Some info ->
  closed_info st info /\ numbers (mFunctbl st) /\
  (exists hfuncs, TakeOut.gen_hfuncs bwl st = Ok hfuncs) /\
  exists stub g, mCallingStubs st !! fi_stub info = Some stub /\ stub_wf stub /\
    g ∈ m /\ function_hash g = function_hash f /\ si_func stub = fn_type g.
Proof.
  intros st Ho Hnd Hfit Hf Hi.
  destruct (analyzed_numbers _ _ _ _ _ _ Ho Hnd Hfit) as (_ & N3 & _).
  destruct (analyze_ainv function_hash call_site_hash ptr_order bwl Ho m Hnd)
    as [_ _ _ _ I1 I2 I3 I4 I5 I6 _].
  destruct (I5 f info Hf Hi) as (Hh & Hg & Hc).
  destruct (proj1 (I4 (fn_addr f))) as (f' & Hf' & Hacc & He); [by eexists|].
  assert (f' = f) as -> by (by eapply NoDup_map_inj).
  split; [|split; [done|split]].
  - split; apply Forall_forall; intros x Hx.
    + apply I3. exists f. by rewrite <- Hg.
    + apply I2. exists f. by rewrite <- Hc.
  - destruct (ChopOff.table_of_ok (fun func => if TakeOut.black bwl func then None else Some func)
                _ N3) as (hft & E4 & _). by exists hft.
  - destruct (proj2 (I1 (fi_stub info))) as [stub Hs]; [by exists f|].
    destruct (I6 _ _ Hs) as (g & Hgm & Hgh & [n Hn]). exists stub, g.
    split; [exact Hs|]. rewrite Hn. split; [apply new_StubInfo_wf|]. split; [done|]. split; [congruence|done].
Qed.

Lemma functbl_member function_hash call_site_hash ptr_order bwl m u a info :
  let st := analyzed function_hash call_site_hash ptr_order bwl m u in
  (forall s, ptr_order s ≡ₚ elements s) -> NoDup (map fn_addr m) ->
  mFunctbl st !! a = Some info -> exists f, f ∈ m /\ fn_addr f = a.
Proof.
  intros st Ho Hnd Hi.
  destruct (analyze_ainv function_hash call_site_hash ptr_order bwl Ho m Hnd)
    as [_ _ _ _ _ _ _ I4 _ _ _].
  destruct (proj1 (I4 a)) as (f & Hf & _ & He); [by eexists|]. by exists f.
Qed.

(** C15: the guest side of a module is complete: on an analysed module no
    assertion of the pass fails. The tables it emits for its configuration have
    no hole, the callback stubs a chopped function hands to the host all exist
    and so does the stub type of its calls, and the number in the prefix of a
    function is its place in the table with which the constructor finds it. *)
Theorem chop_off_module function_hash call_site_hash ptr_order bwl m u cfg hasPrefixData size_of
    getInstructionCount stub_addr uidVar extVar cbVar gfVar :
  let st := analyzed function_hash call_site_hash ptr_order bwl m u in
  (forall s, ptr_order s ≡ₚ elements s) -> NoDup (map fn_addr m) ->
  tables_fit function_hash call_site_hash ptr_order bwl m u ->
  exists gm,
    ChopOff.chop_off cfg bwl hasPrefixData size_of getInstructionCount stub_addr
      uidVar extVar cbVar gfVar st = Ok gm /\
    (forall t, ChopOff.gm_cbstubtbl gm = Some t \/ ChopOff.gm_extreftbl gm = Some t \/
       ChopOff.gm_gfunctbl gm = Some t -> Forall is_Some t) /\
    (forall f info, (f, info) ∈ ChopOff.bn_chosen (ChopOff.gm_benefits gm) ->
       is_Some (mCallingStubs st !! fi_stub info) /\
       ChopOff.find_stubs (ChopOff.gm_cbStubs gm) (fi_cbstubs info) =
         Ok (map (fun h => RInt (stub_addr h)) (fi_cbstubs info))) /\
    (forall t f magic n, ChopOff.gm_gfunctbl gm = Some t ->
       ChopOff.bn_prefix (ChopOff.gm_benefits gm) !! f = Some (magic, n) ->
       magic = kFCPcmMagic /\ t !! Z.to_nat n = Some (Some f)).
Proof.
  intros st Ho Hnd Hfit.
  destruct (analyzed_numbers _ _ _ _ _ _ Ho Hnd Hfit) as (N2 & N3 & N4).
  destruct (ChopOff.table_of_ok stub_addr _ N2) as (cbt & E1 & _ & _ & F1).
  destruct (ChopOff.table_of_ok (fun gref => gref) _ N4) as (ext & E2 & _ & _ & F2).
  destruct (ChopOff.table_of_ok (fun func => func) _ N3) as (gft & E3 & _ & A3 & F3).
  assert (exists gm,
    ChopOff.chop_off cfg bwl hasPrefixData size_of getInstructionCount stub_addr
      uidVar extVar cbVar gfVar st = Ok gm /\
    ChopOff.gm_cbStubs gm = ChopOff.gen_cb_stubs stub_addr st /\
    ChopOff.gm_benefits gm = ChopOff.calc_benefits cfg bwl hasPrefixData size_of getInstructionCount st /\
    (ChopOff.gm_cbstubtbl gm = None \/ ChopOff.gm_cbstubtbl gm = Some cbt) /\
    (ChopOff.gm_extreftbl gm = None \/ ChopOff.gm_extreftbl gm = Some ext) /\
    (ChopOff.gm_gfunctbl gm = None \/ ChopOff.gm_gfunctbl gm = Some gft)) as (gm & Hgm & Hcb & Hb & Hc & He & Hg).
  { unfold ChopOff.chop_off, ChopOff.gen_grt, ChopOff.gen_ctor_dtor.
    unfold ChopOff.gen_cbstubtbl, ChopOff.gen_extreftbl, ChopOff.gen_gfunctbl, st.
    rewrite E1, E2, E3. clear.
    destruct (ChopOff.mUseGRT cfg), (ChopOff.mUseFCPcm cfg); simpl;
      eexists; (split; [done|]); split_and!; auto. }
  exists gm. rewrite Hcb, Hb. split; [done|]. split_and!.
  - intros t [Ht|[Ht|Ht]]; rewrite Ht in *; [destruct Hc as [|[= ->]]|destruct He as [|[= ->]]|
      destruct Hg as [|[= ->]]]; done.
  - intros f info [Hin _]%ChopOff.elem_of_chosen.
    destruct (functbl_member _ _ _ _ _ _ _ _ Ho Hnd Hin) as (f' & Hm & <-).
    destruct (analysis_ready _ _ _ _ _ _ _ _ Ho Hnd Hfit Hm Hin) as ([_ Hcl] & _ & _ & stub & _ & Hs & _).
    split; [by eexists|]. by apply find_stubs_ok.
  - intros t f magic n Ht. rewrite ChopOff.bn_prefix_spec.
    destruct (mFunctbl st !! f) as [info|] eqn:Hi; [|done].
    destruct (ChopOff.gets_prefix _ _ _ _); [|done]. intros [= <- <-]. split; [done|].
    rewrite Ht in Hg. destruct Hg as [|[= ->]]; [done|]. by apply A3.
Qed.

Lemma all_fcp_spec cfg bwl st :
  TakeOut.all_fcp cfg bwl st = true <->
  forall f info, mFunctbl st !! f = Some info -> TakeOut.black bwl f = true \/
    TakeOut.mUseFCP cfg = true /\ TakeOut.mWhiteCallees bwl f = false.
Proof.
  unfold TakeOut.all_fcp, TakeOut.mFcpFuncMap. rewrite forallb_forall. split.
  - intros H f info Hi. apply elem_of_map_iter, list_elem_of_In in Hi. specialize (H _ Hi).
    simpl in H. apply orb_true_iff in H as [H|H%bool_decide_eq_true]; [by left|right].
    destruct (TakeOut.mUseFCP cfg); [|by apply elem_of_empty in H].
    by apply elem_of_filter in H as [[_ H] _].
  - intros H [f info] Hin%list_elem_of_In%elem_of_map_iter.
    apply orb_true_iff. destruct (TakeOut.black bwl f) eqn:Hb; [by left|right].
    apply bool_decide_eq_true. destruct (H f info Hin) as [Hb'|[-> Hw]]; [congruence|].
    apply elem_of_filter. split; [done|]. by apply elem_of_dom_2 in Hin.
Qed.


(** ** Example

    The module of the analysis example, without tables: a call of [work]. *)
Module ToyOffload.
Import ToyModule.

Definition st : Symtbl := analyzed fhash chash elements bw m 9.
Definition info : FuncInfo := default (mk_FuncInfo 0 0 [] []) (mFunctbl st !! 0x100).
Definition stub : StubInfo := default (new_StubInfo sig []) (mCallingStubs st !! fi_stub info).
Definition hfuncs : list (option (option Z)) :=
  match TakeOut.gen_hfuncs bw st with Ok t => t | _ => [] end.

Definition ccfg : ChopOff.Config := ChopOff.default_Config.
Definition tcfg : TakeOut.Config := TakeOut.mk_Config false false false false.

(** The body adds what it finds for its first reference to its argument. *)
Definition body (f : Z) (refs cbs : gmap Z rv) (args : list rv) : sem rv :=
  match refs !! 0x500, args with
  | Some (RInt x), [RInt y] => mret (RInt (x + y))
  | _, _ => lift (Fault "body"%string)
  end.

Definition s0 : rstate := mk_rstate ∅ 0x10000.

Lemma fit : tables_fit fhash chash elements bw m 9.
Proof. split_and!; by vm_compute. Qed.

Lemma hfuncs_eq : TakeOut.gen_hfuncs bw st = Ok hfuncs.
Proof. by vm_compute. Qed.

Lemma functbl_numbers : numbers (mFunctbl st).
Proof.
  apply (analyzed_numbers fhash chash elements bw m 9 (fun s => Permutation_refl _)
           addrs_distinct fit).
Qed.

Lemma closed : closed_info st info.
Proof. split; apply (bool_decide_unpack _); by vm_compute. Qed.

Lemma offload_call_witness :
  exists s3, ChopOff.chopped ccfg (ChopOff.gen_cb_stubs (fun h => h) st) 0x40
    (gyh_call tcfg st 0 0 body hfuncs) (gyh_call_grt tcfg st 0 0 body hfuncs)
    stub info [RInt 7] s0 = Ok (RInt 0x507, s3).
Proof.
  destruct (offload_call ccfg tcfg bw st (fun h => h) 0x40 0 0 body hfuncs 0x100 info stub
              [RInt 7] s0) as (refs & cbs & s1 & Henv & _ & Hrun);
    [done|done|exact hfuncs_eq|exact functbl_numbers|by vm_compute..|exact closed|done|].
  destruct (Hrun (RInt 0x507) s1) as (s3 & Hs3 & _); [|done|by exists s3].
  unfold body. rewrite (proj1 Henv 0x500); [done|].
  apply (bool_decide_unpack _). by vm_compute.
Defined.

(** The callback type of [work], whose guest function doubles its argument. *)
Definition cbh : Z := default 0 (chash sig []).
Definition cbstub : StubInfo := default (new_StubInfo sig []) (mCallbackStubs st !! cbh).
Definition double (gfunc : rv) (args : list rv) : sem rv :=
  match args with [RInt x] => mret (RInt (2 * x)) | _ => mret RUndef end.

Lemma callback_call_witness :
  exists s3, TakeOut.do_callback (gyh_callback st (fun h => h) double cbh)
    {[ cbh := RInt cbh ]} cbh sig (RInt 0x500) [RInt 21] s0 = Ok (RInt 42, s3).
Proof.
  destruct (callback_call st (fun h => h) double {[ cbh := RInt cbh ]} cbh cbstub
              (RInt 0x500) [RInt 21] s0) as (s1 & _ & Hrun);
    [by vm_compute|by vm_compute|by vm_compute|by vm_compute|].
  destruct (Hrun (RInt 42) s1) as (s3 & Hs3 & _); [done|done|]. exists s3. exact Hs3.
Defined.

Lemma analyzed_tables_witness :
  exists gft, ChopOff.gen_gfunctbl st = Ok gft /\ Forall is_Some gft.
Proof.
  destruct (analyzed_tables fhash chash elements bw m 9 (fun h => h)
              (fun s => Permutation_refl _) addrs_distinct fit)
    as (cbt & ext & gft & hft & _ & _ & _ & _ & Hg & Hs & _).
  by exists gft.
Defined.

Lemma chop_off_module_witness :
  exists gm, ChopOff.chop_off (ChopOff.mk_Config false true true 0 0) bw (fun _ => false)
    (fun _ => 1) (fun _ => 1) (fun h => h) 0x40 0x48 0x50 0x58 st = Ok gm /\
  forall t f magic n, ChopOff.gm_gfunctbl gm = Some t ->
    ChopOff.bn_prefix (ChopOff.gm_benefits gm) !! f = Some (magic, n) ->
    magic = kFCPcmMagic /\ t !! Z.to_nat n = Some (Some f).
Proof.
  destruct (chop_off_module fhash chash elements bw m 9 (ChopOff.mk_Config false true true 0 0)
              (fun _ => false) (fun _ => 1) (fun _ => 1) (fun h => h) 0x40 0x48 0x50 0x58
              (fun s => Permutation_refl _) addrs_distinct fit) as (gm & Hgm & _ & _ & Hp).
  exists gm. split; [exact Hgm|exact Hp].
Defined.


End ToyOffload.
