(* ===== verification/Program.v ===== *)
(** * Whole programs

    Puts everything together for a program of several functions: the original
    program, in which every function runs in the guest, and the program after
    the passes, in which a call of a chopped function runs the code [ChopOff]
    put in place of its body, the runtime selects the host function, the code
    of [TakeOut] runs it, and its calls come back through the callback stubs,
    to any depth. The configuration is the basic one, without the global
    reference tables and the fast call paths. *)

From S2P Require Import Prelude LlvmIR Symtbl Analyze StubCode Qlib ChopOff TakeOut Offload.
From S2P Require Import Body TakeBody TakeBodyOk.
#[local] Open Scope string_scope.
#[local] Open Scope Z_scope.

Record pfunc := mk_pfunc {
  p_addr : Z;
  p_type : functype;
  p_attrs : attrlist;
  p_body : body
}.

Definition erase_pfunc (p : pfunc) : func := erase (p_addr p) (p_type p) (p_attrs p) (p_body p).

Definition no_call {A} : A -> list rv -> sem rv := fun _ _ => lift (Fault "no such call").
Definition no_callback (h : Z) (fty : functype) (f : rv) (vs : list rv) : sem rv :=
  lift (Fault "no such call").

Section program.
(** The functions of the program, those of other modules, constant expressions
    and intrinsics. *)
Context (ps : list pfunc) (ext : Z -> list rv -> sem rv).
Context (expr : Z -> list rv -> rv) (intrinsic : Z -> list rv -> sem rv).

Definition func_at (a : Z) : option pfunc := List.find (fun p => p_addr p =? a) ps.

(** ** The original program *)

Definition guest_machine (call : rv -> list rv -> sem rv) : machine :=
  mk_machine expr (fun g => Ok (RInt (g_addr g))) intrinsic call no_call no_call
    no_callback no_callback.

Definition call_body (call : rv -> list rv -> sem rv) (fuel : nat) (p : pfunc) (args : list rv)
    : sem rv :=
  if (length args =? length (f_params (p_body p)))%nat
  then result_of_call (p_type p) (run_body (guest_machine call) fuel (p_body p) args)
  else lift (Fault "arguments").

(** A call, with [n] for the depth of calls and the length of each run. *)
Fixpoint gcall (n : nat) (f : rv) (args : list rv) : sem rv :=
  match n with
  | O => lift (Fault "depth")
  | S n =>
      match f with
      | RInt a =>
          match func_at a with
          | Some p => call_body (gcall n) n p args
          | None => ext a args
          end
      | _ => lift (Fault "callee")
      end
  end.

(** ** The program after the passes *)

Context (function_hash : func -> option Z) (call_site_hash : functype -> attrlist -> option Z).
Context (ptr_order : gset Z -> list Z) (bwl : BwList) (u : Z).
Context (is_dbg_value refers : Z -> bool).
Context (stub_addr : Z -> Z) (mGyhQlibUid : Z).

(** The functions whose body was replaced in the guest. *)
Context (chop : Z -> bool).

Definition st : Symtbl := analyzed function_hash call_site_hash ptr_order bwl (map erase_pfunc ps) u.
Definition ccfg : ChopOff.Config := ChopOff.default_Config.
Definition tcfg : TakeOut.Config := TakeOut.mk_Config false false false false.

Definition hfuncs : list (option (option Z)) :=
  match TakeOut.gen_hfuncs bwl st with Ok t => t | _ => [] end.

(** The host's version of a function. *)
Definition host_code (f : Z) : result (list (id * instr) * body) :=
  match func_at f, mFunctbl st !! f with
  | Some p, Some info =>
      do_function tcfg bwl st call_site_hash (fi_extrefs info) is_dbg_value refers (p_body p)
  | _, _ => Fault "function"
  end.

Definition host_machine (call : rv -> list rv -> sem rv) (cbs : gmap Z rv) : machine :=
  mk_machine expr (fun _ => Fault "undefined symbol") intrinsic no_call no_call no_call
    (fun h fty f vs => TakeOut.do_callback (gyh_callback st stub_addr call h) cbs h fty f vs)
    no_callback.

Definition host_body (call : rv -> list rv -> sem rv) (fuel : nat)
    (f : Z) (refs cbs : gmap Z rv) (args : list rv) : sem rv :=
  hf ← lift (host_code f); run_host (host_machine call cbs) fuel hf refs args.

Definition call_chopped (call : rv -> list rv -> sem rv) (fuel : nat) (a : Z) (args : list rv)
    : sem rv :=
  match mFunctbl st !! a with
  | Some info =>
      match mCallingStubs st !! fi_stub info with
      | Some stub =>
          ChopOff.chopped ccfg (ChopOff.gen_cb_stubs stub_addr st) mGyhQlibUid
            (gyh_call tcfg st 0 0 (host_body call fuel) hfuncs)
            (gyh_call_grt tcfg st 0 0 (host_body call fuel) hfuncs) stub info args
      | None => lift (Fault "stub")
      end
  | None => lift (Fault "function")
  end.

Fixpoint mcall (n : nat) (f : rv) (args : list rv) : sem rv :=
  match n with
  | O => lift (Fault "depth")
  | S n =>
      match f with
      | RInt a =>
          match func_at a with
          | Some p =>
              if chop a then call_chopped (mcall n) n a args else call_body (mcall n) n p args
          | None => ext a args
          end
      | _ => lift (Fault "callee")
      end
  end.

End program.

(** ** Executions on a deeper stack *)

(** What [g] computes in a state, [h] computes in every state that has more on
    the stack, without harm to what is there. *)
Definition deeper {A} (g h : sem A) : Prop :=
  forall s v s', g s = Ok (v, s') -> forall t, extends s t ->
    exists t', h t = Ok (v, t') /\ r_sp t' = r_sp t /\
      (forall a, a < r_sp s -> r_cells t' !! a = r_cells s' !! a) /\
      (forall a, a < r_sp t -> is_Some (r_cells t !! a) -> is_Some (r_cells t' !! a)).

Lemma deeper_sp {A} (g : sem A) s v s' : deeper g g -> g s = Ok (v, s') -> r_sp s' = r_sp s.
Proof.
  intros Hd Hg. destruct (Hd s v s' Hg s) as (t' & Ht & Hsp & _); [done|]. congruence.
Qed.

Lemma deeper_simulates (g h : sem rv) : deeper g g -> deeper g h -> simulates g h.
Proof.
  intros Hgg Hgh s t v s' [Hsp Hc] Hg. pose proof (deeper_sp g s v s' Hgg Hg) as Hsp'.
  split; [lia|]. destruct (Hgh s v s' Hg t) as (t' & Ht & Htsp & Hb & _).
  { split; [lia|]. intros a Ha. symmetry. by apply Hc. }
  exists t'. split; [done|]. split; [lia|]. intros a Ha. symmetry. apply Hb. lia.
Qed.

(** A computation that fits on the same stack and does not depend on its
    depth can be replaced on any stack. *)
Lemma deeper_trans (g h : sem rv) :
  deeper g g ->
  (forall s v s', g s = Ok (v, s') -> exists t', h s = Ok (v, t') /\ r_sp t' = r_sp s /\
     forall a, a < r_sp s -> r_cells t' !! a = r_cells s' !! a) ->
  deeper g h.
Proof.
  intros Hgg Hgh s v s' Hg t He. destruct (Hgg s v s' Hg t He) as (t1 & Ht1 & Hsp1 & Hb & Hk).
  destruct (Hgh t v t1 Ht1) as (t' & Ht' & Hsp' & Hb'). exists t'. split; [done|]. split; [done|].
  split.
  - intros a Ha. rewrite Hb' by (destruct He; lia). by apply Hb.
  - intros a Ha Hs. rewrite Hb' by done. by apply Hk.
Qed.

Lemma no_call_sim {A} (f : A) vs : simulates (no_call f vs) (no_call f vs).
Proof. intros s t v s' _ Hx. discriminate Hx. Qed.

Lemma no_callback_sim h fty f vs : simulates (no_callback h fty f vs) (no_callback h fty f vs).
Proof. intros s t v s' _ Hx. discriminate Hx. Qed.

(** Code that runs in two machines. *)
Section two_machines.
Context (M1 M2 : machine).
Context (Hexpr : m_expr M1 = m_expr M2) (Hglobal : m_global M1 = m_global M2).
Context (Hintrinsic : forall f vs, simulates (m_intrinsic M1 f vs) (m_intrinsic M2 f vs)).
Context (Hcall : forall f vs, simulates (m_call M1 f vs) (m_call M2 f vs)).
Context (Hwhite : forall f vs, simulates (m_white M1 f vs) (m_white M2 f vs)).
Context (Hhost : forall f vs, simulates (m_host M1 f vs) (m_host M2 f vs)).
Context (Hcb : forall h fty f vs, simulates (m_callback M1 h fty f vs) (m_callback M2 h fty f vs)).
Context (Hfcp : forall h fty f vs, simulates (m_fcp_cm M1 h fty f vs) (m_fcp_cm M2 h fty f vs)).

Lemma eval_two r o : eval M1 r o = eval M2 r o.
Proof.
  induction o as [g|c|k ops IH|c ops IH|x| |v IH|l IH|n] using operand_induct; simpl; try done.
  - by rewrite Hglobal.
  - f_equal. induction IH as [|o ops Ho _ IH2]; simpl; [done|]. by rewrite Ho, IH2.
  - rewrite Hexpr. f_equal. induction IH as [|o ops Ho _ IH2]; simpl; [done|]. by rewrite Ho, IH2.
Qed.

Lemma evals_two r ops : evals M1 r ops = evals M2 r ops.
Proof. unfold evals. induction ops as [|o ops IH]; simpl; [done|]. by rewrite eval_two, IH. Qed.

Lemma exec_ins_two r i : simulates (exec_ins M1 r i) (exec_ins M2 r i).
Proof.
  destruct i; simpl; rewrite ?evals_two, ?eval_two, ?Hexpr;
    repeat (apply sim_evals; [done|intros ? _]); auto using sim_ret, sim_lift, sim_load, sim_store,
      alloca_same, simulates_result.
  destruct (is_intrinsic callee); [auto using simulates_result|].
  apply sim_evals; [done|]. intros ? _. auto using simulates_result.
Qed.

Lemma exec_list_two l r s t r' s' :
  same s t -> exec_list M1 l r s = Ok (r', s') ->
  r_sp s <= r_sp s' /\ exists t', exec_list M2 l r t = Ok (r', t') /\ same s' t'.
Proof.
  revert r s t. induction l as [|[x i] l IH]; intros r s t Hst; simpl.
  { intros [= <- <-]. split; [lia|]. by exists t. }
  unfold mbind, sem_bind. destruct (exec_ins M1 r i s) as [[v s1]| |] eqn:Hi; [|done..].
  destruct (exec_ins_two r i s t v s1 Hst Hi) as (Hle & t1 & -> & Hst1). intros Hx.
  destruct (IH _ s1 t1 Hst1 Hx) as (Hle2 & t' & Ht & Hst'). split; [lia|]. by exists t'.
Qed.

Lemma exec_phis_two pred l r0 r : exec_phis M1 pred l r0 r = exec_phis M2 pred l r0 r.
Proof.
  revert r. induction l as [|p l IH]; intros r; simpl; [done|].
  destruct (snd <$> List.find _ _); simpl; [|done]. rewrite eval_two.
  destruct (eval M2 r0 o); simpl; [apply IH|done..].
Qed.

Lemma exec_term_two r tm : exec_term M1 r tm = exec_term M2 r tm.
Proof. destruct tm as [| | |[]|]; simpl; by rewrite ?eval_two. Qed.

Lemma run_two fuel bs pred l r : simulates (run M1 fuel bs pred l r) (run M2 fuel bs pred l r).
Proof.
  revert pred l r. induction fuel as [|fuel IH]; intros pred l r; simpl.
  { intros s t v s' _ Hr. discriminate Hr. }
  apply sim_evals; [done|]. intros b _. rewrite exec_phis_two. apply sim_evals; [done|]. intros r1 _.
  intros s t v s' Hst. unfold mbind, sem_bind.
  destruct (exec_list M1 (b_ins b) r1 s) as [[r2 s2]| |] eqn:Hx; [|done..].
  destruct (exec_list_two _ _ _ _ _ _ Hst Hx) as (Hle & t2 & -> & Hst2).
  rewrite exec_term_two. unfold lift. destruct (exec_term M2 r2 (b_term b)) as [z| |]; [|done..].
  simpl. intros Hr. destruct z as [l'|w].
  - destruct (IH l l' r2 s2 t2 v s' Hst2 Hr) as (Hle2 & t' & Ht & Hst'). split; [lia|]. by exists t'.
  - injection Hr as <- <-. split; [done|]. by exists t2.
Qed.

End two_machines.

(** ** Programs without local variables in memory

    Such programs do not depend on the depth of the stack if what they call
    does not. *)

Section no_alloca.

Lemma deeper_lift {A} (r : result A) : deeper (lift r) (lift r).
Proof.
  intros s v s' Hg t He. unfold lift in *. destruct r as [x| |]; try done. injection Hg as <- <-.
  exists t. split; [done|]. split; [done|]. split; [apply He|done].
Qed.

Lemma deeper_bind {A B} (m : sem A) (f : A -> sem B) :
  deeper m m -> (forall x, deeper (f x) (f x)) -> deeper (m ≫= f) (m ≫= f).
Proof.
  intros Hm Hf s v s' Hg t He. unfold mbind, sem_bind in Hg.
  destruct (m s) as [[x s1]| |] eqn:Hs; [|done..].
  pose proof (deeper_sp m s x s1 Hm Hs) as Hsp.
  destruct (Hm s x s1 Hs t He) as (t1 & Ht1 & Hsp1 & Hb1 & Hk1).
  destruct (Hf x s1 v s' Hg t1) as (t' & Ht' & Hsp' & Hb' & Hk').
  { destruct He. split; [lia|]. intros a Ha. apply Hb1. lia. }
  exists t'. split; [unfold mbind, sem_bind; by rewrite Ht1|]. split; [congruence|]. split.
  - intros a Ha. apply Hb'. lia.
  - intros a Ha Hs'. apply Hk'; [lia|]. by apply Hk1.
Qed.

Lemma deeper_load p : deeper (_ ← live p; CreateLoad p) (_ ← live p; CreateLoad p).
Proof.
  intros s v s' Hg t [He Hc]. unfold mbind, sem_bind, live, CreateLoad in *.
  destruct p as [a| |]; try done. destruct (Z.ltb_spec a (r_sp s)); [|done].
  destruct (Z.ltb_spec a (r_sp t)); [|lia]. rewrite Hc by done.
  destruct (r_cells s !! a); [|done]. injection Hg as <- <-. by exists t.
Qed.

Lemma deeper_store v p :
  deeper (_ ← live p; _ ← CreateStore v p; mret RUndef) (_ ← live p; _ ← CreateStore v p; mret RUndef).
Proof.
  intros s w s' Hg t [He Hc]. unfold mbind, sem_bind, live, CreateStore in *.
  destruct p as [a| |]; try done. destruct (Z.ltb_spec a (r_sp s)); [|done].
  destruct (Z.ltb_spec a (r_sp t)); [|lia]. rewrite Hc by done.
  destruct (r_cells s !! a); [|done]. injection Hg as <- <-. eexists. split; [done|]. simpl.
  split; [done|]. split.
  - intros b Hb. destruct (decide (b = a)) as [->|]; [by rewrite !lookup_insert_eq|].
    rewrite !lookup_insert_ne by done. by apply Hc.
  - intros b _ Hb. rewrite lookup_insert_is_Some. destruct (decide (a = b)); auto.
Qed.

Lemma deeper_body {A} (m : sem A) : deeper m m -> deeper (function_body m) (function_body m).
Proof.
  intros Hm s v s' Hg t He. unfold function_body in *.
  destruct (m s) as [[x s1]| |] eqn:Hs; [|done..]. injection Hg as <- <-.
  destruct (Hm s x s1 Hs t He) as (t1 & -> & Hsp & Hb & Hk). eexists. split; [done|]. done.
Qed.

(** An instruction of the guest's code that is not an [alloca]. *)
Definition plain_ins (i : instr) : bool :=
  match i with
  | IAlloca | HWhite _ _ _ | HHost _ _ _ | HCallback _ _ _ _ | HFcpCm _ _ _ _ => false
  | _ => true
  end.

Definition no_alloca (f : body) : bool :=
  forallb (fun b => forallb (fun e => plain_ins e.2) (b_ins b.2)) (f_blocks f).

Context (M : machine).
Context (Hcall : forall f vs, deeper (m_call M f vs) (m_call M f vs)).
Context (Hintr : forall f vs, deeper (m_intrinsic M f vs) (m_intrinsic M f vs)).

Lemma deeper_lift_bind {A B} (m : result A) (f : A -> sem B) :
  (forall x, m = Ok x -> deeper (f x) (f x)) -> deeper (lift m ≫= f) (lift m ≫= f).
Proof.
  intros Hf s v s' (x & -> & Hg)%bind_lift t He. by apply (Hf x eq_refl s v s' Hg t He).
Qed.

Lemma deeper_result fty (m : sem rv) :
  deeper m m -> deeper (result_of_call fty m) (result_of_call fty m).
Proof. intros Hm. apply deeper_bind; [done|]. intros x. apply (deeper_lift (Ok _)). Qed.

Lemma deeper_exec_list l r :
  forallb (fun e => plain_ins e.2) l = true -> deeper (exec_list M l r) (exec_list M l r).
Proof.
  revert r. induction l as [|[x i] l IH]; intros r Hn; simpl; [apply (deeper_lift (Ok r))|].
  simpl in Hn. apply andb_true_iff in Hn as [Hi Hn]. apply deeper_bind; [|intros v; by apply IH].
  destruct i; try done; simpl; repeat (apply deeper_lift_bind; intros ? _).
  - apply (deeper_lift (Ok _)).
  - apply deeper_lift.
  - apply deeper_load.
  - apply deeper_store.
  - destruct (is_intrinsic callee); [by apply deeper_result|].
    apply deeper_lift_bind. intros f _. by apply deeper_result.
  - by apply deeper_result.
Qed.

Lemma deeper_run f fuel pred l r :
  no_alloca f = true -> deeper (run M fuel (f_blocks f) pred l r) (run M fuel (f_blocks f) pred l r).
Proof.
  intros Hn. revert pred l r. induction fuel as [|fuel IH]; intros pred l r; simpl.
  { apply deeper_lift. }
  apply deeper_lift_bind. intros b Hb%of_option_Ok_inv.
  apply deeper_lift_bind. intros r1 _. apply deeper_bind.
  - apply deeper_exec_list. unfold no_alloca in Hn. rewrite forallb_forall in Hn.
    unfold block_at in Hb. destruct (List.find _ _) as [e|] eqn:Hf; [|done]. injection Hb as <-.
    apply List.find_some in Hf as [Hin _]. by apply Hn.
  - intros r2. apply deeper_lift_bind. intros [l'|v] _; [apply IH|apply (deeper_lift (Ok v))].
Qed.

End no_alloca.

Lemma gcall_deeper ps ext expr intrinsic :
  (forall p, p ∈ ps -> no_alloca (p_body p) = true) ->
  (forall a vs, deeper (ext a vs) (ext a vs)) ->
  (forall f vs, deeper (intrinsic f vs) (intrinsic f vs)) ->
  forall n f args, deeper (gcall ps ext expr intrinsic n f args) (gcall ps ext expr intrinsic n f args).
Proof.
  intros Hps Hext Hintr n. induction n as [|n IH]; intros f args; [apply deeper_lift|]. simpl.
  destruct f as [a| |]; [|apply deeper_lift..].
  destruct (func_at ps a) as [p|] eqn:Hp; [|apply Hext].
  unfold call_body. destruct (length args =? _)%nat; [|apply deeper_lift].
  apply deeper_result, deeper_body, deeper_run; [apply IH|apply Hintr|].
  apply Hps. unfold func_at in Hp. apply List.find_some in Hp as [Hin _]. by apply list_elem_of_In.
Qed.

(** ** The passes keep the meaning of the program *)

Section correct.
Context (ps : list pfunc) (ext : Z -> list rv -> sem rv).
Context (expr : Z -> list rv -> rv) (intrinsic : Z -> list rv -> sem rv).
Context (function_hash : func -> option Z) (call_site_hash : functype -> attrlist -> option Z).
Context (ptr_order : gset Z -> list Z) (bwl : BwList) (u : Z).
Context (is_dbg_value refers : Z -> bool) (stub_addr : Z -> Z) (mGyhQlibUid : Z).
Context (chop : Z -> bool).

#[local] Abbreviation gc := (gcall ps ext expr intrinsic).
#[local] Abbreviation mc := (mcall ps ext expr intrinsic function_hash call_site_hash ptr_order
                               bwl u is_dbg_value refers stub_addr mGyhQlibUid chop).
#[local] Abbreviation st := (st ps function_hash call_site_hash ptr_order bwl u).
#[local] Abbreviation hfuncs := (hfuncs ps function_hash call_site_hash ptr_order bwl u).

(** The calls of the program's functions. *)
Definition call_in (p : pfunc) (fty : functype) (attrs : attrlist) : Prop :=
  exists callee args, ICall callee args fty attrs ∈ fn_ins (erase_pfunc p).

(** The program fits the passes: its functions are well-formed and have
    different addresses, no two signatures collide, no call is to a callee
    on the white list, and only functions of the function table that the host
    has are chopped. *)
Record fits : Prop := {
  fits_order : forall s, ptr_order s ≡ₚ elements s;
  fits_addrs : NoDup (map fn_addr (map erase_pfunc ps));
  fits_tables : tables_fit function_hash call_site_hash ptr_order bwl (map erase_pfunc ps) u;
  fits_wf : forall p, p ∈ ps -> wf_body is_dbg_value (p_body p) = true;
  fits_params : forall p, p ∈ ps -> length (f_params (p_body p)) = length (ft_params (p_type p));
  fits_white : forall p, p ∈ ps -> no_white bwl (erase_pfunc p) = true;
  fits_calling : forall p q h, p ∈ ps -> q ∈ ps -> function_hash (erase_pfunc p) = Some h ->
    function_hash (erase_pfunc q) = Some h -> p_type p = p_type q;
  fits_callback : forall p fty attrs h stub, p ∈ ps -> call_in p fty attrs ->
    call_site_hash fty attrs = Some h -> mCallbackStubs st !! h = Some stub -> si_func stub = fty;
  fits_chop : forall a, chop a = true ->
    is_Some (mFunctbl st !! a) /\ TakeOut.black bwl a = false
}.

Context (Hfits : fits).
Context (Hintrinsic : forall f vs, simulates (intrinsic f vs) (intrinsic f vs)).

(** Calls do not depend on how deep the stack is. *)
Context (Hframe : forall n f args, deeper (gc n f args) (gc n f args)).

Lemma func_at_in a p : func_at ps a = Some p -> p ∈ ps /\ p_addr p = a.
Proof.
  unfold func_at. intros [Hin He%Z.eqb_eq]%List.find_some. by rewrite <- list_elem_of_In in Hin.
Qed.

(** What the analysis found for a function of the table. *)
Lemma chopped_facts a p info :
  func_at ps a = Some p -> mFunctbl st !! a = Some info ->
  accepted function_hash call_site_hash bwl (erase_pfunc p) /\
  fi_extrefs info = needed_grefs bwl (erase_pfunc p) /\
  fi_cbstubs info = needed_callbacks call_site_hash bwl (erase_pfunc p) /\
  closed_info st info /\ numbers (mFunctbl st) /\ TakeOut.gen_hfuncs bwl st = Ok hfuncs /\
  exists stub, mCallingStubs st !! fi_stub info = Some stub /\ stub_wf stub /\
    si_func stub = p_type p.
Proof.
  intros Hp Hi. destruct (func_at_in a p Hp) as [Hin <-].
  assert (erase_pfunc p ∈ map erase_pfunc ps) as Hm by (by apply list_elem_of_fmap_2).
  destruct Hfits as [Ho Hnd Hfit _ _ _ Hcol _ _].
  destruct (analysis_ready function_hash call_site_hash ptr_order bwl (map erase_pfunc ps) u
              (erase_pfunc p) info Ho Hnd Hfit Hm Hi)
    as (Hc & Hn & (tbl & Ht) & stub & g & Hs & Hw & Hg & Hh & Hf).
  destruct (analyze_ainv function_hash call_site_hash ptr_order bwl Ho _ Hnd)
    as [_ _ _ _ _ _ _ I4 I5 _ _].
  destruct (I5 (erase_pfunc p) info Hm Hi) as (Hh' & Hgr & Hcb).
  destruct (proj1 (I4 (p_addr p))) as (f' & Hf' & Hacc & He); [by eexists|].
  assert (f' = erase_pfunc p) as -> by (by eapply NoDup_map_inj).
  split; [done|]. split; [done|]. split; [done|]. split; [done|]. split; [done|].
  split; [unfold Program.hfuncs, Program.st; by rewrite Ht|].
  exists stub. split; [done|]. split; [done|]. rewrite Hf.
  apply list_elem_of_fmap in Hg as (q & -> & Hq). simpl.
  apply (Hcol q p (fi_stub info)); [done|done|congruence|done].
Qed.

Lemma callback_stub_wf h stub : mCallbackStubs st !! h = Some stub -> stub_wf stub.
Proof.
  intros Hs. destruct Hfits as [Ho Hnd _ _ _ _ _ _ _].
  destruct (analyze_ainv function_hash call_site_hash ptr_order bwl Ho _ Hnd)
    as [_ _ _ _ _ _ _ _ _ _ I7].
  destruct (I7 h stub Hs) as (fty & attrs & n & _ & ->). apply new_StubInfo_wf.
Qed.

(** The host's machine simulates the guest's, if deeper calls do. *)
Lemma machine_offloads n p info cbs :
  (forall f args, deeper (gc n f args) (mc n f args)) -> p ∈ ps ->
  closed_info st info ->
  (forall h, h ∈ fi_cbstubs info -> cbs !! h = Some (RInt (stub_addr h))) ->
  Offloads tcfg bwl st call_site_hash (fi_cbstubs info)
    (guest_machine expr intrinsic (gc n))
    (host_machine ps expr intrinsic function_hash call_site_hash ptr_order bwl u stub_addr (mc n) cbs)
    (call_in p).
Proof.
  intros IH Hp [_ Hc] Hcbs. split; [done|done|apply Hintrinsic|done|].
  intros fty attrs h f vs Hsite Hh Hin Hlen s t v s' Hst Hg. simpl.
  rewrite Forall_forall in Hc. destruct (Hc h Hin) as [stub Hs].
  pose proof (callback_stub_wf h stub Hs) as Hwf.
  pose proof (fits_callback Hfits p fty attrs h stub Hp Hsite Hh Hs) as Hf.
  unfold result_of_call, mbind, sem_bind in Hg. simpl in Hg.
  destruct (gc n f vs s) as [[w s1]| |] eqn:Hgc; [|done..]. injection Hg as <- <-.
  pose proof (deeper_sp _ _ _ _ (Hframe n f vs) Hgc) as Hsp. split; [lia|].
  destruct (callback_run st stub_addr (mc n) cbs h stub f vs t) as (t1 & Hext & Hrun);
    [by apply Hcbs|done|done|by rewrite Hf|].
  destruct Hst as [Hspt Hct].
  destruct (IH f vs s w s1 Hgc t1) as (t2 & Ht2 & Hsp2 & Hb & Hk).
  { destruct Hext as [He1 He2]. split; [lia|]. intros a Ha. rewrite He2 by lia. symmetry. by apply Hct. }
  destruct (Hrun w t2 Ht2 Hk) as (t3 & Ht3 & Hsp3 & Hb3). exists t3. split; [|split].
  - rewrite <- Hf. destruct Hwf as [Hret _]. rewrite Hret in Ht3. rewrite Ht3.
    by destruct (is_void _).
  - lia.
  - intros a Ha. rewrite Hb3, Hb by lia. done.
Qed.

(** A function that was not chopped. *)
Lemma call_body_ok n p args s v s' :
  (forall f args, deeper (gc n f args) (mc n f args)) ->
  call_body expr intrinsic (gc n) n p args s = Ok (v, s') ->
  exists t', call_body expr intrinsic (mc n) n p args s = Ok (v, t') /\ r_sp t' = r_sp s /\
    forall a, a < r_sp s -> r_cells t' !! a = r_cells s' !! a.
Proof.
  intros IH. unfold call_body. destruct (length args =? _)%nat; [|done].
  unfold result_of_call, run_body, function_body, mbind, sem_bind. simpl.
  destruct (run (guest_machine expr intrinsic (gc n)) n _ _ _ _ s) as [[w s1]| |] eqn:Hr; [|done..].
  intros [= <- <-].
  destruct (run_two (guest_machine expr intrinsic (gc n)) (guest_machine expr intrinsic (mc n))
    eq_refl eq_refl Hintrinsic (fun f vs => deeper_simulates _ _ (Hframe n f vs) (IH f vs))
    no_call_sim no_call_sim no_callback_sim no_callback_sim
    n (f_blocks (p_body p)) no_block (f_entry (p_body p)) (arg_regs (f_params (p_body p)) args)
    s s w s1 (same_refl s) Hr) as (Hle & t1 & Ht1 & Hsp & Hc).
  rewrite Ht1. eexists. split; [done|]. simpl. split; [done|]. intros a Ha. symmetry. apply Hc. lia.
Qed.

(** A chopped function. *)
Lemma call_chopped_ok n a p args s v s' :
  (forall f args, deeper (gc n f args) (mc n f args)) ->
  func_at ps a = Some p -> chop a = true ->
  gc (S n) (RInt a) args s = Ok (v, s') ->
  exists t', mc (S n) (RInt a) args s = Ok (v, t') /\ r_sp t' = r_sp s /\
    forall b, b < r_sp s -> r_cells t' !! b = r_cells s' !! b.
Proof.
  intros IH Hp Hch Hg. destruct (fits_chop Hfits a Hch) as [[info Hi] Hb].
  destruct (func_at_in a p Hp) as [Hin Ha].
  destruct (chopped_facts a p info Hp Hi)
    as (Hacc & Hgr & Hcb & Hclosed & Hnum & Hht & stub & Hs & Hwf & Hty).
  assert (length args = length (ft_params (si_func stub))) as Hlen.
  { rewrite Hty, <- (fits_params Hfits p Hin). simpl in Hg. rewrite Hp in Hg.
    unfold call_body in Hg. destruct (Nat.eqb_spec (length args) (length (f_params (p_body p)))); done. }
  set (hb := host_body ps expr intrinsic function_hash call_site_hash ptr_order bwl u
               is_dbg_value refers stub_addr (mc n) n).
  destruct (offload_run ccfg tcfg bwl st stub_addr mGyhQlibUid 0 0 hb hfuncs a info stub args s)
    as (refs & cbs & s1 & [Hrefs Hcbs] & Hext & Hrun); try done.
  destruct (Hframe (S n) (RInt a) args s v s' Hg s1 Hext) as (s2 & Hg2 & Hsp2 & Hb2 & Hk2).
  simpl in Hg2. rewrite Hp in Hg2. unfold call_body in Hg2.
  destruct (length args =? _)%nat; [|done].
  unfold result_of_call, run_body, function_body, mbind, sem_bind in Hg2. simpl in Hg2.
  destruct (run (guest_machine expr intrinsic (gc n)) n _ _ _ _ s1) as [[w s3]| |] eqn:Hr; [|done..].
  injection Hg2 as Hv <-. cbn [r_cells r_sp] in *.
  pose proof (machine_offloads n p info cbs IH Hin Hclosed Hcbs) as Hoff.
  destruct (accepted_function tcfg bwl st call_site_hash (fi_extrefs info) (fi_cbstubs info)
              is_dbg_value refers _ _ (call_in p) function_hash
              (p_body p) (p_addr p) (p_type p) (p_attrs p)) as (hf & Hhf & Hsim).
  { by apply (fits_wf Hfits). }
  { exact Hacc. }
  { by rewrite Hgr. }
  { by rewrite Hcb. }
  { by apply (fits_white Hfits). }
  { intros callee args' t at' Hx. by exists callee, args'. }
  destruct (Hsim n refs args Hrefs s1 s1 w s3 (same_refl s1) Hr) as (Hle & t1 & Ht1 & Hsp1 & Hc1).
  destruct (Hrun w t1) as (t' & Ht' & Hsp' & Hb').
  { unfold hb, host_body, mbind, sem_bind, lift, host_code. rewrite Hp. fold st. rewrite Hi, Hhf.
    exact Ht1. }
  { intros b Hlt Hsome. rewrite <- Hc1 by lia. by apply Hk2. }
  exists t'. split; [|split; [done|]].
  - simpl. rewrite Hp, Hch. unfold call_chopped. fold st. rewrite Hi, Hs. fold hb.
    rewrite Ht'. f_equal. f_equal. rewrite <- Hv. destruct Hwf as [Hret _]. rewrite Hret, Hty.
    by destruct (is_void (ft_ret (p_type p))).
  - intros b Hlt. rewrite Hb' by done. destruct Hext as [He1 He2].
    rewrite <- Hc1 by lia. by apply Hb2.
Qed.

Lemma offloaded_calls n f args : deeper (gc n f args) (mc n f args).
Proof.
  revert f args. induction n as [|n IH]; intros f args; [by intros s v s' Hg|].
  apply deeper_trans; [apply Hframe|]. intros s v s' Hg.
  destruct f as [a| |]; [|done..].
  destruct (func_at ps a) as [p|] eqn:Hp.
  - destruct (chop a) eqn:Hch; [by eapply call_chopped_ok|].
    simpl in Hg |- *. rewrite Hp in *. rewrite Hch. by apply call_body_ok.
  - pose proof (deeper_sp _ _ _ _ (Hframe (S n) (RInt a) args) Hg) as Hsp.
    exists s'. split; [|done]. simpl in Hg |- *. by rewrite Hp in *.
Qed.

Lemma offloaded_run n f args s v s' :
  gc n f args s = Ok (v, s') -> exists t', mc n f args s = Ok (v, t') /\ same s' t'.
Proof.
  intros Hg. destruct (offloaded_calls n f args s v s' Hg s) as (t' & Ht & Hsp & Hb & _); [done|].
  exists t'. split; [done|]. pose proof (deeper_sp _ _ _ _ (Hframe n f args) Hg) as Hsp'.
  split; [lia|]. intros a Ha. symmetry. apply Hb. lia.
Qed.


End correct.

(** ** Example

    [work] calls [helper] and an external function; both are chopped, so that
    the host version of [work] calls back to a function that runs on the host
    again. *)
Module ToyProgram.
Import ToyModule ToyBody.

Definition helper : pfunc := mk_pfunc 0x200 sig [] (mk_body [0] 1
  [(1, mk_block [] [(Src 1, IOp 13 [OLocal (Src 0); gep])] (TRet (Some (OLocal (Src 1)))))]).

Definition work : pfunc := mk_pfunc 0x100 sig [] (mk_body [0] 1
  [(1, mk_block []
      [ (Src 1, ICallSite (OGlobal (mk_gval 0x200 (KFunction false))) [OLocal (Src 0)] sig []);
        (Src 2, ICallSite ext_fn [OLocal (Src 1)] sig []);
        (Src 3, IStore (OLocal (Src 2)) var) ]
      (TBr 2));
   (2, mk_block [mk_phi (Src 4) [(1, gep)]]
      [ (Src 5, ILoad var); (Src 6, IOp 13 [OLocal (Src 4); OLocal (Src 5)]) ]
      (TRet (Some (OLocal (Src 6)))))]).

Definition prog : list pfunc := [work; helper].
Definition ext_call (a : Z) (args : list rv) : sem rv := double (RInt a) args.
Definition nob : BwList := mk_BwList ∅ ∅ ∅ false.
Definition st : Symtbl := Program.st prog fhash chash elements nob 9.

Definition chop (a : Z) : bool := (a =? 0x100) || (a =? 0x200).

Lemma toy_fits : fits prog fhash chash elements nob 9 (fun _ => false) chop.
Proof.
  assert (forall P : pfunc -> Prop, P work -> P helper -> forall p, p ∈ prog -> P p) as Hall.
  { intros P H1 H2 p [->|[->|Hp]%elem_of_cons]%elem_of_cons; [done..|by apply elem_of_nil in Hp]. }
  assert (forall p, p ∈ prog -> p_type p = sig) as Hty by by apply Hall.
  split.
  - by intros s.
  - by apply (bool_decide_unpack _).
  - split_and!; by vm_compute.
  - by apply Hall.
  - by apply Hall.
  - by apply Hall.
  - intros p q h Hp Hq _ _. by rewrite !Hty.
  - intros p fty attrs h stub Hp (callee & args & Hin) Hh Hs.
    assert (fty = sig /\ attrs = []) as [-> ->].
    { assert (forall p, p ∈ prog -> Forall (fun i => match i with
        | ICall _ _ t a => t = sig /\ a = [] | _ => True end) (fn_ins (erase_pfunc p))) as Hc
        by (apply Hall; repeat constructor).
      specialize (Hc p Hp). rewrite Forall_forall in Hc. exact (Hc _ Hin). }
    assert (h = default 0 (chash sig [])) as -> by (by rewrite Hh).
    vm_compute in Hs. by injection Hs as <-.
  - intros a [->%Z.eqb_eq| ->%Z.eqb_eq]%orb_true_iff;
      (split; [apply (bool_decide_unpack _); by vm_compute|by vm_compute]).
Qed.


End ToyProgram.
