(* ===== verification/Outline.v ===== *)
(** * Outlining of variadic calls

    Models [lib/gyhcall/Outline.cpp]: before the analysis, the variadic calls of
    a function, which would keep it in the guest, are replaced by calls of
    functions made for the purpose, the outliners, which take the operands of the
    call, the callee last, and do the call. Shows that this keeps the meaning of
    the program, and what it changes for the analysis. *)

From S2P Require Import Prelude LlvmIR TypeHash Symtbl Analyze StubCode Body TakeBodyOk Program.
#[local] Open Scope string_scope.
#[local] Open Scope Z_scope.

Section outline.
(** [type_hash.cpp], the type and the name of a value (values are those of a
    function, by its address), the addresses of the outliners by their hash,
    the numbers of two attributes, and the order of a [DenseMap]. *)
Context (type_hash : ty -> option Z).
Context (getType : Z -> operand -> ty) (getName : Z -> operand -> string).
Context (outliner_addr : Z -> Z) (kNoInline kOptimizeNone : Z).
Context (dense_order : gmap Z pfunc -> list pfunc).
Context (mBwList : BwList).

(** ** Which calls *)

Record CheckFunction := mk_CheckFunction {
  mToOutline : list (id * instr);
  mToNegOutline : list (id * instr)
}.

Definition check_ins (func : Z) (ret : CheckFunction) (e : id * instr) : CheckFunction :=
  let neg := mk_CheckFunction (mToOutline ret) (mToNegOutline ret ++ [e]) in
  match e.2 with
  | IIndirect _ | IException _ _ => neg
  | ICallSite callee _ callbackType _ =>
      match callee with
      | OAsm => neg
      | _ =>
          if ft_vararg callbackType
          then mk_CheckFunction (mToOutline ret ++ [e]) (mToNegOutline ret)
          else if (getName func callee =? "_setjmp")%string then neg else ret
      end
  | _ => ret
  end.

Definition body_ins (f : body) : list (id * instr) := concat (map (fun b => b_ins b.2) (f_blocks f)).

Definition check_function (p : pfunc) : CheckFunction :=
  fold_left (check_ins (p_addr p)) (body_ins (p_body p)) (mk_CheckFunction [] []).

(** ** The outliners *)

(** The operands of a call: its arguments, then its callee. *)
Definition operands (i : instr) : list operand :=
  match i with
  | ICallSite callee args _ _ => (args ++ [callee])%list
  | _ => []
  end.

Definition outliner_type (func : Z) (i : instr) : functype :=
  match i with
  | ICallSite _ _ fty _ => mk_functype (ft_ret fty) (map (getType func) (operands i)) false
  | _ => mk_functype (TPrim VoidTyID) [] false
  end.

(** [clone->setOperand(idx, &arg)], with [n] arguments besides the callee. *)
Definition clone_call (n : nat) (i : instr) : instr :=
  match i with
  | ICallSite _ _ fty attrs =>
      ICallSite (OLocal (Src (Z.of_nat n))) (map (fun x => OLocal (Src (Z.of_nat x))) (seq 0 n)) fty attrs
  | _ => i
  end.

Definition outliner_body (funcTy : functype) (i : instr) : body :=
  let n := length (operands i) in
  mk_body (map Z.of_nat (seq 0 n)) 0
    [(0, mk_block [] [(Src (Z.of_nat n), clone_call (n - 1) i)]
           (TRet (if is_void (ft_ret funcTy) then None else Some (OLocal (Src (Z.of_nat n))))))].

Definition new_outliner (hash : Z) (funcTy : functype) (i : instr) : pfunc :=
  mk_pfunc (outliner_addr hash) funcTy [[AEnum kNoInline; AEnum kOptimizeNone]]
    (outliner_body funcTy i).

Definition gen_outliner (func : Z) (i : instr) (mOutliners : gmap Z pfunc)
    : option pfunc * gmap Z pfunc :=
  let funcTy := outliner_type func i in
  match type_hash (ty_of_fun funcTy) with
  | None => (None, mOutliners)
  | Some hash =>
      match mOutliners !! hash with
      | Some f => (Some f, mOutliners)
      | None =>
          let f := new_outliner hash funcTy i in
          (Some f, <[hash := f]> mOutliners)
      end
  end.

(** ** The pass *)

(** [ins->replaceAllUsesWith(newIns); ins->eraseFromParent()]: the new
    instruction takes the place and the name of the old one. *)
Definition replace_ins (x : id) (i : instr) (f : body) : body :=
  mk_body (f_params f) (f_entry f)
    (map (fun b => (b.1, mk_block (b_phis b.2)
                           (map (fun e => if decide (e.1 = x) then (x, i) else e) (b_ins b.2))
                           (b_term b.2))) (f_blocks f)).

Definition call_outliner (outliner : pfunc) (i : instr) : instr :=
  ICallSite (OGlobal (mk_gval (p_addr outliner) (KFunction false))) (operands i)
    (p_type outliner) [].

Definition outline_ins (func : Z) (st : body * gmap Z pfunc) (e : id * instr)
    : body * gmap Z pfunc :=
  let '(f, mOutliners) := st in
  match gen_outliner func e.2 mOutliners with
  | (None, mOutliners) => (f, mOutliners)
  | (Some outliner, mOutliners) => (replace_ins e.1 (call_outliner outliner e.2) f, mOutliners)
  end.

(** One round of the loop over the module, with the functions reported. *)
Definition outline_func (p : pfunc) (mOutliners : gmap Z pfunc)
    : pfunc * gmap Z pfunc * list Z :=
  let bw := bw_of mOutline mBwList (p_addr p) in
  if bool_decide (bw = Some false) then (p, mOutliners, [])
  else if ft_vararg (p_type p) then (p, mOutliners, [])
  else
    let check := check_function p in
    let diags :=
      match bw, mToOutline check, mToNegOutline check with
      | Some true, [], [] => [p_addr p]
      | _, _, _ => []
      end in
    match mToNegOutline check with
    | _ :: _ => (p, mOutliners, diags)
    | [] =>
        let '(f, mOutliners) :=
          fold_left (outline_ins (p_addr p)) (mToOutline check) (p_body p, mOutliners) in
        (mk_pfunc (p_addr p) (p_type p) (p_attrs p) f, mOutliners, diags)
    end.

Fixpoint outline_funcs (md : list pfunc) (mOutliners : gmap Z pfunc)
    : list pfunc * gmap Z pfunc * list Z :=
  match md with
  | [] => ([], mOutliners, [])
  | p :: md =>
      let '(p, mOutliners, d) := outline_func p mOutliners in
      let '(md, mOutliners, ds) := outline_funcs md mOutliners in
      (p :: md, mOutliners, (d ++ ds)%list)
  end.

(** [Outline::operator()] *)
Definition outline (md : list pfunc) : list pfunc * list Z :=
  let '(md, mOutliners, diags) := outline_funcs md ∅ in
  ((md ++ dense_order mOutliners)%list, diags).

(** ** What the pass does to a function *)

(** The calls that are outlined. *)
Definition to_outline (e : id * instr) : bool :=
  match e.2 with
  | ICallSite OAsm _ _ _ => false
  | ICallSite _ _ fty _ => ft_vararg fty
  | _ => false
  end.

(** An instruction is kept, or is a variadic call that became a call of the
    outliner for its hash. *)
Definition ins_outlined (O : gmap Z pfunc) (func : Z) (e e' : id * instr) : Prop :=
  e' = e \/ exists h o, to_outline e = true /\ O !! h = Some o /\
    type_hash (ty_of_fun (outliner_type func e.2)) = Some h /\ e' = (e.1, call_outliner o e.2).

Definition block_outlined (O : gmap Z pfunc) (func : Z) (b b' : Z * block) : Prop :=
  b'.1 = b.1 /\ b_phis b'.2 = b_phis b.2 /\ b_term b'.2 = b_term b.2 /\
  Forall2 (ins_outlined O func) (b_ins b.2) (b_ins b'.2).

Definition body_outlined (O : gmap Z pfunc) (func : Z) (f f' : body) : Prop :=
  f_params f' = f_params f /\ f_entry f' = f_entry f /\
  Forall2 (block_outlined O func) (f_blocks f) (f_blocks f').

Definition pfunc_outlined (O : gmap Z pfunc) (p p' : pfunc) : Prop :=
  p_addr p' = p_addr p /\ p_type p' = p_type p /\ p_attrs p' = p_attrs p /\
  body_outlined O (p_addr p) (p_body p) (p_body p').

(** Values are defined once. *)
Definition ssa (f : body) : Prop := NoDup (map fst (body_ins f)).

(** Every outliner was made for a call of the module. *)
Definition made_outliner (md : list pfunc) (h : Z) (o : pfunc) : Prop :=
  exists p e, p ∈ md /\ e ∈ body_ins (p_body p) /\ to_outline e = true /\
    type_hash (ty_of_fun (outliner_type (p_addr p) e.2)) = Some h /\
    o = new_outliner h (outliner_type (p_addr p) e.2) e.2.

Definition made_outliners (md : list pfunc) (O : gmap Z pfunc) : Prop :=
  forall h o, O !! h = Some o -> made_outliner md h o.

Lemma elem_of_body_ins f b e : b ∈ f_blocks f -> e ∈ b_ins b.2 -> e ∈ body_ins f.
Proof.
  intros Hb He. apply list_elem_of_In, in_concat. exists (b_ins b.2).
  split; apply list_elem_of_In; [|done]. by apply (list_elem_of_fmap_2 (fun b => b_ins b.2)).
Qed.

Lemma check_to_outline func l ret :
  mToOutline (fold_left (check_ins func) l ret) =
    (mToOutline ret ++ List.filter to_outline l)%list.
Proof.
  revert ret. induction l as [|[x i] l IH]; intros ret; simpl; [by rewrite app_nil_r|].
  rewrite IH. unfold check_ins, to_outline. simpl.
  destruct i as [| | | | |callee args fty attrs| | | | | | |]; try done.
  destruct callee, (ft_vararg fty); simpl; try (by rewrite <- ?app_assoc);
    by destruct (String.eqb (getName func _) _).
Qed.

Lemma ins_outlined_mono O O' func e e' :
  O ⊆ O' -> ins_outlined O func e e' -> ins_outlined O' func e e'.
Proof.
  intros Hsub [->|(h & o & Ht & Ho & Hh & ->)]; [by left|]. right. exists h, o.
  split; [done|]. split; [by eapply lookup_weaken|done].
Qed.

Lemma body_outlined_mono O O' func f f' :
  O ⊆ O' -> body_outlined O func f f' -> body_outlined O' func f f'.
Proof.
  intros Hsub (Hp & He & Hb). split; [done|]. split; [done|].
  eapply Forall2_impl; [done|]. intros b b' (H1 & H2 & H3 & H4). split_and!; try done.
  eapply Forall2_impl; [done|]. intros e e'. by apply ins_outlined_mono.
Qed.

Lemma body_outlined_refl O func f : body_outlined O func f f.
Proof.
  split; [done|]. split; [done|]. apply Forall2_same_length_lookup_2; [done|].
  intros i b b' -> [= ->]. split_and!; try done.
  apply Forall2_same_length_lookup_2; [done|]. intros j e e' -> [= ->]. by left.
Qed.

Lemma gen_outliner_spec md p e O r O' :
  p ∈ md -> e ∈ body_ins (p_body p) -> to_outline e = true -> made_outliners md O ->
  gen_outliner (p_addr p) e.2 O = (r, O') ->
  O ⊆ O' /\ made_outliners md O' /\
  forall o, r = Some o -> exists h, O' !! h = Some o /\
    type_hash (ty_of_fun (outliner_type (p_addr p) e.2)) = Some h.
Proof.
  unfold gen_outliner. intros Hp He Ht HO. destruct (type_hash _) as [h|] eqn:Hh.
  2: { intros [= <- <-]. by split_and!. }
  destruct (O !! h) as [f|] eqn:Hf; intros [= <- <-].
  { split_and!; [done|done|]. intros o [= <-]. by exists h. }
  split_and!.
  - by apply insert_subseteq.
  - intros k o [[<- <-]|[_ Hk]]%lookup_insert_Some; [|by apply HO]. by exists p, e.
  - intros o [= <-]. exists h. by rewrite lookup_insert_eq.
Qed.

Lemma replace_ins_outlined O func f f' e o h :
  ssa f -> e ∈ body_ins f -> to_outline e = true -> O !! h = Some o ->
  type_hash (ty_of_fun (outliner_type func e.2)) = Some h ->
  body_outlined O func f f' ->
  body_outlined O func f (replace_ins e.1 (call_outliner o e.2) f').
Proof.
  intros Hssa He Ht Ho Hh (Hp & Hen & Hb). split; [done|]. split; [done|]. simpl.
  rewrite Forall2_fmap_r. unfold ssa in Hssa.
  assert (forall b, b ∈ f_blocks f -> forall e0, e0 ∈ b_ins b.2 -> e0 ∈ body_ins f) as Hin.
  { intros b Hbf e0 He0. by eapply elem_of_body_ins. }
  revert Hin Hb. generalize (f_blocks f) (f_blocks f'). intros bs bs' Hin Hb.
  induction Hb as [|b b' bs bs' (H1 & H2 & H3 & H4) _ IH]; constructor.
  - split_and!; try done. simpl. rewrite Forall2_fmap_r.
    assert (forall e0, e0 ∈ b_ins b.2 -> e0 ∈ body_ins f) as Hin' by (apply Hin; by left).
    clear -Hin' H4 Hssa He Ht Ho Hh. induction H4 as [|e0 e1 l l' Hr _ IH]; constructor.
    + assert (e1.1 = e0.1) as Hid by (by destruct Hr as [->|(? & ? & _ & _ & _ & ->)]).
      unfold compose. case_decide as Hx; [|done]. right. exists h, o.
      assert (e0 = e) as ->; [|done].
      eapply NoDup_map_inj; [exact Hssa|apply Hin'; by left|done|congruence].
    + apply IH. intros e2 H2. apply Hin'. by right.
  - apply IH. intros b2 Hb2. apply Hin. by right.
Qed.

Lemma outline_inss_spec md p l O f' f'' O' :
  p ∈ md -> ssa (p_body p) ->
  Forall (fun e => e ∈ body_ins (p_body p) /\ to_outline e = true) l ->
  made_outliners md O -> body_outlined O (p_addr p) (p_body p) f' ->
  fold_left (outline_ins (p_addr p)) l (f', O) = (f'', O') ->
  O ⊆ O' /\ made_outliners md O' /\ body_outlined O' (p_addr p) (p_body p) f''.
Proof.
  intros Hp Hssa Hl. revert f' O. induction Hl as [|e l [He Ht] _ IH]; intros f' O HO Hf; simpl.
  { by intros [= <- <-]. }
  destruct (gen_outliner (p_addr p) e.2 O) as [r O1] eqn:Hg.
  destruct (gen_outliner_spec md p e O r O1 Hp He Ht HO Hg) as (Hsub & HO1 & Hr).
  assert (body_outlined O1 (p_addr p) (p_body p)
    (match r with Some o => replace_ins e.1 (call_outliner o e.2) f' | None => f' end)) as Hf1.
  { apply (body_outlined_mono _ _ _ _ _ Hsub) in Hf. destruct r as [o|]; [|done].
    destruct (Hr o eq_refl) as (h & Ho & Hh). by eapply replace_ins_outlined. }
  intros Hfold. destruct (IH _ O1 HO1 Hf1) as (Hs & HO' & Hf''); [by destruct r|].
  split; [by transitivity O1|done].
Qed.

Lemma pfunc_outlined_refl O p : pfunc_outlined O p p.
Proof. split_and!; try done. apply body_outlined_refl. Qed.

Lemma pfunc_outlined_mono O O' p p' : O ⊆ O' -> pfunc_outlined O p p' -> pfunc_outlined O' p p'.
Proof. intros Hs (H1 & H2 & H3 & H4). split_and!; try done. by eapply body_outlined_mono. Qed.

Lemma outline_func_spec md p O p' O' d :
  p ∈ md -> ssa (p_body p) -> made_outliners md O -> outline_func p O = (p', O', d) ->
  O ⊆ O' /\ made_outliners md O' /\ pfunc_outlined O' p p'.
Proof.
  intros Hp Hssa HO. unfold outline_func. pose proof (pfunc_outlined_refl O p) as Href.
  case_bool_decide; [by intros [= <- <- <-]|]. destruct (ft_vararg _); [by intros [= <- <- <-]|].
  destruct (mToNegOutline _) eqn:Hneg; [|by intros [= <- <- <-]].
  destruct (fold_left _ _ _) as [f O1] eqn:Hf. intros [= <- <- <-].
  assert (Forall (fun e => e ∈ body_ins (p_body p) /\ to_outline e = true)
            (mToOutline (check_function p))) as Hl.
  { unfold check_function. rewrite check_to_outline. simpl. apply Forall_forall.
    intros e [Hi Ht]%list_elem_of_In%filter_In. by rewrite list_elem_of_In. }
  destruct (outline_inss_spec md p _ O _ _ _ Hp Hssa Hl HO (body_outlined_refl _ _ _) Hf)
    as (Hs & HO1 & Hb). by split_and!.
Qed.

Lemma outline_funcs_spec md l O l' O' d :
  (forall p, p ∈ l -> p ∈ md /\ ssa (p_body p)) -> made_outliners md O ->
  outline_funcs l O = (l', O', d) ->
  O ⊆ O' /\ made_outliners md O' /\ Forall2 (pfunc_outlined O') l l'.
Proof.
  revert O l' d. induction l as [|p l IH]; intros O l' d Hl HO; simpl.
  { intros [= <- <- <-]. by split_and!. }
  destruct (outline_func p O) as [[p1 O1] d1] eqn:H1.
  destruct (outline_funcs l O1) as [[l2 O2] d2] eqn:H2. intros [= <- <- <-].
  destruct (Hl p ltac:(by left)) as [Hp Hssa].
  destruct (outline_func_spec md p O p1 O1 d1 Hp Hssa HO H1) as (Hs & HO1 & Hb).
  destruct (IH O1 l2 d2) as (Hs2 & HO2 & Hf); [|done|done|].
  { intros q Hq. apply Hl. by right. }
  split_and!; [by transitivity O1|done|]. constructor; [|done]. by eapply pfunc_outlined_mono.
Qed.

(** Every call that has an outliner is outlined. *)
Definition all_outlined (func : Z) (l : list (id * instr)) (f : body) : Prop :=
  forall e, e ∈ body_ins f -> to_outline e = true ->
    e ∈ l \/ type_hash (ty_of_fun (outliner_type func e.2)) = None.

Lemma replace_ins_all func x i e l f :
  e.1 = x -> to_outline (x, i) = false ->
  all_outlined func (e :: l) f -> all_outlined func l (replace_ins x i f).
Proof.
  intros <- Hi Hf e' He' Ht. unfold body_ins in He'. simpl in He'.
  apply list_elem_of_In, in_concat in He' as (ins & Hins%list_elem_of_In & He'%list_elem_of_In).
  rewrite map_map in Hins. apply list_elem_of_fmap in Hins as (b & -> & Hb). simpl in He'.
  apply list_elem_of_fmap in He' as (e0 & -> & He0). case_decide as Hx; [congruence|].
  destruct (Hf e0 (elem_of_body_ins _ _ _ Hb He0) Ht) as [[->|]%elem_of_cons|]; [done|by left|by right].
Qed.

Lemma outline_inss_all func l O f f' O' :
  all_outlined func l f ->
  (forall h o, O !! h = Some o -> ft_vararg (p_type o) = false) ->
  fold_left (outline_ins func) l (f, O) = (f', O') -> all_outlined func [] f'.
Proof.
  revert f O. induction l as [|e l IH]; intros f O Hf HO; simpl; [by intros [= <- <-]|].
  unfold gen_outliner. destruct (type_hash _) as [h|] eqn:Hh.
  - assert (forall o, ft_vararg (p_type o) = false ->
      all_outlined func l (replace_ins e.1 (call_outliner o e.2) f)) as Hrep.
    { intros o Ho. by apply (replace_ins_all _ _ _ e). }
    assert (ft_vararg (outliner_type func e.2) = false) as Hva by (by destruct e as [? []]).
    destruct (O !! h) as [o|] eqn:Ho; [apply IH; [by eapply Hrep, HO|done]|].
    apply IH; [by apply Hrep|]. intros k o [[_ <-]|[_ Hk]]%lookup_insert_Some; [done|by eapply HO].
  - apply IH; [|done]. intros e' He' Ht.
    destruct (Hf e' He' Ht) as [[->|]%elem_of_cons|]; [by right|by left|by right].
Qed.

Definition all_processed (p p' : pfunc) : Prop :=
  bw_of mOutline mBwList (p_addr p) <> Some false -> ft_vararg (p_type p) = false ->
  mToNegOutline (check_function p) = [] -> all_outlined (p_addr p) [] (p_body p').

Lemma made_not_vararg md O h o :
  made_outliners md O -> O !! h = Some o -> ft_vararg (p_type o) = false.
Proof. intros HO Ho. destruct (HO h o Ho) as (p & [x []] & _ & _ & _ & _ & ->); done. Qed.

Lemma outline_func_all md p O p' O' d :
  made_outliners md O -> outline_func p O = (p', O', d) -> all_processed p p'.
Proof.
  intros HO Hd Hbw Hva Hneg. unfold outline_func in Hd.
  rewrite bool_decide_eq_false_2, Hva, Hneg in Hd by done.
  destruct (fold_left _ _ _) as [f O1] eqn:Hf. injection Hd as <- _ _.
  eapply outline_inss_all; [| |exact Hf]; [|intros h o; by eapply made_not_vararg].
  intros e He Ht. left. unfold check_function. rewrite check_to_outline. simpl.
  by apply list_elem_of_In, filter_In; rewrite <- list_elem_of_In.
Qed.

Lemma outline_funcs_all md l O l' O' d :
  (forall p, p ∈ l -> p ∈ md /\ ssa (p_body p)) -> made_outliners md O ->
  outline_funcs l O = (l', O', d) -> Forall2 all_processed l l'.
Proof.
  revert O l' d. induction l as [|p l IH]; intros O l' d Hl HO; simpl.
  { by intros [= <- <- <-]. }
  destruct (outline_func p O) as [[p1 O1] d1] eqn:H1.
  destruct (outline_funcs l O1) as [[l2 O2] d2] eqn:H2. intros [= <- <- <-].
  destruct (Hl p ltac:(by left)) as [Hp Hssa].
  destruct (outline_func_spec md p O p1 O1 d1 Hp Hssa HO H1) as (_ & HO1 & _).
  constructor; [by apply (outline_func_all md _ O _ O1 d1)|]. eapply IH; [|exact HO1|exact H2].
  intros q Hq. apply Hl. by right.
Qed.

(** ** The meaning of the program *)

Context (ext : Z -> list rv -> sem rv).
Context (expr : Z -> list rv -> rv) (intrinsic : Z -> list rv -> sem rv).

#[local] Abbreviation gm := (guest_machine expr intrinsic).

Definition refines {A} (g h : sem A) : Prop := forall s v s', g s = Ok (v, s') -> h s = Ok (v, s').

Lemma refines_refl {A} (g : sem A) : refines g g.
Proof. by intros s v s'. Qed.

Lemma refines_bind {A B} (g h : sem A) (k k' : A -> sem B) :
  refines g h -> (forall x, refines (k x) (k' x)) -> refines (g ≫= k) (h ≫= k').
Proof.
  intros Hg Hk s v s'. unfold mbind, sem_bind. destruct (g s) as [[x s1]| |] eqn:Hs; [|done..].
  rewrite (Hg s x s1 Hs). apply Hk.
Qed.

Lemma refines_lift {A B} (m m' : result A) (k k' : A -> sem B) :
  m = m' -> (forall x, m = Ok x -> refines (k x) (k' x)) -> refines (lift m ≫= k) (lift m' ≫= k').
Proof.
  intros <- Hk s v s'. unfold mbind, sem_bind, lift. destruct m as [x| |]; [|done..]. by apply Hk.
Qed.

Lemma refines_ok {A B} (x x' : A) (k k' : A -> sem B) :
  refines (k x) (k' x') -> refines (lift (Ok x) ≫= k) (lift (Ok x') ≫= k').
Proof. done. Qed.

Lemma refines_result fty fty' (g h : sem rv) :
  is_void (ft_ret fty) = is_void (ft_ret fty') -> refines g h ->
  refines (result_of_call fty g) (result_of_call fty' h).
Proof. intros Hv Hg. apply refines_bind; [done|]. intros x. rewrite Hv. apply refines_refl. Qed.

Section call.
(** Calls in the two programs, and that calls of the outliners do what the
    calls did. *)
Context (O : gmap Z pfunc) (call call' : rv -> list rv -> sem rv).
Context (Hcall : forall f vs, refines (call f vs) (call' f vs)).
Context (func : Z) (calls : list (id * instr)).
Context (Hout : forall x callee args fty attrs h o,
  (x, ICallSite callee args fty attrs) ∈ calls ->
  to_outline (x, ICallSite callee args fty attrs) = true -> O !! h = Some o ->
  type_hash (ty_of_fun (outliner_type func (ICallSite callee args fty attrs))) = Some h ->
  is_intrinsic callee = None /\
  forall f vs, length vs = length args ->
    refines (result_of_call fty (call f vs))
            (result_of_call (p_type o) (call' (RInt (p_addr o)) (vs ++ [f])%list))).

Lemma eval_gm r o : eval (gm call) r o = eval (gm call') r o.
Proof. by apply eval_two. Qed.

Lemma evals_gm r ops : evals (gm call) r ops = evals (gm call') r ops.
Proof. by apply evals_two. Qed.

Lemma exec_ins_mono r i : refines (exec_ins (gm call) r i) (exec_ins (gm call') r i).
Proof.
  destruct i; simpl; rewrite ?evals_gm, ?eval_gm; try (apply refines_refl);
    repeat (apply refines_lift; [done|intros ? _]); try (apply refines_refl).
  destruct (is_intrinsic callee); [apply refines_refl|]. apply refines_lift; [done|]. intros f _.
  by apply refines_result.
Qed.

Lemma evals_app M r ops1 ops2 :
  evals M r (ops1 ++ ops2) = vs1 ← evals M r ops1; vs2 ← evals M r ops2; Ok (vs1 ++ vs2)%list.
Proof.
  unfold evals. induction ops1 as [|o ops1 IH]; simpl.
  { by destruct (mapM _ ops2). }
  destruct (eval M r o); simpl; [|done..]. rewrite IH. by destruct (mapM _ ops1), (mapM _ ops2).
Qed.

Lemma ins_outlined_refines e e' r :
  e ∈ calls -> ins_outlined O func e e' ->
  refines (exec_ins (gm call) r e.2) (exec_ins (gm call') r e'.2).
Proof.
  intros He [->|(h & o & Ht & Ho & Hh & ->)]; [apply exec_ins_mono|].
  destruct e as [x i]. simpl in *. destruct i as [| | | | |callee args fty attrs| | | | | | |]; try done.
  destruct (Hout _ _ _ _ _ _ _ He Ht Ho Hh) as [Hi Hc]. simpl.
  rewrite Hi, evals_app, evals_gm, eval_gm.
  intros s v s' (vs & Hvs & (f & Hf & Hg)%bind_lift)%bind_lift.
  rewrite Hvs. unfold mbind, sem_bind, lift. simpl. rewrite Hf. simpl.
  apply Hc; [|done]. by eapply evals_length.
Qed.

Lemma exec_list_refines l l' r :
  Forall2 (ins_outlined O func) l l' -> (forall e, e ∈ l -> e ∈ calls) ->
  refines (exec_list (gm call) l r) (exec_list (gm call') l' r).
Proof.
  intros Hl. revert r. induction Hl as [|[x i] [x' i'] l l' He _ IH]; intros r Hin; simpl.
  { apply refines_refl. }
  assert (x' = x) as -> by (by destruct He as [[= ->]|(? & ? & _ & _ & _ & [= ->])]).
  apply refines_bind; [by apply (ins_outlined_refines _ _ r (Hin _ ltac:(by left)) He)|].
  intros v. apply IH. intros e He'. apply Hin. by right.
Qed.

Lemma block_at_outlined l bs bs' :
  Forall2 (block_outlined O func) bs bs' ->
  match block_at l bs, block_at l bs' with
  | Some b, Some b' => exists k, (k, b) ∈ bs /\ block_outlined O func (k, b) (k, b')
  | None, None => True
  | _, _ => False
  end.
Proof.
  unfold block_at. induction 1 as [|[k b] [k' b'] bs bs' Hb _ IH]; simpl; [done|].
  assert (k' = k) as -> by (apply Hb).
  destruct (k =? l); simpl; [exists k; split; [by left|done]|].
  destruct (List.find _ bs), (List.find _ bs'); simpl in *; try done.
  destruct IH as (j & Hj & Hr). exists j. split; [by right|done].
Qed.

Lemma run_refines fuel fuel' bs bs' pred l r :
  Forall2 (block_outlined O func) bs bs' ->
  (forall b e, b ∈ bs -> e ∈ b_ins b.2 -> e ∈ calls) -> (fuel <= fuel')%nat ->
  refines (run (gm call) fuel bs pred l r) (run (gm call') fuel' bs' pred l r).
Proof.
  intros Hbs Hin. revert fuel' pred l r.
  induction fuel as [|fuel IH]; intros fuel' pred l r Hle; [by intros s v s'|].
  destruct fuel' as [|fuel']; [lia|]. cbn [run].
  pose proof (block_at_outlined l bs bs' Hbs) as Hb.
  destruct (block_at l bs) as [b|], (block_at l bs') as [b'|]; try done.
  destruct Hb as (k & Hk & _ & Hph & Htm & Hins). simpl in *.
  apply refines_ok. rewrite Hph, Htm.
  apply refines_lift; [by apply exec_phis_two|]. intros r1 _.
  apply refines_bind; [apply exec_list_refines; [done|]; intros e He; by apply (Hin (k, b))|].
  intros r2. apply refines_lift; [by apply exec_term_two|]. intros [l'|v] _; [|apply refines_refl].
  apply IH. lia.
Qed.

End call.

(** The module fits the pass: it is in SSA form, the outliners have addresses of
    their own, the types of two of them with the same hash have as many
    parameters and agree in whether they return a value, and no intrinsic is
    variadic. Functions of other modules leave the stack pointer as it was. *)
Record outline_fits (ps : list pfunc) : Prop := {
  of_ssa : forall p, p ∈ ps -> ssa (p_body p);
  of_order : forall O, dense_order O ≡ₚ map snd (map_to_list O);
  of_inj : forall h h', outliner_addr h = outliner_addr h' -> h = h';
  of_fresh : forall p h, p ∈ ps -> p_addr p <> outliner_addr h;
  of_ext : forall h vs s r, ext (outliner_addr h) vs s <> Ok r;
  of_sp : forall a vs s v s', ext a vs s = Ok (v, s') -> r_sp s' = r_sp s;
  of_intrinsic : forall p x callee args fty attrs, p ∈ ps ->
    (x, ICallSite callee args fty attrs) ∈ body_ins (p_body p) -> ft_vararg fty = true ->
    is_intrinsic callee = None;
  of_agree : forall p1 p2 e1 e2 h, p1 ∈ ps -> p2 ∈ ps ->
    e1 ∈ body_ins (p_body p1) -> e2 ∈ body_ins (p_body p2) ->
    to_outline e1 = true -> to_outline e2 = true ->
    type_hash (ty_of_fun (outliner_type (p_addr p1) e1.2)) = Some h ->
    type_hash (ty_of_fun (outliner_type (p_addr p2) e2.2)) = Some h ->
    length (operands e1.2) = length (operands e2.2) /\
    is_void (ft_ret (outliner_type (p_addr p1) e1.2)) =
      is_void (ft_ret (outliner_type (p_addr p2) e2.2))
}.

#[local] Abbreviation gc ps := (gcall ps ext expr intrinsic).

Lemma call_body_refines O call call' n n' p p' args :
  (forall f vs, refines (call f vs) (call' f vs)) ->
  (forall x callee args fty attrs h o,
    (x, ICallSite callee args fty attrs) ∈ body_ins (p_body p) ->
    to_outline (x, ICallSite callee args fty attrs) = true -> O !! h = Some o ->
    type_hash (ty_of_fun (outliner_type (p_addr p) (ICallSite callee args fty attrs))) = Some h ->
    is_intrinsic callee = None /\
    forall f vs, length vs = length args ->
      refines (result_of_call fty (call f vs))
              (result_of_call (p_type o) (call' (RInt (p_addr o)) (vs ++ [f])%list))) ->
  pfunc_outlined O p p' -> (n <= n')%nat ->
  refines (call_body expr intrinsic call n p args) (call_body expr intrinsic call' n' p' args).
Proof.
  intros Hcall Hout (_ & Hty & _ & Hpar & Hent & Hbs) Hle. unfold call_body, run_body.
  rewrite Hty, Hpar, Hent. destruct (length args =? _)%nat; [|apply refines_refl].
  apply refines_result; [done|]. intros s v s'. unfold function_body.
  destruct (run (gm call) n _ _ _ _ s) as [[w s1]| |] eqn:Hr; [|done..]. intros [= <- <-].
  eapply run_refines in Hr; [by rewrite Hr|exact Hcall|exact Hout|exact Hbs| |done].
  intros b e Hb He. by eapply elem_of_body_ins.
Qed.

Lemma gcall_mono ps n m f args : (n <= m)%nat -> refines (gc ps n f args) (gc ps m f args).
Proof.
  revert m f args. induction n as [|n IH]; intros m f args Hle; [by intros s v s'|].
  destruct m as [|m]; [lia|]. simpl. destruct f as [a| |]; [|apply refines_refl..].
  destruct (func_at ps a) as [p|]; [|apply refines_refl].
  apply (call_body_refines ∅); [intros; apply IH; lia| |apply pfunc_outlined_refl|lia].
  intros x callee args' fty attrs h o _ _ Ho. by rewrite lookup_empty in Ho.
Qed.

Lemma gcall_sp ps n f args s v s' :
  (forall a vs s v s', ext a vs s = Ok (v, s') -> r_sp s' = r_sp s) ->
  gc ps n f args s = Ok (v, s') -> r_sp s' = r_sp s.
Proof.
  intros Hsp. destruct n as [|n]; [done|]. simpl. destruct f as [a| |]; [|done..].
  destruct (func_at ps a) as [p|]; [|by apply Hsp].
  unfold call_body. destruct (length args =? _)%nat; [|done].
  unfold result_of_call, run_body, function_body, mbind, sem_bind. simpl.
  destruct (run _ n _ _ _ _ s) as [[w s1]| |]; [|done..]. by intros [= _ <-].
Qed.

(** *** A call of an outliner *)

Lemma arg_regs_seq vs k i v :
  vs !! i = Some v ->
  arg_regs (map Z.of_nat (seq k (length vs))) vs (Src (Z.of_nat (k + i))) = Some v.
Proof.
  revert k i. induction vs as [|w vs IH]; intros k i; [done|]. unfold arg_regs. simpl.
  unfold insert, fn_insert. destruct i as [|i]; simpl.
  - intros [= ->]. by rewrite decide_True by (f_equal; lia).
  - intros Hi. rewrite decide_False by (intros [= ?]; lia).
    rewrite <- (IH (S k) i Hi). unfold arg_regs. do 2 f_equal. lia.
Qed.

Lemma evals_seq M r us k :
  (forall i u, us !! i = Some u -> r (Src (Z.of_nat (k + i))) = Some u) ->
  evals M r (map (fun x => OLocal (Src (Z.of_nat x))) (seq k (length us))) = Ok us.
Proof.
  revert k. unfold evals. induction us as [|u us IH]; intros k Hr; simpl; [done|].
  rewrite <- (Nat.add_0_r k) at 1. rewrite (Hr 0%nat u eq_refl). simpl. rewrite IH; [done|].
  intros i w Hi. rewrite Nat.add_succ_comm. by apply Hr.
Qed.

Lemma outliner_run call n h funcTy callee args fty attrs fty' f vs :
  length vs = length args -> (0 < n)%nat ->
  is_void (ft_ret funcTy) = is_void (ft_ret fty') -> is_void (ft_ret fty) = is_void (ft_ret fty') ->
  (forall s v s', call f vs s = Ok (v, s') -> r_sp s' = r_sp s) ->
  refines (result_of_call fty' (call f vs))
    (result_of_call funcTy (call_body expr intrinsic call n
       (new_outliner h funcTy (ICallSite callee args fty attrs)) (vs ++ [f])%list)).
Proof.
  intros Hlen Hn Hv Hv' Hsp s v s'. unfold result_of_call at 1, mbind, sem_bind at 1.
  destruct (call f vs s) as [[w s1]| |] eqn:Hc; [|done..]. intros [= <- <-].
  specialize (Hsp _ _ _ Hc). destruct n as [|n]; [lia|].
  unfold call_body, run_body, function_body. simpl.
  rewrite length_map, length_seq, !length_app. simpl. rewrite Hlen, Nat.eqb_refl.
  set (r := arg_regs _ _). replace (length args + 1 - 1)%nat with (length args) by lia.
  assert (forall i u, (vs ++ [f])%list !! i = Some u -> r (Src (Z.of_nat i)) = Some u) as Hr.
  { intros i u Hi. unfold r. rewrite <- (arg_regs_seq _ 0 i u Hi), length_app. simpl.
    by rewrite Hlen. }
  assert (evals (gm call) r (map (fun x => OLocal (Src (Z.of_nat x))) (seq 0 (length args))) = Ok vs)
    as Hevs.
  { rewrite <- Hlen. apply evals_seq. intros i u Hi. apply Hr. by apply lookup_app_l_Some. }
  assert (r (Src (Z.of_nat (length args))) = Some f) as Hf.
  { apply Hr. rewrite <- Hlen. by rewrite lookup_app_r, Nat.sub_diag by lia. }
  unfold result_of_call, mbind, sem_bind, lift. simpl. rewrite Hevs. simpl. rewrite Hf. simpl.
  unfold result_of_call, mbind, sem_bind, lift. simpl. rewrite Hc. simpl. rewrite Hv, Hv'. destruct s1 as [cells sp]. simpl in Hsp. subst sp.
  destruct (is_void (ft_ret fty')); simpl; [done|].
  unfold insert, fn_insert. rewrite decide_True by done. done.
Qed.

(** *** The functions of the two programs *)

Context (ps : list pfunc) (Hfits : outline_fits ps).

Lemma func_at_outlined l l' O a :
  Forall2 (pfunc_outlined O) l l' ->
  match func_at l a, func_at l' a with
  | Some p, Some p' => p ∈ l /\ pfunc_outlined O p p'
  | None, None => True
  | _, _ => False
  end.
Proof.
  unfold func_at. induction 1 as [|p p' l l' Hp _ IH]; simpl; [done|].
  assert (p_addr p' = p_addr p) as -> by apply Hp.
  destruct (p_addr p =? a); [split; [by left|done]|].
  destruct (List.find _ l), (List.find _ l'); try done. destruct IH. split; [by right|done].
Qed.

Lemma func_at_app l1 l2 a :
  func_at (l1 ++ l2) a = match func_at l1 a with Some p => Some p | None => func_at l2 a end.
Proof. unfold func_at. induction l1 as [|p l1 IH]; simpl; [done|]. by destruct (p_addr p =? a). Qed.

Lemma func_at_outliner O h o :
  made_outliners ps O -> O !! h = Some o -> func_at (dense_order O) (p_addr o) = Some o.
Proof.
  intros HO Ho. assert (o ∈ dense_order O) as Hin.
  { rewrite (of_order _ Hfits). apply (list_elem_of_fmap_2 snd _ (h, o)). by apply elem_of_map_to_list. }
  unfold func_at. destruct (List.find _ _) as [o'|] eqn:Hf.
  - apply List.find_some in Hf as [Hin'%list_elem_of_In He%Z.eqb_eq]. f_equal.
    rewrite (of_order _ Hfits) in Hin'. apply list_elem_of_fmap in Hin' as ([h' o2] & -> & Hin').
    apply elem_of_map_to_list in Hin'. simpl in *.
    destruct (HO _ _ Ho) as (? & ? & _ & _ & _ & _ & Eo).
    destruct (HO _ _ Hin') as (? & ? & _ & _ & _ & _ & Eo').
    assert (h' = h) as ->; [|congruence]. apply (of_inj _ Hfits). by rewrite Eo, Eo' in He.
  - apply list_elem_of_In in Hin. pose proof (List.find_none _ _ Hf o Hin) as Hne.
    simpl in Hne. by rewrite Z.eqb_refl in Hne.
Qed.

Lemma func_at_made O a o :
  made_outliners ps O -> func_at (dense_order O) a = Some o -> exists h, a = outliner_addr h.
Proof.
  intros HO. unfold func_at. intros [Hin%list_elem_of_In He%Z.eqb_eq]%List.find_some.
  rewrite (of_order _ Hfits) in Hin. apply list_elem_of_fmap in Hin as ([h o2] & -> & Hin).
  apply elem_of_map_to_list in Hin. destruct (HO _ _ Hin) as (? & ? & _ & _ & _ & _ & Eo).
  simpl in *. exists h. by subst.
Qed.

Lemma func_at_fresh h : func_at ps (outliner_addr h) = None.
Proof.
  unfold func_at. destruct (List.find _ _) as [p|] eqn:Hf; [|done].
  apply List.find_some in Hf as [Hin%list_elem_of_In He%Z.eqb_eq].
  by destruct (of_fresh _ Hfits p h Hin).
Qed.

Section program.
Context (ps' : list pfunc) (O : gmap Z pfunc) (diags : list Z).
Context (Hrun : outline_funcs ps ∅ = (ps', O, diags)).

Lemma outlined_spec : made_outliners ps O /\ Forall2 (pfunc_outlined O) ps ps'.
Proof.
  destruct (outline_funcs_spec ps ps ∅ ps' O diags) as (_ & H1 & H2); [|done|done|done].
  intros p Hp. split; [done|]. by apply (of_ssa _ Hfits).
Qed.

#[local] Abbreviation all := (ps' ++ dense_order O)%list.

Lemma gcall_outliner k h o args :
  O !! h = Some o ->
  gc all (S k) (RInt (p_addr o)) args = call_body expr intrinsic (gc all k) k o args.
Proof.
  intros Ho. destruct outlined_spec as [HO Hps]. simpl. rewrite func_at_app.
  destruct (HO h o Ho) as (p & e & _ & _ & _ & _ & Eo).
  pose proof (func_at_outlined _ _ _ (p_addr o) Hps) as Hat.
  replace (func_at ps (p_addr o)) with (@None pfunc) in Hat
    by (rewrite Eo; symmetry; apply func_at_fresh).
  destruct (func_at ps' (p_addr o)); [done|]. by rewrite (func_at_outliner O h o HO Ho).
Qed.

(** An outlined call goes through one more call. *)
Lemma outlined_call n p x callee args fty attrs h o :
  (forall f vs, refines (gc ps n f vs) (gc all (n + n) f vs)) ->
  p ∈ ps -> (x, ICallSite callee args fty attrs) ∈ body_ins (p_body p) ->
  to_outline (x, ICallSite callee args fty attrs) = true -> O !! h = Some o ->
  type_hash (ty_of_fun (outliner_type (p_addr p) (ICallSite callee args fty attrs))) = Some h ->
  is_intrinsic callee = None /\
  forall f vs, length vs = length args ->
    refines (result_of_call fty (gc ps n f vs))
      (result_of_call (p_type o) (gc all (S (n + n)) (RInt (p_addr o)) (vs ++ [f])%list)).
Proof.
  intros IH Hp He Ht Ho Hh. split.
  { apply (of_intrinsic _ Hfits _ _ _ _ _ _ Hp He). by destruct callee. }
  intros f vs Hlen. rewrite (gcall_outliner _ h o) by done.
  destruct n as [|n]; [by intros s v s'|].
  destruct outlined_spec as [HO _]. destruct (HO h o Ho) as (q & [y j] & Hq & Hj & Htj & Hhj & ->).
  destruct (of_agree _ Hfits p q _ _ h Hp Hq He Hj Ht Htj Hh Hhj) as [Hl Hv]. simpl in Hl, Hv.
  destruct j as [| | | | |callee' args' fty' attrs'| | | | | | |]; try done.
  simpl in Hl, Hv. rewrite !length_app in Hl. simpl in Hl.
  intros s v s' Hg. apply (outliner_run _ _ _ _ _ _ _ _ fty); [lia|lia|done|done| |].
  - intros t w t'. apply gcall_sp. apply (of_sp _ Hfits).
  - revert Hg. by apply refines_result.
Qed.

Lemma outlined_calls n f args : refines (gc ps n f args) (gc all (n + n) f args).
Proof.
  revert f args. induction n as [|n IH]; intros f args; [by intros s v s'|].
  rewrite Nat.add_succ_r. simpl. destruct f as [a| |]; [|apply refines_refl..].
  destruct outlined_spec as [HO Hps]. pose proof (func_at_outlined _ _ _ a Hps) as Hat.
  rewrite func_at_app. destruct (func_at ps a) as [p|], (func_at ps' a) as [p'|]; try done.
  - destruct Hat as [Hp Hpp]. apply (call_body_refines O); [| |done|lia].
    + intros g vs s v s' Hg. apply (gcall_mono all (n + n) (S (n + n)) g vs); [lia|]. by apply IH.
    + intros x callee args' fty attrs h o. by apply outlined_call.
  - destruct (func_at (dense_order O) a) as [o|] eqn:Ha; [|apply refines_refl].
    destruct (func_at_made O a o HO Ha) as [h ->]. intros s v s' Hx.
    by destruct (of_ext _ Hfits _ _ _ _ Hx).
Qed.

End program.

Lemma outline_run n f args : refines (gc ps n f args) (gc (outline ps).1 (n + n) f args).
Proof.
  unfold outline. destruct (outline_funcs ps ∅) as [[ps' O] diags] eqn:Hrun.
  by apply (outlined_calls ps' O diags).
Qed.


End outline.

(** ** What the analysis makes of it *)

Section analysis.
Context (typeID : TypeID -> Z) (hash_combine : list TypeHash.hval -> Z).
Context (isSized : ty -> bool) (getKindAsEnum : attr -> Z).
Context (getType : Z -> operand -> ty) (getName : Z -> operand -> string).
Context (outliner_addr : Z -> Z) (kNoInline kOptimizeNone : Z).
Context (dense_order : gmap Z pfunc -> list pfunc) (bwl : BwList).

#[local] Abbreviation thash := (type_hash typeID hash_combine isSized).
#[local] Abbreviation fhash := (function_hash typeID hash_combine isSized getKindAsEnum).
#[local] Abbreviation chash := (call_site_hash typeID hash_combine isSized getKindAsEnum).
#[local] Abbreviation ok := (ins_ok chash bwl).

(** The name of an outliner is on no list. *)
Context (Hnew : forall h, mCallees bwl !! outliner_addr h = None).

Lemma ok_body addr fty attrs f :
  forallb ok (fn_ins (Body.erase addr fty attrs f)) = true <->
  forall e, e ∈ body_ins f -> ok (erase_ins e.2) = true.
Proof.
  unfold fn_ins, body_ins. simpl. induction (f_blocks f) as [|b bs IH]; simpl.
  { split; [by intros _ e ?%elem_of_nil|done]. }
  rewrite forallb_app, andb_true_iff, IH. unfold erase_block.
  rewrite !forallb_app. simpl.
  assert (ok (erase_term (b_term b.2)) = true) as -> by (by destruct (b_term b.2) as [| | |[]|]).
  assert (forallb ok (map erase_phi (b_phis b.2)) = true) as -> by (by induction (b_phis b.2)).
  simpl. rewrite andb_true_r. setoid_rewrite elem_of_app. split.
  - intros [H1 H2] e [He|He]; [|by apply H2]. rewrite forallb_forall in H1.
    apply H1, in_map_iff. exists e. by rewrite <- list_elem_of_In.
  - intros He. split; [|by auto]. apply forallb_forall. intros i Hi.
    apply in_map_iff in Hi as (e & <- & Hi). apply He. left. by apply list_elem_of_In.
Qed.

Lemma ok_call_outliner md O h o i :
  made_outliners thash getType outliner_addr kNoInline kOptimizeNone md O -> O !! h = Some o ->
  ok (erase_ins (call_outliner o i)) = true.
Proof.
  intros HO Ho. destruct (HO h o Ho) as (p & e & _ & _ & _ & Hh & ->).
  unfold ins_ok, black_callee, kept_callee. simpl. rewrite Hnew. simpl.
  assert (ft_vararg (outliner_type getType (p_addr p) e.2) = false) as ->
    by (by destruct e as [? []]).
  apply bool_decide_eq_true_2. unfold call_site_hash, signature_hash. rewrite Hh. by eexists.
Qed.

Lemma body_outlined_lookup O func f f' :
  body_outlined thash getType O func f f' ->
  Forall2 (ins_outlined thash getType O func) (body_ins f) (body_ins f').
Proof.
  intros (_ & _ & Hb). unfold body_ins. induction Hb as [|b b' bs bs' Hb _ IH]; simpl; [done|].
  apply Forall2_app; [apply Hb|done].
Qed.

Lemma offloadable_outlined md O p p' :
  made_outliners thash getType outliner_addr kNoInline kOptimizeNone md O ->
  pfunc_outlined thash getType O p p' -> ft_vararg (p_type p) = false ->
  all_outlined thash getType (p_addr p) [] (p_body p') ->
  offloadable fhash chash bwl (erase_pfunc p') = true <->
    is_Some (fhash (erase_pfunc p)) /\
    forall e, e ∈ body_ins (p_body p) -> ok (erase_ins e.2) = true \/
      to_outline e = true /\
      hashable (ty_of_fun (outliner_type getType (p_addr p) e.2)) = true.
Proof.
  intros HO (Ha & Ht & Hat & Hb) Hva Hall. apply body_outlined_lookup in Hb.
  unfold offloadable, erase_pfunc, function_hash at 1. simpl.
  rewrite Ht, Hat, Hva. simpl. rewrite andb_true_iff, bool_decide_eq_true, ok_body.
  split; intros [Hh He]; (split; [exact Hh|]).
  - intros e Hin. apply list_elem_of_lookup in Hin as [k Hk].
    destruct (Forall2_lookup_l _ _ _ _ _ Hb Hk) as (e' & Hk' & [->|(h & o & Hto & _ & Hhash & _)]).
    + left. apply He. by eapply list_elem_of_lookup_2.
    + right. split; [done|]. apply (type_hash_defined typeID hash_combine isSized
        (ty_of_fun (outliner_type getType (p_addr p) e.2))). by eexists.
  - intros e' Hin. apply list_elem_of_lookup in Hin as [k Hk].
    destruct (Forall2_lookup_r _ _ _ _ _ Hb Hk) as (e & Hk' & [->|(h & o & _ & Ho & _ & ->)]).
    + destruct (He e) as [|[Hto Hhash]]; [by eapply list_elem_of_lookup_2|done|].
      destruct (Hall e) as [?%elem_of_nil|Hn]; [by eapply list_elem_of_lookup_2|done|done|].
      apply (type_hash_defined typeID hash_combine isSized
        (ty_of_fun (outliner_type getType (p_addr p) e.2))) in Hhash. rewrite Hn in Hhash.
      by destruct Hhash.
    + by eapply ok_call_outliner.
Qed.

Lemma outliner_not_offloadable md O h o :
  made_outliners thash getType outliner_addr kNoInline kOptimizeNone md O -> O !! h = Some o ->
  offloadable fhash chash bwl (erase_pfunc o) = false.
Proof.
  intros HO Ho. apply not_true_iff_false. unfold offloadable. rewrite !andb_true_iff.
  intros [_ Hok]. unfold erase_pfunc in Hok. rewrite ok_body in Hok.
  destruct (HO h o Ho) as (p & [x i] & _ & _ & Ht & _ & ->).
  destruct i as [| | | | |callee args fty attrs| | | | | | |]; try done.
  specialize (Hok _ (list_elem_of_here _ _)). simpl in Hok. unfold to_outline in Ht. simpl in Ht.
  assert (ft_vararg fty = true) as Hva by (by destruct callee). by rewrite Hva in Hok.
Qed.


End analysis.

(** ** Example

    [talk] makes two variadic calls of an external function, which share an
    outliner. *)
Module ToyOutline.
Import ToyHash ToyModule ToyBody.

Definition talk : pfunc := mk_pfunc 0x200 sig [] (mk_body [0] 1
  [(1, mk_block []
      [ (Src 1, ICallSite ext_fn [var; OLocal (Src 0)] var_sig []);
        (Src 2, ICallSite ext_fn [var; OLocal (Src 1)] var_sig []) ]
      (TRet (Some (OLocal (Src 2)))))]).

Definition prog : list pfunc := [talk].

Definition print (a : Z) (args : list rv) : sem rv :=
  if a =? 0x500 then
    match args with
    | [RInt p; RInt x] => mret (RInt (p + x))
    | _ => lift (Fault "print")
    end
  else lift (Fault "no function").

Definition thash : ty -> option Z := type_hash typeID hash_combine (fun _ => true).
Definition getType (func : Z) (o : operand) : ty :=
  match o with OGlobal _ => TPtr 0 | _ => i32t end.
Definition getName (func : Z) (o : operand) : string :=
  match o with OGlobal _ => "print" | _ => "" end.
Definition outliner_addr (h : Z) : Z := 2 * h + 1.
Definition order (O : gmap Z pfunc) : list pfunc := map snd (map_to_list O).

Definition outlined (bwl : BwList) : list pfunc :=
  (outline thash getType getName outliner_addr 28 38 order bwl prog).1.

Lemma prog_calls (P : pfunc -> id * instr -> Prop) :
  Forall (P talk) (body_ins (p_body talk)) ->
  forall p e, p ∈ prog -> e ∈ body_ins (p_body p) -> P p e.
Proof.
  intros HP p e Hp He. apply list_elem_of_singleton in Hp as ->.
  rewrite Forall_forall in HP. by apply HP.
Qed.

Lemma prog_ssa p : p ∈ prog -> ssa (p_body p).
Proof. intros ->%list_elem_of_singleton. unfold ssa. by apply (bool_decide_unpack _). Qed.

Lemma prog_fits : outline_fits thash getType outliner_addr order print prog.
Proof.
  split.
  - apply prog_ssa.
  - done.
  - unfold outliner_addr. intros. lia.
  - intros p h ->%list_elem_of_singleton. unfold outliner_addr. simpl. lia.
  - intros h vs s r. unfold print, outliner_addr. by destruct (Z.eqb_spec (2 * h + 1) 0x500); [lia|].
  - intros a vs s v s'. unfold print. destruct (a =? 0x500); [|done].
    destruct vs as [|[| |] [|[| |] []]]; try done. by intros [= _ <-].
  - intros p x callee args fty attrs Hp He _.
    apply (prog_calls (fun _ e => match e.2 with
      | ICallSite callee _ _ _ => is_intrinsic callee = None | _ => True end)
      ltac:(repeat constructor) p _ Hp He).
  - intros p1 p2 e1 e2 h Hp1 Hp2 He1 He2 _ _ _ _.
    apply (prog_calls (fun p e => length (operands e.2) = 3%nat /\
      is_void (ft_ret (outliner_type getType (p_addr p) e.2)) = false)
      ltac:(repeat constructor)) in He1 as [-> ->]; [|done].
    by apply (prog_calls (fun p e => length (operands e.2) = 3%nat /\
      is_void (ft_ret (outliner_type getType (p_addr p) e.2)) = false)
      ltac:(repeat constructor)) in He2 as [-> ->].
Qed.



End ToyOutline.
