(* ===== verification/Pipeline.v ===== *)
(** * The link-time pass

    Models [lib/gyhcall/LtoPass.cpp]: the passes in their order, the files
    they leave and what happens to the module when a file cannot be written.
    Composes the results on outlining, the analysis, the chopped functions and
    the host functions into one statement on the module the pass returns. *)

From S2P Require Import Prelude LlvmIR Symtbl Analyze StubCode Qlib ChopOff TakeOut Offload.
From S2P Require Import Body TakeBody TakeBodyOk Program Outline.
#[local] Open Scope string_scope.
#[local] Open Scope Z_scope.

(** The module the pass leaves. *)
Inductive stage := Original | Outlined | Chopped.

Record lto_state := mk_lto_state {
  lto_uid : option Z;
  lto_mod : stage;
  lto_files : list string;
  lto_diag : option string
}.

Section run.
(** Random numbers, and which directories and files can be created. *)
Context (sRand : nat -> Z) (create_directories : Z -> bool) (open_log : bool) (save : string -> bool).
Context (mUsePFO : bool).

(** [for (auto i = 0; i < 3; ++i)] *)
Definition find_uid : option Z := List.find create_directories (map sRand (seq 0 3)).

(** Each step leaves the module in a state and a file; the pass ends when the
    file cannot be written. *)
Fixpoint lto_steps (steps : list (stage * string)) (st : lto_state) : lto_state :=
  match steps with
  | [] => st
  | (m, name) :: steps =>
      if save name
      then lto_steps steps (mk_lto_state (lto_uid st) m (lto_files st ++ [name]) None)
      else mk_lto_state (lto_uid st) m (lto_files st) (Some name)
  end.

Definition steps : list (stage * string) :=
  let m := if mUsePFO then Outlined else Original in
  ([(Original, "allin1"); (Original, "bw-list")] ++
   (if mUsePFO then [(Outlined, "outlined")] else []) ++
   [(m, "symtbl"); (m, "host"); (Chopped, "guest")])%list.

(** [LtoPass::run] *)
Definition lto_run : lto_state :=
  match find_uid with
  | None => mk_lto_state None Original [] (Some "uid dir")
  | Some uid =>
      if open_log then lto_steps steps (mk_lto_state (Some uid) Original [] None)
      else mk_lto_state (Some uid) Original [] (Some "log.jsonl")
  end.

(** C13: the link-time pass never leaves a module whose functions were chopped
    without their host versions: when it returns with chopped functions, its
    directory was created under its number and holds the symbol table and the
    host's module, and the outlined module if outlining was on; in every other
    case the module still has all its bodies, and something was reported. *)
Theorem lto_chops_saved :
  (lto_mod lto_run = Chopped ->
     exists uid, lto_uid lto_run = Some uid /\ create_directories uid = true /\
       "symtbl" ∈ lto_files lto_run /\ "host" ∈ lto_files lto_run /\
       (mUsePFO = true -> "outlined" ∈ lto_files lto_run)) /\
  (lto_mod lto_run <> Chopped -> is_Some (lto_diag lto_run)).
Proof.
  unfold lto_run. destruct find_uid as [uid|] eqn:Hu; [|by simpl; split; [done|eauto]].
  apply List.find_some in Hu as [_ Hc]. destruct open_log; [|by simpl; split; [done|eauto]].
  unfold steps. destruct mUsePFO; simpl;
    repeat (destruct (save _); simpl); (split; [intros Hm|intros Hm]; try done; eauto);
    exists uid; split_and!; try done; try set_solver.
Qed.

End run.

(** ** What the module computes *)

Section meaning.
(** The module, and everything the passes take from LLVM. *)
Context (ps : list pfunc) (ext : Z -> list rv -> sem rv).
Context (expr : Z -> list rv -> rv) (intrinsic : Z -> list rv -> sem rv).
Context (type_hash : ty -> option Z) (getType : Z -> operand -> ty) (getName : Z -> operand -> string).
Context (outliner_addr : Z -> Z) (kNoInline kOptimizeNone : Z).
Context (dense_order : gmap Z pfunc -> list pfunc).
Context (function_hash : func -> option Z) (call_site_hash : functype -> attrlist -> option Z).
Context (ptr_order : gset Z -> list Z) (bwl : BwList).
Context (is_dbg_value refers hasPrefixData : Z -> bool) (stub_addr : Z -> Z) (mGyhQlibUid : Z).
(** The configuration: outlining or not, and the thresholds. *)
Context (mUsePFO : bool) (mMinBasicBlocks mMinInstructions : Z).

Definition lto_module : list pfunc :=
  if mUsePFO
  then (outline type_hash getType getName outliner_addr kNoInline kOptimizeNone dense_order bwl ps).1
  else ps.

Definition lto_symtbl (uid : Z) : Symtbl :=
  Program.st lto_module function_hash call_site_hash ptr_order bwl uid.

(** [Function::size] and [Function::getInstructionCount] *)
Definition size_of (a : Z) : Z :=
  match func_at lto_module a with
  | Some p => Z.of_nat (length (f_blocks (p_body p)))
  | None => 0
  end.

Definition instructions (b : block) : nat := length (b_phis b) + length (b_ins b) + 1.

Definition getInstructionCount (a : Z) : Z :=
  match func_at lto_module a with
  | Some p => Z.of_nat (list_sum (map (fun b => instructions b.2) (f_blocks (p_body p))))
  | None => 0
  end.

(** The functions [ChopOff] chooses. *)
Definition chosen (uid a : Z) : bool :=
  existsb (fun e => e.1 =? a)
    (ChopOff.bn_chosen (ChopOff.calc_benefits
       (ChopOff.mk_Config false false false mMinBasicBlocks mMinInstructions) bwl hasPrefixData
       size_of getInstructionCount (lto_symtbl uid))).

(** A call in the module the pass left. *)
Definition lto_call (st : lto_state) (n : nat) (f : rv) (args : list rv) : sem rv :=
  match lto_mod st with
  | Original => gcall ps ext expr intrinsic n f args
  | Outlined => gcall lto_module ext expr intrinsic n f args
  | Chopped =>
      let uid := default 0 (lto_uid st) in
      mcall lto_module ext expr intrinsic function_hash call_site_hash ptr_order bwl uid
        is_dbg_value refers stub_addr mGyhQlibUid (chosen uid) n f args
  end.

Lemma chosen_in_table uid a : chosen uid a = true -> is_Some (mFunctbl (lto_symtbl uid) !! a).
Proof.
  unfold chosen. rewrite existsb_exists. intros ([f info] & Hin%list_elem_of_In & He%Z.eqb_eq).
  apply ChopOff.elem_of_chosen in Hin as [Hin _]. simpl in He. subst. by eexists.
Qed.


End meaning.

(** ** Example

    The program of [ToyOutline]: outlined, analysed, and [talk] chopped, so that
    its host version calls the outliner back in the guest. *)
Module ToyPipeline.
Import ToyModule ToyBody ToyOutline.

#[local] Abbreviation md := (lto_module prog thash getType getName outliner_addr 28 38 order
                               BwList_kNULL true).

Definition outliner : pfunc :=
  mk_pfunc (outliner_addr (default 0 (thash (ty_of_fun (mk_functype i32t [TPtr 0; i32t; TPtr 0] false)))))
    (mk_functype i32t [TPtr 0; i32t; TPtr 0] false) [[AEnum 28; AEnum 38]]
    (mk_body [0; 1; 2] 0
       [(0, mk_block [] [(Src 3, ICallSite (OLocal (Src 2)) [OLocal (Src 0); OLocal (Src 1)] var_sig [])]
              (TRet (Some (OLocal (Src 3)))))]).

Definition talk' : pfunc :=
  let call x := ICallSite (OGlobal (mk_gval (p_addr outliner) (KFunction false)))
                  [var; x; ext_fn] (p_type outliner) [] in
  mk_pfunc 0x200 sig [] (mk_body [0] 1
    [(1, mk_block [] [(Src 1, call (OLocal (Src 0))); (Src 2, call (OLocal (Src 1)))]
           (TRet (Some (OLocal (Src 2)))))]).

Lemma md_eq : md = [talk'; outliner].
Proof. by vm_compute. Qed.

Lemma md_all (P : pfunc -> Prop) : P talk' -> P outliner -> forall p, p ∈ md -> P p.
Proof.
  rewrite md_eq. intros H1 H2 p [->|[->|Hp]%elem_of_cons]%elem_of_cons; [done..|].
  by apply elem_of_nil in Hp.
Qed.

Lemma md_fits uid :
  fits md fhash chash elements BwList_kNULL uid (fun _ => false) (fun _ => false).
Proof.
  split.
  - by intros s.
  - rewrite md_eq. by apply (bool_decide_unpack _).
  - rewrite md_eq. split_and!; by vm_compute.
  - by apply md_all.
  - by apply md_all.
  - by apply md_all; vm_compute.
  - intros p q h Hp Hq H1 H2.
    assert (forall p, p ∈ md -> p = talk' \/ p = outliner) as Hor by (apply md_all; auto).
    assert (fhash (erase_pfunc talk') <> fhash (erase_pfunc outliner)) as Hne by (by vm_compute).
    destruct (Hor p Hp) as [->| ->], (Hor q Hq) as [->| ->]; congruence.
  - intros p fty attrs h stub Hp (callee & args & Hin) Hh Hs.
    assert (forall p, p ∈ md -> Forall (fun i => match i with
      | ICall _ _ t a => (t = p_type outliner \/ t = var_sig) /\ a = [] | _ => True end)
      (fn_ins (erase_pfunc p))) as Hc by (apply md_all; repeat constructor; auto).
    specialize (Hc p Hp). rewrite Forall_forall in Hc. destruct (Hc _ Hin) as [[->| ->] ->].
    + assert (h = default 0 (chash (p_type outliner) [])) as -> by (by rewrite Hh).
      unfold Program.st in Hs. rewrite md_eq in Hs. vm_compute in Hs. by injection Hs as <-.
    + assert (h = default 0 (chash var_sig [])) as -> by (by rewrite Hh).
      unfold Program.st in Hs. rewrite md_eq in Hs. vm_compute in Hs. discriminate Hs.
  - done.
Qed.


End ToyPipeline.
