(* ===== verification/Json.v ===== *)
(** * JSON values as the passes write and read them

    The values of [llvm::json], the conversions of [lib/gyhcall/util.cpp] and
    the hexadecimal keys of [lib/gyhcall/type_hash.hpp]. A [load_json] that
    fails returns an error and what it had filled in is dropped, so a load is
    a partial function. The tables are hash maps whose order of iteration is
    not specified: it is given by an instance of [MapOrder]. *)

From S2P Require Import Prelude.
#[local] Open Scope string_scope.
#[local] Open Scope Z_scope.

Inductive jval :=
| JNull
| JBool (b : bool)
| JInt (z : Z)
| JDouble (bits : Z)
| JStr (s : string)
| JArr (l : list jval)
| JObj (o : gmap string jval).

Definition getAsObject (j : jval) : option (gmap string jval) :=
  match j with JObj o => Some o | _ => None end.

Definition getAsArray (j : jval) : option (list jval) :=
  match j with JArr l => Some l | _ => None end.

Definition getAsString (j : jval) : option string :=
  match j with JStr s => Some s | _ => None end.

Definition getAsBoolean (j : jval) : option bool :=
  match j with JBool b => Some b | _ => None end.

(** Integers out of the range of both 64-bit types are not integers of a
    parsed file. *)
Definition getAsUINT64 (j : jval) : option Z :=
  match j with
  | JInt z => if (0 <=? z) && (z <? 2 ^ 64) then Some z else None
  | _ => None
  end.

(** ** Conversions *)

(** The [fromJSON] for unsigned types: [uint32_t], [uint16_t], [uint8_t], and
    for [int16_t] and [int8_t] with their largest values. *)
Definition fromJSON_upto (max : Z) (j : jval) : option Z :=
  s ← getAsUINT64 j; if s <=? max then Some s else None.

Definition fromJSON_u32 : jval -> option Z := fromJSON_upto (2 ^ 32 - 1).
Definition fromJSON_u16 : jval -> option Z := fromJSON_upto (2 ^ 16 - 1).
Definition fromJSON_u8 : jval -> option Z := fromJSON_upto (2 ^ 8 - 1).
Definition fromJSON_i16 : jval -> option Z := fromJSON_upto (2 ^ 15 - 1).
Definition fromJSON_i8 : jval -> option Z := fromJSON_upto (2 ^ 7 - 1).

Definition fromJSON_optional {A} (from : jval -> option A) (j : jval) : option (option A) :=
  match j with JNull => Some None | _ => Some <$> from j end.

Definition toJSON_optional {A} (to : A -> jval) (o : option A) : jval :=
  match o with Some a => to a | None => JNull end.

Definition fromJSON_vector {A} (from : jval -> option A) (j : jval) : option (list A) :=
  l ← getAsArray j; mapM from l.

(** [ObjectMapper::map] and [ObjectMapper::mapOptional]; the latter keeps
    [cur] when the key is missing. *)
Definition om_map {A} (from : jval -> option A) (k : string) (o : gmap string jval)
    : option A :=
  j ← o !! k; from j.

Definition om_mapOptional {A} (from : jval -> option A) (k : string) (cur : option A)
    (o : gmap string jval) : option (option A) :=
  match o !! k with Some j => fromJSON_optional from j | None => Some cur end.

Lemma fromJSON_u32_ok z : 0 <= z < 2 ^ 32 -> fromJSON_u32 (JInt z) = Some z.
Proof.
  intros Hz. unfold fromJSON_u32, fromJSON_upto, getAsUINT64.
  rewrite (proj2 (Z.leb_le 0 z)), (proj2 (Z.ltb_lt z (2 ^ 64))) by lia. simpl.
  by rewrite (proj2 (Z.leb_le z (2 ^ 32 - 1))) by lia.
Qed.

Lemma fromJSON_optional_bool o :
  fromJSON_optional getAsBoolean (toJSON_optional JBool o) = Some o.
Proof. by destruct o. Qed.

Lemma mapM_map_ok {A B} (to : A -> B) (from : B -> option A) l :
  Forall (fun a => from (to a) = Some a) l -> mapM from (map to l) = Some l.
Proof. induction 1 as [|a l Ha _ IH]; [done|]. simpl. rewrite Ha. simpl. by rewrite IH. Qed.

(** ** Hexadecimal keys *)

(** [utohexstr(hc, false, 16)] *)
Definition hash2str (hc : Z) : string := hex_digits 16 (u64 hc).

Definition digit_value (c : Ascii.ascii) : option Z :=
  let n := Z.of_nat (Ascii.nat_of_ascii c) in
  if (48 <=? n) && (n <=? 57) then Some (n - 48)
  else if (97 <=? n) && (n <=? 102) then Some (n - 87)
  else if (65 <=? n) && (n <=? 70) then Some (n - 55)
  else None.

(** The loop of [getAsInteger(16, ret)], which stops on a character that is
    not a digit and on a value that does not fit. *)
Fixpoint hex_value (acc : Z) (s : string) : option Z :=
  match s with
  | EmptyString => Some acc
  | String c s =>
      d ← digit_value c;
      let acc := acc * 16 + d in
      if acc <? 2 ^ 64 then hex_value acc s else None
  end.

Definition str2hash (s : string) : option Z :=
  match s with EmptyString => None | _ => hex_value 0 s end.

Lemma digit_value_hex d : 0 <= d < 16 -> digit_value (hex_digit d) = Some d.
Proof.
  intros Hd. unfold hex_digit.
  assert (d ∈ seqZ 0 16) as H by (apply elem_of_seqZ; lia). revert d Hd H.
  intros d _. revert d. apply Forall_forall. repeat constructor.
Qed.

Lemma hex_value_app acc s t :
  hex_value acc (String.app s t) = hex_value acc s ≫= fun a => hex_value a t.
Proof.
  revert acc. induction s as [|c s IH]; intros acc; [done|]. simpl.
  destruct (digit_value c); simpl; [|done]. by case_match.
Qed.

Lemma hex_value_digits n v :
  (n <= 16)%nat -> 0 <= v < 16 ^ Z.of_nat n -> hex_value 0 (hex_digits n v) = Some v.
Proof.
  revert v. induction n as [|n IH]; intros v Hn Hv; [simpl; f_equal; lia|]. simpl.
  rewrite Nat2Z.inj_succ, Z.pow_succ_r in Hv by lia.
  assert (16 * 16 ^ Z.of_nat n <= 2 ^ 64).
  { rewrite <- Z.pow_succ_r by lia. change (2 ^ 64) with (16 ^ 16).
    apply Z.pow_le_mono_r; lia. }
  pose proof (Z.mod_pos_bound v 16 ltac:(lia)). pose proof (Z.div_mod v 16 ltac:(lia)).
  assert (0 <= v / 16 < 16 ^ Z.of_nat n).
  { split; [apply Z.div_pos|apply Z.div_lt_upper_bound]; lia. }
  rewrite hex_value_app, IH by lia.
  simpl. rewrite digit_value_hex by lia. simpl.
  replace (v / 16 * 16 + v mod 16) with v by lia.
  by rewrite (proj2 (Z.ltb_lt v (2 ^ 64))) by lia.
Qed.

Lemma str2hash_hash2str h : 0 <= h < 2 ^ 64 -> str2hash (hash2str h) = Some h.
Proof.
  intros Hh. unfold str2hash, hash2str. rewrite wrap_small by done.
  pose proof (hex_value_digits 16 h ltac:(lia) Hh) as H.
  pose proof (hex_digits_length 16 h) as Hl. by destruct (hex_digits 16 h).
Qed.

#[global] Opaque hash2str str2hash.

(** ** Tables as objects *)

Class MapOrder := {
  iterate {K A} `{Countable K} : gmap K A -> list (K * A);
  iterate_perm {K A} `{Countable K} (m : gmap K A) : iterate m ≡ₚ map_to_list m
}.

(** [for (auto [k, v] : l) m[k] = v;] *)
Definition set_all {K A} `{Countable K} (l : list (K * A)) (m : gmap K A) : gmap K A :=
  fold_left (fun m x => <[x.1 := x.2]> m) l m.

Fixpoint foldM {A S} (f : S -> A -> option S) (l : list A) (s : S) : option S :=
  match l with [] => Some s | a :: l => s ← f s a; foldM f l s end.

Lemma set_all_lookup {K A} `{Countable K} (l : list (K * A)) m k v :
  NoDup l.*1 ->
  (set_all l m !! k = Some v) <-> (k, v) ∈ l \/ ((k ∉ l.*1) /\ m !! k = Some v).
Proof.
  revert m. induction l as [|[k' v'] l IH]; intros m Hnd.
  { simpl. split; [right; split; [apply not_elem_of_nil|done]|].
    by intros [?%elem_of_nil|[_ ?]]. }
  apply NoDup_cons in Hnd as [Hni Hnd]. change (set_all ((k', v') :: l) m)
    with (set_all l (<[k' := v']> m)). rewrite IH by done. simpl in *.
  rewrite not_elem_of_cons, elem_of_cons. destruct (decide (k = k')) as [->|Hne].
  - rewrite lookup_insert_eq. split; [intros [?|[_ [= ->]]]; auto|].
    intros [[[= ->]|?]|[[? _] _]]; [right; split; done|by left|done].
  - rewrite lookup_insert_ne by done. split; [naive_solver|].
    intros [[[= ? ?]|?]|[[? ?] ?]]; naive_solver.
Qed.

Lemma set_all_perm {K A} `{Countable K} (l : list (K * A)) m :
  l ≡ₚ map_to_list m -> set_all l ∅ = m.
Proof.
  intros Hp. apply map_eq. intros k. apply option_eq. intros v.
  rewrite set_all_lookup by (rewrite Hp; apply NoDup_fst_map_to_list).
  rewrite Hp, elem_of_map_to_list, lookup_empty. naive_solver.
Qed.

Section tables.
Context `{MapOrder} {K A : Type} `{Countable K}.
Context (name : K -> string) (to : A -> jval).

(** [for (auto [k, v] : m) obj[name(k)] = v.dump_json();] *)
Definition dump_table (m : gmap K A) : gmap string jval :=
  set_all (map (fun x => (name x.1, to x.2)) (iterate m)) ∅.

(** A loop over the entries of an object, when each entry that was written
    for [(k, v)] sets [k] to [v]. *)
Lemma foldM_dump_table {S} (f : S -> string * jval -> option S)
    (m : gmap K A) (ok : gmap K A -> S) :
  (forall k1 k2, is_Some (m !! k1) -> is_Some (m !! k2) -> name k1 = name k2 -> k1 = k2) ->
  (forall t k v, m !! k = Some v -> t !! k = None ->
     f (ok t) (name k, to v) = Some (ok (<[k := v]> t))) ->
  foldM f (iterate (dump_table m)) (ok ∅) = Some (ok m).
Proof.
  intros Hinj Hf.
  set (enc := fun x : K * A => (name x.1, to x.2)).
  assert (NoDup (map enc (iterate m)).*1) as Hnd.
  { assert (NoDup (map (fun x => name x.1) (iterate m))) as Hn.
    { rewrite (iterate_perm m). apply NoDup_fmap_2_strong, NoDup_map_to_list.
      intros [k1 v1] [k2 v2] H1%elem_of_map_to_list H2%elem_of_map_to_list Hnm. simpl in Hnm.
      assert (k1 = k2) as -> by (apply Hinj; [by eexists..|done]). congruence. }
    by rewrite <- list_fmap_compose. }
  assert (iterate (dump_table m) ≡ₚ map enc (iterate m)) as Hp.
  { rewrite iterate_perm. apply NoDup_Permutation.
    - apply NoDup_map_to_list.
    - by apply NoDup_fmap_1 in Hnd.
    - intros [s j]. rewrite elem_of_map_to_list. unfold dump_table.
      rewrite set_all_lookup by done. rewrite lookup_empty. naive_solver. }
  symmetry in Hp. apply Permutation_sym, Permutation_map_inv in Hp as (l & -> & Hl).
  assert (l ≡ₚ map_to_list m) as Hlm by (by rewrite <- Hl, iterate_perm).
  clear Hnd Hl.
  assert (forall l t, (forall k v, (k, v) ∈ l -> m !! k = Some v) -> NoDup l.*1 ->
    (forall k, k ∈ l.*1 -> t !! k = None) ->
    foldM f (map enc l) (ok t) = Some (ok (set_all l t))) as Hgen.
  { clear Hlm l. induction l as [|[k v] l IH]; intros t Hm Hnd Ht; [done|].
    apply NoDup_cons in Hnd as [Hni Hnd]. simpl.
    change (enc (k, v)) with (name k, to v).
    rewrite Hf by (try apply Hm; try apply Ht; by left). simpl.
    apply IH; [|done|].
    - intros k' v' Hk. apply Hm. by right.
    - intros k' Hk'. rewrite lookup_insert_ne by (intros ->; done). apply Ht. by right. }
  rewrite Hgen.
  - by rewrite (set_all_perm l m).
  - intros k v. rewrite Hlm. by rewrite elem_of_map_to_list.
  - rewrite Hlm. apply NoDup_fst_map_to_list.
  - intros k _. apply lookup_empty.
Qed.

(** The same for entries whose dump can fail. *)
Definition dump_tableM (toM : A -> option jval) (m : gmap K A) : option (gmap string jval) :=
  l ← mapM (fun x => (fun j => (name x.1, j)) <$> toM x.2) (iterate m);
  Some (set_all l ∅).

Lemma dump_tableM_ok toM m :
  (forall k v, m !! k = Some v -> toM v = Some (to v)) ->
  dump_tableM toM m = Some (dump_table m).
Proof.
  intros Hto. unfold dump_tableM, dump_table.
  assert (forall k v, (k, v) ∈ iterate m -> toM v = Some (to v)) as Hl.
  { intros k v. rewrite iterate_perm, elem_of_map_to_list. apply Hto. }
  replace (mapM _ (iterate m)) with (Some (map (fun x => (name x.1, to x.2)) (iterate m))); [done|].
  symmetry. induction (iterate m) as [|[k v] l IH]; [done|]. simpl.
  rewrite (Hl k v) by (by left). simpl. rewrite IH; [done|]. intros k' v' Hk. apply (Hl k').
  by right.
Qed.
End tables.

(** One order, for examples. *)
Definition list_order : MapOrder := {|
  iterate K A _ _ m := map_to_list m;
  iterate_perm K A _ _ m := Permutation_refl _
|}.
