(* ===== verification/PickUp.v ===== *)
(** * Picking the functions: annotations, intrinsics and configuration

    Models [lib/gyhcall/PickUp.cpp], which fills the black and white lists
    from the annotations in the module, the list of supported intrinsics and
    the configuration. *)

From S2P Require Import Prelude LlvmIR Symtbl Json.
#[local] Open Scope string_scope.
#[local] Open Scope Z_scope.

Module PickUp.

Record Config := mk_Config {
  mFuncs : gmap string FuncBw;
  mCallees : gmap string bool;
  mFCPcmChop : list string;
  mFCPcmChopOthers : bool
}.

(** ** The sorted list of intrinsics *)

(** The intrinsics that are supported on the host, by their names in
    [llvm::Intrinsic], in the order of the source. *)
Definition white_names : list string := [
  "stacksave"; "stackrestore"; "abs"; "smax"; "smin"; "umax"; "umin"; "memcpy";
  "memcpy_inline"; "memmove"; "memset"; "memset_inline"; "sqrt"; "powi"; "sin"; "cos"; "pow";
  "exp"; "exp2"; "exp10"; "ldexp"; "frexp"; "log"; "log10"; "log2"; "fma"; "fabs"; "minnum";
  "maxnum"; "minimum"; "maximum"; "copysign"; "floor"; "ceil"; "trunc"; "rint"; "nearbyint";
  "round"; "roundeven"; "lround"; "llround"; "lrint"; "llrint";
  "experimental_constrained_fadd"; "experimental_constrained_fsub";
  "experimental_constrained_fmul"; "experimental_constrained_fdiv";
  "experimental_constrained_frem"; "experimental_constrained_fma";
  "experimental_constrained_fptoui"; "experimental_constrained_fptosi";
  "experimental_constrained_uitofp"; "experimental_constrained_sitofp";
  "experimental_constrained_fptrunc"; "experimental_constrained_fpext";
  "experimental_constrained_fcmp"; "experimental_constrained_fcmps";
  "experimental_constrained_fmuladd"; "experimental_constrained_sqrt";
  "experimental_constrained_pow"; "experimental_constrained_powi";
  "experimental_constrained_ldexp"; "experimental_constrained_sin";
  "experimental_constrained_cos"; "experimental_constrained_exp";
  "experimental_constrained_exp2"; "experimental_constrained_log";
  "experimental_constrained_log10"; "experimental_constrained_log2";
  "experimental_constrained_rint"; "experimental_constrained_lrint";
  "experimental_constrained_llrint"; "experimental_constrained_nearbyint";
  "experimental_constrained_maxnum"; "experimental_constrained_minnum";
  "experimental_constrained_maximum"; "experimental_constrained_minimum";
  "experimental_constrained_ceil"; "experimental_constrained_floor";
  "experimental_constrained_round"; "experimental_constrained_roundeven";
  "experimental_constrained_lround"; "experimental_constrained_llround";
  "experimental_constrained_trunc"; "experimental_noalias_scope_decl"; "bitreverse"; "bswap";
  "ctpop"; "ctlz"; "cttz"; "fshl"; "fshr"; "sadd_with_overflow"; "uadd_with_overflow";
  "ssub_with_overflow"; "usub_with_overflow"; "smul_with_overflow"; "umul_with_overflow";
  "sadd_sat"; "uadd_sat"; "ssub_sat"; "usub_sat"; "sshl_sat"; "ushl_sat"; "smul_fix";
  "umul_fix"; "smul_fix_sat"; "umul_fix_sat"; "sdiv_fix"; "udiv_fix"; "sdiv_fix_sat";
  "udiv_fix_sat"; "canonicalize"; "fmuladd"; "vector_reduce_add"; "vector_reduce_fadd";
  "vector_reduce_mul"; "vector_reduce_fmul"; "vector_reduce_and"; "vector_reduce_or";
  "vector_reduce_xor"; "vector_reduce_smax"; "vector_reduce_smin"; "vector_reduce_umax";
  "vector_reduce_umin"; "vector_reduce_fmax"; "vector_reduce_fmin"; "vector_reduce_fmaximum";
  "vector_reduce_fminimum"; "vector_insert"; "vector_extract"; "matrix_transpose";
  "matrix_multiply"; "matrix_column_major_load"; "matrix_column_major_store"; "fptoui_sat";
  "fptosi_sat"; "fptrunc_round"; "dbg_assign"; "dbg_declare"; "dbg_label"; "dbg_value";
  "vp_select"; "vp_merge"; "vp_add"; "vp_sub"; "vp_mul"; "vp_sdiv"; "vp_udiv"; "vp_srem";
  "vp_urem"; "vp_ashr"; "vp_lshr"; "vp_shl"; "vp_or"; "vp_and"; "vp_xor"; "vp_abs"; "vp_smax";
  "vp_smin"; "vp_umax"; "vp_umin"; "vp_copysign"; "vp_minnum"; "vp_maxnum"; "vp_minimum";
  "vp_maximum"; "vp_fadd"; "vp_fsub"; "vp_fmul"; "vp_fdiv"; "vp_frem"; "vp_fneg"; "vp_fabs";
  "vp_sqrt"; "vp_fma"; "vp_fmuladd"; "vp_reduce_add"; "vp_reduce_fadd"; "vp_reduce_mul";
  "vp_reduce_fmul"; "vp_reduce_and"; "vp_reduce_or"; "vp_reduce_xor"; "vp_reduce_smax";
  "vp_reduce_smin"; "vp_reduce_umax"; "vp_reduce_umin"; "vp_reduce_fmax"; "vp_reduce_fmin";
  "get_active_lane_mask"; "experimental_vp_splice"; "experimental_vp_reverse"; "vp_load";
  "vp_store"; "experimental_vp_strided_load"; "experimental_vp_strided_store"; "vp_gather";
  "vp_scatter"; "vp_trunc"; "vp_zext"; "vp_sext"; "vp_fptrunc"; "vp_fpext"; "vp_fptoui";
  "vp_fptosi"; "vp_uitofp"; "vp_sitofp"; "vp_ptrtoint"; "vp_inttoptr"; "vp_fcmp"; "vp_icmp";
  "vp_ceil"; "vp_floor"; "vp_rint"; "vp_nearbyint"; "vp_round"; "vp_roundeven";
  "vp_roundtozero"; "vp_bitreverse"; "vp_bswap"; "vp_ctpop"; "vp_ctlz"; "vp_cttz"; "vp_fshl";
  "vp_fshr"; "vp_is_fpclass"; "masked_load"; "masked_store"; "masked_gather"; "masked_scatter";
  "masked_expandload"; "masked_compressstore"; "lifetime_start"; "lifetime_end";
  "invariant_start"; "invariant_end"; "launder_invariant_group"; "strip_invariant_group";
  "is_fpclass"; "var_annotation"; "ptr_annotation"; "annotation"; "objectsize"; "expect";
  "expect_with_probability"; "assume"; "donothing"; "is_constant"; "ptrmask"
].
#[global] Opaque white_names.

(** [if (ret[j - 1] > ret[j])] and the swap that follows. *)
Definition bubble (ret : list Z) (j : nat) : list Z :=
  let x := ret !!! (j - 1)%nat in
  let y := ret !!! j in
  if y <? x then <[j := x]> (<[(j - 1)%nat := y]> ret) else ret.

(** [for (j = 1; j < i; ++j)] *)
Definition bubble_pass (ret : list Z) (i : nat) : list Z :=
  fold_left bubble (seq 1 (i - 1)) ret.

(** [for (i = ret.size(); i >= 1; --i)] *)
Definition bubble_sort (ret : list Z) : list Z :=
  fold_left bubble_pass (rev (seq 1 (length ret))) ret.

(** [std::lower_bound] on a range of [len] elements from [first]. *)
Fixpoint lower_bound_from (fuel : nat) (l : list Z) (v : Z) (first len : nat) : nat :=
  match fuel with
  | O => first
  | S fuel =>
      match len with
      | O => first
      | _ =>
          let half := (len / 2)%nat in
          let mid := (first + half)%nat in
          if l !!! mid <? v
          then lower_bound_from fuel l v (S mid) (len - half - 1)
          else lower_bound_from fuel l v first half
      end
  end.

Definition lower_bound (l : list Z) (v : Z) : nat :=
  lower_bound_from (length l) l v 0 (length l).

(** ** The pass *)

Section pick_up.
Context `{MapOrder}.

(** [getFunction] of the module, and the module's functions with their
    intrinsic numbers; 0 is [not_intrinsic]. *)
Context (getFunction : string -> option Z) (functions : list (Z * Z)).

(** The entries of [llvm.global.annotations]: the function, if the entry is
    about one, and the text. *)
Context (annotations : list (option Z * string)).

(** The numbers LLVM gives to the intrinsics. *)
Context (Intrinsic : string -> Z).

Context (mConfig : Config).

Definition FuncBw0 : FuncBw := mk_FuncBw None None None None.

(** The effect of one annotation text, if it is one of the known ones. *)
Definition annotate (info : string) (b : FuncBw) : option FuncBw :=
  let '(mk_FuncBw o a c t) := b in
  if decide (info = "gyhcall:outline") then Some (mk_FuncBw (Some true) a c t)
  else if decide (info = "gyhcall:no-outline") then Some (mk_FuncBw (Some false) a c t)
  else if decide (info = "gyhcall:analyze") then Some (mk_FuncBw o (Some true) c t)
  else if decide (info = "gyhcall:no-analyze") then Some (mk_FuncBw o (Some false) c t)
  else if decide (info = "gyhcall:chop-off") then Some (mk_FuncBw o a (Some true) t)
  else if decide (info = "gyhcall:no-chop-off") then Some (mk_FuncBw o a (Some false) t)
  else if decide (info = "gyhcall:take-out") then Some (mk_FuncBw o a c (Some true))
  else if decide (info = "gyhcall:no-take-out") then Some (mk_FuncBw o a c (Some false))
  else None.

Definition annotation_step (fs : gmap Z FuncBw) (e : option Z * string) : gmap Z FuncBw :=
  match e with
  | (Some func, info) =>
      match annotate info (default FuncBw0 (fs !! func)) with
      | Some anno => <[func := anno]> fs
      | None => fs
      end
  | (None, _) => fs
  end.

Definition do_annotation (r : BwList) : BwList :=
  mk_BwList (fold_left annotation_step annotations (Symtbl.mFuncs r))
    (Symtbl.mCallees r) (Symtbl.mFCPcmChop r) (Symtbl.mFCPcmChopOthers r).

Definition whites : list Z := map Intrinsic white_names.

Definition kSortedWhites : list Z := bubble_sort (whites ++ [UINT32_MAX])%list.

(** [intrinsic == *lower_bound(kSortedWhites, intrinsic)] *)
Definition is_white (intrinsic : Z) : bool :=
  intrinsic =? kSortedWhites !!! lower_bound kSortedWhites intrinsic.

Definition builtin_step (cs : gmap Z bool) (f : Z * Z) : gmap Z bool :=
  let '(func, intrinsic) := f in
  if intrinsic =? 0 then cs
  else if negb (is_white intrinsic) then <[func := false]> cs
  else cs.

Definition do_builtins (r : BwList) : BwList :=
  mk_BwList (Symtbl.mFuncs r) (fold_left builtin_step functions (Symtbl.mCallees r))
    (Symtbl.mFCPcmChop r) (Symtbl.mFCPcmChopOthers r).

(** [m[func] = v] for the function called [name], if there is one. *)
Definition set_named {A} (m : gmap Z A) (e : string * A) : gmap Z A :=
  match getFunction e.1 with Some func => <[func := e.2]> m | None => m end.

Definition do_config (r : BwList) : BwList :=
  let funcs := fold_left set_named (iterate (mFuncs mConfig)) (Symtbl.mFuncs r) in
  let callees := fold_left set_named (iterate (mCallees mConfig)) (Symtbl.mCallees r) in
  let callees :=
    fold_left (fun cs name => set_named cs (name, true)) (mFCPcmChop mConfig) callees in
  mk_BwList funcs callees (Symtbl.mFCPcmChop r) (mFCPcmChopOthers mConfig).

(** [operator()] *)
Definition pick_up (r : BwList) : BwList := do_config (do_builtins (do_annotation r)).

End pick_up.

(** ** Sorting *)

Lemma bubble_length ret j : length (bubble ret j) = length ret.
Proof. unfold bubble. case_match; [by rewrite !length_insert|done]. Qed.

(** One comparison: the pair is put in order, the rest stays. *)
Lemma bubble_lookup ret j k :
  (1 <= j < length ret)%nat ->
  bubble ret j !!! k =
    if decide (k = j) then Z.max (ret !!! (j - 1)%nat) (ret !!! j)
    else if decide (k = j - 1)%nat then Z.min (ret !!! (j - 1)%nat) (ret !!! j)
    else ret !!! k.
Proof.
  intros Hj. unfold bubble.
  destruct (Z.ltb_spec (ret !!! j) (ret !!! (j - 1)%nat)).
  - case_decide as Hk; [subst; rewrite list_lookup_total_insert_eq by
      (rewrite length_insert; lia); lia|].
    rewrite list_lookup_total_insert_ne by done.
    case_decide as Hk'; [subst; rewrite list_lookup_total_insert_eq by lia; lia|].
    by rewrite list_lookup_total_insert_ne by done.
  - repeat case_decide; subst; lia.
Qed.

Lemma bubble_perm ret j : (1 <= j < length ret)%nat -> bubble ret j ≡ₚ ret.
Proof.
  intros Hj. unfold bubble. case_match; [|done].
  assert (ret !! j = Some (ret !!! j)) as H1 by (apply list_lookup_lookup_total_lt; lia).
  assert (ret !! (j - 1)%nat = Some (ret !!! (j - 1)%nat)) as H2
    by (apply list_lookup_lookup_total_lt; lia).
  by apply Permutation_insert_swap.
Qed.

(** What a pass has done to the elements up to [n], as seen from before. *)
Definition bubbled (ret r : list Z) (n : nat) : Prop :=
  length r = length ret /\ r ≡ₚ ret /\
  (forall k, (n < k)%nat -> r !!! k = ret !!! k) /\
  (forall k, (k <= n)%nat -> r !!! k <= r !!! n) /\
  (forall B, (forall k, (k <= n)%nat -> ret !!! k <= B) -> forall k, (k <= n)%nat -> r !!! k <= B).

Lemma bubble_fold ret n :
  (n < length ret)%nat -> bubbled ret (fold_left bubble (seq 1 n) ret) n.
Proof.
  induction n as [|n IH]; intros Hn.
  { repeat split; auto. intros k Hk. by replace k with 0%nat by lia. }
  rewrite seq_S, fold_left_app. change (1 + n)%nat with (S n). cbn [fold_left].
  destruct (IH ltac:(lia)) as (Hlen & Hp & Hhi & Hmax & HB).
  set (r := fold_left bubble (seq 1 n) ret) in *.
  assert (forall k, bubble r (S n) !!! k =
    if decide (k = S n) then Z.max (r !!! n) (r !!! S n)
    else if decide (k = n) then Z.min (r !!! n) (r !!! S n) else r !!! k) as Hl.
  { intros k. rewrite bubble_lookup by lia. by replace (S n - 1)%nat with n by lia. }
  repeat split.
  - by rewrite bubble_length.
  - by rewrite bubble_perm by lia.
  - intros k Hk. rewrite Hl, !decide_False by lia. apply Hhi. lia.
  - intros k Hk. rewrite (Hl (S n)), decide_True by done. rewrite Hl.
    case_decide; [lia|]. case_decide; [lia|]. pose proof (Hmax k). lia.
  - intros B HBr k Hk.
    assert (forall k, (k <= n)%nat -> r !!! k <= B) as H1 by (apply HB; intros; apply HBr; lia).
    assert (r !!! S n <= B) as H2 by (rewrite Hhi by lia; apply HBr; lia).
    rewrite Hl. pose proof (H1 n). case_decide; [lia|]. case_decide; [lia|]. apply H1. lia.
Qed.

(** The part from index [i] on is in its final place. *)
Definition sorted_from (i : nat) (l : list Z) : Prop :=
  forall a b, (a <= b)%nat -> (i <= b < length l)%nat -> l !!! a <= l !!! b.

Lemma bubble_passes i ret :
  (i <= length ret)%nat -> sorted_from i ret ->
  sorted_from 0 (fold_left bubble_pass (rev (seq 1 i)) ret) /\
  fold_left bubble_pass (rev (seq 1 i)) ret ≡ₚ ret.
Proof.
  revert ret. induction i as [|i IH]; intros ret Hi Hs; [done|].
  rewrite seq_S, rev_app_distr. change (1 + i)%nat with (S i). cbn [rev app fold_left].
  assert (bubble_pass ret (S i) = fold_left bubble (seq 1 i) ret) as ->
    by (unfold bubble_pass; do 2 f_equal; lia).
  destruct (bubble_fold ret i ltac:(lia)) as (Hlen & Hp & Hhi & Hmax & HB).
  set (r := fold_left bubble (seq 1 i) ret) in *.
  destruct (IH r) as [H1 H2]; [lia| |split; [done|by rewrite H2]].
  intros a b Hab Hb. destruct (decide (b = i)) as [->|]; [by apply Hmax|].
  rewrite (Hhi b) by lia. destruct (decide (a <= i)%nat).
  - apply HB; [|done]. intros k Hk. apply Hs; lia.
  - rewrite Hhi by lia. apply Hs; lia.
Qed.

Lemma bubble_sort_sorted l : sorted_from 0 (bubble_sort l) /\ bubble_sort l ≡ₚ l.
Proof. apply bubble_passes; [done|]. intros a b _ ?. lia. Qed.

(** ** Searching *)

(** The index returned splits the range: smaller elements before it, and at
    it, if it is in range, one that is not smaller. *)
Lemma lower_bound_from_spec fuel l v first len :
  sorted_from 0 l -> (len <= fuel)%nat -> (first + len <= length l)%nat ->
  (forall k, (k < first)%nat -> l !!! k < v) ->
  (forall k, (first + len <= k < length l)%nat -> v <= l !!! k) ->
  let i := lower_bound_from fuel l v first len in
  (i <= length l)%nat /\ (forall k, (k < i)%nat -> l !!! k < v) /\
  (forall k, (i <= k < length l)%nat -> v <= l !!! k).
Proof.
  intros Hs. revert first len. induction fuel as [|fuel IH]; intros first len Hf Hl Hlo Hhi.
  { simpl. replace (first + len)%nat with first in Hhi by lia. split; [lia|done]. }
  destruct len as [|len]; cbn [lower_bound_from]; cbv zeta.
  { replace (first + 0)%nat with first in Hhi by lia. split; [lia|done]. }
  assert (S len / 2 < S len)%nat as Hh by (apply Nat.div_lt; lia).
  set (half := (S len / 2)%nat) in *. clearbody half.
  destruct (Z.ltb_spec (l !!! (first + half)%nat) v) as [Hc|Hc].
  - apply IH; [lia|lia| |].
    + intros k Hk. eapply Z.le_lt_trans; [|exact Hc]. apply Hs; lia.
    + intros k Hk. apply Hhi. lia.
  - apply IH; [lia|lia|done|].
    intros k Hk. etrans; [exact Hc|]. apply Hs; lia.
Qed.

Lemma lower_bound_spec l v :
  sorted_from 0 l ->
  (lower_bound l v <= length l)%nat /\ (forall k, (k < lower_bound l v)%nat -> l !!! k < v) /\
  (forall k, (lower_bound l v <= k < length l)%nat -> v <= l !!! k).
Proof. intros Hs. apply lower_bound_from_spec; try done; lia. Qed.

Lemma is_white_listed Intrinsic intrinsic :
  Forall (fun w => w <= UINT32_MAX) (whites Intrinsic) -> intrinsic < UINT32_MAX ->
  (lower_bound (kSortedWhites Intrinsic) intrinsic < length (kSortedWhites Intrinsic))%nat /\
  (is_white Intrinsic intrinsic = true <-> intrinsic ∈ whites Intrinsic).
Proof.
  intros Hw Hi. destruct (bubble_sort_sorted (whites Intrinsic ++ [UINT32_MAX])%list) as [Hs Hp].
  unfold is_white. fold (kSortedWhites Intrinsic) in Hs, Hp. set (l := kSortedWhites Intrinsic) in *.
  destruct (lower_bound_spec l intrinsic Hs) as (Hle & Hlo & Hhi).
  set (i := lower_bound l intrinsic) in *.
  assert (forall x, x ∈ l <-> x ∈ whites Intrinsic \/ x = UINT32_MAX) as Hin.
  { intros x. by rewrite Hp, elem_of_app, list_elem_of_singleton. }
  assert (forall x, x ∈ l -> exists k, (k < length l)%nat /\ l !!! k = x) as Hix.
  { intros x [k Hk]%list_elem_of_lookup. exists k. split; [by eapply lookup_lt_Some|].
    by apply list_lookup_total_correct. }
  assert (i < length l)%nat as Hlt.
  { destruct (Hix UINT32_MAX) as (k & Hk & Hx); [apply Hin; by right|].
    destruct (decide (k < i)%nat) as [Hki|]; [specialize (Hlo k Hki)|]; lia. }
  split; [done|]. rewrite Z.eqb_eq. split.
  - intros He. assert (l !!! i ∈ l) as Hl by (by apply list_elem_of_lookup_total_2).
    rewrite <- He in Hl. apply Hin in Hl as [?|?]; [done|lia].
  - intros Hx. destruct (Hix intrinsic) as (k & Hk & Hkx); [apply Hin; by left|].
    assert (i <= k)%nat as Hik.
    { destruct (decide (k < i)%nat) as [Hki|]; [specialize (Hlo k Hki)|]; lia. }
    pose proof (Hs i k Hik ltac:(lia)). pose proof (Hhi i ltac:(lia)). lia.
Qed.

(** The test of [do_builtins], which sorts the list of supported intrinsics
    when it is compiled, adds a guard and searches it by halves, is membership
    in the list: the search ends on an element and finds the number exactly
    when it is listed. *)
Theorem is_white_spec Intrinsic intrinsic :
  Forall (fun w => w <= UINT32_MAX) (whites Intrinsic) -> intrinsic < UINT32_MAX ->
  (lower_bound (kSortedWhites Intrinsic) intrinsic < length (kSortedWhites Intrinsic))%nat /\
  (is_white Intrinsic intrinsic = true <-> intrinsic ∈ whites Intrinsic).
Proof. apply is_white_listed. Qed.

(** ** What the pass leaves in the lists *)

Section spec.
Context `{MapOrder}.
Context (getFunction : string -> option Z) (functions : list (Z * Z)).
Context (annotations : list (option Z * string)) (Intrinsic : string -> Z) (mConfig : Config).

(** The names of the functions, by which the module finds them. *)
Context (getName : Z -> string).
Context (find_name : forall n f,
  getFunction n = Some f <-> n = getName f /\ f ∈ map fst functions).

Definition annotate_entry (b : option FuncBw) (info : string) : option FuncBw :=
  match annotate info (default FuncBw0 b) with Some a => Some a | None => b end.

(** The texts of the annotations of one function. *)
Definition texts_of (f : Z) (l : list (option Z * string)) : list string :=
  omap (fun e : option Z * string => if decide (e.1 = Some f) then Some e.2 else None) l.

Lemma annotations_lookup l fs f :
  fold_left annotation_step l fs !! f = fold_left annotate_entry (texts_of f l) (fs !! f).
Proof.
  revert fs. induction l as [|[[g|] info] l IH]; intros fs; [done| |by simpl; rewrite IH].
  cbn [fold_left]. rewrite IH. unfold texts_of at 2. cbn [omap list_omap fst snd].
  case_decide as Hg.
  - injection Hg as ->. cbn [fold_left]. f_equal. unfold annotation_step, annotate_entry.
    destruct (annotate _ _); [by rewrite lookup_insert_eq|done].
  - f_equal. unfold annotation_step. destruct (annotate _ _); [|done].
    rewrite lookup_insert_ne; [done|]. intros ->. done.
Qed.

(** The function is an intrinsic that is not supported. *)
Definition unsupported (i : Z) : bool := negb (i =? 0) && negb (is_white Intrinsic i).

Lemma builtins_lookup l cs f i :
  NoDup (map fst l) -> (f, i) ∈ l ->
  fold_left (builtin_step Intrinsic) l cs !! f = if unsupported i then Some false else cs !! f.
Proof.
  assert (forall l cs, f ∉ map fst l -> fold_left (builtin_step Intrinsic) l cs !! f = cs !! f)
    as Hout.
  { clear l cs. induction l as [|[g k] l IH]; intros cs Hni; [done|]. simpl in *.
    apply not_elem_of_cons in Hni as [Hne Hni]. rewrite IH by done.
    case_match; [done|]. case_match; [|done]. by rewrite lookup_insert_ne. }
  revert cs. induction l as [|[g k] l IH]; intros cs; [by intros _ ?%elem_of_nil|].
  intros [Hni Hnd]%NoDup_cons [Heq|Hin]%elem_of_cons; cbn [fold_left].
  - injection Heq as <- <-. rewrite Hout by done. unfold builtin_step, unsupported.
    destruct (i =? 0); [done|]. destruct (is_white Intrinsic i); [done|]. apply lookup_insert_eq.
  - rewrite IH by done. case_match; [done|]. unfold builtin_step.
    case_match; [done|]. case_match; [|done]. rewrite lookup_insert_ne; [done|].
    intros ->. apply Hni. by apply (list_elem_of_fmap_2 fst _ (f, i)).
Qed.

Lemma set_named_lookup {A} (l : list (string * A)) m f :
  f ∈ map fst functions -> NoDup l.*1 ->
  fold_left (set_named getFunction) l m !! f =
  match (list_to_map l : gmap string A) !! getName f with Some b => Some b | None => m !! f end.
Proof.
  intros Hf. revert m. induction l as [|[n v] l IH]; intros m; [done|].
  intros [Hni Hnd]%NoDup_cons. cbn [fold_left list_to_map]. rewrite IH by done. simpl in *.
  destruct (decide (n = getName f)) as [->|Hne].
  - rewrite lookup_insert_eq, not_elem_of_list_to_map_1 by done. unfold set_named. simpl.
    rewrite (proj2 (find_name _ f)) by done. apply lookup_insert_eq.
  - rewrite lookup_insert_ne by done. case_match; [done|]. unfold set_named. simpl.
    destruct (getFunction n) as [g|] eqn:Hg; [|done]. rewrite lookup_insert_ne; [done|].
    intros ->. by apply find_name in Hg as [? _].
Qed.

Lemma set_named_table {A} (t : gmap string A) m f :
  f ∈ map fst functions ->
  fold_left (set_named getFunction) (iterate t) m !! f =
  match t !! getName f with Some b => Some b | None => m !! f end.
Proof.
  intros Hf. rewrite set_named_lookup; [|done|rewrite iterate_perm; apply NoDup_fst_map_to_list].
  rewrite (list_to_map_proper _ (map_to_list t)), list_to_map_to_list; [done| |apply iterate_perm].
  rewrite iterate_perm. apply NoDup_fst_map_to_list.
Qed.

Lemma set_names_lookup (l : list string) m f :
  f ∈ map fst functions ->
  fold_left (fun cs name => set_named getFunction cs (name, true)) l m !! f =
  if bool_decide (getName f ∈ l) then Some true else m !! f.
Proof.
  intros Hf. revert m. induction l as [|n l IH]; intros m.
  { by rewrite bool_decide_false by apply not_elem_of_nil. }
  cbn [fold_left]. rewrite IH. destruct (decide (n = getName f)) as [->|Hne].
  - rewrite (bool_decide_true (_ ∈ _ :: _)) by (by left). case_match; [done|].
    unfold set_named. simpl. rewrite (proj2 (find_name _ f)) by done. apply lookup_insert_eq.
  - rewrite (bool_decide_ext (getName f ∈ n :: l) (getName f ∈ l)) by
      (rewrite elem_of_cons; naive_solver).
    case_match; [done|]. unfold set_named. simpl.
    destruct (getFunction n) as [g|] eqn:Hg; [|done]. rewrite lookup_insert_ne; [done|].
    intros ->. by apply find_name in Hg as [? _].
Qed.

(** C28: the lists after the pass. A function's entry is the configured one if
    its name is configured, else what its annotations make of the entry it
    had. A callee is white if it is on the configured FCP-CM list, else as
    configured, else black if it is an intrinsic that is not on the list of
    supported ones. The configured FCP-CM list has no other effect: the list
    of functions to keep, which is what it configures, stays as it was. *)
Theorem pick_up_spec r f i :
  NoDup (map fst functions) -> (f, i) ∈ functions ->
  Forall (fun w => w <= UINT32_MAX) (whites Intrinsic) -> i < UINT32_MAX ->
  let r' := pick_up getFunction functions annotations Intrinsic mConfig r in
  Symtbl.mFuncs r' !! f =
    match mFuncs mConfig !! getName f with
    | Some b => Some b
    | None => fold_left annotate_entry (texts_of f annotations) (Symtbl.mFuncs r !! f)
    end /\
  Symtbl.mCallees r' !! f =
    (if bool_decide (getName f ∈ mFCPcmChop mConfig) then Some true
     else match mCallees mConfig !! getName f with
          | Some b => Some b
          | None => if negb (i =? 0) && negb (bool_decide (i ∈ whites Intrinsic)) then Some false
                    else Symtbl.mCallees r !! f
          end) /\
  Symtbl.mFCPcmChop r' = Symtbl.mFCPcmChop r /\
  Symtbl.mFCPcmChopOthers r' = mFCPcmChopOthers mConfig.
Proof.
  intros Hnd Hf Hw Hi. assert (f ∈ map fst functions) as Hin
    by (by apply (list_elem_of_fmap_2 fst _ (f, i))).
  cbn [pick_up do_config do_builtins do_annotation Symtbl.mFuncs Symtbl.mCallees
       Symtbl.mFCPcmChop Symtbl.mFCPcmChopOthers].
  repeat split.
  - by rewrite set_named_table, annotations_lookup.
  - rewrite set_names_lookup, set_named_table by done. case_match; [done|]. case_match; [done|].
    rewrite (builtins_lookup _ _ _ _ Hnd Hf). unfold unsupported.
    destruct (is_white_listed Intrinsic i Hw Hi) as [_ Hl].
    replace (bool_decide (i ∈ whites Intrinsic)) with (is_white Intrinsic i); [done|].
    apply Bool.eq_iff_eq_true. by rewrite bool_decide_eq_true.
Qed.

End spec.

(** ** Example: a function and two intrinsics, one of them supported *)
Module ToyPick.

Definition functions : list (Z * Z) := [(16, 0); (32, 7); (48, 9)].

Definition getName (f : Z) : string :=
  if f =? 16 then "work" else if f =? 32 then "llvm.seven" else "llvm.nine".

Definition getFunction (n : string) : option Z :=
  if decide (n = "work") then Some 16
  else if decide (n = "llvm.seven") then Some 32
  else if decide (n = "llvm.nine") then Some 48
  else None.

Lemma toy_find_name n f :
  getFunction n = Some f <-> n = getName f /\ f ∈ map fst functions.
Proof.
  unfold getFunction, functions. simpl. rewrite !elem_of_cons, elem_of_nil. split.
  - repeat case_decide; intros [= <-]; subst; split; auto.
  - intros [-> [->|[->|[->|[]]]]]; done.
Qed.

Definition annotations : list (option Z * string) :=
  [(Some 16, "gyhcall:no-chop-off"); (None, "gyhcall:analyze"); (Some 16, "other")].

Definition cfg : Config := mk_Config ∅ {[ "work" := true ]} ["llvm.seven"] true.

Definition Intrinsic (n : string) : Z :=
  if decide (n = "sqrt") then 9 else if decide (n = "memcpy") then 3 else 100.

Lemma is_white_spec_witness : is_white Intrinsic 9 = true.
Proof.
  apply (is_white_spec Intrinsic 9); [|done|]; by apply (bool_decide_unpack _); vm_compute.
Defined.

Lemma pick_up_spec_witness :
  let r := pick_up (H := list_order) getFunction functions annotations Intrinsic cfg BwList_kNULL in
  Symtbl.mFuncs r !! 16 = Some (mk_FuncBw None None (Some false) None) /\
  Symtbl.mCallees r !! 32 = Some true /\ Symtbl.mFCPcmChop r = ∅.
Proof.
  pose proof (fun f i => pick_up_spec (H := list_order) getFunction functions annotations
    Intrinsic cfg getName toy_find_name BwList_kNULL f i) as Hs.
  assert (NoDup (map fst functions)) as Hnd by (by apply (bool_decide_unpack _); vm_compute).
  assert (Forall (fun w => w <= UINT32_MAX) (whites Intrinsic)) as Hw
    by (by apply (bool_decide_unpack _); vm_compute).
  cbv zeta in *. split; [|split].
  - destruct (Hs 16 0 Hnd (list_elem_of_here _ _) Hw ltac:(done)) as (-> & _). by vm_compute.
  - destruct (Hs 32 7 Hnd (list_elem_of_further _ _ _ (list_elem_of_here _ _)) Hw ltac:(done)) as (_ & -> & _).
    by vm_compute.
  - by destruct (Hs 16 0 Hnd (list_elem_of_here _ _) Hw ltac:(done)) as (_ & _ & -> & _).
Defined.

End ToyPick.
End PickUp.
