(* ===== verification/Serial.v ===== *)
(** * The files the passes write and read

    Models the [dump_json] and [load_json] functions of
    [lib/gyhcall/BwList.cpp], [lib/gyhcall/PickUp.cpp],
    [lib/gyhcall/Config.cpp], [lib/gyhcall/ChopOff.cpp],
    [lib/gyhcall/TakeOut.cpp] and [lib/gyhcall/Symtbl.cpp], and what is left
    of a value that is written and read back. *)

From S2P Require Import Prelude LlvmIR Symtbl ChopOff TakeOut Json PickUp.
#[local] Open Scope string_scope.
#[local] Open Scope Z_scope.

(** Finds the fields of an object written out field by field. *)
Ltac om_simpl :=
  unfold om_map; repeat first [rewrite lookup_insert_eq | rewrite lookup_insert_ne by done];
  simpl.

Section serial.
Context `{MapOrder}.

(** [for (auto [name, jval] : *obj)] over the object at a key of [o]. *)
Definition load_object {S} (o : gmap string jval) (key : string)
    (f : S -> string * jval -> option S) (s : S) : option S :=
  entries ← (o !! key) ≫= getAsObject;
  foldM f (iterate entries) s.

(** ** Black and white lists *)

Definition FuncBw_dump_json (b : FuncBw) : gmap string jval :=
  <["outline" := toJSON_optional JBool (mOutline b)]>
  (<["analyze" := toJSON_optional JBool (mAnalyze b)]>
  (<["chop-off" := toJSON_optional JBool (mChopOff b)]>
  (<["take-out" := toJSON_optional JBool (mTakeOut b)]> ∅))).

Definition FuncBw_load_json (self : FuncBw) (j : jval) : option FuncBw :=
  om ← getAsObject j;
  o ← om_mapOptional getAsBoolean "outline" (mOutline self) om;
  a ← om_mapOptional getAsBoolean "analyze" (mAnalyze self) om;
  c ← om_mapOptional getAsBoolean "chop-off" (mChopOff self) om;
  t ← om_mapOptional getAsBoolean "take-out" (mTakeOut self) om;
  Some (mk_FuncBw o a c t).

Lemma FuncBw_roundtrip self b : FuncBw_load_json self (JObj (FuncBw_dump_json b)) = Some b.
Proof. by destruct b as [[] [] [] []]. Qed.

Section bwlist.
(** The names of the functions of the module. *)
Context (getName : Z -> string) (getFunction : string -> option Z).

Definition BwList_dump_json (l : BwList) : gmap string jval :=
  <["Funcs" := JObj (dump_table getName (JObj ∘ FuncBw_dump_json) (mFuncs l))]>
  (<["Callees" := JObj (dump_table getName JBool (mCallees l))]>
  (<["FCPcmChop" := JArr (map (fun x => JStr (getName x.1))
                              (iterate (gset_to_gmap tt (mFCPcmChop l))))]>
  (<["FCPcmChopOthers" := JBool (mFCPcmChopOthers l)]> ∅))).

Definition load_func (fs : gmap Z FuncBw) (e : string * jval) : option (gmap Z FuncBw) :=
  match getFunction e.1 with
  | None => Some fs
  | Some func =>
      anno ← FuncBw_load_json PickUp.FuncBw0 e.2;
      Some (<[func := anno]> fs)
  end.

Definition load_callee (cs : gmap Z bool) (e : string * jval) : option (gmap Z bool) :=
  match getFunction e.1 with
  | None => Some cs
  | Some func => bw ← getAsBoolean e.2; Some (<[func := bw]> cs)
  end.

Definition load_chop (s : gset Z) (j : jval) : option (gset Z) :=
  name ← getAsString j;
  match getFunction name with
  | None => Some s
  | Some func => Some ({[func]} ∪ s)
  end.

Definition BwList_load_json (self : BwList) (j : jval) : option BwList :=
  om ← getAsObject j;
  funcs ← load_object om "Funcs" load_func (mFuncs self);
  callees ← load_object om "Callees" load_callee (mCallees self);
  names ← (om !! "FCPcmChop") ≫= getAsArray;
  chop ← foldM load_chop names (mFCPcmChop self);
  others ← om_map getAsBoolean "FCPcmChopOthers" om;
  Some (mk_BwList funcs callees chop others).

(** The module finds the functions of a list by their names. *)
Definition bw_named (l : BwList) : Prop :=
  forall f, is_Some (mFuncs l !! f) \/ is_Some (mCallees l !! f) \/ f ∈ mFCPcmChop l ->
            getFunction (getName f) = Some f.

Lemma names_inj (P : Z -> Prop) :
  (forall f, P f -> getFunction (getName f) = Some f) ->
  forall f g, P f -> P g -> getName f = getName g -> f = g.
Proof.
  intros Hn f g Hf Hg He. pose proof (Hn f Hf) as H1. rewrite He, (Hn g Hg) in H1. congruence.
Qed.

Lemma load_chops l s :
  Forall (fun f => getFunction (getName f) = Some f) l ->
  foldM load_chop (map (fun x => JStr (getName x)) l) s = Some (list_to_set l ∪ s).
Proof.
  intros Hl. revert s. induction Hl as [|f l Hf _ IH]; intros s; [simpl; f_equal; set_solver|].
  cbn [map foldM].
  assert (load_chop s (JStr (getName f)) = Some ({[f]} ∪ s)) as ->
    by (unfold load_chop; simpl; by rewrite Hf).
  simpl. rewrite IH. f_equal. set_solver.
Qed.

Lemma iterate_gset (X : gset Z) :
  list_to_set (map fst (iterate (gset_to_gmap tt X))) = X.
Proof.
  apply set_eq. intros x. rewrite elem_of_list_to_set, list_elem_of_fmap. split.
  - intros ([y u] & -> & Hy). rewrite iterate_perm, elem_of_map_to_list in Hy.
    by apply lookup_gset_to_gmap_Some in Hy as [? _].
  - intros Hx. exists (x, tt). split; [done|]. rewrite iterate_perm, elem_of_map_to_list.
    by apply lookup_gset_to_gmap_Some.
Qed.

(** Black and white lists written to a file are read back as they were, in
    a module that has the functions they name. *)
Theorem BwList_roundtrip l :
  bw_named l -> BwList_load_json BwList_kNULL (JObj (BwList_dump_json l)) = Some l.
Proof.
  intros Hn. unfold BwList_load_json, BwList_dump_json. simpl.
  unfold load_object. om_simpl.
  rewrite (foldM_dump_table getName (JObj ∘ FuncBw_dump_json) load_func (mFuncs l) id).
  2: { intros f g Hf Hg. apply (names_inj (fun f => is_Some (mFuncs l !! f))); auto. }
  2: { intros t f b Hf _. unfold load_func. simpl. rewrite Hn by (left; by eexists).
       by rewrite FuncBw_roundtrip. }
  simpl. rewrite (foldM_dump_table getName JBool load_callee (mCallees l) id).
  2: { intros f g Hf Hg. apply (names_inj (fun f => is_Some (mCallees l !! f))); auto. }
  2: { intros t f b Hf _. unfold load_callee. simpl. by rewrite Hn by (right; left; by eexists). }
  simpl. replace (map (fun x : Z * () => JStr (getName x.1)) (iterate (gset_to_gmap () (mFCPcmChop l))))
    with (map (fun x => JStr (getName x)) (map fst (iterate (gset_to_gmap tt (mFCPcmChop l)))))
    by apply map_map.
  rewrite load_chops, iterate_gset.
  - destruct l. simpl. do 2 f_equal. apply (right_id_L ∅ (∪)).
  - apply Forall_forall. intros f Hf. apply Hn. right; right.
    rewrite <- (iterate_gset (mFCPcmChop l)). by apply elem_of_list_to_set.
Qed.

End bwlist.

(** ** Configurations *)

(** [PickUp::Config] *)
Definition PickUp_dump_json (c : PickUp.Config) : gmap string jval :=
  <["Funcs" := JObj (dump_table id (JObj ∘ FuncBw_dump_json) (PickUp.mFuncs c))]>
  (<["Callees" := JObj (dump_table id JBool (PickUp.mCallees c))]>
  (<["FCPcmChop" := JArr (map JStr (PickUp.mFCPcmChop c))]>
  (<["FCPcmChopOthers" := JBool (PickUp.mFCPcmChopOthers c)]> ∅))).

Definition load_named_func (fs : gmap string FuncBw) (e : string * jval)
    : option (gmap string FuncBw) :=
  bw ← FuncBw_load_json PickUp.FuncBw0 e.2; Some (<[e.1 := bw]> fs).

Definition load_named_callee (cs : gmap string bool) (e : string * jval)
    : option (gmap string bool) :=
  bw ← getAsBoolean e.2; Some (<[e.1 := bw]> cs).

Definition PickUp_load_json (self : PickUp.Config) (j : jval) : option PickUp.Config :=
  om ← getAsObject j;
  funcs ← load_object om "Funcs" load_named_func (PickUp.mFuncs self);
  callees ← load_object om "Callees" load_named_callee (PickUp.mCallees self);
  chop ← om_map (fromJSON_vector getAsString) "FCPcmChop" om;
  others ← om_map getAsBoolean "FCPcmChopOthers" om;
  Some (PickUp.mk_Config funcs callees chop others).

Definition PickUp_Config0 : PickUp.Config := PickUp.mk_Config ∅ ∅ [] false.

Lemma PickUp_roundtrip c : PickUp_load_json PickUp_Config0 (JObj (PickUp_dump_json c)) = Some c.
Proof.
  unfold PickUp_load_json, PickUp_dump_json. simpl. unfold load_object. om_simpl.
  rewrite (foldM_dump_table id (JObj ∘ FuncBw_dump_json) load_named_func
    (PickUp.mFuncs c) id); [|done|].
  2: { intros t f b Hf _. unfold load_named_func. simpl. by rewrite FuncBw_roundtrip. }
  simpl. rewrite (foldM_dump_table id JBool load_named_callee (PickUp.mCallees c) id); [|done..].
  simpl. unfold fromJSON_vector. simpl. rewrite mapM_map_ok by (by apply Forall_forall).
  simpl. by destruct c.
Qed.

(** [ChopOff::Config] *)
Definition ChopOff_dump_json (c : ChopOff.Config) : gmap string jval :=
  <["Debug" := JBool (ChopOff.mDebug c)]>
  (<["UseGRT" := JBool (ChopOff.mUseGRT c)]>
  (<["UseFCPcm" := JBool (ChopOff.mUseFCPcm c)]>
  (<["MinBasicBlocks" := JInt (ChopOff.mMinBasicBlocks c)]>
  (<["MinInstructions" := JInt (ChopOff.mMinInstructions c)]> ∅)))).

Definition ChopOff_load_json (j : jval) : option ChopOff.Config :=
  om ← getAsObject j;
  debug ← om_map getAsBoolean "Debug" om;
  grt ← om_map getAsBoolean "UseGRT" om;
  fcpcm ← om_map getAsBoolean "UseFCPcm" om;
  bbs ← om_map fromJSON_u32 "MinBasicBlocks" om;
  inss ← om_map fromJSON_u32 "MinInstructions" om;
  Some (ChopOff.mk_Config debug grt fcpcm bbs inss).

(** [TakeOut::Config]; [mUseFCPcm] is neither written nor read. *)
Definition TakeOut_dump_json (c : TakeOut.Config) : gmap string jval :=
  <["Debug" := JBool (TakeOut.mDebug c)]>
  (<["UseGRT" := JBool (TakeOut.mUseGRT c)]>
  (<["UseFCP" := JBool (TakeOut.mUseFCP c)]> ∅)).

Definition TakeOut_load_json (self : TakeOut.Config) (j : jval) : option TakeOut.Config :=
  om ← getAsObject j;
  debug ← om_map getAsBoolean "Debug" om;
  grt ← om_map getAsBoolean "UseGRT" om;
  fcp ← om_map getAsBoolean "UseFCP" om;
  Some (TakeOut.mk_Config debug grt fcp (TakeOut.mUseFCPcm self)).

(** The configuration of the whole chain. *)
Record Config := mk_Config {
  mLLorBC : bool;
  mDebug : bool;
  mUsePFO : bool;
  mUseGRT : bool;
  mUseFCP : bool;
  mUseFCPcm : bool;
  mMinBasicBlocks : Z;
  mMinInstructions : Z;
  mBwList : PickUp.Config
}.

Definition Config0 : Config :=
  mk_Config false false false false false false 2 10 PickUp_Config0.

(** [Config::chop_off], [Config::take_out] and [Config::pick_up] *)
Definition chop_off (c : Config) : ChopOff.Config :=
  ChopOff.mk_Config (mDebug c) (mUseGRT c) (mUseFCPcm c) (mMinBasicBlocks c) (mMinInstructions c).

Definition take_out (c : Config) : TakeOut.Config :=
  TakeOut.mk_Config (mDebug c) (mUseGRT c) (mUseFCP c) (mUseFCPcm c).

Definition pick_up (c : Config) : PickUp.Config := mBwList c.

Definition Config_dump_json (c : Config) : gmap string jval :=
  <["LLorBC" := JBool (mLLorBC c)]>
  (<["Debug" := JBool (mDebug c)]>
  (<["UsePFO" := JBool (mUsePFO c)]>
  (<["UseGRT" := JBool (mUseGRT c)]>
  (<["UseFCP" := JBool (mUseFCP c)]>
  (<["UseFCPcm" := JBool (mUseFCPcm c)]>
  (<["MinBasicBlocks" := JInt (mMinBasicBlocks c)]>
  (<["MinInstructions" := JInt (mMinInstructions c)]>
  (<["BwList" := JObj (PickUp_dump_json (mBwList c))]> ∅)))))))).

Definition Config_load_json (self : Config) (j : jval) : option Config :=
  om ← getAsObject j;
  llorbc ← om_map getAsBoolean "LLorBC" om;
  debug ← om_map getAsBoolean "Debug" om;
  pfo ← om_map getAsBoolean "UsePFO" om;
  grt ← om_map getAsBoolean "UseGRT" om;
  fcp ← om_map getAsBoolean "UseFCP" om;
  fcpcm ← om_map getAsBoolean "UseFCPcm" om;
  bbs ← om_map fromJSON_u32 "MinBasicBlocks" om;
  inss ← om_map fromJSON_u32 "MinInstructions" om;
  bw ← (match om !! "BwList" with
        | Some (JObj o) => PickUp_load_json (mBwList self) (JObj o)
        | _ => Some (mBwList self)
        end);
  Some (mk_Config llorbc debug pfo grt fcp fcpcm bbs inss bw).

(** A configuration written to a file is read back as it was, and so is the
    part of it that configures the chop-off pass. The part that configures
    the take-out pass is not: the cross-module fast path is off after it is
    read into a fresh configuration. *)
Theorem Config_roundtrip c :
  0 <= mMinBasicBlocks c < 2 ^ 32 -> 0 <= mMinInstructions c < 2 ^ 32 ->
  Config_load_json Config0 (JObj (Config_dump_json c)) = Some c /\
  ChopOff_load_json (JObj (ChopOff_dump_json (chop_off c))) = Some (chop_off c) /\
  TakeOut_load_json (TakeOut.mk_Config false false false false) 
      (JObj (TakeOut_dump_json (take_out c))) =
    Some (TakeOut.mk_Config (mDebug c) (mUseGRT c) (mUseFCP c) false).
Proof.
  intros Hb Hi. split; [|split].
  - unfold Config_load_json, Config_dump_json. cbn [getAsObject mbind option_bind]. om_simpl.
    rewrite !fromJSON_u32_ok by done. cbn [mbind option_bind].
    change (mBwList Config0) with PickUp_Config0. rewrite PickUp_roundtrip. by destruct c.
  - unfold ChopOff_load_json, ChopOff_dump_json. simpl. om_simpl.
    by rewrite !fromJSON_u32_ok by done.
  - unfold TakeOut_load_json, TakeOut_dump_json. simpl. by om_simpl.
Qed.

(** ** The symbol table *)

Section symtbl.
(** Names of functions and of global values, the printed form of a stub
    declaration and LLVM's parser for it, and the hash of a function type. *)
Context (getName : Z -> string) (getFunction getNamedValue : string -> option Z).
Context (print_stub : functype -> attrlist -> string).
Context (parse_stub : string -> option (functype * attrlist)).
Context (fun_type_hash : functype -> option Z).

Definition StubInfo_dump_json (s : StubInfo) : gmap string jval :=
  <["Uid" := JInt (si_uid s)]>
  (<["Func" := JStr (print_stub (si_func s) (si_attrs s))]> ∅).

Definition StubInfo_load_json (j : jval) : option StubInfo :=
  om ← getAsObject j;
  u ← om_map fromJSON_u32 "Uid" om;
  funcStr ← om_map getAsString "Func" om;
  '(fty, attrs) ← parse_stub funcStr;
  Some (set_uid u (new_StubInfo fty attrs)).

(** [mStubType] points to an entry of the table of calling stubs; what is
    written for it is the hash of its type. *)
Definition FuncInfo_dump_json (stubs : gmap Z StubInfo) (info : FuncInfo)
    : option (gmap string jval) :=
  stub ← stubs !! fi_stub info;
  typeHash ← fun_type_hash (si_func stub);
  Some (<["Uid" := JInt (fi_uid info)]>
       (<["StubInfo" := JStr (hash2str typeHash)]>
       (<["ExtRefArgs" := JArr (map (fun v => JStr (getName v)) (fi_extrefs info))]>
       (<["CbStubArgs" := JArr (map (fun hc => JStr (hash2str hc)) (fi_cbstubs info))]> ∅)))).

Definition load_extref (j : jval) : option Z := name ← getAsString j; getNamedValue name.
Definition load_cbstub (j : jval) : option Z := name ← getAsString j; str2hash name.

Definition FuncInfo_load_json (stubs : gmap Z StubInfo) (j : jval) : option FuncInfo :=
  om ← getAsObject j;
  u ← om_map fromJSON_u32 "Uid" om;
  stubTypeStr ← om_map getAsString "StubInfo" om;
  typeHash ← str2hash stubTypeStr;
  _ ← stubs !! typeHash;
  extRefArgs ← om_map (fromJSON_vector load_extref) "ExtRefArgs" om;
  cbStubArgs ← om_map (fromJSON_vector load_cbstub) "CbStubArgs" om;
  Some (mk_FuncInfo u typeHash extRefArgs cbStubArgs).

Definition GrefInfo_dump_json (g : GrefInfo) : gmap string jval := {["Uid" := JInt (gi_uid g)]}.

Definition GrefInfo_load_json (j : jval) : option GrefInfo :=
  om ← getAsObject j; u ← om_map fromJSON_u32 "Uid" om; Some (mk_GrefInfo u).

Definition Symtbl_dump_json (st : Symtbl) : option (gmap string jval) :=
  functbl ← dump_tableM getName
              (fun info => JObj <$> FuncInfo_dump_json (mCallingStubs st) info) (mFunctbl st);
  Some (<["Uid" := JInt (st_uid st)]>
       (<["CallingStubs" :=
            JObj (dump_table hash2str (JObj ∘ StubInfo_dump_json) (mCallingStubs st))]>
       (<["CallbackStubs" :=
            JObj (dump_table hash2str (JObj ∘ StubInfo_dump_json) (mCallbackStubs st))]>
       (<["Functbl" := JObj functbl]>
       (<["Greftbl" := JObj (dump_table getName (JObj ∘ GrefInfo_dump_json) (mGreftbl st))]> ∅))))).

(** [emplace]: an entry that is there stays. *)
Definition emplace {A} (k : Z) (v : A) (m : gmap Z A) : gmap Z A :=
  match m !! k with Some _ => m | None => <[k := v]> m end.

Definition load_stub (m : gmap Z StubInfo) (e : string * jval) : option (gmap Z StubInfo) :=
  typeHash ← str2hash e.1;
  stubType ← StubInfo_load_json e.2;
  Some (emplace typeHash stubType m).

Definition load_funcinfo (stubs : gmap Z StubInfo) (m : gmap Z FuncInfo) (e : string * jval)
    : option (gmap Z FuncInfo) :=
  match getFunction e.1 with
  | None => Some m
  | Some func => info ← FuncInfo_load_json stubs e.2; Some (emplace func info m)
  end.

Definition load_grefinfo (m : gmap Z GrefInfo) (e : string * jval) : option (gmap Z GrefInfo) :=
  match getNamedValue e.1 with
  | None => Some m
  | Some gref => info ← GrefInfo_load_json e.2; Some (emplace gref info m)
  end.

Definition Symtbl_load_json (self : Symtbl) (j : jval) : option Symtbl :=
  om ← getAsObject j;
  u ← om_map fromJSON_u32 "Uid" om;
  calling ← load_object om "CallingStubs" load_stub (mCallingStubs self);
  callback ← load_object om "CallbackTypes" load_stub (mCallbackStubs self);
  functbl ← load_object om "Functbl" (load_funcinfo calling) (mFunctbl self);
  greftbl ← load_object om "Greftbl" load_grefinfo (mGreftbl self);
  Some (mk_Symtbl u calling callback functbl greftbl).

(** No symbol table that was written can be read: the callback stubs are
    written under a key the reader does not look for, and the key it wants is
    missing. *)
Theorem Symtbl_not_reloaded st self o :
  Symtbl_dump_json st = Some o -> Symtbl_load_json self (JObj o) = None.
Proof.
  unfold Symtbl_dump_json. destruct (dump_tableM _ _ _); simpl; [|done].
  intros [= <-]. unfold Symtbl_load_json, load_object. cbn [getAsObject mbind option_bind].
  om_simpl. rewrite lookup_empty. simpl.
  repeat match goal with |- context [?x ≫= _] => destruct x; simpl; [|done] end. done.
Qed.

(** The file with the callback stubs under the key that is read. *)
Definition rename_callbacks (o : gmap string jval) : gmap string jval :=
  match o !! "CallbackStubs" with Some v => <["CallbackTypes" := v]> o | None => o end.

(** A stub can be written and read: its fields are the ones its type
    determines, and its declaration parses. *)
Definition stub_readable (h : Z) (s : StubInfo) : Prop :=
  0 <= h < 2 ^ 64 /\ 0 <= si_uid s < 2 ^ 32 /\
  s = set_uid (si_uid s) (new_StubInfo (si_func s) (si_attrs s)) /\
  parse_stub (print_stub (si_func s) (si_attrs s)) = Some (si_func s, si_attrs s).

(** A function can be written and read; the key of its stub has to be the
    hash of the stub's type. *)
Definition func_readable (stubs : gmap Z StubInfo) (f : Z) (i : FuncInfo) : Prop :=
  getFunction (getName f) = Some f /\ 0 <= fi_uid i < 2 ^ 32 /\
  (exists s, stubs !! fi_stub i = Some s /\ fun_type_hash (si_func s) = Some (fi_stub i) /\
             0 <= fi_stub i < 2 ^ 64) /\
  Forall (fun v => getNamedValue (getName v) = Some v) (fi_extrefs i) /\
  Forall (fun h => 0 <= h < 2 ^ 64) (fi_cbstubs i).

Definition gref_readable (g : Z) (i : GrefInfo) : Prop :=
  getNamedValue (getName g) = Some g /\ 0 <= gi_uid i < 2 ^ 32.

Definition readable (st : Symtbl) : Prop :=
  0 <= st_uid st < 2 ^ 32 /\
  map_Forall stub_readable (mCallingStubs st) /\ map_Forall stub_readable (mCallbackStubs st) /\
  map_Forall (func_readable (mCallingStubs st)) (mFunctbl st) /\
  map_Forall gref_readable (mGreftbl st).

Lemma emplace_new {A} k (v : A) m : m !! k = None -> emplace k v m = <[k := v]> m.
Proof. unfold emplace. by intros ->. Qed.

Lemma StubInfo_roundtrip h s :
  stub_readable h s -> StubInfo_load_json (JObj (StubInfo_dump_json s)) = Some s.
Proof.
  intros (_ & Hu & Hs & Hp). unfold StubInfo_load_json, StubInfo_dump_json.
  cbn [getAsObject mbind option_bind]. om_simpl. rewrite fromJSON_u32_ok by done. simpl.
  rewrite Hp. simpl. f_equal. symmetry. exact Hs.
Qed.

Lemma stubs_roundtrip t :
  map_Forall stub_readable t ->
  foldM load_stub (iterate (dump_table hash2str (JObj ∘ StubInfo_dump_json) t)) ∅ = Some t.
Proof.
  intros Ht. apply (foldM_dump_table hash2str (JObj ∘ StubInfo_dump_json) load_stub t id).
  - intros h1 h2 [s1 H1] [s2 H2] He. destruct (Ht _ _ H1) as [R1 _], (Ht _ _ H2) as [R2 _].
    pose proof (str2hash_hash2str h1 R1) as E. rewrite He, str2hash_hash2str in E by done.
    congruence.
  - intros t' h s Hs Hn. destruct (Ht _ _ Hs) as [Hh _]. unfold load_stub. cbn [fst snd id].
    rewrite str2hash_hash2str by done. cbn [mbind option_bind]. change ((JObj ∘ StubInfo_dump_json) s)
      with (JObj (StubInfo_dump_json s)).
    rewrite (StubInfo_roundtrip h s (Ht _ _ Hs)). cbn [mbind option_bind].
    by rewrite emplace_new.
Qed.

(** What is written for a function that can be. *)
Definition FuncInfo_object (i : FuncInfo) : jval :=
  JObj (<["Uid" := JInt (fi_uid i)]>
       (<["StubInfo" := JStr (hash2str (fi_stub i))]>
       (<["ExtRefArgs" := JArr (map (fun v => JStr (getName v)) (fi_extrefs i))]>
       (<["CbStubArgs" := JArr (map (fun hc => JStr (hash2str hc)) (fi_cbstubs i))]> ∅)))).

Lemma FuncInfo_dumped stubs f i :
  func_readable stubs f i -> JObj <$> FuncInfo_dump_json stubs i = Some (FuncInfo_object i).
Proof.
  intros (_ & _ & (s & Hs & Hh & _) & _). unfold FuncInfo_dump_json. rewrite Hs. simpl.
  by rewrite Hh.
Qed.

Lemma FuncInfo_roundtrip stubs f i :
  func_readable stubs f i -> FuncInfo_load_json stubs (FuncInfo_object i) = Some i.
Proof.
  intros (_ & Hu & (s & Hs & _ & Hh) & He & Hc). unfold FuncInfo_load_json, FuncInfo_object.
  cbn [getAsObject mbind option_bind]. om_simpl. rewrite fromJSON_u32_ok by done. simpl.
  rewrite str2hash_hash2str by done. simpl. rewrite Hs. simpl. unfold fromJSON_vector. simpl.
  rewrite (mapM_map_ok _ load_extref) by done. simpl.
  rewrite (mapM_map_ok _ load_cbstub); [by destruct i|].
  eapply Forall_impl; [exact Hc|]. intros h Hr. by apply str2hash_hash2str.
Qed.

Lemma GrefInfo_roundtrip g :
  0 <= gi_uid g < 2 ^ 32 -> GrefInfo_load_json (JObj (GrefInfo_dump_json g)) = Some g.
Proof.
  intros Hg. unfold GrefInfo_load_json, GrefInfo_dump_json, om_map.
  cbn [getAsObject mbind option_bind]. rewrite lookup_singleton_eq. cbn [mbind option_bind].
  rewrite fromJSON_u32_ok by done. by destruct g.
Qed.


End symtbl.
End serial.

(** ** Examples *)
Module ToySerial.
Import PickUp.ToyPick.
#[local] Existing Instance list_order.

Definition bwl : BwList :=
  mk_BwList {[ 16 := mk_FuncBw None (Some true) None None ]} {[ 32 := false ]} {[ 48 ]} true.

Lemma BwList_roundtrip_witness :
  BwList_load_json getFunction BwList_kNULL (JObj (BwList_dump_json getName bwl)) = Some bwl.
Proof.
  apply BwList_roundtrip. intros f. simpl.
  rewrite !lookup_singleton_is_Some, elem_of_singleton. by intros [<- |[<- | ->]].
Defined.

Definition cfg1 : Config := mk_Config true false true true false true 4 20 cfg.

Lemma Config_roundtrip_witness :
  Config_load_json Config0 (JObj (Config_dump_json cfg1)) = Some cfg1.
Proof. apply (Config_roundtrip cfg1); vm_compute; split; done. Defined.

(** A table with one function, one reference and stubs of type [void()]. *)
Definition fty : functype := mk_functype (TPrim VoidTyID) [] false.
Definition print_stub (f : functype) (a : attrlist) : string := "declare void @stub()".
Definition parse_stub (s : string) : option (functype * attrlist) := Some (fty, []).
Definition fun_type_hash (f : functype) : option Z := Some 5.

Definition st : Symtbl :=
  let stub := set_uid 0 (new_StubInfo fty []) in
  mk_Symtbl 7 {[ 5 := stub ]} {[ 5 := stub ]} {[ 16 := mk_FuncInfo 0 5 [32] [5] ]}
    {[ 32 := mk_GrefInfo 0 ]}.

Lemma st_readable : readable getName getFunction getFunction print_stub parse_stub fun_type_hash st.
Proof.
  unfold readable, st. simpl. rewrite !map_Forall_singleton.
  unfold stub_readable, func_readable, gref_readable. simpl.
  assert (Forall (fun h => 0 <= h < 2 ^ 64) [5]) by (constructor; [lia|constructor]).
  split_and!; try done; try lia; [|by repeat constructor].
  exists (set_uid 0 (new_StubInfo fty [])). split_and!; try done; lia.
Qed.


Lemma Symtbl_not_reloaded_witness :
  exists o, Symtbl_dump_json getName print_stub fun_type_hash (mk_Symtbl 7 ∅ ∅ ∅ ∅) = Some o /\
    Symtbl_load_json getFunction getFunction parse_stub (mk_Symtbl UINT32_MAX ∅ ∅ ∅ ∅)
      (JObj o) = None.
Proof.
  eexists. split; [reflexivity|].
  by eapply (Symtbl_not_reloaded getName getFunction getFunction print_stub parse_stub fun_type_hash
    (mk_Symtbl 7 ∅ ∅ ∅ ∅)).
Defined.

End ToySerial.
