(* ===== verification/Tools.v ===== *)
(** * The command line tools that inspect modules

    Models [app/globhash.cpp], which compares the hashes of the global values
    of two modules, and [app/funcnum.cpp], which counts the functions of one.
    Both read modules that LLVM parsed and print counters. *)

From S2P Require Import Prelude LlvmIR TypeHash.
#[local] Open Scope string_scope.
#[local] Open Scope Z_scope.

(** ** Equality of types and attributes *)

Definition list_eqb {A} (eqb : A -> A -> bool) : list A -> list A -> bool :=
  fix go (l1 l2 : list A) : bool :=
    match l1, l2 with
    | [], [] => true
    | x1 :: l1, x2 :: l2 => eqb x1 x2 && go l1 l2
    | _, _ => false
    end.

Lemma list_eqb_eq {A} (eqb : A -> A -> bool) l1 l2 :
  Forall (fun x => forall y, eqb x y = true <-> x = y) l1 -> list_eqb eqb l1 l2 = true <-> l1 = l2.
Proof.
  intros H. revert l2. induction H as [|x l1 Hx _ IH]; intros [|y l2]; simpl; try (by split).
  rewrite andb_true_iff, Hx, IH. naive_solver.
Qed.

Fixpoint ty_eqb (t1 t2 : ty) : bool :=
  match t1, t2 with
  | TPrim i1, TPrim i2 => bool_decide (i1 = i2)
  | TInt w1, TInt w2 => w1 =? w2
  | TFun r1 p1 v1, TFun r2 p2 v2 => ty_eqb r1 r2 && list_eqb ty_eqb p1 p2 && Bool.eqb v1 v2
  | TPtr a1, TPtr a2 => a1 =? a2
  | TOpaque n1, TOpaque n2 => bool_decide (n1 = n2)
  | TStruct n1 e1 p1, TStruct n2 e2 p2 =>
      bool_decide (n1 = n2) && list_eqb ty_eqb e1 e2 && Bool.eqb p1 p2
  | TArray e1 n1, TArray e2 n2 | TFixedVec e1 n1, TFixedVec e2 n2
  | TScalableVec e1 n1, TScalableVec e2 n2 | TTypedPtr e1 n1, TTypedPtr e2 n2 =>
      ty_eqb e1 e2 && (n1 =? n2)
  | TTargetExt n1, TTargetExt n2 => bool_decide (n1 = n2)
  | _, _ => false
  end.

Lemma ty_eqb_eq t1 t2 : ty_eqb t1 t2 = true <-> t1 = t2.
Proof.
  revert t2. induction t1 using ty_induct; intros t2; destruct t2; simpl; try (by split);
    rewrite ?andb_true_iff, ?bool_decide_eq_true, ?Bool.eqb_true_iff, ?Z.eqb_eq;
    rewrite ?list_eqb_eq by done; naive_solver.
Qed.

#[export] Instance ty_eq_dec : EqDecision ty.
Proof.
  intros t1 t2. destruct (ty_eqb t1 t2) eqn:He; [left|right].
  - by apply ty_eqb_eq.
  - intros ->. assert (ty_eqb t2 t2 = true) by (by apply ty_eqb_eq). congruence.
Defined.

#[export] Instance attr_eq_dec : EqDecision attr.
Proof. solve_decision. Defined.

(** ** Modules *)

(** A global value: a function, or another one with the type of its value. *)
Inductive gvalue := GFunction (f : func) | GVariable (t : ty).

Record ir := mk_ir { ir_globals : list (string * gvalue); ir_functions : list (string * gvalue) }.

(** [getNamedValue]; a value without a name is in no symbol table. *)
Definition getNamedValue (m : ir) (name : string) : option gvalue :=
  if (name =? "")%string then None
  else snd <$> List.find (fun e => (e.1 =? name)%string) (ir_globals m ++ ir_functions m)%list.

(** ** globhash *)

Section globhash.
Context (typeID : TypeID -> Z) (hash_combine : list hval -> Z).
Context (isSized : ty -> bool) (getKindAsEnum : attr -> Z).

Definition TAPair : Type := ty * attrlist.

Definition hash_ta_pair (gv : gvalue) : option (Z * TAPair) :=
  match gv with
  | GFunction f =>
      h ← function_hash typeID hash_combine isSized getKindAsEnum f;
      Some (h, (ty_of_fun (fn_type f), fn_attrs f))
  | GVariable t => h ← type_hash typeID hash_combine isSized t; Some (h, (t, []))
  end.

Record Result := mk_Result {
  mNormal : Z;
  mUnhashable : Z;
  mAdditional : Z;
  mCollision : Z;
  mMismatch : Z
}.

Definition inc_normal (r : Result) : Result :=
  mk_Result (u32 (mNormal r + 1)) (mUnhashable r) (mAdditional r) (mCollision r) (mMismatch r).
Definition inc_unhashable (r : Result) : Result :=
  mk_Result (mNormal r) (u32 (mUnhashable r + 1)) (mAdditional r) (mCollision r) (mMismatch r).
Definition inc_additional (r : Result) : Result :=
  mk_Result (mNormal r) (mUnhashable r) (u32 (mAdditional r + 1)) (mCollision r) (mMismatch r).
Definition inc_collision (r : Result) : Result :=
  mk_Result (mNormal r) (mUnhashable r) (mAdditional r) (u32 (mCollision r + 1)) (mMismatch r).
Definition inc_mismatch (r : Result) : Result :=
  mk_Result (mNormal r) (mUnhashable r) (mAdditional r) (mCollision r) (u32 (mMismatch r + 1)).

(** [compare], with [gHashes] *)
Definition compare (gIir : ir) (st : gmap Z TAPair * Result) (gvCmp : string * gvalue)
    : gmap Z TAPair * Result :=
  let '(gHashes, result) := st in
  match hash_ta_pair gvCmp.2 with
  | None => (gHashes, inc_unhashable result)
  | Some (hashCmp, taPairCmp) =>
      let check (gHashes : gmap Z TAPair) :=
        match getNamedValue gIir gvCmp.1 with
        | None => (gHashes, inc_additional result)
        | Some gv =>
            match hash_ta_pair gv with
            | None => (gHashes, inc_mismatch result)
            | Some (hash, _) =>
                if hash =? hashCmp then (gHashes, inc_normal result)
                else (gHashes, inc_normal (inc_mismatch result))
            end
        end in
      match gHashes !! hashCmp with
      | None => check (<[hashCmp := taPairCmp]> gHashes)
      | Some taPair =>
          if decide (taPairCmp = taPair) then check gHashes else (gHashes, inc_collision result)
      end
  end.

(** [main_body]: the counters and the exit status. The counters are not
    initialised: [init] is what they hold. *)
Definition globhash (gIir gCmpIR : ir) (init : Result) : Result * Z :=
  let st := fold_left (compare gIir) (ir_globals gCmpIR) (∅, init) in
  let st := fold_left (compare gIir) (ir_functions gIir) st in
  (st.2, if (0 <? mCollision st.2) || (0 <? mMismatch st.2) then -3 else 0).

(** Equal hashes come from equal types and attributes. *)
Definition no_collision (l : list (string * gvalue)) : Prop :=
  forall e1 e2 h t1 t2, e1 ∈ l -> e2 ∈ l -> hash_ta_pair e1.2 = Some (h, t1) ->
    hash_ta_pair e2.2 = Some (h, t2) -> t1 = t2.

(** The table holds hashes of values of [l]. *)
Definition hashes_of (l : list (string * gvalue)) (gHashes : gmap Z TAPair) : Prop :=
  forall h t, gHashes !! h = Some t -> exists e, e ∈ l /\ hash_ta_pair e.2 = Some (h, t).

Lemma compare_self (m : ir) all st e :
  no_collision all -> e ∈ all -> hashes_of all st.1 ->
  (getNamedValue m e.1 = None \/ getNamedValue m e.1 = Some e.2) ->
  hashes_of all (compare m st e).1 /\
  mCollision (compare m st e).2 = mCollision st.2 /\
  mMismatch (compare m st e).2 = mMismatch st.2.
Proof.
  intros Hnc He Hh Hn. destruct st as [gH r]. unfold compare.
  destruct (hash_ta_pair e.2) as [[h t]|] eqn:Ht; [|done].
  assert (hashes_of all (<[h:=t]> gH)) as Hh'.
  { intros k u [[<- <-]|[_ Hk]]%lookup_insert_Some; [by exists e|by apply Hh]. }
  destruct (gH !! h) as [u|] eqn:Hu.
  - rewrite decide_True by (destruct (Hh h u Hu) as (e' & He' & Hte'); by apply (Hnc e e' h)).
    destruct Hn as [-> | ->]; [done|]. rewrite Ht, Z.eqb_refl. done.
  - destruct Hn as [-> | ->]; [done|]. rewrite Ht, Z.eqb_refl. done.
Qed.

Lemma compares_self (m : ir) all l st :
  no_collision all -> (forall e, e ∈ l -> e ∈ all /\
    (getNamedValue m e.1 = None \/ getNamedValue m e.1 = Some e.2)) -> hashes_of all st.1 ->
  hashes_of all (fold_left (compare m) l st).1 /\
  mCollision (fold_left (compare m) l st).2 = mCollision st.2 /\
  mMismatch (fold_left (compare m) l st).2 = mMismatch st.2.
Proof.
  intros Hnc. revert st. induction l as [|e l IH]; intros st Hl Hh; simpl; [done|].
  destruct (Hl e) as [He Hn]; [by left|].
  destruct (compare_self m all st e Hnc He Hh Hn) as (H1 & H2 & H3).
  destruct (IH (compare m st e)) as (H4 & H5 & H6); [|done|].
  { intros e' He'. apply Hl. by right. }
  split; [done|]. split; congruence.
Qed.

Lemma named_self (m : ir) e :
  NoDup (map fst (ir_globals m ++ ir_functions m)) ->
  e ∈ (ir_globals m ++ ir_functions m)%list ->
  getNamedValue m e.1 = None \/ getNamedValue m e.1 = Some e.2.
Proof.
  intros Hnd He. unfold getNamedValue. destruct (String.eqb_spec e.1 ""); [by left|right].
  destruct (List.find _ _) as [e'|] eqn:Hf.
  - apply List.find_some in Hf as [Hin%list_elem_of_In Hn%String.eqb_eq]. simpl.
    by rewrite (NoDup_map_inj _ _ e' e Hnd Hin He Hn).
  - apply list_elem_of_In in He. pose proof (List.find_none _ _ Hf e He) as Hne. simpl in Hne.
    by rewrite String.eqb_refl in Hne.
Qed.

(** The comparison of two modules does not look at the functions of the
    second: whatever they are, if the two modules have the same other global
    values, and no hash collides in the first, the tool reports no mismatch and
    exits with 0 (from counters that start at 0). *)
Theorem globhash_ignores_functions (m : ir) functions init :
  NoDup (map fst (ir_globals m ++ ir_functions m)) ->
  no_collision (ir_globals m ++ ir_functions m) ->
  mCollision init = 0 -> mMismatch init = 0 ->
  let r := globhash m (mk_ir (ir_globals m) functions) init in
  mMismatch r.1 = 0 /\ r.2 = 0.
Proof.
  intros Hnd Hnc H1 H2 r. unfold r, globhash. simpl.
  destruct (compares_self m _ (ir_globals m) (∅, init) Hnc) as (A1 & A2 & A3).
  { intros e He. assert (e ∈ (ir_globals m ++ ir_functions m)%list) by (apply elem_of_app; by left).
    split; [done|by apply named_self]. }
  { intros h t Ht. simpl in Ht. by rewrite lookup_empty in Ht. }
  destruct (compares_self m _ (ir_functions m)
              (fold_left (compare m) (ir_globals m) (∅, init)) Hnc) as (_ & B2 & B3); [|done|].
  { intros e He. assert (e ∈ (ir_globals m ++ ir_functions m)%list) by (apply elem_of_app; by right).
    split; [done|by apply named_self]. }
  simpl in A2, A3. rewrite B2, B3, A2, A3, H1, H2. done.
Qed.

End globhash.

(** ** funcnum *)

Record counts := mk_counts {
  total : Z;
  original : Z;
  guestCallbacks : Z;
  hostCalls : Z;
  misc : list string
}.

Definition starts_with (p s : string) : bool := String.prefix p s.

Definition count_step (c : counts) (name : string) : counts :=
  let total := u64 (total c + 1) in
  if negb (starts_with "__gyh" name)
  then mk_counts total (u64 (original c + 1)) (guestCallbacks c) (hostCalls c) (misc c)
  else if starts_with "__gyh_callback_" name
  then mk_counts total (original c) (u64 (guestCallbacks c + 1)) (hostCalls c) (misc c)
  else if starts_with "__gyh_call_" name
  then mk_counts total (original c) (guestCallbacks c) (u64 (hostCalls c + 1)) (misc c)
  else mk_counts total (original c) (guestCallbacks c) (hostCalls c) (misc c ++ [name]).

Definition funcnum (gIir : ir) : counts :=
  fold_left count_step (map fst (ir_functions gIir)) (mk_counts 0 0 0 0 []).

(** The kinds of functions add up. *)
Definition counted (c : counts) : Prop :=
  0 <= original c /\ 0 <= guestCallbacks c /\ 0 <= hostCalls c /\
  total c = original c + guestCallbacks c + hostCalls c + Z.of_nat (length (misc c)).

Lemma count_step_ok c name :
  counted c -> total c + 1 < 2 ^ 64 ->
  counted (count_step c name) /\ total (count_step c name) = total c + 1.
Proof.
  intros (H1 & H2 & H3 & Ht) Hb. unfold count_step, counted.
  destruct (negb _); [|destruct (starts_with "__gyh_callback_" name);
    [|destruct (starts_with "__gyh_call_" name)]]; simpl;
    rewrite ?wrap_small by lia; rewrite ?length_app; simpl; lia.
Qed.

(** The four kinds of functions are told apart and none is missed. *)
Theorem funcnum_partition (m : ir) :
  let c := funcnum m in
  Z.of_nat (length (ir_functions m)) < 2 ^ 64 ->
  total c = Z.of_nat (length (ir_functions m)) /\
  total c = original c + guestCallbacks c + hostCalls c + Z.of_nat (length (misc c)).
Proof.
  assert (forall l c, counted c -> total c + Z.of_nat (length l) < 2 ^ 64 ->
    counted (fold_left count_step l c) /\
    total (fold_left count_step l c) = total c + Z.of_nat (length l)) as H.
  { induction l as [|name l IH]; intros c Hc Hb; simpl in *; [split; [done|lia]|].
    destruct (count_step_ok c name Hc) as [Hc' Ht]; [lia|].
    destruct (IH (count_step c name) Hc') as [IH1 IH2]; [lia|]. split; [done|lia]. }
  intros c Hl. rewrite <- (length_map fst) in Hl |- *.
  destruct (H (map fst (ir_functions m)) (mk_counts 0 0 0 0 [])) as [(_ & _ & _ & E2) E1]; [done|done|].
  by split.
Qed.

(** ** Example

    The function [f] has another signature in the second module. *)
Module ToyTools.
Import ToyHash.

Definition thash : gvalue -> option (Z * TAPair) :=
  hash_ta_pair typeID hash_combine (fun _ => true) (fun _ => 5).

Definition fn (ret : ty) : gvalue :=
  GFunction (mk_func 0x100 false (mk_functype ret [] false) [] []).

Definition base : ir := mk_ir [("g", GVariable (TInt 32))] [("f", fn (TInt 32))].
Definition changed : list (string * gvalue) := [("f", fn (TPtr 0))].

Lemma globhash_ignores_functions_witness :
  thash (fn (TInt 32)) <> thash (fn (TPtr 0)) /\
  (globhash typeID hash_combine (fun _ => true) (fun _ => 5) base
     (mk_ir (ir_globals base) changed) (mk_Result 0 0 0 0 0)).2 = 0.
Proof.
  split; [by vm_compute|].
  apply (globhash_ignores_functions typeID hash_combine (fun _ => true) (fun _ => 5) base changed
           (mk_Result 0 0 0 0 0)); [|intros e1 e2 h t1 t2 H1 H2 E1 E2|done|done].
  - by apply (bool_decide_unpack _).
  - assert (forall e, e ∈ [("g", GVariable (TInt 32)); ("f", fn (TInt 32))] ->
      e = ("g", GVariable (TInt 32)) \/ e = ("f", fn (TInt 32))) as Hor by set_solver.
    assert (fst <$> thash (GVariable (TInt 32)) <> fst <$> thash (fn (TInt 32))) as Hne
      by (by vm_compute).
    unfold thash in Hne.
    destruct (Hor _ H1) as [-> | ->], (Hor _ H2) as [-> | ->]; simpl snd in E1, E2;
      rewrite ?E1, ?E2 in Hne; by simplify_eq.
Defined.

End ToyTools.
