(* ===== verification/CLoop.v ===== *)
(** * Loops and byte strings

    What the models of C routines on memory share: a loop with early return
    and its rule for total correctness, accesses through typed pointers, and
    the bytes of a memory as lists. *)

From S2P Require Import Prelude CMem.
#[local] Open Scope string_scope.
#[local] Open Scope Z_scope.

(** ** Loops *)

Section loop.
Context {S R : Type}.
Context (cond : S -> result bool) (body : S -> result (S + R)).

(** [for (; cond; ) body], where the body can return from the function. *)
Fixpoint loop (fuel : nat) (s : S) : result (S + R) :=
  match fuel with
  | O => Fault "fuel"
  | Datatypes.S fuel =>
      b ← cond s;
      if b : bool then
        o ← body s;
        match o with inl s => loop fuel s | inr r => Ok (inr r) end
      else Ok (inl s)
  end.

(** A loop whose body keeps [I] and makes [V] smaller ends: in a state where
    the condition fails, or by a return that satisfies [Q]. *)
Lemma loop_rule (I : S -> Prop) (Q : R -> Prop) (V : S -> nat) fuel s :
  (forall s, I s -> exists b, cond s = Ok b /\
     (b = true -> exists o, body s = Ok o /\
        match o with inl s' => I s' /\ (V s' < V s)%nat | inr r => Q r end)) ->
  I s -> (V s < fuel)%nat ->
  exists o, loop fuel s = Ok o /\
    match o with inl s' => I s' /\ cond s' = Ok false | inr r => Q r end.
Proof.
  intros Hstep. revert s. induction fuel as [|fuel IH]; intros s Hs Hf; [lia|].
  simpl. destruct (Hstep s Hs) as ([] & Hc & Hb); rewrite Hc; simpl.
  - destruct (Hb eq_refl) as ([s'|r] & Ho & Hr); rewrite Ho; simpl.
    + destruct Hr as [HI HV]. apply IH; [done|lia].
    + by exists (inr r).
  - by exists (inl s).
Qed.

End loop.

(** A loop without a return. *)
Definition while {S} (cond : S -> result bool) (body : S -> result S) (fuel : nat) (s : S)
    : result S :=
  o ← loop cond (fun s => (inl : S -> S + Empty_set) <$> body s) fuel s;
  match o with inl s => Ok s | inr r => match (r : Empty_set) with end end.

Lemma while_rule {S} (cond : S -> result bool) (body : S -> result S)
    (I : S -> Prop) (V : S -> nat) fuel s :
  (forall s, I s -> exists b, cond s = Ok b /\
     (b = true -> exists s', body s = Ok s' /\ I s' /\ (V s' < V s)%nat)) ->
  I s -> (V s < fuel)%nat ->
  exists s', while cond body fuel s = Ok s' /\ I s' /\ cond s' = Ok false.
Proof.
  intros Hstep HI Hf. unfold while.
  destruct (loop_rule cond (fun s => (inl : S -> S + Empty_set) <$> body s) I
              (fun _ => True) V fuel s) as ([s'|[]] & Ho & Hr); [|done..|].
  - intros t Ht. destruct (Hstep t Ht) as (b & Hc & Hb). exists b. split; [done|].
    intros Htrue. destruct (Hb Htrue) as (t' & Hbt & ?). exists (inl t'). by rewrite Hbt.
  - rewrite Ho. simpl. by exists s'.
Qed.

(** A loop whose states are known. *)
Lemma loop_steps {S R} (cond : S -> result bool) (body : S -> result (S + R)) (f : nat -> S) k fuel :
  (forall i, (i < k)%nat -> cond (f i) = Ok true /\ body (f i) = Ok (inl (f (Datatypes.S i)))) ->
  (k <= fuel)%nat -> loop cond body fuel (f 0%nat) = loop cond body (fuel - k) (f k).
Proof.
  revert f fuel. induction k as [|k IH]; intros f fuel Hstep Hf; [by rewrite Nat.sub_0_r|].
  destruct fuel as [|fuel]; [lia|]. destruct (Hstep 0%nat ltac:(lia)) as [Hc Hb].
  cbn [loop]. rewrite Hc. cbn [mbind result_bind]. rewrite Hb. cbn [mbind result_bind].
  rewrite (IH (fun i => f (Datatypes.S i))); [done| |lia]. intros i Hi. apply Hstep. lia.
Qed.

Lemma while_steps {S} (cond : S -> result bool) (body : S -> result S) (f : nat -> S) k fuel :
  (forall i, (i < k)%nat -> cond (f i) = Ok true /\ body (f i) = Ok (f (Datatypes.S i))) ->
  cond (f k) = Ok false -> (k < fuel)%nat -> while cond body fuel (f 0%nat) = Ok (f k).
Proof.
  intros Hstep Hend Hf. unfold while. rewrite (loop_steps _ _ f k); [| |lia].
  - destruct (fuel - k)%nat as [|n] eqn:Hn; [lia|]. cbn [loop]. by rewrite Hend.
  - intros i Hi. destruct (Hstep i Hi) as [Hc Hb]. by rewrite Hb.
Qed.

(** ** Typed accesses

    An access through a pointer to an [n]-byte type is undefined when the
    pointer is not aligned to it. *)
Definition aligned (n a : Z) : bool := a mod n =? 0.

Definition ld8 (a : Z) (m : cmem) : result Z := of_option "read" (m !! a).

Definition ldw (n : nat) (a : Z) (m : cmem) : result Z :=
  if aligned (Z.of_nat n) a then of_option "read" (load n a m) else Fault "misaligned".

Definition st8 (a v : Z) (m : cmem) : result cmem :=
  match m !! a with Some _ => Ok (<[a := v mod 256]> m) | None => Fault "write" end.

Definition stw (n : nat) (a v : Z) (m : cmem) : result cmem :=
  if aligned (Z.of_nat n) a then of_option "write" (store n a v m) else Fault "misaligned".

(** ** Bytes in memory *)

(** The bytes at [a] are [bs]. *)
Definition bytes_at (m : cmem) (a : Z) (bs : list Z) : Prop :=
  forall i b, bs !! i = Some b -> m !! (a + Z.of_nat i) = Some b.

(** There is a string at [a]: its characters are [l], and a null follows. *)
Definition cstr (m : cmem) (a : Z) (l : list Z) : Prop :=
  bytes_at m a (l ++ [0]) /\ Forall (fun b => 0 < b < 256) l.

(** What is mapped is mapped by whole words (the unit is the page). *)
Definition word_mapped (m : cmem) : Prop :=
  forall a, is_Some (m !! a) -> mapped 8 (a - a mod 8) m.

Fixpoint put_bytes (a : Z) (bs : list Z) (m : cmem) : cmem :=
  match bs with [] => m | b :: bs => <[a := b]> (put_bytes (a + 1) bs m) end.

Lemma bytes_at_lookup m a bs i b : bytes_at m a bs -> bs !! i = Some b -> m !! (a + Z.of_nat i) = Some b.
Proof. auto. Qed.

Lemma bytes_at_app m a l1 l2 :
  bytes_at m a (l1 ++ l2) <-> bytes_at m a l1 /\ bytes_at m (a + Z.of_nat (length l1)) l2.
Proof.
  unfold bytes_at. split.
  - intros H. split; intros i b Hi.
    + apply H. by apply lookup_app_l_Some.
    + replace (a + Z.of_nat (length l1) + Z.of_nat i) with (a + Z.of_nat (length l1 + i)) by lia.
      apply H. rewrite lookup_app_r by lia. by replace (length l1 + i - length l1)%nat with i by lia.
  - intros [H1 H2] i b [Hi|[Hle Hi]]%lookup_app_Some; [by apply H1|].
    replace (a + Z.of_nat i) with (a + Z.of_nat (length l1) + Z.of_nat (i - length l1)) by lia.
    by apply H2.
Qed.

Lemma bytes_at_cons m a b l :
  bytes_at m a (b :: l) <-> m !! a = Some b /\ bytes_at m (a + 1) l.
Proof.
  rewrite (bytes_at_app m a [b] l). simpl. replace (a + Z.of_nat 1) with (a + 1) by lia.
  assert (bytes_at m a [b] <-> m !! a = Some b) as ->; [|done].
  unfold bytes_at. split.
  - intros H. specialize (H 0%nat b eq_refl). by rewrite Z.add_0_r in H.
  - intros H i c [-> ->]%list_lookup_singleton_Some. by rewrite Z.add_0_r.
Qed.

Lemma lookup_put_bytes a bs m x :
  put_bytes a bs m !! x =
  if decide (a <= x < a + Z.of_nat (length bs)) then bs !! Z.to_nat (x - a) else m !! x.
Proof.
  revert a. induction bs as [|b bs IH]; intros a; simpl.
  { case_decide; [lia|done]. }
  destruct (decide (a = x)) as [->|Hne].
  - rewrite lookup_insert_eq, decide_True by lia. by rewrite Z.sub_diag.
  - rewrite lookup_insert_ne, IH by done. repeat case_decide; try lia; [|done].
    replace (Z.to_nat (x - a)) with (S (Z.to_nat (x - (a + 1)))) by lia. done.
Qed.

Lemma put_bytes_app a l1 l2 m :
  put_bytes a (l1 ++ l2) m = put_bytes a l1 (put_bytes (a + Z.of_nat (length l1)) l2 m).
Proof.
  revert a. induction l1 as [|b l1 IH]; intros a; simpl; [by rewrite Z.add_0_r|].
  rewrite IH. do 3 f_equal. lia.
Qed.

Lemma put_bytes_snoc a l l2 m :
  put_bytes (a + Z.of_nat (length l)) l2 (put_bytes a l m) = put_bytes a (l ++ l2) m.
Proof.
  apply map_eq. intros x. rewrite !lookup_put_bytes, length_app.
  repeat case_decide; try lia; [|by rewrite lookup_app_l by lia|done].
  rewrite lookup_app_r by lia. f_equal. lia.
Qed.

Lemma bytes_at_put a l m : bytes_at (put_bytes a l m) a l.
Proof.
  intros i b Hi. rewrite lookup_put_bytes, decide_True by (apply lookup_lt_Some in Hi; lia).
  by replace (Z.to_nat (a + Z.of_nat i - a)) with i by lia.
Qed.

Lemma put_bytes_same a bs m : bytes_at m a bs -> put_bytes a bs m = m.
Proof.
  intros Hb. apply map_eq. intros x. rewrite lookup_put_bytes. case_decide as Hx; [|done].
  destruct (lookup_lt_is_Some_2 bs (Z.to_nat (x - a))) as [b Hbx]; [lia|]. rewrite Hbx.
  rewrite <- (Hb _ _ Hbx). f_equal. lia.
Qed.

Lemma bytes_at_put_other a l m b l2 :
  bytes_at m b l2 -> b + Z.of_nat (length l2) <= a \/ a + Z.of_nat (length l) <= b ->
  bytes_at (put_bytes a l m) b l2.
Proof.
  intros H Hd i c Hi. apply lookup_lt_Some in Hi as Hl. rewrite lookup_put_bytes, decide_False by lia.
  by apply H.
Qed.

Lemma mapped_put n a l m b : mapped n b m -> mapped n b (put_bytes a l m).
Proof.
  intros H x Hx. rewrite lookup_put_bytes. case_decide; [|by apply H].
  apply lookup_lt_is_Some. lia.
Qed.

Lemma bytes_ok_put a l m :
  bytes_ok m -> Forall (fun b => 0 <= b < 256) l -> bytes_ok (put_bytes a l m).
Proof.
  intros Hm Hl x b. rewrite lookup_put_bytes. case_decide; [|apply Hm].
  intros Hx. by apply (Forall_lookup_1 _ _ _ _ Hl) in Hx.
Qed.

(** The end of a string is one. *)
Lemma cstr_drop m s l k :
  (k <= length l)%nat -> cstr m s l -> cstr m (s + Z.of_nat k) (drop k l).
Proof.
  intros Hk [Hs Hl]. split; [|by apply Forall_drop].
  rewrite <- (take_drop k l), <- app_assoc in Hs. apply bytes_at_app in Hs as [_ Hs].
  by rewrite length_take, Nat.min_l in Hs.
Qed.

(** ** Words as bytes *)

Fixpoint le_val (bs : list Z) : Z :=
  match bs with [] => 0 | b :: bs => b + 256 * le_val bs end.

Fixpoint le_list (n : nat) (v : Z) : list Z :=
  match n with O => [] | S n => v mod 256 :: le_list n (v / 256) end.

Abbreviation is_byte := (fun b : Z => 0 <= b < 256).

Lemma le_list_length n v : length (le_list n v) = n.
Proof. revert v; induction n; intros v; simpl; auto. Qed.

Lemma le_list_bytes n v : Forall is_byte (le_list n v).
Proof.
  revert v; induction n; intros v; simpl; constructor; auto. apply Z.mod_pos_bound. lia.
Qed.

Lemma le_list_val bs : Forall is_byte bs -> le_list (length bs) (le_val bs) = bs.
Proof.
  induction 1 as [|b bs Hb _ IH]; simpl; [done|].
  rewrite Z.mul_comm, Z.mod_add, Z.div_add, Z.mod_small, Z.div_small by lia.
  by rewrite Z.add_0_l, IH.
Qed.

Lemma le_val_app l1 l2 : le_val (l1 ++ l2) = le_val l1 + 256 ^ Z.of_nat (length l1) * le_val l2.
Proof.
  induction l1 as [|b l1 IH]; [simpl; lia|].
  cbn [app le_val length]. rewrite IH, Nat2Z.inj_succ, Z.pow_succ_r by lia. ring.
Qed.

Lemma le_val_bound bs : Forall is_byte bs -> 0 <= le_val bs < 256 ^ Z.of_nat (length bs).
Proof.
  induction 1 as [|b bs Hb _ IH]; [simpl; lia|].
  cbn [le_val length]. rewrite Nat2Z.inj_succ, Z.pow_succ_r by lia. lia.
Qed.

Lemma load_S n a m :
  load (S n) a m = (b ← m !! a; r ← load n (a + 1) m; Some (b + 256 * r)).
Proof. done. Qed.

Lemma store_S n a v m :
  store (S n) a v m = (_ ← m !! a; store n (a + 1) (v / 256) (<[a := v mod 256]> m)).
Proof. done. Qed.

Lemma load_bytes_at bs a m : bytes_at m a bs -> load (length bs) a m = Some (le_val bs).
Proof.
  revert a. induction bs as [|b bs IH]; intros a; [done|]. rewrite bytes_at_cons.
  intros [Hb Hbs]. cbn [length le_val]. by rewrite load_S, Hb, (IH _ Hbs).
Qed.

Lemma store_put n a v m : mapped n a m -> store n a v m = Some (put_bytes a (le_list n v) m).
Proof.
  revert a v m. induction n as [|n IH]; intros a v m Hm; [done|].
  apply mapped_S in Hm as [[b Hb] Hm]. cbn [le_list put_bytes].
  rewrite store_S, Hb. simpl.
  rewrite IH by (by apply mapped_insert). f_equal. apply map_eq. intros x.
  destruct (decide (a = x)) as [->|Hne].
  - rewrite lookup_insert_eq, lookup_put_bytes, decide_False by lia. apply lookup_insert_eq.
  - rewrite lookup_insert_ne by done. rewrite !lookup_put_bytes. case_decide; [done|].
    by rewrite lookup_insert_ne.
Qed.

(** The bytes a mapped region holds. *)
Lemma mapped_bytes n a m : mapped n a m -> exists bs, length bs = n /\ bytes_at m a bs.
Proof.
  revert a. induction n as [|n IH]; intros a Hm.
  { exists []. split; [done|]. intros i b Hi. by rewrite lookup_nil in Hi. }
  apply mapped_S in Hm as [[b Hb] Hm]. destruct (IH _ Hm) as (bs & <- & Hbs).
  exists (b :: bs). split; [done|]. by apply bytes_at_cons.
Qed.

Lemma bytes_at_mapped m a bs : bytes_at m a bs -> mapped (length bs) a m.
Proof.
  intros H x Hx. destruct (lookup_lt_is_Some_2 bs (Z.to_nat (x - a))) as [b Hb]; [lia|].
  apply H in Hb. replace (a + Z.of_nat (Z.to_nat (x - a))) with x in Hb by lia. eauto.
Qed.

Lemma bytes_at_ok m a bs : bytes_ok m -> bytes_at m a bs -> Forall is_byte bs.
Proof.
  intros Hm H. apply Forall_lookup. intros i b Hi. by apply (Hm (a + Z.of_nat i)), H.
Qed.

(** A byte of a list, out of the word it makes. *)
Lemma le_val_byte bs i b :
  Forall is_byte bs -> bs !! i = Some b -> le_val bs / 256 ^ Z.of_nat i mod 256 = b.
Proof.
  intros Hbs. revert i. induction Hbs as [|c bs Hc Hbs IH]; intros [|i] Hi; simplify_eq/=.
  - rewrite Z.div_1_r, Z.add_comm, Z.mul_comm, Z.add_comm, Z.mod_add, Z.mod_small; lia.
  - rewrite <- (IH i Hi). change (Z.pos (Pos.of_succ_nat i)) with (Z.of_nat (S i)).
    rewrite Nat2Z.inj_succ, Z.pow_succ_r by lia. rewrite <- Z.div_div by (try apply Z.pow_pos_nonneg; lia).
    by rewrite (Z.mul_comm 256), Z.div_add, (Z.div_small c) by lia.
Qed.

Lemma ldw_bytes_at n bs a m :
  length bs = n -> a mod Z.of_nat n = 0 -> bytes_at m a bs -> ldw n a m = Ok (le_val bs).
Proof.
  intros <- Ha H. unfold ldw, aligned. rewrite Ha, Z.eqb_refl. by rewrite (load_bytes_at bs).
Qed.

Lemma stw_put n a v m :
  a mod Z.of_nat n = 0 -> mapped n a m -> stw n a v m = Ok (put_bytes a (le_list n v) m).
Proof.
  intros Ha H. unfold stw, aligned. rewrite Ha, Z.eqb_refl. by rewrite store_put.
Qed.

Lemma st8_put a v m : is_Some (m !! a) -> st8 a v m = Ok (put_bytes a [v mod 256] m).
Proof. intros [b Hb]. unfold st8. by rewrite Hb. Qed.

Lemma ld8_ok a m b : m !! a = Some b -> ld8 a m = Ok b.
Proof. unfold ld8. by intros ->. Qed.

(** ** Concrete memories *)

Lemma word_mapped_compute m :
  bool_decide (map_Forall (fun a _ =>
    Forall (fun i => is_Some (m !! (a - a mod 8 + i))) (seqZ 0 8)) m) = true -> word_mapped m.
Proof.
  intros H%bool_decide_eq_true a [b Hb] x Hx. specialize (H a b Hb). simpl in H.
  rewrite Forall_forall in H. specialize (H (x - (a - a mod 8))).
  replace (a - a mod 8 + (x - (a - a mod 8))) with x in H by lia.
  apply H, elem_of_seqZ. lia.
Qed.

Lemma bytes_at_compute m a bs :
  bool_decide (Forall (fun '(i, b) => m !! (a + Z.of_nat i) = Some b)
                 (zip (seq 0 (length bs)) bs)) = true -> bytes_at m a bs.
Proof.
  intros H%bool_decide_eq_true i b Hi. rewrite Forall_forall in H.
  apply (H (i, b)). apply list_elem_of_lookup. exists i. rewrite lookup_zip_with_Some.
  exists i, b. split; [done|]. split; [|done]. apply lookup_seq. apply lookup_lt_Some in Hi. lia.
Qed.

Lemma cstr_compute m a l :
  bool_decide (Forall (fun '(i, b) => m !! (a + Z.of_nat i) = Some b)
                 (zip (seq 0 (length (l ++ [0]))) (l ++ [0]))) = true ->
  bool_decide (Forall (fun b => 0 < b < 256) l) = true -> cstr m a l.
Proof. intros H1 H2%bool_decide_eq_true. split; [by apply bytes_at_compute|done]. Qed.

(** Two words with the strings ["hello"] and ["help"]. *)
Module ToyMem.
Definition hello : list Z := [104; 101; 108; 108; 111].
Definition help : list Z := [104; 101; 108; 112].
Definition m : cmem := region 64 (hello ++ [0; 7; 7] ++ help ++ [0; 9; 9; 9]).

Lemma toy_bytes_ok : bytes_ok m.
Proof. by apply bytes_ok_compute; vm_compute. Qed.

Lemma toy_words : word_mapped m.
Proof. by apply word_mapped_compute; vm_compute. Qed.

Lemma toy_hello : cstr m 64 hello.
Proof. by apply cstr_compute; vm_compute. Qed.

Lemma toy_help : cstr m 72 help.
Proof. by apply cstr_compute; vm_compute. Qed.
End ToyMem.
