(* ===== verification/StrScan.v ===== *)
(** * Searching in memory

    Models the read-only routines of [lib/guest_bw/string], which look at
    memory a word at a time where they can, and shows that they compute what
    a byte-by-byte search computes, without reading past what is mapped or
    through a misaligned pointer. *)

From S2P Require Import Prelude CMem CLoop.
#[local] Open Scope Z_scope.

(** ** The test for a zero byte *)

Definition ONES : Z := (2 ^ 64 - 1) / 255.
Definition HIGHS : Z := u64 (ONES * (255 / 2 + 1)).
Definition HASZERO (x : Z) : Z :=
  Z.land (Z.land (u64 (x - ONES)) (u64 (Z.lnot x))) HIGHS.

Lemma ONES_bytes : ONES = le_val (replicate 8 1).
Proof. done. Qed.

Lemma testbit_byte b : 0 <= b < 256 -> Z.testbit b 7 = (128 <=? b).
Proof.
  intros Hb. rewrite <- (Z.add_0_l 7), <- Z.shiftr_spec, Z.shiftr_div_pow2 by lia.
  change (2 ^ 7) with 128. rewrite Z.bit0_odd.
  assert (b / 128 = if 128 <=? b then 1 else 0) as ->; [|by case_match].
  destruct (Z.leb_spec 128 b); [|apply Z.div_small; lia].
  symmetry. apply (Z.div_unique _ _ _ (b - 128)); lia.
Qed.

(** The top bit of byte [i]. *)
Lemma testbit_high x i : 0 <= i -> Z.testbit x (8 * i + 7) = (128 <=? x / 256 ^ i mod 256).
Proof.
  intros Hi. change 256 with (2 ^ 8) at 1. rewrite <- Z.pow_mul_r by lia.
  rewrite <- testbit_byte by (apply Z.mod_pos_bound; lia).
  change 256 with (2 ^ 8). rewrite Z.mod_pow2_bits_low by lia.
  rewrite <- Z.shiftr_div_pow2, Z.shiftr_spec by lia. f_equal. lia.
Qed.

Lemma le_val_minus_ones l :
  Forall (fun b => 0 < b < 256) l ->
  0 <= le_val l - le_val (replicate (length l) 1) < 256 ^ Z.of_nat (length l).
Proof.
  induction 1 as [|b l Hb _ IH]; [simpl; lia|].
  cbn [length replicate le_val]. rewrite Nat2Z.inj_succ, Z.pow_succ_r by lia. lia.
Qed.

(** Subtracting one from each byte takes no borrow from bytes that follow
    non-zero ones. *)
Lemma minus_ones_byte l1 b l2 :
  length (l1 ++ b :: l2) = 8%nat -> Forall (fun b => 0 < b < 256) l1 ->
  (le_val (l1 ++ b :: l2) - ONES) / 256 ^ Z.of_nat (length l1) mod 256 = (b - 1) mod 256.
Proof.
  rewrite length_app. simpl. intros Hl H1.
  rewrite ONES_bytes. replace 8%nat with (length l1 + S (length l2))%nat by lia.
  rewrite replicate_add, !le_val_app, length_replicate. cbn [replicate le_val].
  pose proof (le_val_minus_ones l1 H1) as Hlo.
  set (P := 256 ^ Z.of_nat (length l1)) in *.
  set (A := le_val l1) in *. set (A1 := le_val (replicate (length l1) 1)) in *.
  set (B := le_val l2). set (B1 := le_val (replicate (length l2) 1)).
  replace (A + P * (b + 256 * B) - (A1 + P * (1 + 256 * B1)))
    with ((A - A1) + (b - 1 + (B - B1) * 256) * P) by ring.
  rewrite Z.div_add, (Z.div_small (A - A1)), Z.add_0_l by lia. apply Z.mod_add. lia.
Qed.

Lemma HIGHS_bit n : 0 <= n < 64 -> Z.testbit HIGHS n = (n mod 8 =? 7).
Proof.
  intros Hn. assert (n ∈ seqZ 0 64) as H by (apply elem_of_seqZ; lia). clear Hn. revert n H.
  apply Forall_forall. repeat (constructor; [reflexivity|]). constructor.
Qed.

Lemma HASZERO_bit x n :
  0 <= n < 64 ->
  Z.testbit (HASZERO x) n =
    (n mod 8 =? 7) && Z.testbit (x - ONES) n && negb (Z.testbit x n).
Proof.
  intros Hn. unfold HASZERO. rewrite !Z.land_spec, HIGHS_bit by done. unfold wrap.
  rewrite !Z.mod_pow2_bits_low, Z.lnot_spec by lia.
  by destruct (Z.testbit (x - ONES) n), (Z.testbit x n), (n mod 8 =? 7).
Qed.

Lemma HASZERO_above x n : 64 <= n -> Z.testbit (HASZERO x) n = false.
Proof.
  intros Hn. unfold HASZERO. rewrite Z.land_spec.
  replace (Z.testbit HIGHS n) with false; [by rewrite andb_false_r|].
  symmetry. apply Z.bits_above_log2; [done|]. change (Z.log2 HIGHS) with 63. lia.
Qed.

Lemma nonzero_bytes l : Forall is_byte l -> 0 ∉ l -> Forall (fun b => 0 < b < 256) l.
Proof.
  intros Hl Hni. apply Forall_forall. intros b Hb. rewrite Forall_forall in Hl.
  specialize (Hl b Hb). simpl in Hl. assert (b <> 0) by (intros ->; done). lia.
Qed.

(** [HASZERO] is zero exactly when no byte of the word is. *)
Lemma HASZERO_spec bs :
  length bs = 8%nat -> Forall is_byte bs -> HASZERO (le_val bs) = 0 <-> 0 ∉ bs.
Proof.
  intros Hl Hbs.
  assert (forall l1 b l2, bs = l1 ++ b :: l2 -> Forall (fun b => 0 < b < 256) l1 ->
    Z.testbit (HASZERO (le_val bs)) (8 * Z.of_nat (length l1) + 7) = (b =? 0)) as Hbit.
  { intros l1 b l2 -> H1. rewrite length_app in Hl. simpl in Hl.
    assert (0 <= b < 256) as Hb by (apply Forall_app in Hbs as [_ Hbs]; by inv Hbs).
    rewrite HASZERO_bit by lia.
    replace ((8 * Z.of_nat (length l1) + 7) mod 8) with 7
      by (rewrite Z.add_comm, Z.mul_comm, Z.mod_add by lia; done).
    rewrite !testbit_high by lia.
    rewrite minus_ones_byte by (rewrite ?length_app; simpl; (done || lia)).
    rewrite (le_val_byte _ _ b) by (try done; by rewrite list_lookup_middle).
    destruct (Z.eqb_spec b 0) as [->|]; [done|].
    rewrite Z.mod_small by lia. simpl. lia. }
  split.
  - intros H0 Hin. apply list_elem_of_split_l in Hin as (l1 & l2 & -> & Hni).
    specialize (Hbit l1 0 l2 eq_refl). rewrite H0, Z.bits_0 in Hbit.
    discriminate Hbit. apply Forall_app in Hbs as [H1 _]. by apply nonzero_bytes.
  - intros Hni. pose proof (nonzero_bytes bs Hbs Hni) as Hnz.
    apply Z.bits_inj'. intros n Hn. rewrite Z.bits_0.
    destruct (decide (64 <= n)); [by apply HASZERO_above|].
    destruct (decide (n mod 8 = 7)) as [H7|H7]; [|rewrite HASZERO_bit by lia; lia].
    destruct (lookup_lt_is_Some_2 bs (Z.to_nat (n / 8))) as [b Hb].
    { pose proof (Z.div_lt_upper_bound n 8 8). pose proof (Z.div_pos n 8). lia. }
    pose proof (take_drop_middle _ _ _ Hb) as Hsp.
    assert (b <> 0) by (intros ->; by apply list_elem_of_lookup_2 in Hb).
    specialize (Hbit _ _ _ (eq_sym Hsp)). rewrite length_take_le in Hbit
      by (apply lookup_lt_Some in Hb; lia).
    pose proof (Z.div_pos n 8). rewrite Z2Nat.id in Hbit by lia.
    pose proof (Z.div_mod n 8). replace (8 * (n / 8) + 7) with n in Hbit by lia.
    rewrite Hbit by (by apply Forall_take). lia.
Qed.

(** *** The test for a given byte: [HASZERO(x ^ k)] with [k = ONES * c] *)

Lemma byte_bits a n : 0 <= a < 256 -> 8 <= n -> Z.testbit a n = false.
Proof.
  intros Ha Hn. rewrite <- (Z.mod_small a (2 ^ 8)) by lia. by apply Z.mod_pow2_bits_high; lia.
Qed.

Lemma land_low a x : 0 <= a < 256 -> Z.land a (256 * x) = 0.
Proof.
  intros Ha. apply Z.bits_inj'. intros n Hn. rewrite Z.land_spec, Z.bits_0.
  change 256 with (2 ^ 8). rewrite Z.mul_comm, <- Z.shiftl_mul_pow2, Z.shiftl_spec by lia.
  destruct (decide (n < 8)); [by rewrite (Z.testbit_neg_r x), andb_false_r by lia|].
  by rewrite byte_bits by lia.
Qed.

Lemma lxor_byte a b : 0 <= a < 256 -> 0 <= b < 256 -> 0 <= Z.lxor a b < 256.
Proof.
  intros Ha Hb. assert (Z.lxor a b mod 2 ^ 8 = Z.lxor a b) as <-;
    [|apply Z.mod_pos_bound; lia].
  apply Z.bits_inj'. intros n Hn. destruct (decide (n < 8)).
  - by rewrite Z.mod_pow2_bits_low by lia.
  - by rewrite Z.mod_pow2_bits_high, Z.lxor_spec, !byte_bits by lia.
Qed.

Lemma lxor_cons a b x y :
  0 <= a < 256 -> 0 <= b < 256 ->
  Z.lxor (a + 256 * x) (b + 256 * y) = Z.lxor a b + 256 * Z.lxor x y.
Proof.
  intros Ha Hb. rewrite !Z.add_nocarry_lxor by (apply land_low; auto using lxor_byte).
  rewrite <- !(Z.mul_comm _ 256). change 256 with (2 ^ 8). rewrite <- !Z.shiftl_mul_pow2 by lia.
  rewrite Z.shiftl_lxor, !Z.lxor_assoc. f_equal.
  rewrite <- !Z.lxor_assoc. f_equal. apply Z.lxor_comm.
Qed.

Lemma lxor_replicate c bs :
  Forall is_byte bs -> 0 <= c < 256 ->
  Z.lxor (le_val bs) (le_val (replicate (length bs) c)) = le_val (map (Z.lxor c) bs).
Proof.
  intros Hbs Hc. induction Hbs as [|b bs Hb _ IH]; [done|].
  cbn [length replicate le_val map]. rewrite lxor_cons, IH by done. by rewrite (Z.lxor_comm b).
Qed.

Lemma ONES_mul c : 0 <= c < 256 -> u64 (ONES * c) = le_val (replicate 8 c).
Proof.
  intros Hc. replace (ONES * c) with (le_val (replicate 8 c))
    by (rewrite ONES_bytes; simpl; ring).
  apply wrap_small. change (2 ^ 64) with (256 ^ Z.of_nat (length (replicate 8 c))).
  apply le_val_bound, Forall_replicate. done.
Qed.

Lemma HASZERO_xor bs c :
  length bs = 8%nat -> Forall is_byte bs -> 0 <= c < 256 ->
  HASZERO (Z.lxor (le_val bs) (u64 (ONES * c))) = 0 <-> c ∉ bs.
Proof.
  intros Hl Hbs Hc. rewrite ONES_mul, <- Hl, lxor_replicate by done.
  assert (Forall is_byte (map (Z.lxor c) bs)).
  { apply Forall_fmap. eapply Forall_impl; [done|]. intros b Hb. by apply lxor_byte. }
  rewrite HASZERO_spec by (rewrite ?length_map; done).
  rewrite list_elem_of_fmap. apply not_iff_compat. split.
  - intros (b & Hb%eq_sym%Z.lxor_eq & Hin). by subst.
  - intros Hin. exists c. by rewrite Z.lxor_nilpotent.
Qed.

(** ** Reading forward until a byte is found *)

Section scan_ops.
Context (m : cmem).
Implicit Types (fuel : nat) (s a c n : Z).

(** [for (; *s; s++);] and the like: [stop] says where to stop. *)
Definition scan8 (stop : Z -> bool) fuel s : result Z :=
  while (fun s => b ← ld8 s m; Ok (negb (stop b))) (fun s => Ok (s + 1)) fuel s.

(** The head of the word loops: [for (; s % 8; s++) if (stop( *s )) return s;] *)
Definition scan_head (stop : Z -> bool) fuel s : result (Z + Z) :=
  loop (fun s => Ok (negb (aligned 8 s)))
       (fun s => b ← ld8 s m; if stop b then Ok (inr s) else Ok (inl (s + 1))) fuel s.

(** [for (w = s; go( *w ); w++);] *)
Definition scan_words (go : Z -> bool) fuel s : result Z :=
  while (fun w => x ← ldw 8 w m; Ok (go x)) (fun w => Ok (w + 8)) fuel s.

(** The three parts in sequence: bytes up to an aligned address, whole words
    as long as [go] holds of them, bytes again. *)
Definition word_scan (stop go : Z -> bool) fuel s : result Z :=
  o ← scan_head stop fuel s;
  match o with
  | inr s => Ok s
  | inl s => w ← scan_words go fuel s; scan8 stop fuel w
  end.

Definition strlen fuel s : result Z :=
  let a := s in
  s ← word_scan (fun b => b =? 0) (fun x => HASZERO x =? 0) fuel s;
  Ok (s - a).

Definition __strchrnul fuel s c : result Z :=
  let c := u8 c in
  if c =? 0 then n ← strlen fuel s; Ok (s + n)
  else
    let k := u64 (ONES * c) in
    word_scan (fun b => (b =? 0) || (b =? c))
      (fun x => (HASZERO x =? 0) && (HASZERO (Z.lxor x k) =? 0)) fuel s.

Definition strchr fuel s c : result Z :=
  r ← __strchrnul fuel s c;
  b ← ld8 r m;
  Ok (if b =? u8 c then r else 0).

(** [while (n--) if (s[n] == c) return s + n; return 0;] *)
Definition __memrchr fuel s c n : result Z :=
  let c := u8 c in
  o ← loop (fun n => Ok (negb (n =? 0)))
        (fun n => let n := n - 1 in
                  b ← ld8 (s + n) m;
                  if b =? c then Ok (inr (s + n)) else Ok (inl n)) fuel n;
  match o with inr r => Ok r | inl _ => Ok 0 end.

Definition strrchr fuel s c : result Z :=
  n ← strlen fuel s; __memrchr fuel s c (n + 1).

(** [*s != c], looked at only if there are bytes left. *)
Definition differs (n s c : Z) : result bool :=
  if n =? 0 then Ok false else b ← ld8 s m; Ok (negb (b =? c)).

Definition memchr fuel src c n : result Z :=
  let c := u8 c in
  '(s, n) ← while (fun '(s, n) => if Z.land s 7 =? 0 then Ok false else differs n s c)
              (fun '(s, n) => Ok (s + 1, n - 1)) fuel (src, n);
  d ← differs n s c;
  '(s, n) ← (if d : bool then
       let k := u64 (ONES * c) in
       while (fun '(w, n) => if n <? 8 then Ok false
                             else x ← ldw 8 w m; Ok (HASZERO (Z.lxor x k) =? 0))
             (fun '(w, n) => Ok (w + 8, n - 8)) fuel (s, n)
     else Ok (s, n));
  '(s, n) ← while (fun '(s, n) => differs n s c)
              (fun '(s, n) => Ok (s + 1, n - 1)) fuel (s, n);
  Ok (if n =? 0 then 0 else s).

Definition strnlen fuel s n : result Z :=
  p ← memchr fuel s 0 n;
  Ok (if p =? 0 then n else p - s).

End scan_ops.

(** ** Correctness *)

Section scan.
Context (m : cmem) (m_ok : bytes_ok m) (m_words : word_mapped m).

(** The first byte of [bs] that stops the search is at index [k]. *)
Definition first_at (stop : Z -> bool) (bs : list Z) (k : nat) : Prop :=
  (exists b, bs !! k = Some b /\ stop b = true) /\
  forall j b, (j < k)%nat -> bs !! j = Some b -> stop b = false.

Context (stop : Z -> bool) (a : Z) (bs : list Z) (k : nat).
Context (at_a : bytes_at m a bs) (first : first_at stop bs k).

(** The position reached is not past the byte that is looked for. *)
Definition before_k (s : Z) : Prop := a <= s <= a + Z.of_nat k.
Definition left_k (s : Z) : nat := Z.to_nat (a + Z.of_nat k - s).

Lemma read_before s :
  before_k s -> exists b, m !! s = Some b /\ (stop b = true <-> s = a + Z.of_nat k).
Proof using at_a first.
  intros Hs. destruct first as [(bk & Hk & Hst) Hlt].
  destruct (lookup_lt_is_Some_2 bs (Z.to_nat (s - a))) as [b Hb].
  { apply lookup_lt_Some in Hk. unfold before_k in Hs. lia. }
  exists b. pose proof (at_a _ _ Hb) as Hm. unfold before_k in Hs.
  replace (a + Z.of_nat (Z.to_nat (s - a))) with s in Hm by lia. split; [done|]. split.
  - intros Hb1. destruct (decide (s = a + Z.of_nat k)) as [|Hne]; [done|].
    rewrite (Hlt (Z.to_nat (s - a)) b ltac:(lia) Hb) in Hb1. done.
  - intros ->. replace (Z.to_nat (a + Z.of_nat k - a)) with k in Hb by lia. congruence.
Qed.

Lemma scan8_spec fuel s :
  before_k s -> (k < fuel)%nat -> scan8 m stop fuel s = Ok (a + Z.of_nat k).
Proof using at_a first.
  intros Hs Hf. unfold scan8. edestruct (while_rule
    (fun s => b ← ld8 s m; Ok (negb (stop b))) (fun s => Ok (s + 1)) before_k left_k)
    as (s' & -> & Hs' & Hc); [|exact Hs|unfold left_k, before_k in *; lia|].
  - intros t Ht. destruct (read_before t Ht) as (b & Hb & Hst).
    exists (negb (stop b)). rewrite (ld8_ok _ _ _ Hb). split; [done|]. intros Hn.
    eexists. split; [done|]. unfold before_k, left_k in *.
    destruct (stop b); [done|]. assert (t <> a + Z.of_nat k) by (intros Heq; by apply Hst in Heq).
    lia.
  - f_equal. destruct (read_before s' Hs') as (b & Hb & Hst).
    rewrite (ld8_ok _ _ _ Hb) in Hc. simpl in Hc. injection Hc as Hc.
    apply Hst. by destruct (stop b).
Qed.

Lemma scan_head_spec fuel s :
  before_k s -> (k < fuel)%nat ->
  exists o, scan_head m stop fuel s = Ok o /\
    match o with
    | inr s => s = a + Z.of_nat k
    | inl s => before_k s /\ aligned 8 s = true
    end.
Proof using at_a first.
  intros Hs Hf. unfold scan_head.
  edestruct (loop_rule (fun s => Ok (negb (aligned 8 s)))
    (fun s => b ← ld8 s m; if stop b then Ok (inr s) else Ok (inl (s + 1)))
    before_k (fun s => s = a + Z.of_nat k) left_k)
    as (o & -> & Ho); [|exact Hs|unfold left_k, before_k in *; lia|].
  - intros t Ht. eexists. split; [done|]. intros _.
    destruct (read_before t Ht) as (b & Hb & Hst). rewrite (ld8_ok _ _ _ Hb). simpl.
    destruct (stop b).
    + eexists. split; [done|]. by apply Hst.
    + eexists. split; [done|]. simpl. unfold before_k, left_k in *.
      assert (t <> a + Z.of_nat k) by (intros Heq; by apply Hst in Heq). lia.
  - exists o. split; [done|]. destruct o as [s'|r]; [|done]. destruct Ho as [? Ho].
    split; [done|]. injection Ho as Ho. by destruct (aligned 8 s').
Qed.

(** [go] is the test that none of the bytes of a word stops the search. *)
Context (go : Z -> bool).
Context (go_ok : forall ws, length ws = 8%nat -> Forall is_byte ws ->
  go (le_val ws) = true <-> Forall (fun b => stop b = false) ws).

Lemma word_at s :
  before_k s -> aligned 8 s = true ->
  exists ws, length ws = 8%nat /\ Forall is_byte ws /\ bytes_at m s ws /\
    ldw 8 s m = Ok (le_val ws).
Proof using m_ok m_words at_a first.
  intros Hs Ha. unfold aligned in Ha. apply Z.eqb_eq in Ha.
  destruct (read_before s Hs) as (b & Hb & _).
  destruct (mapped_bytes 8 s m) as (ws & Hl & Hws).
  { pose proof (m_words s (mk_is_Some _ _ Hb)) as H. by rewrite Ha, Z.sub_0_r in H. }
  exists ws. split_and!; [done|by eapply bytes_at_ok|done|]. by apply ldw_bytes_at.
Qed.

Lemma scan_words_spec fuel s :
  before_k s -> aligned 8 s = true -> (k < fuel)%nat ->
  exists w, scan_words m go fuel s = Ok w /\ before_k w.
Proof using m_ok m_words at_a first go_ok.
  intros Hs Ha Hf. unfold scan_words.
  edestruct (while_rule (fun w => x ← ldw 8 w m; Ok (go x)) (fun w => Ok (w + 8))
    (fun s => before_k s /\ aligned 8 s = true) left_k)
    as (w & -> & [Hw _] & _); [|done|unfold left_k, before_k in *; lia|by exists w].
  intros t [Ht Hta]. destruct (word_at t Ht Hta) as (ws & Hl & Hb & Hat & Hld).
  exists (go (le_val ws)). rewrite Hld. split; [done|]. intros Hgo. eexists. split; [done|].
  apply go_ok in Hgo; [|done..].
  assert (t + 8 <= a + Z.of_nat k) as Hk.
  { destruct (decide (t + 8 <= a + Z.of_nat k)) as [|Hn]; [done|exfalso].
    unfold before_k in Ht. destruct first as [(bk & Hbk & Hst) _].
    destruct (lookup_lt_is_Some_2 ws (Z.to_nat (a + Z.of_nat k - t))) as [b Hbi]; [lia|].
    pose proof (Hat _ _ Hbi) as H1. pose proof (at_a _ _ Hbk) as H2.
    replace (t + Z.of_nat (Z.to_nat (a + Z.of_nat k - t))) with (a + Z.of_nat k) in H1 by lia.
    assert (b = bk) as -> by congruence.
    apply (Forall_lookup_1 _ _ _ _ Hgo) in Hbi. simpl in Hbi. congruence. }
  unfold before_k, left_k, aligned in *. split; [split; [lia|]|lia].
  apply Z.eqb_eq in Hta. apply Z.eqb_eq. rewrite <- Z.add_mod_idemp_l, Hta by lia. done.
Qed.

Lemma word_scan_spec fuel :
  (k < fuel)%nat -> word_scan m stop go fuel a = Ok (a + Z.of_nat k).
Proof using m_ok m_words at_a first go_ok.
  intros Hf. unfold word_scan. assert (before_k a) as Ha by (unfold before_k; lia).
  destruct (scan_head_spec fuel a Ha Hf) as (o & -> & Ho). simpl.
  destruct o as [s|r]; [|by subst]. destruct Ho as [Hs Hal].
  destruct (scan_words_spec fuel s Hs Hal Hf) as (w & -> & Hw). simpl. by apply scan8_spec.
Qed.

End scan.

(** ** Strings and blocks *)

(** The index of the first [c], or the length. *)
Fixpoint index_of (c : Z) (l : list Z) : nat :=
  match l with
  | [] => 0
  | b :: l => if b =? c then 0 else S (index_of c l)
  end.

Lemma index_of_le c l : (index_of c l <= length l)%nat.
Proof. induction l as [|b l IH]; simpl; [lia|]. case_match; lia. Qed.

Lemma index_of_before c l j b : (j < index_of c l)%nat -> l !! j = Some b -> b <> c.
Proof.
  revert j. induction l as [|x l IH]; intros j; simpl; [lia|].
  destruct (Z.eqb_spec x c); [lia|]. destruct j; simpl; [congruence|]. intros. apply (IH j); [lia|done].
Qed.

Lemma index_of_at c l : (index_of c l < length l)%nat -> l !! index_of c l = Some c.
Proof.
  induction l as [|x l IH]; simpl; [lia|]. destruct (Z.eqb_spec x c) as [->|]; [done|].
  intros. simpl. apply IH. lia.
Qed.

Lemma index_of_absent c l : c ∉ l -> index_of c l = length l.
Proof.
  induction l as [|x l IH]; simpl; [done|]. rewrite not_elem_of_cons.
  intros [Hx Hl]. destruct (Z.eqb_spec x c); [congruence|]. by rewrite IH.
Qed.

Lemma u8_byte c : 0 <= u8 c < 256.
Proof. apply (wrap_bound 8). lia. Qed.

Lemma cstr_first m s l stop k :
  cstr m s l -> stop 0 = true ->
  (k = length l \/ exists b, l !! k = Some b /\ stop b = true) ->
  (forall j b, (j < k)%nat -> l !! j = Some b -> stop b = false) ->
  first_at stop (l ++ [0]) k.
Proof.
  intros _ H0 Hk Hlt.
  assert (k <= length l)%nat as Hle.
  { destruct Hk as [->|(b & Hb & _)]; [done|]. apply lookup_lt_Some in Hb. lia. }
  split.
  - destruct Hk as [->|(b & Hb & Hs)].
    + exists 0. split; [|done]. by rewrite list_lookup_middle.
    + exists b. split; [|done]. by apply lookup_app_l_Some.
  - intros j b Hj Hb. apply (Hlt j); [done|]. by rewrite lookup_app_l in Hb by lia.
Qed.

Section strings.
Context (m : cmem) (m_ok : bytes_ok m) (m_words : word_mapped m).

Lemma strlen_ok fuel s l :
  cstr m s l -> (length l < fuel)%nat -> strlen m fuel s = Ok (Z.of_nat (length l)).
Proof using m_ok m_words.
  intros Hs Hf. unfold strlen. pose proof Hs as [Hat Hnz].
  rewrite (word_scan_spec m m_ok m_words (fun b => b =? 0) s (l ++ [0]) (length l) Hat).
  - simpl. f_equal. lia.
  - apply (cstr_first m s); [done|done|by left|]. intros j b _ Hb.
    apply (Forall_lookup_1 _ _ _ _ Hnz) in Hb. simpl in Hb. lia.
  - intros ws Hl Hb. rewrite Z.eqb_eq, HASZERO_spec by done. rewrite Forall_forall. split.
    + intros Hni b Hin. apply Z.eqb_neq. by intros ->.
    + intros H Hin. by specialize (H 0 Hin).
  - done.
Qed.

Lemma strchrnul_ok fuel s c l :
  cstr m s l -> (length l < fuel)%nat ->
  __strchrnul m fuel s c = Ok (s + Z.of_nat (index_of (u8 c) l)).
Proof using m_ok m_words.
  intros Hs Hf. unfold __strchrnul. pose proof Hs as [Hat Hnz].
  assert (0 ∉ l) as H0.
  { intros Hin. rewrite Forall_forall in Hnz. specialize (Hnz 0 Hin). simpl in Hnz. lia. }
  destruct (Z.eqb_spec (u8 c) 0) as [->|Hc].
  { rewrite (strlen_ok fuel s l) by done. simpl. by rewrite index_of_absent. }
  pose proof (u8_byte c) as Hcb. pose proof (index_of_le (u8 c) l).
  apply (word_scan_spec m m_ok m_words _ s (l ++ [0]) (index_of (u8 c) l) Hat); [| |lia].
  - apply (cstr_first m s); [done|done| |].
    + destruct (decide (index_of (u8 c) l = length l)); [by left|right].
      exists (u8 c). rewrite index_of_at by lia. by rewrite Z.eqb_refl, orb_true_r.
    + intros j b Hj Hb. pose proof (index_of_before _ _ _ _ Hj Hb).
      apply (Forall_lookup_1 _ _ _ _ Hnz) in Hb. simpl in Hb. lia.
  - intros ws Hl Hb. rewrite andb_true_iff, !Z.eqb_eq, HASZERO_spec, HASZERO_xor by done.
    rewrite Forall_forall. split.
    + intros [Hni Hnc] b Hin. assert (b <> 0) by (intros ->; done).
      assert (b <> u8 c) by (intros ->; done). lia.
    + intros H1. split; intros Hin; specialize (H1 _ Hin); simpl in H1; [done|].
      by rewrite Z.eqb_refl, orb_true_r in H1.
Qed.

Lemma memrchr_ok fuel s c bs :
  bytes_at m s bs -> (length bs < fuel)%nat ->
  __memrchr m fuel s c (Z.of_nat (length bs)) =
  Ok (if decide (u8 c ∈ bs)
      then s + (Z.of_nat (length bs) - 1 - Z.of_nat (index_of (u8 c) (rev bs))) else 0).
Proof.
  intros Hat. unfold __memrchr. revert fuel. induction bs as [|b bs IH] using rev_ind; intros fuel Hf.
  { rewrite decide_False by apply not_elem_of_nil. destruct fuel; [simpl in Hf; lia|done]. }
  rewrite length_app in *. simpl in *. destruct fuel as [|fuel]; [lia|]. cbn [loop].
  destruct (Z.eqb_spec (Z.of_nat (length bs + 1)) 0); [lia|]. simpl.
  apply bytes_at_app in Hat as [Hat Hb]. apply bytes_at_cons in Hb as [Hb _].
  replace (Z.of_nat (length bs + 1) - 1) with (Z.of_nat (length bs)) by lia.
  rewrite (ld8_ok _ _ _ Hb). simpl. rewrite rev_app_distr. simpl.
  destruct (Z.eqb_spec b (u8 c)) as [->|Hne]; simpl.
  - rewrite decide_True by (apply elem_of_app; right; by left). f_equal. lia.
  - specialize (IH Hat fuel ltac:(lia)). rewrite IH. f_equal.
    rewrite (decide_ext (u8 c ∈ bs ++ [b]) (u8 c ∈ bs)).
    2: { rewrite elem_of_app, list_elem_of_singleton. split; [intros [?|?]; [done|congruence]|by left]. }
    case_decide; [lia|done].
Qed.

End strings.

(** ** A byte in a block *)

Section block.
Context (m : cmem) (m_ok : bytes_ok m).
Context (src : Z) (bs : list Z) (at_src : bytes_at m src bs) (c len : Z).

(** The block is [bs], or it is longer, perhaps than what is mapped, and the
    byte is in [bs]. *)
Definition block_covers : Prop :=
  Z.of_nat (length bs) = len \/
  Z.of_nat (length bs) <= len /\ (index_of c bs < length bs)%nat /\ word_mapped m.

Context (covers : block_covers).

(** The pointer and the count in the loops of [memchr], at most at the byte. *)
Definition memchr_inv (st : Z * Z) : Prop :=
  src <= st.1 <= src + Z.of_nat (index_of c bs) /\ st.2 = len - (st.1 - src).

Definition memchr_left (st : Z * Z) : nat := Z.to_nat (src + Z.of_nat (index_of c bs) - st.1).

Lemma differs_ok s n :
  memchr_inv (s, n) -> differs m n s c = Ok (s <? src + Z.of_nat (index_of c bs)).
Proof using at_src covers.
  unfold memchr_inv. simpl. intros [Hs ->]. unfold differs. pose proof (index_of_le c bs).
  destruct (Z.eqb_spec (len - (s - src)) 0); [destruct covers; f_equal; lia|].
  destruct (lookup_lt_is_Some_2 bs (Z.to_nat (s - src))) as [b Hb]; [destruct covers; lia|].
  pose proof (at_src _ _ Hb) as Hm. replace (src + Z.of_nat (Z.to_nat (s - src))) with s in Hm by lia.
  rewrite (ld8_ok _ _ _ Hm). simpl. f_equal.
  destruct (Z.ltb_spec s (src + Z.of_nat (index_of c bs))) as [Hlt|Hge].
  - pose proof (index_of_before c bs (Z.to_nat (s - src)) b ltac:(lia) Hb). lia.
  - replace (Z.to_nat (s - src)) with (index_of c bs) in Hb by lia.
    rewrite index_of_at in Hb by (apply lookup_lt_Some in Hb; lia).
    injection Hb as <-. by rewrite Z.eqb_refl.
Qed.

Lemma memchr_step s n :
  memchr_inv (s, n) -> s < src + Z.of_nat (index_of c bs) ->
  memchr_inv (s + 1, n - 1) /\ (memchr_left (s + 1, n - 1)%Z < memchr_left (s, n))%nat.
Proof. unfold memchr_inv, memchr_left. simpl. lia. Qed.

Context (c_byte : 0 <= c < 256).

(** The word at an aligned position, with eight bytes of the block left. *)
Lemma memchr_word_at s n :
  memchr_inv (s, n) -> s mod 8 = 0 -> 8 <= n -> mapped 8 s m.
Proof using at_src covers.
  unfold memchr_inv. simpl. intros [Hs ->] Hal Hn. destruct covers as [Hl|(Hl & Hin & Hw)].
  - intros x Hx. destruct (lookup_lt_is_Some_2 bs (Z.to_nat (x - src))) as [b Hb]; [lia|].
    exists b. rewrite <- (at_src _ _ Hb). f_equal. lia.
  - replace s with (s - s mod 8) by lia. apply Hw.
    destruct (lookup_lt_is_Some_2 bs (Z.to_nat (s - src))) as [b Hb]; [lia|].
    exists b. rewrite <- (at_src _ _ Hb). f_equal. lia.
Qed.

Lemma memchr_word s n :
  memchr_inv (s, n) -> s mod 8 = 0 -> 8 <= n ->
  exists x, ldw 8 s m = Ok x /\
    ((HASZERO (Z.lxor x (u64 (ONES * c))) =? 0) = true ->
     memchr_inv (s + 8, n - 8) /\ (memchr_left (s + 8, n - 8)%Z < memchr_left (s, n))%nat).
Proof using at_src m_ok c_byte covers.
  intros Hinv Hal Hn.
  destruct (mapped_bytes 8 s m (memchr_word_at s n Hinv Hal Hn)) as (ws & Hl & Hws).
  unfold memchr_inv, memchr_left in *. simpl in *. destruct Hinv as [Hs ->].
  exists (le_val ws). split; [by apply ldw_bytes_at|].
  rewrite Z.eqb_eq, HASZERO_xor by (try done; by eapply bytes_at_ok).
  intros Hni.
  assert (s + 8 <= src + Z.of_nat (index_of c bs)) as Hk; [|lia].
  destruct (decide (s + 8 <= src + Z.of_nat (index_of c bs))) as [|Hlt]; [done|].
  exfalso. apply Hni. pose proof (index_of_le c bs).
  assert (index_of c bs < length bs)%nat as Hin by (destruct covers; lia).
  apply index_of_at in Hin. set (j := Z.to_nat (src + Z.of_nat (index_of c bs) - s)).
  destruct (lookup_lt_is_Some_2 ws j) as [b Hb]; [lia|].
  apply list_elem_of_lookup. exists j. rewrite Hb. f_equal.
  apply Hws in Hb. apply at_src in Hin.
  replace (s + Z.of_nat j) with (src + Z.of_nat (index_of c bs)) in Hb by lia. congruence.
Qed.

Lemma land_7 s : Z.land s 7 = s mod 8.
Proof. change 7 with (Z.ones 3). by rewrite Z.land_ones by lia. Qed.
End block.

Section blocks.
Context (m : cmem) (m_ok : bytes_ok m).

Lemma memchr_covers fuel src c bs len :
  bytes_at m src bs -> block_covers m bs (u8 c) len -> (length bs < fuel)%nat ->
  memchr m fuel src c len =
  Ok (if (index_of (u8 c) bs <? length bs)%nat then src + Z.of_nat (index_of (u8 c) bs) else 0).
Proof using m_ok.
  intros Hat Hcov Hf. unfold memchr. set (c' := u8 c). pose proof (u8_byte c : 0 <= c' < 256) as Hc.
  set (I := memchr_inv src bs c' len). set (V := memchr_left src bs c').
  pose proof (index_of_le c' bs) as Hle. set (k := src + Z.of_nat (index_of c' bs)).
  assert (I (src, len)) as H0 by (unfold I, memchr_inv; simpl; lia).
  assert (forall st, I st -> (V st < fuel)%nat) as HV.
  { intros [s n]. unfold I, memchr_inv, V, memchr_left. simpl. lia. }
  assert (forall s n, I (s, n) -> differs m n s c' = Ok (s <? k)) as Hd
    by (intros; by eapply differs_ok).
  edestruct (while_rule (fun '(s, n) => if Z.land s 7 =? 0 then Ok false else differs m n s c')
    (fun '(s, n) => Ok (s + 1, n - 1)) I V fuel) as ([s1 n1] & -> & H1 & E1); [|done|by apply HV|].
  { intros [s n] Hs. rewrite (Hd s n Hs).
    destruct (Z.land s 7 =? 0); (eexists; split; [done|]); [done|].
    intros Hlt%Z.ltb_lt. eexists; split; [done|]. by apply memchr_step. }
  cbn [mbind result_bind]. rewrite (Hd s1 n1 H1) in *. cbn [mbind result_bind].
  assert (exists s2 n2, I (s2, n2) /\
    (if s1 <? k then
       while (fun '(w, n) => if n <? 8 then Ok false
                else x ← ldw 8 w m; Ok (HASZERO (Z.lxor x (u64 (ONES * c'))) =? 0))
             (fun '(w, n) => Ok (w + 8, n - 8)) fuel (s1, n1)
     else Ok (s1, n1)) = Ok (s2, n2)) as (s2 & n2 & H2 & ->).
  { destruct (s1 <? k) eqn:Hlt; [|by exists s1, n1].
    edestruct (while_rule (fun '(w, n) => if n <? 8 then Ok false
                else x ← ldw 8 w m; Ok (HASZERO (Z.lxor x (u64 (ONES * c'))) =? 0))
      (fun '(w, n) => Ok (w + 8, n - 8)) (fun st => I st /\ st.1 mod 8 = 0) V fuel)
      as ([s2 n2] & -> & [H2 _] & _); [| |by apply HV|by exists s2, n2].
    - intros [s n] [Hs Hal]. destruct (Z.ltb_spec n 8); [by eexists|].
      destruct (memchr_word m m_ok src bs Hat c' len Hcov Hc s n Hs Hal) as (x & -> & Hx); [done|].
      simpl. eexists; split; [done|]. intros Hz. eexists; split; [done|].
      destruct (Hx Hz) as [HI Hlt']. split; [|done]. split; [done|]. simpl in *.
      rewrite <- Z.add_mod_idemp_l, Hal by lia. done.
    - split; [done|]. simpl. rewrite land_7 in E1. destruct (Z.eqb_spec (s1 mod 8) 0); [done|].
      injection E1. congruence. }
  cbn [mbind result_bind].
  edestruct (while_rule (fun '(s, n) => differs m n s c')
    (fun '(s, n) => Ok (s + 1, n - 1)) I V fuel) as ([s3 n3] & -> & H3 & E3); [|done|by apply HV|].
  { intros [s n] Hs. rewrite (Hd s n Hs). eexists; split; [done|].
    intros Hlt%Z.ltb_lt. eexists; split; [done|]. by apply memchr_step. }
  cbn [mbind result_bind]. rewrite (Hd s3 n3 H3) in E3. injection E3 as E3.
  unfold I, memchr_inv in H3. simpl in H3. fold k in H3.
  fold c' in Hcov.
  destruct Hcov, (Nat.ltb_spec (index_of c' bs) (length bs)), (Z.eqb_spec n3 0); f_equal; lia.
Qed.

Lemma memchr_ok fuel src c bs :
  bytes_at m src bs -> (length bs < fuel)%nat ->
  memchr m fuel src c (Z.of_nat (length bs)) =
  Ok (if (index_of (u8 c) bs <? length bs)%nat then src + Z.of_nat (index_of (u8 c) bs) else 0).
Proof using m_ok. intros Hat Hf. apply memchr_covers; [done|by left|done]. Qed.

End blocks.

Lemma strchr_ok m fuel s c l :
  bytes_ok m -> word_mapped m -> cstr m s l -> (S (length l) < fuel)%nat ->
  let str := (l ++ [0])%list in
  strchr m fuel s c =
  Ok (if decide (u8 c ∈ str) then s + Z.of_nat (index_of (u8 c) str) else 0).
Proof.
  intros Hok Hw Hs Hf str. pose proof Hs as [Hat Hnz].
  assert (__strchrnul m fuel s c = Ok (s + Z.of_nat (index_of (u8 c) l))) as Hnul
    by (apply strchrnul_ok; (done || lia)).
  unfold strchr. rewrite Hnul. simpl. pose proof (index_of_le (u8 c) l) as Hle.
  assert (index_of (u8 c) str = index_of (u8 c) l \/ u8 c <> 0 /\ u8 c ∉ l) as Hi.
  { unfold str. clear. induction l as [|b l IH]; cbn [index_of app].
    - destruct (Z.eqb_spec 0 (u8 c)); [by left|right; split; [done|apply not_elem_of_nil]].
    - destruct (Z.eqb_spec b (u8 c)); [by left|]. destruct IH as [->|[? ?]]; [by left|right].
      rewrite not_elem_of_cons. done. }
  destruct (lookup_lt_is_Some_2 str (index_of (u8 c) l)) as [b Hb].
  { unfold str. rewrite length_app. simpl. lia. }
  rewrite (ld8_ok _ _ _ (Hat _ _ Hb)). simpl. f_equal.
  destruct (decide (u8 c ∈ str)) as [Hin|Hni].
  + destruct Hi as [Hi|[Hc Hl]].
    * rewrite <- Hi in *. rewrite index_of_at in Hb by (by eapply lookup_lt_Some).
      injection Hb as <-. by rewrite Z.eqb_refl.
    * unfold str in Hin. rewrite elem_of_app, list_elem_of_singleton in Hin. naive_solver.
  + destruct (Z.eqb_spec b (u8 c)) as [->|]; [|done]. by apply list_elem_of_lookup_2 in Hb.
Qed.

(** The searches in a string, which read whole words past the end of the
    string but never past what is mapped, find what a search byte by byte
    finds: the length, the first and the last occurrence of a character, and
    the end of the string when there is none. *)
Theorem str_search_spec m fuel s c l :
  bytes_ok m -> word_mapped m -> cstr m s l -> (S (length l) < fuel)%nat ->
  let str := (l ++ [0])%list in
  strlen m fuel s = Ok (Z.of_nat (length l)) /\
  __strchrnul m fuel s c = Ok (s + Z.of_nat (index_of (u8 c) l)) /\
  strchr m fuel s c =
    Ok (if decide (u8 c ∈ str) then s + Z.of_nat (index_of (u8 c) str) else 0) /\
  strrchr m fuel s c =
    Ok (if decide (u8 c ∈ str)
        then s + (Z.of_nat (length l) - Z.of_nat (index_of (u8 c) (rev str))) else 0).
Proof.
  intros Hok Hw Hs Hf str.
  assert (strlen m fuel s = Ok (Z.of_nat (length l))) as Hlen by (apply strlen_ok; (done || lia)).
  assert (__strchrnul m fuel s c = Ok (s + Z.of_nat (index_of (u8 c) l))) as Hnul
    by (apply strchrnul_ok; (done || lia)).
  pose proof Hs as [Hat Hnz]. split_and!; [done|done| |].
  - by apply strchr_ok; (done || lia).
  - unfold strrchr. rewrite Hlen. simpl.
    replace (Z.of_nat (length l) + 1) with (Z.of_nat (length str))
      by (unfold str; rewrite length_app; simpl; lia).
    rewrite memrchr_ok by (try done; unfold str; rewrite length_app; simpl; lia).
    f_equal. case_decide; [|done]. unfold str. rewrite length_app. simpl. lia.
Qed.

Lemma memchr_found m fuel s c bs :
  bytes_ok m -> bytes_at m s bs -> (length bs < fuel)%nat ->
  memchr m fuel s c (Z.of_nat (length bs)) =
  Ok (if decide (u8 c ∈ bs) then s + Z.of_nat (index_of (u8 c) bs) else 0).
Proof.
  intros Hok Hat Hf. rewrite memchr_ok by done. f_equal. pose proof (index_of_le (u8 c) bs).
  case_decide as Hin; destruct (Nat.ltb_spec (index_of (u8 c) bs) (length bs)) as [Hlt|Hge]; try done.
  - apply list_elem_of_lookup in Hin as [i Hi]. pose proof (lookup_lt_Some _ _ _ Hi).
    exfalso. apply (index_of_before (u8 c) bs i (u8 c)); [lia|done..].
  - apply index_of_at, list_elem_of_lookup_2 in Hlt. done.
Qed.

Lemma strnlen_ok m fuel s bs :
  bytes_ok m -> bytes_at m s bs -> (length bs < fuel)%nat -> 0 < s ->
  strnlen m fuel s (Z.of_nat (length bs)) = Ok (Z.of_nat (index_of 0 bs)).
Proof.
  intros Hok Hat Hf Hs. unfold strnlen. rewrite memchr_found by done. change (u8 0) with 0.
  simpl. f_equal. case_decide as Hin.
  - destruct (Z.eqb_spec (s + Z.of_nat (index_of 0 bs)) 0); lia.
  - simpl. by rewrite index_of_absent.
Qed.

(** The searches in a block of bytes find the first and the last occurrence
    of a byte, and the length of a string cut at the end of the block, and
    read nothing outside the block. *)
Theorem mem_search_spec m fuel s c bs :
  bytes_ok m -> bytes_at m s bs -> (length bs < fuel)%nat -> 0 < s ->
  let n := Z.of_nat (length bs) in
  memchr m fuel s c n =
    Ok (if decide (u8 c ∈ bs) then s + Z.of_nat (index_of (u8 c) bs) else 0) /\
  __memrchr m fuel s c n =
    Ok (if decide (u8 c ∈ bs) then s + (n - 1 - Z.of_nat (index_of (u8 c) (rev bs))) else 0) /\
  strnlen m fuel s n = Ok (Z.of_nat (index_of 0 bs)).
Proof.
  intros Hok Hat Hf Hs n.
  split_and!; [by apply memchr_found|by apply memrchr_ok|by apply strnlen_ok].
Qed.

(** ** Examples *)
Module ToyScan.
Import ToyMem.

Lemma str_search_spec_witness :
  strlen m 100 64 = Ok 5 /\ strchr m 100 64 108 = Ok 66 /\ strrchr m 100 64 108 = Ok 67.
Proof.
  destruct (str_search_spec m 100 64 108 hello toy_bytes_ok toy_words toy_hello) as (H1 & _ & H2 & H3);
    [simpl; lia|]. split; [exact H1|]. split; [exact H2|exact H3].
Defined.

Lemma mem_search_spec_witness : memchr m 100 64 0 6 = Ok 69.
Proof.
  refine (proj1 (mem_search_spec m 100 64 0 (hello ++ [0]) toy_bytes_ok (proj1 toy_hello) _ _));
    simpl; lia.
Defined.

End ToyScan.
