(* ===== verification/StrCmp.v ===== *)
(** * Comparing strings and blocks, and sets of bytes

    Models [strcmp], [strncmp], [memcmp], [bcmp], [strspn], [strcspn] and
    [strpbrk] of [lib/guest_bw/string]. *)

From S2P Require Import Prelude CMem CLoop StrScan.
#[local] Open Scope Z_scope.

Section ops.
Context (m : cmem).
Implicit Types (fuel : nat) (s l r c n : Z).

(** [for (; *l == *r && *l; l++, r++); return *l - *r;] *)
Definition strcmp fuel l r : result Z :=
  '(l, r) ← while (fun '(l, r) => a ← ld8 l m; b ← ld8 r m; Ok ((a =? b) && negb (a =? 0)))
              (fun '(l, r) => Ok (l + 1, r + 1)) fuel (l, r);
  a ← ld8 l m; b ← ld8 r m; Ok (a - b).

Definition strncmp fuel l r n : result Z :=
  if n =? 0 then Ok 0 else
  let n := n - 1 in
  '(l, r, n) ← while (fun '(l, r, n) =>
                  a ← ld8 l m;
                  if a =? 0 then Ok false else
                  b ← ld8 r m;
                  Ok (negb (b =? 0) && negb (n =? 0) && (a =? b)))
                (fun '(l, r, n) => Ok (l + 1, r + 1, n - 1)) fuel (l, r, n);
  a ← ld8 l m; b ← ld8 r m; Ok (a - b).

Definition memcmp fuel vl vr n : result Z :=
  '(l, r, n) ← while (fun '(l, r, n) =>
                  if n =? 0 then Ok false else a ← ld8 l m; b ← ld8 r m; Ok (a =? b))
                (fun '(l, r, n) => Ok (l + 1, r + 1, n - 1)) fuel (vl, vr, n);
  if n =? 0 then Ok 0 else a ← ld8 l m; b ← ld8 r m; Ok (a - b).

Definition bcmp fuel s1 s2 n : result Z := memcmp fuel s1 s2 n.

(** ** Sets of bytes: an array of four words *)

Definition byteset0 : list Z := replicate 4 0.

(** [BITOP(byteset, b, |=)] and [BITOP(byteset, b, &)] *)
Definition bitop_or (bset : list Z) (b : Z) : list Z :=
  <[Z.to_nat (b / 64) := Z.lor (bset !!! Z.to_nat (b / 64)) (u64 (Z.shiftl 1 (b mod 64)))]> bset.

Definition bitop_and (bset : list Z) (b : Z) : Z :=
  Z.land (bset !!! Z.to_nat (b / 64)) (u64 (Z.shiftl 1 (b mod 64))).

(** [for (; *c && BITOP(byteset, *c, |=); c++);] *)
Definition fill_set fuel (bset : list Z) c : result (list Z) :=
  o ← loop (R := list Z) (fun '(bset, c) => b ← ld8 c m; Ok (negb (b =? 0)))
        (fun '(bset, c) =>
           b ← ld8 c m;
           let bset := bitop_or bset b in
           if bset !!! Z.to_nat (b / 64) =? 0 then Ok (inr bset) else Ok (inl (bset, c + 1)))
        fuel (bset, c);
  match o with inl (bset, _) => Ok bset | inr bset => Ok bset end.

Definition strspn fuel s c : result Z :=
  let a := s in
  c0 ← ld8 c m;
  if c0 =? 0 then Ok 0 else
  c1 ← ld8 (c + 1) m;
  if c1 =? 0 then s ← scan8 m (fun b => negb (b =? c0)) fuel s; Ok (s - a)
  else
    bset ← fill_set fuel byteset0 c;
    s ← scan8 m (fun b => (b =? 0) || (bitop_and bset b =? 0)) fuel s;
    Ok (s - a).

Definition strcspn fuel s c : result Z :=
  let a := s in
  c0 ← ld8 c m;
  single ← (if c0 =? 0 then Ok true else c1 ← ld8 (c + 1) m; Ok (c1 =? 0));
  if single : bool then s ← __strchrnul m fuel s c0; Ok (s - a)
  else
    bset ← fill_set fuel byteset0 c;
    s ← scan8 m (fun b => (b =? 0) || negb (bitop_and bset b =? 0)) fuel s;
    Ok (s - a).

Definition strpbrk fuel s b : result Z :=
  n ← strcspn fuel s b;
  let s := s + n in
  x ← ld8 s m;
  Ok (if x =? 0 then 0 else s).

End ops.

(** ** Comparison *)

(** The difference of the first bytes that differ; a string that ends counts
    as having a null there. *)
Fixpoint str_diff (l r : list Z) : Z :=
  match l, r with
  | [], [] => 0
  | a :: _, [] => a
  | [], b :: _ => - b
  | a :: l, b :: r => if a =? b then str_diff l r else a - b
  end.

Lemma str_diff_eq l r :
  Forall (fun b => 0 < b < 256) l -> Forall (fun b => 0 < b < 256) r ->
  str_diff l r = 0 <-> l = r.
Proof.
  intros Hl. revert r. induction Hl as [|a l Ha _ IH]; intros r Hr.
  { destruct Hr; simpl; [done|]. split; [lia|done]. }
  destruct Hr as [|b r Hb Hr]; simpl; [split; [lia|done]|].
  destruct (Z.eqb_spec a b) as [->|Hne]; [rewrite IH by done|]; (split; intros H; [|simplify_eq; try done; lia]).
  - by subst.
  - lia.
Qed.

Lemma cstr_cons m s b l :
  cstr m s (b :: l) <-> m !! s = Some b /\ 0 < b < 256 /\ cstr m (s + 1) l.
Proof.
  unfold cstr. cbn [app]. rewrite bytes_at_cons, Forall_cons. tauto.
Qed.

Lemma cstr_nil m s : cstr m s [] <-> m !! s = Some 0.
Proof.
  unfold cstr. cbn [app]. rewrite bytes_at_cons. split; [tauto|]. intros H. split; [|done].
  split; [done|]. intros i b Hi. by rewrite lookup_nil in Hi.
Qed.

(** The byte a string starts with. *)
Definition head0 (l : list Z) : Z := match l with [] => 0 | b :: _ => b end.

Lemma cstr_head m s l : cstr m s l -> ld8 s m = Ok (head0 l).
Proof.
  destruct l; [intros H%cstr_nil|intros [H _]%cstr_cons]; by apply ld8_ok.
Qed.

Section compare.
Context (m : cmem).

Lemma while_S {S} cond (body : S -> result S) fuel s :
  while cond body (Datatypes.S fuel) s =
  (b ← cond s; if b : bool then s ← body s; while cond body fuel s else Ok s).
Proof.
  unfold while. simpl. destruct (cond s) as [[]| |]; simpl; [|done..].
  by destruct (body s).
Qed.

Lemma strcmp_ok fuel l r ls rs :
  cstr m l ls -> cstr m r rs -> (length ls < fuel)%nat ->
  strcmp m fuel l r = Ok (str_diff ls rs).
Proof.
  unfold strcmp. revert l r rs fuel. induction ls as [|a ls IH]; intros l r rs fuel Hl Hr Hf;
    (destruct fuel as [|fuel]; [simpl in Hf; lia|]); rewrite while_S, (cstr_head _ _ _ Hl);
    simpl; rewrite (cstr_head _ _ _ Hr); simpl.
  - rewrite andb_false_r. simpl. rewrite (cstr_head _ _ _ Hl). simpl.
    rewrite (cstr_head _ _ _ Hr). by destruct rs.
  - pose proof Hl as (Ha & Hab & Hl')%cstr_cons. destruct rs as [|b rs]; simpl.
    + destruct (Z.eqb_spec a 0); [lia|]. simpl. rewrite (cstr_head _ _ _ Hl). simpl.
      rewrite (cstr_head _ _ _ Hr). simpl. f_equal. lia.
    + pose proof Hr as (Hb & Hbb & Hr')%cstr_cons.
      destruct (Z.eqb_spec a b) as [->|Hne]; simpl.
      * destruct (Z.eqb_spec b 0); [lia|]. simpl. apply IH; [done..|simpl in Hf; lia].
      * rewrite (cstr_head _ _ _ Hl). simpl. by rewrite (cstr_head _ _ _ Hr).
Qed.

(** With enough bytes to compare, the order is that of the strings cut there. *)
Lemma strncmp_loop fuel l r n ls rs :
  cstr m l ls -> cstr m r rs -> (length ls < fuel)%nat ->
  ('(l, r, n) ← while (fun '(l, r, n) =>
                  a ← ld8 l m;
                  if a =? 0 then Ok false else
                  b ← ld8 r m;
                  Ok (negb (b =? 0) && negb (n =? 0) && (a =? b)))
                (fun '(l, r, n) => Ok (l + 1, r + 1, n - 1)) fuel (l, r, Z.of_nat n);
   a ← ld8 l m; b ← ld8 r m; Ok (a - b)) = Ok (str_diff (take (S n) ls) (take (S n) rs)).
Proof.
  revert l r n rs fuel. induction ls as [|a ls IH]; intros l r n rs fuel Hl Hr Hf;
    (destruct fuel as [|fuel]; [simpl in Hf; lia|]); rewrite while_S, (cstr_head _ _ _ Hl); simpl.
  - rewrite (cstr_head _ _ _ Hl). simpl. rewrite (cstr_head _ _ _ Hr). by destruct rs.
  - pose proof Hl as (Ha & Hab & Hl')%cstr_cons. destruct (Z.eqb_spec a 0); [lia|].
    rewrite (cstr_head _ _ _ Hr). simpl. destruct rs as [|b rs]; simpl.
    { rewrite (cstr_head _ _ _ Hl). simpl. rewrite (cstr_head _ _ _ Hr). simpl. f_equal. lia. }
    pose proof Hr as (Hb & Hbb & Hr')%cstr_cons. destruct (Z.eqb_spec b 0); [lia|]. simpl.
    destruct (Z.eqb_spec (Z.of_nat n) 0) as [Hn|Hn]; simpl.
    { replace n with 0%nat by lia. simpl. rewrite (cstr_head _ _ _ Hl). simpl.
      rewrite (cstr_head _ _ _ Hr). simpl. destruct (Z.eqb_spec a b); f_equal; lia. }
    destruct (Z.eqb_spec a b) as [->|Hne]; simpl.
    + destruct n as [|n]; [done|]. replace (Z.of_nat (S n) - 1) with (Z.of_nat n) by lia.
      apply IH; [done..|simpl in Hf; lia].
    + rewrite (cstr_head _ _ _ Hl). simpl. by rewrite (cstr_head _ _ _ Hr).
Qed.

Lemma strncmp_ok fuel l r n ls rs :
  cstr m l ls -> cstr m r rs -> (length ls < fuel)%nat ->
  strncmp m fuel l r (Z.of_nat n) = Ok (str_diff (take n ls) (take n rs)).
Proof.
  intros Hl Hr Hf. unfold strncmp. destruct (Z.eqb_spec (Z.of_nat n) 0) as [Hn|Hn].
  { by replace n with 0%nat by lia. }
  destruct n as [|n]; [done|]. replace (Z.of_nat (S n) - 1) with (Z.of_nat n) by lia.
  by apply strncmp_loop.
Qed.

Lemma memcmp_ok fuel l r ls rs :
  bytes_at m l ls -> bytes_at m r rs -> length ls = length rs -> (length ls < fuel)%nat ->
  memcmp m fuel l r (Z.of_nat (length ls)) = Ok (str_diff ls rs).
Proof.
  unfold memcmp. revert l r rs fuel. induction ls as [|a ls IH]; intros l r rs fuel Hl Hr He Hf;
    (destruct fuel as [|fuel]; [simpl in Hf; lia|]); destruct rs as [|b rs]; try done.
  apply bytes_at_cons in Hl as [Ha Hl]. apply bytes_at_cons in Hr as [Hb Hr].
  rewrite while_S. destruct (Z.eqb_spec (Z.of_nat (length (a :: ls))) 0) as [|Hn]; [simpl in *; lia|].
  rewrite (ld8_ok _ _ _ Ha). cbn [mbind result_bind]. rewrite (ld8_ok _ _ _ Hb).
  cbn [mbind result_bind str_diff]. destruct (Z.eqb_spec a b) as [->|Hne].
  - cbn [mbind result_bind].
    replace (Z.of_nat (length (b :: ls)) - 1) with (Z.of_nat (length ls)) by (simpl; lia).
    apply IH; [done..|simpl in *; lia|simpl in *; lia].
  - cbn [mbind result_bind]. rewrite (proj2 (Z.eqb_neq _ _) Hn).
    rewrite (ld8_ok _ _ _ Ha). cbn [mbind result_bind]. by rewrite (ld8_ok _ _ _ Hb).
Qed.

End compare.

(** ** Sets of bytes *)

(** The bit of a byte in the array. *)
Definition in_set (bset : list Z) (b : Z) : bool := Z.testbit (bset !!! Z.to_nat (b / 64)) (b mod 64).

Lemma bit_word b : u64 (Z.shiftl 1 (b mod 64)) = 2 ^ (b mod 64).
Proof.
  pose proof (Z.mod_pos_bound b 64 ltac:(lia)). rewrite Z.shiftl_1_l. apply wrap_small.
  split; [apply Z.pow_nonneg; lia|apply Z.pow_lt_mono_r; lia].
Qed.

Lemma bitop_and_spec bset b : (bitop_and bset b =? 0) = negb (in_set bset b).
Proof.
  unfold bitop_and, in_set. rewrite bit_word.
  pose proof (Z.mod_pos_bound b 64 ltac:(lia)) as Hb. set (x := bset !!! _). set (k := b mod 64) in *.
  destruct (Z.testbit x k) eqn:Hx; simpl.
  - apply Z.eqb_neq. intros H0. assert (Z.testbit (Z.land x (2 ^ k)) k = true) as H1.
    { by rewrite Z.land_spec, Hx, Z.pow2_bits_true by lia. }
    by rewrite H0, Z.bits_0 in H1.
  - apply Z.eqb_eq, Z.bits_inj'. intros n Hn. rewrite Z.land_spec, Z.bits_0.
    rewrite Z.pow2_bits_eqb by lia. destruct (Z.eqb_spec k n) as [<-|]; [by rewrite Hx|].
    by rewrite andb_false_r.
Qed.

Lemma byte_div b : 0 <= b < 256 -> 0 <= b / 64 < 4.
Proof. intros Hb. split; [apply Z.div_pos|apply Z.div_lt_upper_bound]; lia. Qed.

Lemma in_set_or bset c b :
  length bset = 4%nat -> 0 <= b < 256 -> 0 <= c < 256 ->
  in_set (bitop_or bset c) b = in_set bset b || (b =? c).
Proof.
  intros Hl Hb Hc. unfold in_set, bitop_or. rewrite bit_word.
  pose proof (byte_div b Hb). pose proof (byte_div c Hc).
  pose proof (Z.mod_pos_bound b 64 ltac:(lia)). pose proof (Z.mod_pos_bound c 64 ltac:(lia)).
  pose proof (Z.div_mod b 64 ltac:(lia)). pose proof (Z.div_mod c 64 ltac:(lia)).
  destruct (decide (b / 64 = c / 64)) as [He|Hne].
  - rewrite <- He, list_lookup_total_insert_eq by lia. rewrite Z.lor_spec. f_equal.
    rewrite Z.pow2_bits_eqb by lia. destruct (Z.eqb_spec (c mod 64) (b mod 64)), (Z.eqb_spec b c); lia.
  - rewrite list_lookup_total_insert_ne by lia. destruct (Z.eqb_spec b c); [congruence|].
    by rewrite orb_false_r.
Qed.

Lemma bitop_or_nonzero bset c :
  length bset = 4%nat -> 0 <= c < 256 -> (bitop_or bset c !!! Z.to_nat (c / 64) =? 0) = false.
Proof.
  intros Hl Hc. apply Z.eqb_neq. intros H0.
  pose proof (in_set_or bset c c Hl Hc Hc) as H. rewrite Z.eqb_refl, orb_true_r in H.
  unfold in_set in H. by rewrite H0, Z.bits_0 in H.
Qed.

Section spans.
Context (m : cmem).

Lemma fill_set_ok fuel bset c cs :
  cstr m c cs -> length bset = 4%nat -> (length cs < fuel)%nat ->
  exists bset', fill_set m fuel bset c = Ok bset' /\
    forall b, 0 <= b < 256 -> in_set bset' b = in_set bset b || bool_decide (b ∈ cs).
Proof.
  unfold fill_set. revert fuel bset c. induction cs as [|x cs IH]; intros fuel bset c Hc Hl Hf;
    (destruct fuel as [|fuel]; [simpl in Hf; lia|]); cbn [loop];
    rewrite (cstr_head _ _ _ Hc); cbn [mbind result_bind head0].
  - exists bset. split; [done|]. intros b _.
    rewrite bool_decide_false by apply not_elem_of_nil. by rewrite orb_false_r.
  - apply cstr_cons in Hc as (Hx & Hxb & Hc). destruct (Z.eqb_spec x 0); [lia|].
    cbn [negb]. rewrite bitop_or_nonzero by (done || lia).
    destruct (IH fuel (bitop_or bset x) (c + 1) Hc) as (bset' & H1 & H2).
    { unfold bitop_or. by rewrite length_insert. }
    { simpl in Hf. lia. }
    exists bset'. split; [exact H1|]. intros b Hb. rewrite H2, in_set_or by (done || lia).
    rewrite <- orb_assoc. f_equal. apply Bool.eq_iff_eq_true.
    rewrite orb_true_iff, Z.eqb_eq, !bool_decide_eq_true, elem_of_cons. done.
Qed.

(** The length of the longest prefix of bytes that satisfy [p]. *)
Fixpoint span (p : Z -> bool) (l : list Z) : nat :=
  match l with [] => 0 | b :: l => if p b then S (span p l) else 0 end.

Lemma span_ext p q l : Forall (fun b => p b = q b) l -> span p l = span q l.
Proof. induction 1 as [|b l Hb _ IH]; simpl; [done|]. rewrite Hb. case_match; auto. Qed.

Lemma span_first (p stop : Z -> bool) s l :
  cstr m s l -> stop 0 = true -> Forall (fun b => stop b = negb (p b)) l ->
  first_at stop (l ++ [0]) (span p l).
Proof.
  intros Hs H0 Hp. apply (cstr_first m s); [done|done| |]; clear Hs.
  - induction Hp as [|b l Hb _ IH]; simpl; [by left|].
    destruct (p b) eqn:Hpb; [|right; exists b; by rewrite Hb].
    destruct IH as [->|IH]; [by left|by right].
  - induction Hp as [|b l Hb _ IH]; intros j x Hj Hx; simpl in *; [lia|].
    destruct (p b) eqn:Hpb; [|lia]. destruct j; simpl in *; [congruence|]. apply (IH j); [lia|done].
Qed.

Lemma span_le p l : (span p l <= length l)%nat.
Proof. induction l; simpl; [lia|]. case_match; lia. Qed.

(** A search that stops at bytes without [p] measures the span of [p]. *)
Lemma scan8_span (p stop : Z -> bool) fuel s l :
  cstr m s l -> stop 0 = true -> Forall (fun b => stop b = negb (p b)) l ->
  (length l < fuel)%nat -> scan8 m stop fuel s = Ok (s + Z.of_nat (span p l)).
Proof.
  intros Hs H0 Hp Hf. pose proof (span_le p l).
  apply (scan8_spec m stop s (l ++ [0])); [apply Hs|by eapply span_first|unfold before_k; lia|lia].
Qed.

Lemma strspn_ok fuel s c l cs :
  cstr m s l -> cstr m c cs -> (length l < fuel)%nat -> (length cs < fuel)%nat ->
  strspn m fuel s c = Ok (Z.of_nat (span (fun b => bool_decide (b ∈ cs)) l)).
Proof.
  intros Hs Hc Hl Hf. unfold strspn. rewrite (cstr_head _ _ _ Hc). cbn [mbind result_bind].
  destruct cs as [|c0 cs]; cbn [head0].
  { f_equal. destruct l as [|b l]; [done|]. cbn [span].
    by rewrite bool_decide_false by apply not_elem_of_nil. }
  pose proof Hc as (_ & Hcb & Hc')%cstr_cons. destruct (Z.eqb_spec c0 0); [lia|].
  rewrite (cstr_head _ _ _ Hc'). cbn [mbind result_bind]. pose proof (proj2 Hs) as Hlb.
  destruct cs as [|c1 cs]; cbn [head0].
  - rewrite (scan8_span (fun b => bool_decide (b ∈ [c0])) _ fuel s l Hs); [| | |done].
    + simpl. f_equal. lia.
    + destruct (Z.eqb_spec 0 c0); [lia|done].
    + apply Forall_forall. intros b _. f_equal. apply Bool.eq_iff_eq_true.
      by rewrite Z.eqb_eq, bool_decide_eq_true, list_elem_of_singleton.
  - pose proof Hc' as (_ & Hcb' & _)%cstr_cons. destruct (Z.eqb_spec c1 0); [lia|].
    destruct (fill_set_ok fuel byteset0 c _ Hc eq_refl Hf) as (bset & -> & Hin).
    cbn [mbind result_bind].
    rewrite (scan8_span (fun b => bool_decide (b ∈ c0 :: c1 :: cs)) _ fuel s l Hs); [|done| |done].
    + simpl. f_equal. lia.
    + eapply Forall_impl; [exact Hlb|]. intros b Hb. simpl in Hb.
      rewrite bitop_and_spec, Hin by lia. destruct (Z.eqb_spec b 0); [lia|]. simpl.
      f_equal. unfold in_set, byteset0. rewrite lookup_total_replicate_2 by
        (pose proof (byte_div b); lia). by rewrite Z.bits_0.
Qed.

Context (m_ok : bytes_ok m) (m_words : word_mapped m).

Lemma strcspn_ok fuel s c l cs :
  cstr m s l -> cstr m c cs -> (length l < fuel)%nat -> (length cs < fuel)%nat ->
  strcspn m fuel s c = Ok (Z.of_nat (span (fun b => bool_decide (b ∉ cs)) l)).
Proof using m_ok m_words.
  intros Hs Hc Hl Hf. unfold strcspn. rewrite (cstr_head _ _ _ Hc). cbn [mbind result_bind].
  pose proof (proj2 Hs) as Hlb. destruct cs as [|c0 cs]; cbn [head0].
  - change (0 =? 0) with true. cbn [mbind result_bind].
    rewrite (strchrnul_ok m m_ok m_words fuel s 0 l Hs Hl). cbn [mbind result_bind]. f_equal.
    assert (index_of (u8 0) l = length l) as ->.
    { apply index_of_absent. intros Hin. rewrite Forall_forall in Hlb.
      specialize (Hlb _ Hin). simpl in Hlb. change (u8 0) with 0 in Hlb. lia. }
    assert (span (fun b => bool_decide (b ∉ [])) l = length l) as ->; [|lia].
    clear. induction l as [|b l IH]; [done|]. cbn [span].
    rewrite bool_decide_true by apply not_elem_of_nil. by rewrite IH.
  - pose proof Hc as (_ & Hcb & Hc')%cstr_cons. destruct (Z.eqb_spec c0 0); [lia|].
    rewrite (cstr_head _ _ _ Hc'). cbn [mbind result_bind]. destruct cs as [|c1 cs]; cbn [head0].
    + simpl. rewrite (strchrnul_ok m m_ok m_words fuel s c0 l Hs Hl). simpl. f_equal.
      rewrite wrap_small by lia. rewrite Z.add_simpl_l. f_equal.
      clear. induction l as [|b l IH]; [done|]. cbn [span index_of].
      destruct (Z.eqb_spec b c0) as [->|Hne].
      * rewrite bool_decide_false; [done|]. intros Hn. apply Hn. by left.
      * rewrite bool_decide_true; [by rewrite IH|]. by intros ->%list_elem_of_singleton.
    + pose proof Hc' as (_ & Hcb' & _)%cstr_cons. destruct (Z.eqb_spec c1 0); [lia|].
      destruct (fill_set_ok fuel byteset0 c _ Hc eq_refl Hf) as (bset & -> & Hin).
      cbn [mbind result_bind].
      rewrite (scan8_span (fun b => bool_decide (b ∉ c0 :: c1 :: cs)) _ fuel s l Hs); [|done| |done].
      * simpl. f_equal. lia.
      * eapply Forall_impl; [exact Hlb|]. intros b Hb. simpl in Hb.
        rewrite bitop_and_spec, Hin by lia. destruct (Z.eqb_spec b 0); [lia|]. simpl.
        rewrite negb_involutive, bool_decide_not, negb_involutive.
        unfold in_set, byteset0. rewrite lookup_total_replicate_2 by
          (pose proof (byte_div b); lia). by rewrite Z.bits_0.
Qed.

End spans.

(** Comparing two strings, two strings up to a length, or two blocks gives
    the difference of the first bytes that differ, and zero exactly when there
    are none. *)
Theorem str_compare_spec m fuel l r ls rs n :
  cstr m l ls -> cstr m r rs -> (length ls < fuel)%nat ->
  strcmp m fuel l r = Ok (str_diff ls rs) /\
  strncmp m fuel l r (Z.of_nat n) = Ok (str_diff (take n ls) (take n rs)) /\
  (length ls = length rs ->
     memcmp m fuel l r (Z.of_nat (length ls)) = Ok (str_diff ls rs)) /\
  (str_diff ls rs = 0 <-> ls = rs).
Proof.
  intros Hl Hr Hf. split_and!; [by apply strcmp_ok|by apply strncmp_ok| |].
  - intros He. apply memcmp_ok; [|by eapply bytes_at_app, Hr|done|done].
    by eapply bytes_at_app, Hl.
  - apply str_diff_eq; [apply Hl|apply Hr].
Qed.

(** The spans: how far a string stays inside, or outside, the set of the
    characters of another, and where it first meets one of them. The set is
    kept as bits in four words. *)
Theorem str_span_spec m fuel s c l cs :
  bytes_ok m -> word_mapped m -> cstr m s l -> cstr m c cs ->
  (length l < fuel)%nat -> (length cs < fuel)%nat ->
  let outside := span (fun b => bool_decide (b ∉ cs)) l in
  strspn m fuel s c = Ok (Z.of_nat (span (fun b => bool_decide (b ∈ cs)) l)) /\
  strcspn m fuel s c = Ok (Z.of_nat outside) /\
  strpbrk m fuel s c = Ok (if decide (outside = length l) then 0 else s + Z.of_nat outside).
Proof.
  intros Hok Hw Hs Hc Hl Hf outside.
  assert (strcspn m fuel s c = Ok (Z.of_nat outside)) as Hsp by (by apply strcspn_ok).
  split_and!; [by apply strspn_ok|done|]. unfold strpbrk. rewrite Hsp. cbn [mbind result_bind].
  pose proof (span_le (fun b => bool_decide (b ∉ cs)) l) as Hle. fold outside in Hle.
  destruct (lookup_lt_is_Some_2 (l ++ [0])%list outside) as [b Hb].
  { rewrite length_app. simpl. lia. }
  rewrite (ld8_ok _ _ _ (proj1 Hs _ _ Hb)). cbn [mbind result_bind]. f_equal.
  case_decide as He.
  - rewrite He, list_lookup_middle in Hb by done. by injection Hb as <-.
  - rewrite lookup_app_l in Hb by lia. apply (Forall_lookup_1 _ _ _ _ (proj2 Hs)) in Hb.
    simpl in Hb. destruct (Z.eqb_spec b 0); [lia|done].
Qed.

(** ** Examples *)
Module ToyCmp.
Import ToyMem.

Lemma str_compare_spec_witness : strcmp m 100 64 72 = Ok (-4).
Proof.
  refine (proj1 (str_compare_spec m 100 64 72 hello help 3 toy_hello toy_help _)). simpl. lia.
Defined.

Lemma str_span_spec_witness : strspn m 100 64 72 = Ok 4 /\ strpbrk m 100 72 64 = Ok 72.
Proof.
  destruct (str_span_spec m 100 64 72 hello help toy_bytes_ok toy_words toy_hello toy_help)
    as (H1 & _); [simpl; lia..|].
  destruct (str_span_spec m 100 72 64 help hello toy_bytes_ok toy_words toy_help toy_hello)
    as (_ & _ & H2); [simpl; lia..|].
  split; [exact H1|exact H2].
Defined.

End ToyCmp.
