(* ===== verification/MemCopy.v ===== *)
(** * Copying and filling memory

    Models [memcpy], [mempcpy], [memmove], [bcopy], [memset], [bzero] and
    [explicit_bzero] of [lib/guest_bw/string], the way they are compiled on a
    little-endian host, and shows that they leave in memory what a copy byte
    by byte would, with every word access aligned. *)

From S2P Require Import Prelude CMem CLoop.
#[local] Open Scope string_scope.
#[local] Open Scope Z_scope.

(** ** memcpy *)

(** The pointers and memory, [d], [s] and what they point into. *)
Record cp := mk_cp { cp_d : Z; cp_s : Z; cp_m : cmem }.

(** [*d++ = *s++;] *)
Definition copy1 (st : cp) : result cp :=
  b ← ld8 (cp_s st) (cp_m st);
  m ← st8 (cp_d st) b (cp_m st);
  Ok (mk_cp (cp_d st + 1) (cp_s st + 1) m).

(** [k] of them in a row. *)
Fixpoint copies (k : nat) (st : cp) : result cp :=
  match k with O => Ok st | S k => st ← copy1 st; copies k st end.

(** [*(T* )(d + off) = *(T* )(s + off);] for a type of [w] bytes. *)
Definition copy_word (w : nat) (off : Z) (st : cp) : result cp :=
  x ← ldw w (cp_s st + off) (cp_m st);
  m ← stw w (cp_d st + off) x (cp_m st);
  Ok (mk_cp (cp_d st) (cp_s st) m).

Definition advance (k : Z) (st : cp) : cp := mk_cp (cp_d st + k) (cp_s st + k) (cp_m st).

(** [n & b] as a condition. *)
Definition bit (n b : Z) : bool := negb (Z.land n b =? 0).

Definition when (b : bool) (f : cp -> result cp) (st : cp) : result cp :=
  if b then f st else Ok st.

(** The loop of 16 bytes and the rest, when [d] and [s] are both aligned. *)
Definition memcpy_aligned (fuel : nat) (st : cp) (n : Z) : result cp :=
  '(st, n) ← while (fun '(st, n) => Ok (16 <=? n))
               (fun '(st, n) =>
                  st ← copy_word 4 0 st; st ← copy_word 4 4 st;
                  st ← copy_word 4 8 st; st ← copy_word 4 12 st;
                  Ok (advance 16 st, n - 16)) fuel (st, n);
  st ← when (bit n 8) (fun st => st ← copy_word 4 0 st; st ← copy_word 4 4 st;
                                 Ok (advance 8 st)) st;
  st ← when (bit n 4) (fun st => st ← copy_word 4 0 st; Ok (advance 4 st)) st;
  st ← when (bit n 2) (copies 2) st;
  when (bit n 1) (copies 1) st.

(** [*(u32* )(d + off) = (w LS ls) | (x RS rs)] after [x = *(u32* )(s + src)],
    where [w] is the word read before; the result has [x] in its place. *)
Definition shift_word (ls rs off src : Z) (w : Z) (st : cp) : result (Z * cp) :=
  x ← ldw 4 (cp_s st + src) (cp_m st);
  m ← stw 4 (cp_d st + off) (Z.lor (Z.shiftr w ls) (u32 (Z.shiftl x rs))) (cp_m st);
  Ok (x, mk_cp (cp_d st) (cp_s st) m).

(** The case [d % 4 == r] of the [switch]: [4 - r] bytes align [d], then words
    are put together from the two source words they span. *)
Definition memcpy_shifted (r : Z) (fuel : nat) (st : cp) (n : Z) : result (cp * Z) :=
  let ls := 8 * (4 - r) in
  let rs := 8 * r in
  w ← ldw 4 (cp_s st) (cp_m st);
  st ← copies (Z.to_nat (4 - r)) st;
  let n := n - (4 - r) in
  '(st, w, n) ← while (fun '(st, w, n) => Ok (16 + r <=? n))
                  (fun '(st, w, n) =>
                     '(w, st) ← shift_word ls rs 0 r w st;
                     '(w, st) ← shift_word ls rs 4 (r + 4) w st;
                     '(w, st) ← shift_word ls rs 8 (r + 8) w st;
                     '(w, st) ← shift_word ls rs 12 (r + 12) w st;
                     Ok (advance 16 st, w, n - 16)) fuel (st, w, n);
  Ok (st, n).

Definition memcpy (fuel : nat) (dest src n : Z) (m : cmem) : result (Z * cmem) :=
  '(st, n) ← while (fun '(st, n) => Ok (negb (cp_s st mod 4 =? 0) && negb (n =? 0)))
               (fun '(st, n) => st ← copy1 st; Ok (st, n - 1)) fuel (mk_cp dest src m, n);
  let r := cp_d st mod 4 in
  if r =? 0 then
    st ← memcpy_aligned fuel st n;
    Ok (dest, cp_m st)
  else
    '(st, n) ← (if 32 <=? n then memcpy_shifted r fuel st n else Ok (st, n));
    st ← when (bit n 16) (copies 16) st;
    st ← when (bit n 8) (copies 8) st;
    st ← when (bit n 4) (copies 4) st;
    st ← when (bit n 2) (copies 2) st;
    st ← when (bit n 1) (copies 1) st;
    Ok (dest, cp_m st).

Definition mempcpy (fuel : nat) (dest src n : Z) (m : cmem) : result (Z * cmem) :=
  '(p, m) ← memcpy fuel dest src n m; Ok (p + n, m).

(** ** memmove *)

Definition WS : Z := 8.

(** The copy upwards. *)
Definition memmove_up (fuel : nat) (dest src n : Z) (m : cmem) : result (Z * cmem) :=
  let bytes st n :=
    '(st, n) ← while (fun '(st, n) => Ok (negb (n =? 0)))
                 (fun '(st, n) => st ← copy1 st; Ok (st, n - 1)) fuel (st, n);
    Ok (dest, cp_m st) in
  if src mod WS =? dest mod WS then
    o ← loop (fun '(st, n) => Ok (negb (cp_d st mod WS =? 0)))
          (fun '(st, n) =>
             if n =? 0 then Ok (inr (cp_m st))
             else st ← copy1 st; Ok (inl (st, n - 1))) fuel (mk_cp dest src m, n);
    match o with
    | inr m => Ok (dest, m)
    | inl (st, n) =>
        '(st, n) ← while (fun '(st, n) => Ok (WS <=? n))
                     (fun '(st, n) => st ← copy_word 8 0 st; Ok (advance WS st, n - WS))
                     fuel (st, n);
        bytes st n
    end
  else bytes (mk_cp dest src m) n.

(** [d[n] = s[n]], and the same for a word. *)
Definition put1 (d s n : Z) (m : cmem) : result cmem := b ← ld8 (s + n) m; st8 (d + n) b m.
Definition put_word (d s n : Z) (m : cmem) : result cmem :=
  x ← ldw 8 (s + n) m; stw 8 (d + n) x m.

(** The copy downwards. *)
Definition memmove_down (fuel : nat) (dest src n : Z) (m : cmem) : result (Z * cmem) :=
  let bytes n m :=
    '(n, m) ← while (fun '(n, m) => Ok (negb (n =? 0)))
                (fun '(n, m) => m ← put1 dest src (n - 1) m; Ok (n - 1, m)) fuel (n, m);
    Ok (dest, m) in
  if src mod WS =? dest mod WS then
    o ← loop (fun '(n, m) => Ok (negb ((dest + n) mod WS =? 0)))
          (fun '(n, m) =>
             if n =? 0 then Ok (inr m)
             else m ← put1 dest src (n - 1) m; Ok (inl (n - 1, m))) fuel (n, m);
    match o with
    | inr m => Ok (dest, m)
    | inl (n, m) =>
        '(n, m) ← while (fun '(n, m) => Ok (WS <=? n))
                    (fun '(n, m) => m ← put_word dest src (n - WS) m; Ok (n - WS, m))
                    fuel (n, m);
        bytes n m
    end
  else bytes n m.

Definition memmove (fuel : nat) (dest src n : Z) (m : cmem) : result (Z * cmem) :=
  if dest =? src then Ok (dest, m)
  else if u64 (src - dest - n) <=? u64 (-2 * n) then memcpy fuel dest src n m
  else if dest <? src then memmove_up fuel dest src n m
  else memmove_down fuel dest src n m.

Definition bcopy (fuel : nat) (s1 s2 n : Z) (m : cmem) : result cmem :=
  '(_, m) ← memmove fuel s2 s1 n m; Ok m.

(** ** memset *)

(** [*(T* )(s + o) = x;] for a type of [w] bytes, for each of the offsets in turn. *)
Fixpoint poke (w : nat) (s x : Z) (offs : list Z) (m : cmem) : result cmem :=
  match offs with
  | [] => Ok m
  | o :: offs => m ← stw w (s + o) x m; poke w s x offs m
  end.

(** The 8 bytes at a time at the end. *)
Definition memset_loop (fuel : nat) (c64 s n : Z) (m : cmem) : result cmem :=
  '(s, n, m) ← while (fun '(s, n, m) => Ok (32 <=? n))
                 (fun '(s, n, m) => m ← poke 8 s c64 [0; 8; 16; 24] m; Ok (s + 32, n - 32, m))
                 fuel (s, n, m);
  Ok m.

(** From where [s] is aligned to 4 bytes and [n] a multiple of 4. *)
Definition memset_words (fuel : nat) (c s n : Z) (m : cmem) : result cmem :=
  let c32 := u32 (4294967295 / 255 * u8 c) in
  m ← poke 4 s c32 [0; n - 4] m;
  if n <=? 8 then Ok m else
  m ← poke 4 s c32 [4; 8; n - 12; n - 8] m;
  if n <=? 24 then Ok m else
  m ← poke 4 s c32 [12; 16; 20; 24; n - 28; n - 24; n - 20; n - 16] m;
  let k := 24 + Z.land s 4 in
  let c64 := Z.lor c32 (u64 (Z.shiftl c32 32)) in
  memset_loop fuel c64 (s + k) (n - k) m.

Definition memset (fuel : nat) (dest c n : Z) (m : cmem) : result (Z * cmem) :=
  if n =? 0 then Ok (dest, m) else
  m ← poke 1 dest c [0; n - 1] m;
  if n <=? 2 then Ok (dest, m) else
  m ← poke 1 dest c [1; 2; n - 2; n - 3] m;
  if n <=? 6 then Ok (dest, m) else
  m ← poke 1 dest c [3; n - 4] m;
  if n <=? 8 then Ok (dest, m) else
  let k := Z.land (u64 (- dest)) 3 in
  m ← memset_words fuel c (dest + k) (Z.land (n - k) (u64 (-4))) m;
  Ok (dest, m).

Definition bzero (fuel : nat) (s n : Z) (m : cmem) : result cmem :=
  '(_, m) ← memset fuel s 0 n m; Ok m.

Definition explicit_bzero (fuel : nat) (d n : Z) (m : cmem) : result cmem :=
  '(_, m) ← memset fuel d 0 n m; Ok m.

(** ** Correctness *)

(** The bits of a small count add up to it. *)
Lemma bits_sum n :
  0 <= n < 32 ->
  n = 16 * Z.b2z (bit n 16) + 8 * Z.b2z (bit n 8) + 4 * Z.b2z (bit n 4) +
      2 * Z.b2z (bit n 2) + Z.b2z (bit n 1).
Proof.
  intros Hn. assert (n ∈ seqZ 0 32) as H by (apply elem_of_seqZ; lia). clear Hn. revert n H.
  apply Forall_forall. repeat (constructor; [reflexivity|]). constructor.
Qed.

Lemma bit16_small n : 0 <= n < 16 -> bit n 16 = false.
Proof.
  intros Hn. assert (n ∈ seqZ 0 16) as H by (apply elem_of_seqZ; lia). clear Hn. revert n H.
  apply Forall_forall. repeat (constructor; [reflexivity|]). constructor.
Qed.

Lemma b2z_bound b : 0 <= Z.b2z b <= 1.
Proof. destruct b; simpl; lia. Qed.

Lemma mod_shift a j k : k <> 0 -> a mod k = 0 -> j mod k = 0 -> (a + j) mod k = 0.
Proof. intros Hk Ha Hj. by rewrite <- Z.add_mod_idemp_l, Ha, Z.add_0_l, Hj. Qed.

Lemma mod_eq a b k : k <> 0 -> a mod k = b mod k -> (a - b) mod k = 0.
Proof. intros Hk H. by rewrite Zminus_mod, H, Z.sub_diag, Z.mod_0_l. Qed.

Lemma le_val_drop l1 l2 :
  Forall is_byte l1 -> Z.shiftr (le_val (l1 ++ l2)) (8 * Z.of_nat (length l1)) = le_val l2.
Proof.
  intros H1. rewrite Z.shiftr_div_pow2, <- pow256, le_val_app by lia.
  pose proof (le_val_bound l1 H1). rewrite (Z.mul_comm (256 ^ _)), Z.div_add by lia.
  by rewrite Z.div_small, Z.add_0_l.
Qed.

Lemma le_val_take r y1 y2 :
  (r + length y1 = 4)%nat -> Forall is_byte y1 ->
  u32 (Z.shiftl (le_val (y1 ++ y2)) (8 * Z.of_nat r)) = 256 ^ Z.of_nat r * le_val y1.
Proof.
  intros Hr H1. rewrite Z.shiftl_mul_pow2, <- pow256, le_val_app by lia.
  pose proof (le_val_bound y1 H1) as Hb.
  assert (256 ^ Z.of_nat r * 256 ^ Z.of_nat (length y1) = 2 ^ 32) as Hp.
  { rewrite <- Z.pow_add_r by lia. by replace (Z.of_nat r + Z.of_nat (length y1)) with 4 by lia. }
  assert (0 < 256 ^ Z.of_nat r) by (apply Z.pow_pos_nonneg; lia). unfold wrap.
  replace ((le_val y1 + 256 ^ Z.of_nat (length y1) * le_val y2) * 256 ^ Z.of_nat r)
    with (256 ^ Z.of_nat r * le_val y1 + le_val y2 * 2 ^ 32) by (rewrite <- Hp; ring).
  rewrite Z.mod_add by lia. apply Z.mod_small. nia.
Qed.

(** The word put together from the end of one word and the start of the next. *)
Lemma shifted_bytes r w1 w2 x1 x2 :
  length w1 = (4 - r)%nat -> length w2 = r -> length x1 = (4 - r)%nat -> length x2 = r ->
  (r <= 4)%nat -> Forall is_byte w1 -> Forall is_byte w2 -> Forall is_byte x1 ->
  le_list 4 (Z.lor (Z.shiftr (le_val (w1 ++ w2)) (8 * (4 - Z.of_nat r)))
                   (u32 (Z.shiftl (le_val (x1 ++ x2)) (8 * Z.of_nat r)))) = (w2 ++ x1)%list.
Proof.
  intros L1 L2 L3 L4 Hr B1 B2 B3.
  replace (8 * (4 - Z.of_nat r)) with (8 * Z.of_nat (length w1)) by lia.
  rewrite le_val_drop, (le_val_take r) by (done || lia).
  rewrite pow256, lor_low.
  - rewrite <- pow256, <- L2, <- le_val_app.
    replace 4%nat with (length (w2 ++ x1)) by (rewrite length_app; lia).
    apply le_list_val, Forall_app. done.
  - lia.
  - rewrite <- pow256, <- L2. by apply le_val_bound.
Qed.

Section copy.
Context (dest src : Z) (bs : list Z) (m0 : cmem).
Context (m_ok : bytes_ok m0) (at_src : bytes_at m0 src bs).
Context (at_dest : mapped (length bs) dest m0).

(** A copy upwards does not overwrite what is still to be read. *)
Context (up : dest <= src \/ src + Z.of_nat (length bs) <= dest).

Abbreviation N := (Z.of_nat (length bs)).

(** Memory when the first [j] bytes are copied. *)
Definition M (j : Z) : cmem := put_bytes dest (take (Z.to_nat j) bs) m0.

(** [w] bytes of the source from index [j]. *)
Definition sub (j : Z) (w : nat) : list Z := take w (drop (Z.to_nat j) bs).

Lemma sub_length j w : 0 <= j -> j + Z.of_nat w <= N -> length (sub j w) = w.
Proof. intros. unfold sub. rewrite length_take, length_drop. lia. Qed.

Lemma sub_bytes j w : Forall is_byte (sub j w).
Proof using m_ok at_src.
  unfold sub. apply Forall_take, Forall_drop. by eapply bytes_at_ok.
Qed.

Lemma sub_at j k w :
  0 <= j <= k -> k + Z.of_nat w <= N -> bytes_at (M j) (src + k) (sub k w).
Proof using at_src up.
  intros Hj Hk. unfold M. apply bytes_at_put_other.
  - rewrite <- (take_drop (Z.to_nat k) bs) in at_src.
    apply bytes_at_app in at_src as [_ H]. rewrite length_take in H.
    replace (src + Z.of_nat (Z.to_nat k `min` length bs)) with (src + k) in H by lia.
    rewrite <- (take_drop w (drop _ _)) in H. by apply bytes_at_app in H as [H _].
  - rewrite sub_length, length_take by lia. lia.
Qed.

Lemma M_mapped j w :
  0 <= j -> j + Z.of_nat w <= N -> forall k, mapped w (dest + j) (M k).
Proof using at_dest.
  intros Hj Hw k. apply mapped_put. intros x Hx. apply at_dest. lia.
Qed.

Lemma M_extend j w :
  0 <= j -> j + Z.of_nat w <= N -> put_bytes (dest + j) (sub j w) (M j) = M (j + Z.of_nat w).
Proof.
  intros Hj Hw. unfold M, sub.
  replace (dest + j) with (dest + Z.of_nat (length (take (Z.to_nat j) bs)))
    by (rewrite length_take; lia).
  rewrite put_bytes_snoc. f_equal.
  replace (Z.to_nat (j + Z.of_nat w)) with (Z.to_nat j + w)%nat by lia.
  apply take_take_drop.
Qed.

(** The state after [j] bytes. *)
Definition at_j (j : Z) : cp := mk_cp (dest + j) (src + j) (M j).

Lemma copy1_ok j : 0 <= j < N -> copy1 (at_j j) = Ok (at_j (j + 1)).
Proof using m_ok at_src at_dest up.
  intros Hj. unfold copy1, at_j. simpl.
  pose proof (sub_at j j 1 ltac:(lia) ltac:(lia)) as Hs.
  pose proof (sub_bytes j 1) as Hb. pose proof (M_extend j 1 ltac:(lia) ltac:(lia)) as HM.
  pose proof (sub_length j 1 ltac:(lia) ltac:(lia)) as Hl.
  destruct (sub j 1) as [|b [|]] eqn:Hsub; try done.
  apply bytes_at_cons in Hs as [Hs _]. rewrite (ld8_ok _ _ _ Hs). simpl.
  rewrite st8_put by (apply (M_mapped j 1); lia). simpl.
  apply Forall_cons_1 in Hb as [Hb _]. rewrite Z.mod_small by done. f_equal.
  f_equal; [lia|lia|exact HM].
Qed.

Lemma copies_ok k j :
  0 <= j -> j + Z.of_nat k <= N -> copies k (at_j j) = Ok (at_j (j + Z.of_nat k)).
Proof using m_ok at_src at_dest up.
  revert j. induction k as [|k IH]; intros j Hj Hk; cbn [copies].
  - by rewrite Z.add_0_r.
  - rewrite copy1_ok by lia. cbn [mbind result_bind]. rewrite IH by lia. do 2 f_equal. lia.
Qed.

(** A word, with the pointers still at [j]. *)
Lemma copy_word_ok w j off :
  (0 < w)%nat -> 0 <= j -> 0 <= off -> j + off + Z.of_nat w <= N ->
  (src + j + off) mod Z.of_nat w = 0 -> (dest + j + off) mod Z.of_nat w = 0 ->
  copy_word w off (mk_cp (dest + j) (src + j) (M (j + off))) =
  Ok (mk_cp (dest + j) (src + j) (M (j + off + Z.of_nat w))).
Proof using m_ok at_src at_dest up.
  intros Hw Hj Ho Hle Hs Hd. unfold copy_word. cbn [cp_s cp_d cp_m].
  rewrite (ldw_bytes_at w (sub (j + off) w)); cycle 1.
  { apply sub_length; lia. } { done. }
  { replace (src + j + off) with (src + (j + off)) by lia. apply sub_at; lia. }
  cbn [mbind result_bind]. rewrite stw_put; [|done|
    replace (dest + j + off) with (dest + (j + off)) by lia; apply M_mapped; lia].
  cbn [mbind result_bind]. do 2 f_equal.
  rewrite <- (sub_length (j + off) w) at 1 by lia. rewrite le_list_val by apply sub_bytes.
  replace (dest + j + off) with (dest + (j + off)) by lia. apply M_extend; lia.
Qed.

Lemma when_copies n b k j :
  0 <= j -> j + Z.of_nat k * Z.b2z (bit n b) <= N ->
  when (bit n b) (copies k) (at_j j) = Ok (at_j (j + Z.of_nat k * Z.b2z (bit n b))).
Proof using m_ok at_src at_dest up.
  intros Hj Hk. unfold when. destruct (bit n b); cbn [Z.b2z] in *.
  - rewrite copies_ok by lia. do 2 f_equal. lia.
  - do 2 f_equal. simpl. lia.
Qed.

(** *** Both pointers aligned *)

Lemma copy_word4 j off :
  0 <= j -> 0 <= off -> off mod 4 = 0 -> j + off + 4 <= N ->
  (src + j) mod 4 = 0 -> (dest + j) mod 4 = 0 ->
  copy_word 4 off (mk_cp (dest + j) (src + j) (M (j + off))) =
  Ok (mk_cp (dest + j) (src + j) (M (j + (off + 4)))).
Proof using m_ok at_src at_dest up.
  intros. rewrite copy_word_ok; [by rewrite Z.add_assoc|lia..| |]; apply mod_shift; (done || lia).
Qed.

Lemma memcpy_aligned_ok fuel j :
  0 <= j <= N -> (length bs < fuel)%nat -> (N - j = 0 \/ (src + j) mod 4 = 0) ->
  (dest + j) mod 4 = 0 ->
  memcpy_aligned fuel (at_j j) (N - j) = Ok (at_j N).
Proof using m_ok at_src at_dest up.
  intros Hj Hf Hs Hd. unfold memcpy_aligned.
  edestruct (while_rule (fun '(st, n) => Ok (16 <=? n)) (fun '(st, n) =>
      st ← copy_word 4 0 st; st ← copy_word 4 4 st;
      st ← copy_word 4 8 st; st ← copy_word 4 12 st; Ok (advance 16 st, n - 16))
    (fun '(st, n) => exists j, st = at_j j /\ n = N - j /\ 0 <= j <= N /\
       (N - j = 0 \/ (src + j) mod 4 = 0) /\ (dest + j) mod 4 = 0)
    (fun '(st, n) => Z.to_nat n) fuel) as ([st n] & -> & (j' & -> & -> & Hj' & Hs' & Hd') & Hc);
    [|by exists j|cbn; lia|].
  { intros [st n] (i & -> & -> & Hi & Hsi & Hdi). eexists; split; [done|]. intros Hn%Z.leb_le.
    destruct Hsi as [|Hsi]; [lia|]. unfold at_j.
    replace (M i) with (M (i + 0)) by (f_equal; lia). rewrite (copy_word4 i 0) by (done || lia).
    cbn [mbind result_bind]. change (0 + 4) with 4. rewrite (copy_word4 i 4) by (done || lia).
    cbn [mbind result_bind]. change (4 + 4) with 8. rewrite (copy_word4 i 8) by (done || lia).
    cbn [mbind result_bind]. change (8 + 4) with 12. rewrite (copy_word4 i 12) by (done || lia).
    cbn [mbind result_bind]. change (12 + 4) with 16. eexists; split; [done|]. split; [|lia]. exists (i + 16).
    unfold at_j, advance. cbn [cp_d cp_s cp_m]. split_and!; [f_equal; lia|lia..|right|];
      rewrite Z.add_assoc; by apply mod_shift. }
  cbn [mbind result_bind]. injection Hc as Hc%Z.leb_gt.
  pose proof (bits_sum (N - j') ltac:(lia)) as Hsum.
  rewrite (bit16_small (N - j')) in Hsum by lia. cbn [Z.b2z] in Hsum.
  remember (N - j') as n eqn:Hn.
  pose proof (b2z_bound (bit n 8)). pose proof (b2z_bound (bit n 4)).
  pose proof (b2z_bound (bit n 2)). pose proof (b2z_bound (bit n 1)).
  assert (exists i, when (bit n 8) (fun st => st ← copy_word 4 0 st; st ← copy_word 4 4 st;
                                 Ok (advance 8 st)) (at_j j') = Ok (at_j i) /\
            i = j' + 8 * Z.b2z (bit n 8) /\ (i = N \/ (src + i) mod 4 = 0) /\ (dest + i) mod 4 = 0)
    as (i & -> & Hi & Hsi & Hdi).
  { unfold when. destruct (bit n 8); cbn [Z.b2z] in *; [|exists j'; split_and!;
      [done|lia|destruct Hs'; [left; lia|by right]|done]].
    destruct Hs' as [|Hs']; [lia|]. unfold at_j at 1.
    replace (M j') with (M (j' + 0)) by (f_equal; lia). rewrite (copy_word4 j' 0) by (done || lia).
    cbn [mbind result_bind]. change (0 + 4) with 4. rewrite (copy_word4 j' 4) by (done || lia).
    cbn [mbind result_bind]. exists (j' + 8). unfold at_j, advance. cbn [cp_d cp_s cp_m].
    split_and!; [do 2 f_equal; lia|lia|right|]; rewrite Z.add_assoc; by apply mod_shift. }
  cbn [mbind result_bind].
  assert (when (bit n 4) (fun st => st ← copy_word 4 0 st; Ok (advance 4 st)) (at_j i) =
          Ok (at_j (i + 4 * Z.b2z (bit n 4)))) as ->.
  { unfold when. destruct (bit n 4); cbn [Z.b2z] in *; [|do 2 f_equal; lia].
    destruct Hsi as [|Hsi]; [lia|]. unfold at_j at 1.
    replace (M i) with (M (i + 0)) by (f_equal; lia). rewrite (copy_word4 i 0) by (done || lia).
    cbn [mbind result_bind]. unfold at_j, advance. cbn [cp_d cp_s cp_m]. do 2 f_equal; lia. }
  cbn [mbind result_bind].
  rewrite when_copies by lia. cbn [mbind result_bind]. rewrite when_copies by lia.
  do 2 f_equal. lia.
Qed.

(** *** The destination not aligned *)

Lemma sub_split j k w :
  0 <= j -> (k <= w)%nat -> sub j w = (sub j k ++ sub (j + Z.of_nat k) (w - k))%list.
Proof.
  intros Hj Hk. unfold sub. replace (Z.to_nat (j + Z.of_nat k)) with (Z.to_nat j + k)%nat by lia.
  rewrite <- drop_drop. replace w with (k + (w - k))%nat at 1 by lia. symmetry.
  apply take_take_drop.
Qed.

Section shifted.
Context (r : nat) (r_case : (1 <= r <= 3)%nat).
Abbreviation rz := (Z.of_nat r).

(** One word: [w] is the source word that ends at index [j + off + r]. *)
Lemma shift_word_ok j off :
  0 <= j -> 0 <= off -> off mod 4 = 0 -> 4 <= j + off + rz -> j + off + rz + 4 <= N ->
  (src + j + rz) mod 4 = 0 -> (dest + j) mod 4 = 0 ->
  shift_word (8 * (4 - rz)) (8 * rz) off (rz + off) (le_val (sub (j + off + rz - 4) 4))
    (mk_cp (dest + j) (src + j) (M (j + off))) =
  Ok (le_val (sub (j + off + rz) 4), mk_cp (dest + j) (src + j) (M (j + (off + 4)))).
Proof using m_ok at_src at_dest up r_case.
  intros Hj Ho Ho4 H4 Hle Hs Hd. unfold shift_word. cbn [cp_s cp_d cp_m].
  rewrite (ldw_bytes_at 4 (sub (j + off + rz) 4)); cycle 1.
  { apply sub_length; lia. }
  { replace (src + j + (rz + off)) with (src + j + rz + off) by lia. by apply mod_shift. }
  { replace (src + j + (rz + off)) with (src + (j + off + rz)) by lia. apply sub_at; lia. }
  cbn [mbind result_bind]. rewrite stw_put; [|by apply mod_shift|
    replace (dest + j + off) with (dest + (j + off)) by lia; apply M_mapped; lia].
  cbn [mbind result_bind]. do 3 f_equal.
  rewrite (sub_split (j + off + rz - 4) (4 - r) 4), (sub_split (j + off + rz) (4 - r) 4) by lia.
  replace (4 - (4 - r))%nat with r by lia.
  replace (j + off + rz - 4 + Z.of_nat (4 - r)) with (j + off) by lia.
  rewrite (shifted_bytes r) by (apply sub_bytes || rewrite ?sub_length by lia; lia).
  replace (j + off + rz) with (j + off + Z.of_nat r) by lia.
  rewrite <- (sub_split (j + off) r 4) by lia.
  replace (dest + j + off) with (dest + (j + off)) by lia.
  rewrite M_extend by lia. f_equal. lia.
Qed.

Lemma memcpy_shifted_ok fuel j :
  0 <= j -> 32 <= N - j -> (length bs < fuel)%nat -> (src + j) mod 4 = 0 ->
  (dest + j) mod 4 = rz ->
  exists i, memcpy_shifted rz fuel (at_j j) (N - j) = Ok (at_j i, N - i) /\
            j <= i <= N /\ N - i < 32.
Proof using m_ok at_src at_dest up r_case.
  intros Hj Hn Hf Hs Hd. unfold memcpy_shifted. cbn [cp_s cp_m at_j].
  rewrite (ldw_bytes_at 4 (sub j 4)) by (done || (apply sub_length; lia) || (apply sub_at; lia)).
  cbn [mbind result_bind]. fold (at_j j).
  replace (Z.to_nat (4 - rz)) with (4 - r)%nat by lia. rewrite copies_ok by lia.
  cbn [mbind result_bind].
  edestruct (while_rule (fun '(st, w, n) => Ok (16 + rz <=? n)) (fun '(st, w, n) =>
       '(w, st) ← shift_word (8 * (4 - rz)) (8 * rz) 0 rz w st;
       '(w, st) ← shift_word (8 * (4 - rz)) (8 * rz) 4 (rz + 4) w st;
       '(w, st) ← shift_word (8 * (4 - rz)) (8 * rz) 8 (rz + 8) w st;
       '(w, st) ← shift_word (8 * (4 - rz)) (8 * rz) 12 (rz + 12) w st;
       Ok (advance 16 st, w, n - 16))
    (fun '(st, w, n) => exists i, st = at_j i /\ w = le_val (sub (i + rz - 4) 4) /\ n = N - i /\
       j + (4 - rz) <= i <= N /\ (src + i + rz) mod 4 = 0 /\ (dest + i) mod 4 = 0)
    (fun '(st, w, n) => Z.to_nat n) fuel
    (at_j (j + Z.of_nat (4 - r)), le_val (sub j 4), N - j - (4 - rz)))
    as ([[st w] n] & Hw & (i & -> & -> & -> & Hi & _) & Hc); [| |cbn; lia|].
  - intros [[st w] n] (i & -> & -> & -> & Hi & Hsi & Hdi). eexists; split; [done|].
    intros Hle%Z.leb_le. unfold at_j.
    replace (M i) with (M (i + 0)) by (f_equal; lia).
    replace (sub (i + rz - 4) 4) with (sub (i + 0 + rz - 4) 4) by (f_equal; lia).
    replace (shift_word (8 * (4 - rz)) (8 * rz) 0 rz) with
      (shift_word (8 * (4 - rz)) (8 * rz) 0 (rz + 0)) by (f_equal; lia).
    rewrite shift_word_ok by (done || lia). cbn [mbind result_bind]. change (0 + 4) with 4.
    replace (i + 0 + rz) with (i + 4 + rz - 4) by lia.
    rewrite shift_word_ok by (done || lia). cbn [mbind result_bind]. change (4 + 4) with 8.
    replace (i + 4 + rz) with (i + 8 + rz - 4) by lia.
    rewrite shift_word_ok by (done || lia). cbn [mbind result_bind]. change (8 + 4) with 12.
    replace (i + 8 + rz) with (i + 12 + rz - 4) by lia.
    rewrite shift_word_ok by (done || lia). cbn [mbind result_bind]. change (12 + 4) with 16.
    eexists; split; [done|]. split; [|lia]. exists (i + 16). unfold at_j, advance.
    cbn [cp_d cp_s cp_m]. split_and!; [f_equal; lia|do 2 f_equal; lia|lia..| |].
    + replace (src + (i + 16) + rz) with (src + i + rz + 16) by lia. by apply mod_shift.
    + rewrite Z.add_assoc. by apply mod_shift.
  - exists (j + Z.of_nat (4 - r)). split_and!; [done|do 2 f_equal; lia|lia|lia|lia| |].
    + replace (src + (j + Z.of_nat (4 - r)) + rz) with (src + j + 4) by lia. by apply mod_shift.
    + replace (dest + (j + Z.of_nat (4 - r))) with (dest + j + (4 - rz)) by lia.
      rewrite <- Z.add_mod_idemp_l, Hd by lia. by replace (rz + (4 - rz)) with 4 by lia.
  - change (j + Z.of_nat (4 - r)) with (j + Z.of_nat (4 - r)) in Hw. rewrite Hw.
    cbn [mbind result_bind]. exists i. injection Hc as Hc%Z.leb_gt. split; [done|]. lia.
Qed.
End shifted.

(** *** The whole of memcpy *)

Lemma at_end : cp_m (at_j N) = put_bytes dest bs m0.
Proof. cbn. unfold M. by rewrite Nat2Z.id, firstn_all. Qed.

Lemma at_start : mk_cp dest src m0 = at_j 0.
Proof. unfold at_j, M. rewrite !Z.add_0_r. done. Qed.

(** A loop that copies byte by byte until [stop s] or the end. *)
Lemma byte_loop (stop : Z -> Z -> bool) fuel :
  (length bs < fuel)%nat ->
  forall j, 0 <= j <= N ->
  exists i, while (fun '(st, n) => Ok (negb (stop (cp_s st) (cp_d st)) && negb (n =? 0)))
              (fun '(st, n) => st ← copy1 st; Ok (st, n - 1)) fuel (at_j j, N - j) =
            Ok (at_j i, N - i) /\ j <= i <= N /\ (i = N \/ stop (src + i) (dest + i) = true).
Proof using m_ok at_src at_dest up.
  intros Hf j Hj.
  edestruct (while_rule (fun '(st, n) => Ok (negb (stop (cp_s st) (cp_d st)) && negb (n =? 0)))
    (fun '(st, n) => st ← copy1 st; Ok (st, n - 1))
    (fun '(st, n) => exists i, st = at_j i /\ n = N - i /\ j <= i <= N)
    (fun '(st, n) => Z.to_nat n) fuel (at_j j, N - j))
    as ([st n] & -> & (i & -> & -> & Hi) & Hc); [|exists j; split_and!; done || lia|cbn; lia|].
  - intros [st n] (i & -> & -> & Hi). eexists; split; [done|].
    intros [_ Hn%negb_true_iff%Z.eqb_neq]%andb_prop. rewrite copy1_ok by lia.
    eexists; split; [done|]. split; [|lia]. exists (i + 1). split_and!; [done|lia..].
  - exists i. split_and!; [done|lia..|]. injection Hc as Hc. cbn [at_j cp_s cp_d] in Hc.
    apply andb_false_iff in Hc as [Hc%negb_false_iff|Hc%negb_false_iff%Z.eqb_eq];
      [by right|left; lia].
Qed.

Lemma memcpy_ok fuel :
  (length bs < fuel)%nat -> memcpy fuel dest src N m0 = Ok (dest, put_bytes dest bs m0).
Proof using m_ok at_src at_dest up.
  intros Hf. unfold memcpy. rewrite at_start. replace N with (N - 0) at 1 by lia.
  destruct (byte_loop (fun s _ => s mod 4 =? 0) fuel Hf 0 ltac:(lia)) as (i & -> & Hi & Hstop).
  cbn [mbind result_bind at_j cp_d]. fold (at_j i).
  destruct (Z.eqb_spec ((dest + i) mod 4) 0) as [Hd|Hd].
  { rewrite memcpy_aligned_ok; [|lia|done| |done];
      [cbn [mbind result_bind]; by rewrite at_end|].
    destruct Hstop as [|Hs%Z.eqb_eq]; [left; lia|by right]. }
  assert (exists k, (if 32 <=? N - i then memcpy_shifted ((dest + i) mod 4) fuel (at_j i) (N - i)
             else Ok (at_j i, N - i)) = Ok (at_j k, N - k) /\ i <= k <= N /\ N - k < 32)
    as (k & -> & Hk & Hlt).
  { destruct (Z.leb_spec 32 (N - i)); [|exists i; split_and!; done || lia].
    destruct Hstop as [|Hs%Z.eqb_eq]; [lia|].
    pose proof (Z.mod_pos_bound (dest + i) 4 ltac:(lia)).
    rewrite <- (Z2Nat.id ((dest + i) mod 4)) by lia.
    apply memcpy_shifted_ok; (done || lia). }
  cbn [mbind result_bind].
  pose proof (bits_sum (N - k) ltac:(lia)) as Hsum. remember (N - k) as n eqn:Hn.
  pose proof (b2z_bound (bit n 16)). pose proof (b2z_bound (bit n 8)).
  pose proof (b2z_bound (bit n 4)). pose proof (b2z_bound (bit n 2)).
  pose proof (b2z_bound (bit n 1)).
  do 5 (rewrite when_copies by lia; cbn [mbind result_bind]).
  do 2 f_equal. rewrite <- at_end. do 2 f_equal. lia.
Qed.

(** *** memmove upwards *)

Lemma bytes_to_end fuel j :
  0 <= j <= N -> (length bs < fuel)%nat ->
  ('(st, n) ← while (fun '(st, n) => Ok (negb (n =? 0)))
                (fun '(st, n) => st ← copy1 st; Ok (st, n - 1)) fuel (at_j j, N - j);
   Ok (dest, cp_m st)) = Ok (dest, put_bytes dest bs m0).
Proof using m_ok at_src at_dest up.
  intros Hj Hf. destruct (byte_loop (fun _ _ => false) fuel Hf j Hj) as (i & Hw & Hi & Hs).
  cbn [negb andb] in Hw. rewrite Hw. cbn [mbind result_bind].
  destruct Hs as [->|]; [by rewrite at_end|done].
Qed.

Lemma memmove_up_ok fuel :
  (length bs < fuel)%nat -> memmove_up fuel dest src N m0 = Ok (dest, put_bytes dest bs m0).
Proof using m_ok at_src at_dest up.
  intros Hf. unfold memmove_up. rewrite at_start.
  destruct (Z.eqb_spec (src mod WS) (dest mod WS)) as [Heq|]; 
    [|by rewrite <- (Z.sub_0_r N); apply bytes_to_end; lia].
  edestruct (loop_rule (fun '(st, n) => Ok (negb (cp_d st mod WS =? 0)))
          (fun '(st, n) =>
             if n =? 0 then Ok (inr (cp_m st))
             else st ← copy1 st; Ok (inl (st, n - 1)))
     (fun '(st, n) => exists j, st = at_j j /\ n = N - j /\ 0 <= j <= N)
     (fun m => m = put_bytes dest bs m0)
     (fun '(st, n) => Z.to_nat n) fuel (at_j 0, N)) as (o & -> & Ho);
     [|exists 0; split_and!; done || lia|cbn; lia|].
  { intros [st n] (j & -> & -> & Hj). eexists; split; [done|]. intros _.
    destruct (Z.eqb_spec (N - j) 0).
    - eexists; split; [done|]. rewrite <- at_end. do 2 f_equal. lia.
    - rewrite copy1_ok by lia. eexists; split; [done|]. split; [|lia].
      exists (j + 1). split_and!; [done|lia..]. }
  cbn [mbind result_bind]. destruct o as [[st n]|m]; [|by subst].
  destruct Ho as [(j & -> & -> & Hj) Hc]. injection Hc as Hd%negb_false_iff%Z.eqb_eq.
  cbn [at_j cp_d] in Hd.
  assert ((src + j) mod WS = 0) as Hs.
  { rewrite <- Z.add_mod_idemp_l, Heq, Z.add_mod_idemp_l by done. done. }
  edestruct (while_rule (fun '(st, n) => Ok (WS <=? n))
    (fun '(st, n) => st ← copy_word 8 0 st; Ok (advance WS st, n - WS))
    (fun '(st, n) => exists i, st = at_j i /\ n = N - i /\ 0 <= i <= N /\
       (src + i) mod WS = 0 /\ (dest + i) mod WS = 0)
    (fun '(st, n) => Z.to_nat n) fuel (at_j j, N - j))
    as ([st n] & -> & (i & -> & -> & Hi & _) & _); [|by exists j|cbn; lia|].
  - intros [st n] (i & -> & -> & Hi & Hsi & Hdi). eexists; split; [done|].
    unfold WS in *. intros Hle%Z.leb_le. unfold at_j.
    replace (M i) with (M (i + 0)) by (f_equal; lia).
    rewrite copy_word_ok by (rewrite ?Z.add_0_r; done || lia). cbn [mbind result_bind].
    eexists; split; [done|]. split; [|lia]. exists (i + 8). unfold at_j, advance.
    cbn [cp_d cp_s cp_m]. split_and!; [f_equal; try lia; f_equal; lia|lia..| |];
      rewrite Z.add_assoc, <- Z.add_mod_idemp_l by lia; by rewrite ?Hsi, ?Hdi.
  - cbn [mbind result_bind]. apply bytes_to_end; lia.
Qed.
End copy.

(** *** memmove downwards *)

Section down.
Context (dest src : Z) (bs : list Z) (m0 : cmem).
Context (m_ok : bytes_ok m0) (at_src : bytes_at m0 src bs)
  (at_dest : mapped (length bs) dest m0) (below : src < dest).
Abbreviation N := (Z.of_nat (length bs)).

(** What is left to copy is the first [n] bytes. *)
Definition D (n : Z) : cmem := put_bytes (dest + n) (drop (Z.to_nat n) bs) m0.

Lemma D_start : D N = m0.
Proof. unfold D. by rewrite Nat2Z.id, drop_all. Qed.

Lemma D_end : D 0 = put_bytes dest bs m0.
Proof. unfold D. by rewrite Z.add_0_r. Qed.

Lemma D_at n k w :
  0 <= k -> k + Z.of_nat w <= n -> n <= N -> bytes_at (D n) (src + k) (sub bs k w).
Proof using at_src below.
  intros Hk Hw Hn. apply bytes_at_put_other.
  - rewrite <- (take_drop (Z.to_nat k) bs) in at_src.
    apply bytes_at_app in at_src as [_ H]. rewrite length_take in H.
    replace (src + Z.of_nat (Z.to_nat k `min` length bs)) with (src + k) in H by lia.
    rewrite <- (take_drop w (drop _ _)) in H. by apply bytes_at_app in H as [H _].
  - rewrite sub_length by lia. lia.
Qed.

Lemma D_mapped k w n : 0 <= k -> k + Z.of_nat w <= N -> mapped w (dest + k) (D n).
Proof using at_dest. intros Hk Hw. apply mapped_put. intros x Hx. apply at_dest. lia. Qed.

Lemma D_extend n w :
  Z.of_nat w <= n <= N ->
  put_bytes (dest + (n - Z.of_nat w)) (sub bs (n - Z.of_nat w) w) (D n) = D (n - Z.of_nat w).
Proof.
  intros Hn. unfold D. rewrite <- (take_drop w (drop (Z.to_nat (n - Z.of_nat w)) bs)).
  rewrite put_bytes_app, drop_drop, length_take, length_drop.
  unfold sub. do 2 f_equal; [lia|f_equal; lia].
Qed.

Lemma put1_ok n : 0 < n <= N -> put1 dest src (n - 1) (D n) = Ok (D (n - 1)).
Proof using m_ok at_src at_dest below.
  intros Hn. unfold put1. pose proof (D_at n (n - 1) 1 ltac:(lia) ltac:(lia) ltac:(lia)) as Hs.
  pose proof (sub_bytes src bs m0 m_ok at_src (n - 1) 1) as Hb.
  pose proof (D_extend n 1 ltac:(lia)) as HD. change (Z.of_nat 1) with 1 in HD.
  pose proof (sub_length bs (n - 1) 1 ltac:(lia) ltac:(lia)) as Hl.
  destruct (sub bs (n - 1) 1) as [|b [|]]; try done.
  apply bytes_at_cons in Hs as [Hs _]. rewrite (ld8_ok _ _ _ Hs). cbn [mbind result_bind].
  rewrite st8_put by (apply (D_mapped (n - 1) 1); lia).
  apply Forall_cons_1 in Hb as [Hb _]. rewrite Z.mod_small by done. by rewrite HD.
Qed.

Lemma put_word_ok n :
  8 <= n <= N -> (src + n) mod 8 = 0 -> (dest + n) mod 8 = 0 ->
  put_word dest src (n - 8) (D n) = Ok (D (n - 8)).
Proof using m_ok at_src at_dest below.
  intros Hn Hs Hd. unfold put_word. change 8 with (Z.of_nat 8) at 1 3.
  rewrite (ldw_bytes_at 8 (sub bs (n - Z.of_nat 8) 8)); cycle 1.
  { apply sub_length; lia. }
  { change (Z.of_nat 8) with 8. replace (src + (n - 8)) with (src + n + (-1) * 8) by lia.
    by rewrite Z.mod_add. }
  { apply D_at; lia. }
  cbn [mbind result_bind]. rewrite stw_put; cycle 1.
  { change (Z.of_nat 8) with 8. replace (dest + (n - 8)) with (dest + n + (-1) * 8) by lia.
    by rewrite Z.mod_add. }
  { apply D_mapped; lia. }
  pose proof (le_list_val (sub bs (n - Z.of_nat 8) 8)) as Hl.
  rewrite sub_length in Hl by lia. rewrite Hl by by eapply sub_bytes. by rewrite D_extend by lia.
Qed.

Lemma down_bytes fuel n :
  0 <= n <= N -> (length bs < fuel)%nat ->
  ('(n, m) ← while (fun '(n, m) => Ok (negb (n =? 0)))
               (fun '(n, m) => m ← put1 dest src (n - 1) m; Ok (n - 1, m)) fuel (n, D n);
   Ok (dest, m)) = Ok (dest, put_bytes dest bs m0).
Proof using m_ok at_src at_dest below.
  intros Hn Hf.
  edestruct (while_rule (fun '(n, m) => Ok (negb (n =? 0)))
    (fun '(n, m) => m ← put1 dest src (n - 1) m; Ok (n - 1, m))
    (fun '(n, m) => m = D n /\ 0 <= n <= N) (fun '(n, m) => Z.to_nat n) fuel (n, D n))
    as ([k m] & -> & [-> Hk] & Hc); [|split; done || lia|cbn; lia|].
  - intros [k m] [-> Hk]. eexists; split; [done|]. intros Hk0%negb_true_iff%Z.eqb_neq.
    rewrite put1_ok by lia. eexists; split; [done|]. split_and!; [done|lia..].
  - cbn [mbind result_bind]. injection Hc as ->%negb_false_iff%Z.eqb_eq. by rewrite D_end.
Qed.

Lemma memmove_down_ok fuel :
  (length bs < fuel)%nat -> memmove_down fuel dest src N m0 = Ok (dest, put_bytes dest bs m0).
Proof using m_ok at_src at_dest below.
  intros Hf. unfold memmove_down. rewrite <- D_start.
  destruct (Z.eqb_spec (src mod WS) (dest mod WS)) as [Heq|]; [|by rewrite down_bytes, D_start by lia].
  edestruct (loop_rule (fun '(n, m) => Ok (negb ((dest + n) mod WS =? 0)))
      (fun '(n, m) => if n =? 0 then Ok (inr m)
                      else m ← put1 dest src (n - 1) m; Ok (inl (n - 1, m)))
      (fun '(n, m) => m = D n /\ 0 <= n <= N) (fun m => m = put_bytes dest bs m0)
      (fun '(n, m) => Z.to_nat n) fuel (N, D N)) as (o & -> & Ho);
     [|split; done || lia|cbn; lia|].
  { intros [n m] [-> Hn]. eexists; split; [done|]. intros _. destruct (Z.eqb_spec n 0) as [->|].
    - eexists; split; [done|]. by rewrite D_end.
    - rewrite put1_ok by lia. eexists; split; [done|]. split_and!; [done|lia..]. }
  cbn [mbind result_bind]. rewrite D_start. destruct o as [[n m]|m]; [|by subst].
  destruct Ho as [[-> Hn] Hc]. injection Hc as Hd%negb_false_iff%Z.eqb_eq.
  assert ((src + n) mod WS = 0) as Hs.
  { rewrite <- Z.add_mod_idemp_l, Heq, Z.add_mod_idemp_l by done. done. }
  edestruct (while_rule (fun '(n, m) => Ok (WS <=? n))
    (fun '(n, m) => m ← put_word dest src (n - WS) m; Ok (n - WS, m))
    (fun '(n, m) => m = D n /\ 0 <= n <= N /\ (src + n) mod WS = 0 /\ (dest + n) mod WS = 0)
    (fun '(n, m) => Z.to_nat n) fuel (n, D n))
    as ([k m] & -> & (-> & Hk & _) & _); [|done|cbn; lia|].
  - intros [k m] (-> & Hk & Hsk & Hdk). eexists; split; [done|]. unfold WS in *.
    intros Hle%Z.leb_le. rewrite put_word_ok by (done || lia). eexists; split; [done|].
    split; [|lia]. split_and!; [done|lia..| |].
    + replace (src + (k - 8)) with (src + k + (-1) * 8) by lia. by rewrite Z.mod_add.
    + replace (dest + (k - 8)) with (dest + k + (-1) * 8) by lia. by rewrite Z.mod_add.
  - cbn [mbind result_bind]. by apply down_bytes; [lia|].
Qed.
End down.

(** *** memmove *)

(** When the test of [memmove] passes, the regions do not overlap. *)
Lemma memmove_test dest src n :
  0 <= dest -> 0 <= src -> 0 <= n < 2 ^ 63 -> dest + n <= 2 ^ 64 -> src + n <= 2 ^ 64 ->
  u64 (src - dest - n) <= u64 (-2 * n) -> dest <= src \/ src + n <= dest.
Proof.
  unfold wrap. intros. destruct (decide (dest <= src)) as [|Hlt]; [by left|]. right.
  destruct (decide (n = 0)) as [->|]; [lia|].
  Z.to_euclidean_division_equations. nia.
Qed.

Lemma memmove_ok fuel dest src bs m :
  let n := Z.of_nat (length bs) in
  bytes_ok m -> bytes_at m src bs -> mapped (length bs) dest m ->
  0 <= dest -> 0 <= src -> n < 2 ^ 63 -> dest + n <= 2 ^ 64 -> src + n <= 2 ^ 64 ->
  (length bs < fuel)%nat ->
  memmove fuel dest src n m = Ok (dest, put_bytes dest bs m).
Proof.
  intros n Hm Hs Hd H0d H0s Hn Hde Hse Hf. unfold memmove.
  destruct (Z.eqb_spec dest src) as [->|Hne].
  { do 2 f_equal. symmetry. by apply put_bytes_same. }
  destruct (Z.leb_spec (u64 (src - dest - n)) (u64 (-2 * n))).
  - apply memcpy_ok; try done. apply memmove_test; lia || done.
  - destruct (Z.ltb_spec dest src).
    + apply memmove_up_ok; done || lia.
    + apply memmove_down_ok; done || lia.
Qed.

(** ** Filling *)

(** [m'] is [m] with the byte [c] at the addresses of [P]. *)
Definition painted (c : Z) (m : cmem) (P : Z -> Prop) (m' : cmem) : Prop :=
  forall x, (P x -> m' !! x = Some c) /\ (~ P x -> m' !! x = m !! x).

(** The addresses [poke] writes. *)
Fixpoint covers (w : nat) (s : Z) (offs : list Z) (x : Z) : Prop :=
  match offs with
  | [] => False
  | o :: offs => s + o <= x < s + o + Z.of_nat w \/ covers w s offs x
  end.

Lemma poke_ok w c v m lo hi s offs : forall m' (P : Z -> Prop),
  le_list w v = replicate w c ->
  (forall x, lo <= x < hi -> is_Some (m !! x)) ->
  Forall (fun o => lo <= s + o /\ s + o + Z.of_nat w <= hi /\ (s + o) mod Z.of_nat w = 0) offs ->
  painted c m P m' ->
  exists m'', poke w s v offs m' = Ok m'' /\ painted c m (fun x => P x \/ covers w s offs x) m''.
Proof.
  induction offs as [|o offs IH]; intros m' P Hv Hmap Hall HP; simpl.
  { exists m'. split; [done|]. intros x. destruct (HP x). split; [intros [?|[]]; auto|auto]. }
  apply Forall_cons in Hall as [(Hlo & Hhi & Hal) Hall].
  rewrite stw_put; [|done|]; cycle 1.
  { intros x Hx. destruct (Hmap x) as [b Hb]; [lia|]. destruct (HP x) as [H1 H2].
    destruct (m' !! x) eqn:E; [by eexists|]. exfalso.
    assert (~ P x) as Hn by (intros Hp%H1; congruence).
    specialize (H2 Hn). by rewrite Hb in H2. }
  cbn [mbind result_bind]. rewrite Hv.
  destruct (IH (put_bytes (s + o) (replicate w c) m')
              (fun x => P x \/ s + o <= x < s + o + Z.of_nat w)) as (m'' & -> & Hm''); [done..| |].
  - intros x. destruct (HP x) as [H1 H2]. rewrite lookup_put_bytes, length_replicate. split.
    + intros Hx. case_decide as Hc; [apply lookup_replicate_2; lia|]. apply H1. by destruct Hx.
    + intros Hx. rewrite decide_False by tauto. apply H2. tauto.
  - exists m''. split; [done|]. intros x. destruct (Hm'' x) as [H1 H2]. split; intros; [apply H1|apply H2]; tauto.
Qed.

(** The values stored are [c] in each byte. *)
Lemma fill1 c : le_list 1 c = replicate 1 (c mod 256).
Proof. done. Qed.

Lemma fill4 c : 0 <= c < 256 -> le_list 4 (u32 (4294967295 / 255 * c)) = replicate 4 c.
Proof.
  intros Hc. change (4294967295 / 255) with 16843009. unfold wrap. rewrite Z.mod_small by lia.
  change 4%nat with (length (replicate 4 c)) at 1. rewrite <- (le_list_val (replicate 4 c)).
  - do 2 f_equal. cbn. lia.
  - repeat constructor; lia.
Qed.

Lemma fill8 c :
  0 <= c < 256 ->
  let c32 := u32 (4294967295 / 255 * c) in
  le_list 8 (Z.lor c32 (u64 (Z.shiftl c32 32))) = replicate 8 c.
Proof.
  intros Hc c32. assert (c32 = 16843009 * c) as ->.
  { unfold c32. change (4294967295 / 255) with 16843009. apply Z.mod_small. lia. }
  unfold wrap. rewrite Z.shiftl_mul_pow2, (Z.mod_small (_ * 2 ^ 32)) by lia.
  rewrite (Z.mul_comm _ (2 ^ 32)), (lor_low 32) by lia.
  change 8%nat with (length (replicate 8 c)) at 1. rewrite <- (le_list_val (replicate 8 c)).
  - do 2 f_equal. cbn. lia.
  - repeat constructor; lia.
Qed.

(** The masks. *)
Lemma land_3 s : Z.land (u64 (- s)) 3 = (- s) mod 4.
Proof.
  change 3 with (Z.ones 2). rewrite Z.land_ones by lia. unfold wrap.
  change (2 ^ 64) with (2 ^ 2 * 2 ^ 62). change (2 ^ 2) with 4.
  Z.to_euclidean_division_equations. lia.
Qed.

Lemma land_4 s : Z.land s 4 = 4 * ((s / 4) mod 2).
Proof.
  apply Z.bits_inj'. intros i Hi. rewrite Z.land_spec.
  replace (4 * _) with (Z.shiftl (Z.land (Z.shiftr s 2) (Z.ones 1)) 2)
    by (rewrite Z.shiftl_mul_pow2, Z.land_ones, Z.shiftr_div_pow2 by lia; apply Z.mul_comm).
  rewrite Z.shiftl_spec, Z.land_spec by done. change 4 with (2 ^ 2).
  rewrite Z.pow2_bits_eqb by lia.
  destruct (decide (i < 2)).
  - rewrite (Z.testbit_neg_r (Z.shiftr _ _)) by lia. destruct (Z.eqb_spec 2 i); [lia|].
    by rewrite andb_false_r.
  - rewrite Z.shiftr_spec by lia. replace (i - 2 + 2) with i by lia. f_equal.
    destruct (Z.eqb_spec 2 i) as [<-|]; [done|].
    symmetry. rewrite Z.testbit_ones_nonneg by lia. apply Z.ltb_ge. lia.
Qed.

Lemma land_m4 n : 0 <= n < 2 ^ 64 -> Z.land n (u64 (-4)) = 4 * (n / 4).
Proof.
  intros Hn. change (u64 (-4)) with (Z.shiftl (Z.ones 62) 2).
  replace (4 * (n / 4)) with (Z.shiftl (Z.shiftr n 2) 2)
    by (rewrite Z.shiftl_mul_pow2, Z.shiftr_div_pow2 by lia; apply Z.mul_comm).
  apply Z.bits_inj'. intros i Hi. rewrite Z.land_spec, !Z.shiftl_spec by lia.
  destruct (decide (i < 2)).
  - rewrite !(Z.testbit_neg_r _ (i - 2)) by lia. apply andb_false_r.
  - rewrite Z.shiftr_spec, Z.testbit_ones_nonneg by lia. replace (i - 2 + 2) with i by lia.
    destruct (Z.ltb_spec (i - 2) 62); [apply andb_true_r|].
    rewrite andb_false_r. symmetry. rewrite <- (Z.mod_small n (2 ^ 64)) by lia.
    apply Z.mod_pow2_bits_high. lia.
Qed.

Lemma painted_iff c m P Q m' : (forall x, P x <-> Q x) -> painted c m P m' -> painted c m Q m'.
Proof. intros HPQ H x. rewrite <- HPQ. apply H. Qed.

(** The bounds and alignment of a list of offsets. *)
Ltac offsets :=
  cbn [Z.of_nat Pos.of_succ_nat Pos.succ];
  repeat first [apply Forall_nil_2
               |apply Forall_cons_2; [split_and!; [lia..|Z.to_euclidean_division_equations; lia]|]].
Ltac covered :=
  intros x; cbn [covers]; rewrite ?Logic.or_assoc; apply or_iff_compat_l; lia.

Section fill.
Context (c lo hi : Z) (m : cmem).
Context (is_mapped : forall x, lo <= x < hi -> is_Some (m !! x)).
Context (c_byte : 0 <= c < 256).
Abbreviation c32 := (u32 (4294967295 / 255 * c)).
Abbreviation c64 := (Z.lor c32 (u64 (Z.shiftl c32 32))).

(** Stores that widen what is filled from [P] to [Q]. *)
Lemma fill_ok {P m'} (HP : painted c m P m') (Q : Z -> Prop) w v s offs :
  le_list w v = replicate w c ->
  Forall (fun o => lo <= s + o /\ s + o + Z.of_nat w <= hi /\ (s + o) mod Z.of_nat w = 0) offs ->
  (forall x, P x \/ covers w s offs x <-> Q x) ->
  exists m'', poke w s v offs m' = Ok m'' /\ painted c m Q m''.
Proof using is_mapped.
  intros Hv Hall HQ. destruct (poke_ok w c v m lo hi s offs m' P Hv is_mapped Hall HP)
    as (m'' & Hp & H). exists m''. split; [done|]. by apply (painted_iff c m _ Q m'' HQ).
Qed.

Lemma memset_loop_ok fuel s n m' P :
  s mod 8 = 0 -> lo <= s -> 0 <= n -> s + n <= hi -> (Z.to_nat n < fuel)%nat ->
  painted c m P m' ->
  exists m'', memset_loop fuel c64 s n m' = Ok m'' /\
    painted c m (fun x => P x \/ s <= x < s + 32 * (n / 32)) m''.
Proof using is_mapped c_byte.
  intros Hs Hlo Hn Hhi Hf HP. unfold memset_loop.
  edestruct (while_rule (fun '(s, n, m) => Ok (32 <=? n))
    (fun '(s, n, m) => m ← poke 8 s c64 [0; 8; 16; 24] m; Ok (s + 32, n - 32, m))
    (fun '(t, k, m') => t mod 8 = 0 /\ s <= t /\ 0 <= k /\ t + k = s + n /\
       (n - k) mod 32 = 0 /\ painted c m (fun x => P x \/ s <= x < t) m')
    (fun '(t, k, m') => Z.to_nat k) fuel (s, n, m'))
    as ([[t k] m''] & -> & (Ht & Hst & Hk & Htk & Hmod & HP') & Hc); [| |cbn; lia|].
  - intros [[t k] m''] (Ht & Hst & Hk & Htk & Hmod & HP'). eexists; split; [done|].
    intros Hle%Z.leb_le.
    destruct (fill_ok HP' (fun x => P x \/ s <= x < t + 32) 8 c64 t [0; 8; 16; 24]
                (fill8 c c_byte)) as (m3 & -> & H3); [offsets|covered|].
    eexists; split; [done|]. split; [|lia]. split_and!; [|lia..| |].
    + Z.to_euclidean_division_equations; lia.
    + Z.to_euclidean_division_equations; lia.
    + exact H3.
  - split_and!; [done|lia..| |]; [by rewrite Z.sub_diag|].
    eapply painted_iff; [|exact HP]. intros x. split; [tauto|]. intros [|]; [done|lia].
  - cbn [mbind result_bind]. exists m''. split; [done|]. injection Hc as Hc%Z.leb_gt.
    eapply painted_iff; [|exact HP']. intros x.
    assert (t = s + 32 * (n / 32)) as ->; [|tauto]. Z.to_euclidean_division_equations; lia.
Qed.

Lemma memset_words_ok fuel s n m' P :
  s mod 4 = 0 -> n mod 4 = 0 -> lo <= s -> 4 <= n -> s + n <= hi -> (Z.to_nat n < fuel)%nat ->
  painted c m P m' ->
  exists m'', memset_words fuel c s n m' = Ok m'' /\
    painted c m (fun x => P x \/ s <= x < s + n) m''.
Proof using is_mapped c_byte.
  intros Hs Hn4 Hlo Hn Hhi Hf HP. unfold memset_words.
  replace (u8 c) with c by (symmetry; by apply Z.mod_small).
  destruct (fill_ok HP (fun x => P x \/ s <= x < s + 4 \/ s + n - 4 <= x < s + n) 4 c32 s [0; n - 4]
              (fill4 c c_byte)) as (m1 & -> & H1); [offsets|covered|].
  cbn [mbind result_bind]. destruct (Z.leb_spec n 8) as [Hn8|Hn8].
  { exists m1. split; [done|]. eapply painted_iff; [|exact H1]. covered. }
  assert (12 <= n) as Hn12 by (Z.to_euclidean_division_equations; lia).
  destruct (fill_ok H1 (fun x => P x \/ s <= x < s + 12 \/ s + n - 12 <= x < s + n) 4 c32 s
     [4; 8; n - 12; n - 8] (fill4 c c_byte)) as (m2 & -> & H2); [offsets|covered|].
  cbn [mbind result_bind]. destruct (Z.leb_spec n 24) as [Hn24|Hn24].
  { exists m2. split; [done|]. eapply painted_iff; [|exact H2]. covered. }
  assert (28 <= n) as Hn28 by (Z.to_euclidean_division_equations; lia).
  destruct (fill_ok H2 (fun x => P x \/ s <= x < s + 28 \/ s + n - 28 <= x < s + n) 4 c32 s
     [12; 16; 20; 24; n - 28; n - 24; n - 20; n - 16] (fill4 c c_byte))
    as (m3 & -> & H3); [offsets|covered|].
  cbn [mbind result_bind]. rewrite land_4.
  pose proof (Z.mod_pos_bound (s / 4) 2 ltac:(lia)) as Hb.
  edestruct (memset_loop_ok fuel (s + (24 + 4 * ((s / 4) mod 2))) (n - (24 + 4 * ((s / 4) mod 2)))
    m3) as (m4 & -> & H4); [|lia|lia|lia|lia|exact H3|].
  { Z.to_euclidean_division_equations; lia. }
  exists m4. split; [done|]. eapply painted_iff; [|exact H4]. intros x. cbn beta.
  remember (24 + 4 * ((s / 4) mod 2)) as k eqn:Hk.
  assert (n - k - 28 <= 32 * ((n - k) / 32) <= n - k) as Hr; [|rewrite Logic.or_assoc; apply or_iff_compat_l; lia].
  assert (k mod 4 = 0) by (subst k; Z.to_euclidean_division_equations; lia).
  Z.to_euclidean_division_equations; lia.
Qed.
End fill.

Lemma memset_ok fuel dest c n m :
  mapped (Z.to_nat n) dest m -> 0 <= n < 2 ^ 64 -> (Z.to_nat n < fuel)%nat ->
  exists m', memset fuel dest c n m = Ok (dest, m') /\
    painted (c mod 256) m (fun x => dest <= x < dest + n) m'.
Proof.
  intros Hd Hn Hf. unfold memset. destruct (Z.eqb_spec n 0) as [->|Hn0].
  { exists m. split; [done|]. intros x. split; [lia|done]. }
  assert (forall x, dest <= x < dest + n -> is_Some (m !! x)) as Hmap.
  { intros x Hx. apply Hd. lia. }
  assert (painted (c mod 256) m (fun _ => False) m) as H0 by (intros x; by split).
  destruct (fill_ok _ _ _ _ Hmap H0 (fun x => x = dest \/ x = dest + n - 1) 1 c dest [0; n - 1]
              (fill1 c)) as (m1 & -> & H1); [offsets|intros x; cbn [covers]; lia|].
  cbn [mbind result_bind]. destruct (Z.leb_spec n 2) as [Hn2|Hn2].
  { exists m1. split; [done|]. eapply painted_iff; [|exact H1]. intros x; cbn [covers]; lia. }
  destruct (fill_ok _ _ _ _ Hmap H1 (fun x => dest <= x < dest + 3 \/ dest + n - 3 <= x < dest + n)
     1 c dest [1; 2; n - 2; n - 3] (fill1 c)) as (m2 & -> & H2);
     [offsets|intros x; cbn [covers]; lia|].
  cbn [mbind result_bind]. destruct (Z.leb_spec n 6) as [Hn6|Hn6].
  { exists m2. split; [done|]. eapply painted_iff; [|exact H2]. intros x; cbn [covers]; lia. }
  destruct (fill_ok _ _ _ _ Hmap H2 (fun x => dest <= x < dest + 4 \/ dest + n - 4 <= x < dest + n)
     1 c dest [3; n - 4] (fill1 c)) as (m3 & -> & H3); [offsets|intros x; cbn [covers]; lia|].
  cbn [mbind result_bind]. destruct (Z.leb_spec n 8) as [Hn8|Hn8].
  { exists m3. split; [done|]. eapply painted_iff; [|exact H3]. intros x; cbn [covers]; lia. }
  rewrite land_3. pose proof (Z.mod_pos_bound (- dest) 4 ltac:(lia)) as Hk.
  remember ((- dest) mod 4) as k eqn:Ek. rewrite land_m4 by lia.
  assert (memset_words fuel c (dest + k) (4 * ((n - k) / 4)) m3 =
          memset_words fuel (c mod 256) (dest + k) (4 * ((n - k) / 4)) m3) as ->.
  { unfold memset_words, wrap. by rewrite Zmod_mod. }
  assert (n - k - 3 <= 4 * ((n - k) / 4) <= n - k) as Hr by (Z.to_euclidean_division_equations; lia).
  edestruct (memset_words_ok (c mod 256) dest (dest + n) m Hmap (Z.mod_pos_bound c 256 ltac:(lia))
    fuel (dest + k) (4 * ((n - k) / 4)) m3) as (m4 & -> & H4); [| |lia|lia|lia|lia|exact H3|].
  - rewrite Ek. Z.to_euclidean_division_equations; lia.
  - rewrite Z.mul_comm. by apply Z.mod_mul.
  - exists m4. split; [done|]. eapply painted_iff; [|exact H4]. intros x; cbn beta; lia.
Qed.

(** ** What the functions do *)

(** [m'] is [m] with [bs] at [dest] and nothing else changed. *)
Definition copied (m : cmem) (dest : Z) (bs : list Z) (m' : cmem) : Prop :=
  bytes_at m' dest bs /\
  forall x, ~ (dest <= x < dest + Z.of_nat (length bs)) -> m' !! x = m !! x.

Lemma copied_put m dest bs : copied m dest bs (put_bytes dest bs m).
Proof.
  split; [apply bytes_at_put|]. intros x Hx. by rewrite lookup_put_bytes, decide_False.
Qed.

(** C37: copying [n] mapped bytes, however the source and the destination are
    aligned, terminates and leaves the source's old bytes at the destination
    and every other byte as it was: [memmove] and [bcopy] for any overlap (by
    bytes or words, upwards or downwards, or through [memcpy] when the test on
    wrapped addresses passes), [memcpy] and [mempcpy] when the destination
    does not start inside the source. *)
Theorem mem_copy_spec fuel dest src bs m :
  let n := Z.of_nat (length bs) in
  bytes_ok m -> bytes_at m src bs -> mapped (length bs) dest m ->
  0 <= dest -> 0 <= src -> n < 2 ^ 63 -> dest + n <= 2 ^ 64 -> src + n <= 2 ^ 64 ->
  (length bs < fuel)%nat ->
  exists m', copied m dest bs m' /\
    memmove fuel dest src n m = Ok (dest, m') /\
    bcopy fuel src dest n m = Ok m' /\
    (dest <= src \/ src + n <= dest ->
       memcpy fuel dest src n m = Ok (dest, m') /\
       mempcpy fuel dest src n m = Ok (dest + n, m')).
Proof.
  intros n Hm Hs Hd H0d H0s Hn Hde Hse Hf. exists (put_bytes dest bs m).
  split; [apply copied_put|]. unfold bcopy, mempcpy, n in *. rewrite memmove_ok by done.
  split_and!; [done..|]. intros Hdis. by rewrite memcpy_ok.
Qed.

(** [memset] (with [bzero] and [explicit_bzero]) terminates and leaves the
    low byte of its argument in each of the [n] bytes, and no other byte
    changed, for every alignment and length: the overlapping head and tail
    stores and the 32-byte loop cover the region exactly. *)
Theorem mem_fill_spec fuel dest c n m :
  mapped (Z.to_nat n) dest m -> 0 <= n < 2 ^ 64 -> (Z.to_nat n < fuel)%nat ->
  (exists m', memset fuel dest c n m = Ok (dest, m') /\
     copied m dest (replicate (Z.to_nat n) (c mod 256)) m') /\
  (exists m', bzero fuel dest n m = Ok m' /\ explicit_bzero fuel dest n m = Ok m' /\
     copied m dest (replicate (Z.to_nat n) 0) m').
Proof.
  intros Hd Hn Hf.
  assert (forall c m', painted c m (fun x => dest <= x < dest + n) m' ->
            copied m dest (replicate (Z.to_nat n) c) m') as Hp.
  { intros b m' H. split.
    - intros i x [-> Hi]%lookup_replicate. apply H. lia.
    - rewrite length_replicate. intros x Hx. apply H. lia. }
  split.
  - destruct (memset_ok fuel dest c n m) as (m' & -> & H); eauto.
  - unfold bzero, explicit_bzero. destruct (memset_ok fuel dest 0 n m) as (m' & -> & H); eauto.
Qed.

(** ** Witnesses *)

Module ToyCopy.
(** Forty bytes, and room for two more. *)
Definition text : list Z := seqZ 1 40.
Definition m : cmem := region 65 (text ++ [0; 0]).

Lemma toy_text : bytes_at m 65 text.
Proof. by apply bytes_at_compute; vm_compute. Qed.

Lemma copy_toy_ok : bytes_ok m.
Proof. by apply bytes_ok_compute; vm_compute. Qed.

Lemma toy_mapped : mapped 40 67 m.
Proof.
  assert (bytes_at m 67 (seqZ 3 38 ++ [0; 0])) as H by by apply bytes_at_compute; vm_compute.
  apply (bytes_at_mapped _ _ _ H).
Qed.

(** Moving the text up by two bytes over itself. *)
Lemma mem_copy_spec_witness : exists m', copied m 67 text m' /\
  memmove 41 67 65 40 m = Ok (67, m').
Proof.
  destruct (mem_copy_spec 41 67 65 text m copy_toy_ok toy_text toy_mapped ltac:(done) ltac:(done)
    ltac:(done) ltac:(done) ltac:(done) ltac:(vm_compute; lia)) as (m' & Hc & Hm & _).
  by exists m'.
Defined.

Lemma mem_fill_spec_witness : exists m', memset 41 67 511 40 m = Ok (67, m') /\
  copied m 67 (replicate 40 255) m'.
Proof.
  destruct (mem_fill_spec 41 67 511 40 m toy_mapped ltac:(done) ltac:(vm_compute; lia)) as [H _].
  exact H.
Defined.
End ToyCopy.
