(* ===== verification/StrCopy.v ===== *)
(** * Copying strings

    Models the functions of [lib/guest_bw/string] that copy up to a given
    byte, by words while source and destination are aligned alike, and shows
    what they leave in memory and what they return. *)

From S2P Require Import Prelude CMem CLoop StrScan MemCopy.
#[local] Open Scope Z_scope.

(** ** The loops *)

(** [for (; go(s) && n && ( *d=*s) != c; n--, s++, d++);] The byte that ends the
    loop is stored but the pointers stay at it. *)
Definition copy_until (c : Z) (go : Z -> bool) (fuel : nat) (st : cp) (n : Z) : result (cp * Z) :=
  o ← loop (fun '(st, n) => Ok (go (cp_s st) && negb (n =? 0)))
        (fun '(st, n) =>
           b ← ld8 (cp_s st) (cp_m st);
           m ← st8 (cp_d st) b (cp_m st);
           if b =? c then Ok (inr (mk_cp (cp_d st) (cp_s st) m, n))
           else Ok (inl (mk_cp (cp_d st + 1) (cp_s st + 1) m, n - 1))) fuel (st, n);
  Ok (match o with inl x | inr x => x end).

(** [for (; n>=8 && !found( *ws); n-=8, ws++, wd++) *wd = *ws;] *)
Definition copy_words (found : Z -> bool) (fuel : nat) (st : cp) (n : Z) : result (cp * Z) :=
  while (fun '(st, n) => if n <? 8 then Ok false
                         else w ← ldw 8 (cp_s st) (cp_m st); Ok (negb (found w)))
        (fun '(st, n) => st ← copy_word 8 0 st; Ok (advance 8 st, n - 8)) fuel (st, n).

(** [(uintptr_t)s & ALIGN] *)
Definition unaligned (s : Z) : bool := negb (Z.land s 7 =? 0).

(** [HASZERO( *ws)] *)
Definition haszero (w : Z) : bool := negb (HASZERO w =? 0).

(** ** memccpy *)

Definition memccpy (fuel : nat) (dest src c n : Z) (m : cmem) : result (Z * cmem) :=
  let c := u8 c in
  let tail st n := if negb (n =? 0) then Ok (cp_d st + 1, cp_m st) else Ok (0, cp_m st) in
  let st := mk_cp dest src m in
  let bytes st n := '(st, n) ← copy_until c (fun _ => true) fuel st n; tail st n in
  if Z.land src 7 =? Z.land dest 7 then
    '(st, n) ← copy_until c unaligned fuel st n;
    if unaligned (cp_s st) then tail st n else
    let k := u64 (ONES * c) in
    '(st, n) ← copy_words (fun w => haszero (Z.lxor w k)) fuel st n;
    bytes st n
  else bytes st n.

(** ** stpncpy and strncpy *)

Definition __stpncpy (fuel : nat) (d s n : Z) (m : cmem) : result (Z * cmem) :=
  let tail st n := '(_, m) ← memset fuel (cp_d st) 0 n (cp_m st); Ok (cp_d st, m) in
  let st := mk_cp d s m in
  let bytes st n := '(st, n) ← copy_until 0 (fun _ => true) fuel st n; tail st n in
  if Z.land s 7 =? Z.land d 7 then
    '(st, n) ← copy_until 0 unaligned fuel st n;
    stop ← (if n =? 0 then Ok true else b ← ld8 (cp_s st) (cp_m st); Ok (b =? 0));
    if stop : bool then tail st n else
    '(st, n) ← copy_words haszero fuel st n;
    bytes st n
  else bytes st n.

Definition strncpy (fuel : nat) (d s n : Z) (m : cmem) : result (Z * cmem) :=
  '(_, m) ← __stpncpy fuel d s n m; Ok (d, m).

(** ** strlcpy and strlcat *)

Definition strlcpy (fuel : nat) (d s n : Z) (m : cmem) : result (Z * cmem) :=
  let d0 := d in
  let finish st := l ← strlen (cp_m st) fuel (cp_s st); Ok (cp_d st - d0 + l, cp_m st) in
  let st := mk_cp d s m in
  if n =? 0 then finish st else
  let n := n - 1 in
  '(st, n) ← (if Z.land s 7 =? Z.land d 7 then
                '(st, n) ← copy_until 0 unaligned fuel st n;
                more ← (if n =? 0 then Ok false else b ← ld8 (cp_s st) (cp_m st); Ok (negb (b =? 0)));
                if more : bool then copy_words haszero fuel st n else Ok (st, n)
              else Ok (st, n));
  '(st, n) ← copy_until 0 (fun _ => true) fuel st n;
  m ← st8 (cp_d st) 0 (cp_m st);
  finish (mk_cp (cp_d st) (cp_s st) m).

Definition strlcat (fuel : nat) (d s n : Z) (m : cmem) : result (Z * cmem) :=
  l ← strnlen m fuel d n;
  if l =? n then k ← strlen m fuel s; Ok (l + k, m)
  else '(k, m) ← strlcpy fuel (d + l) s (n - l) m; Ok (l + k, m).

(** ** stpcpy, strcpy and strcat *)

(** [for (; go(s); s++, d++) if (!( *d=*s)) return d;] *)
Definition copy_string (go : Z -> bool) (fuel : nat) (st : cp) : result (cp + Z * cmem) :=
  loop (fun st => Ok (go (cp_s st)))
    (fun st =>
       b ← ld8 (cp_s st) (cp_m st);
       m ← st8 (cp_d st) b (cp_m st);
       if b =? 0 then Ok (inr (cp_d st, m))
       else Ok (inl (mk_cp (cp_d st + 1) (cp_s st + 1) m))) fuel st.

Definition __stpcpy (fuel : nat) (d s : Z) (m : cmem) : result (Z * cmem) :=
  let st := mk_cp d s m in
  let bytes st := o ← copy_string (fun _ => true) fuel st;
                  match o with inr r => Ok r | inl _ => Fault "unreachable" end in
  if s mod 8 =? d mod 8 then
    o ← copy_string (fun s => negb (s mod 8 =? 0)) fuel st;
    match o with
    | inr r => Ok r
    | inl st =>
        st ← while (fun st => w ← ldw 8 (cp_s st) (cp_m st); Ok (negb (haszero w)))
               (fun st => st ← copy_word 8 0 st; Ok (advance 8 st)) fuel st;
        bytes st
    end
  else bytes st.

Definition strcpy (fuel : nat) (dest src : Z) (m : cmem) : result (Z * cmem) :=
  '(_, m) ← __stpcpy fuel dest src m; Ok (dest, m).

Definition strcat (fuel : nat) (dest src : Z) (m : cmem) : result (Z * cmem) :=
  l ← strlen m fuel dest;
  '(_, m) ← strcpy fuel (dest + l) src m; Ok (dest, m).

(** [while (n && *s) n--, *d++ = *s++; *d++ = 0;] *)
Definition strncat (fuel : nat) (d s n : Z) (m : cmem) : result (Z * cmem) :=
  let a := d in
  l ← strlen m fuel d;
  '(st, n) ← while (fun '(st, n) => if n =? 0 then Ok false
                                    else b ← ld8 (cp_s st) (cp_m st); Ok (negb (b =? 0)))
               (fun '(st, n) => st ← copy1 st; Ok (st, n - 1)) fuel (mk_cp (d + l) s m, n);
  m ← st8 (cp_d st) 0 (cp_m st);
  Ok (a, m).

(** ** Correctness *)

Lemma word_mapped_put a l m : word_mapped m -> (forall x, a <= x < a + Z.of_nat (length l) -> is_Some (m !! x)) ->
  word_mapped (put_bytes a l m).
Proof.
  intros Hm Hl x Hx. apply mapped_put, Hm. rewrite lookup_put_bytes in Hx.
  case_decide; [by apply Hl|done].
Qed.

(** A byte in a word shows in the test for it. *)
Definition finds (c : Z) (found : Z -> bool) : Prop :=
  forall ws, length ws = 8%nat -> Forall is_byte ws -> c ∈ ws -> found (le_val ws) = true.

Lemma haszero_finds : finds 0 haszero.
Proof.
  intros ws Hl Hb Hin. unfold haszero. destruct (Z.eqb_spec (HASZERO (le_val ws)) 0) as [H|]; [|done].
  by apply HASZERO_spec in H.
Qed.

Lemma haszero_xor_finds c :
  0 <= c < 256 -> finds c (fun w => haszero (Z.lxor w (u64 (ONES * c)))).
Proof.
  intros Hc ws Hl Hb Hin. unfold haszero.
  destruct (Z.eqb_spec (HASZERO (Z.lxor (le_val ws) (u64 (ONES * c)))) 0) as [H|]; [|done].
  by apply HASZERO_xor in H.
Qed.

Lemma unaligned_false s : unaligned s = false -> s mod 8 = 0.
Proof. unfold unaligned. rewrite land_7. intros H%negb_false_iff%Z.eqb_eq. done. Qed.

Lemma same_align dest src k : src mod 8 = dest mod 8 -> (src + k) mod 8 = 0 -> (dest + k) mod 8 = 0.
Proof. intros Heq Hs. rewrite <- Z.add_mod_idemp_l, <- Heq, Z.add_mod_idemp_l by lia. done. Qed.

(** Filling with [memset] as one write. *)
Lemma memset_put fuel dest c n m :
  mapped (Z.to_nat n) dest m -> 0 <= n < 2 ^ 64 -> (Z.to_nat n < fuel)%nat ->
  memset fuel dest c n m = Ok (dest, put_bytes dest (replicate (Z.to_nat n) (c mod 256)) m).
Proof.
  intros Hd Hn Hf. destruct (memset_ok fuel dest c n m Hd Hn Hf) as (m' & -> & H). do 2 f_equal.
  apply map_eq. intros x. rewrite lookup_put_bytes, length_replicate. case_decide as Hx.
  - rewrite (proj1 (H x)) by lia. symmetry. apply lookup_replicate_2. lia.
  - apply H. lia.
Qed.

Lemma put_over a l x y m :
  (length x <= length y)%nat ->
  put_bytes (a + Z.of_nat (length l)) y (put_bytes a (l ++ x) m) = put_bytes a (l ++ y) m.
Proof.
  intros Hxy. apply map_eq. intros i. rewrite !lookup_put_bytes, !length_app.
  repeat case_decide; try lia; rewrite ?lookup_app_l, ?lookup_app_r by lia; try done.
  f_equal. lia.
Qed.

(** What is copied is [l], up to the byte [c] if [hit], and [n] bytes otherwise. *)
Section until.
Context (dest src : Z) (l : list Z) (c : Z) (hit : bool) (m0 : cmem).
Definition upto : list Z := if hit then l ++ [c] else l.
Context (m_ok : bytes_ok m0) (m_words : word_mapped m0) (at_src : bytes_at m0 src upto)
  (at_dest : mapped (length upto) dest m0)
  (up : dest <= src \/ src + Z.of_nat (length upto) <= dest)
  (no_c : c ∉ l).
Abbreviation L := (Z.of_nat (length l)).
Abbreviation at_ := (at_j dest src upto m0).

Definition final : cp := mk_cp (dest + L) (src + L) (put_bytes dest upto m0).

Lemma upto_length : Z.of_nat (length upto) = L + Z.b2z hit.
Proof. unfold upto. destruct hit; rewrite ?length_app; simpl; lia. Qed.

Lemma upto_at j b : 0 <= j < L + Z.b2z hit -> upto !! Z.to_nat j = Some b -> (b = c <-> j = L).
Proof using no_c.
  intros Hj. unfold upto. destruct hit; cbn [Z.b2z] in *; [|intros Hb; split; [|lia]].
  - destruct (decide (j = L)) as [->|].
    + rewrite Nat2Z.id, list_lookup_middle by done. intros [= ->]. done.
    + rewrite lookup_app_l by lia. intros Hb. split; [|lia]. intros ->.
      apply list_elem_of_lookup_2 in Hb. done.
  - intros ->. apply list_elem_of_lookup_2 in Hb. done.
Qed.

Lemma end_final : hit = false -> at_ L = final.
Proof.
  intros Hh. unfold at_j, final, M. f_equal. f_equal. unfold upto. rewrite Hh, Nat2Z.id. apply firstn_all.
Qed.

(** One byte. *)
Lemma byte_step j :
  0 <= j < L + Z.b2z hit ->
  exists b, ld8 (src + j) (cp_m (at_ j)) = Ok b /\ st8 (dest + j) b (cp_m (at_ j)) = Ok (cp_m (at_ (j + 1))) /\
    (b = c <-> j = L).
Proof using m_ok at_src at_dest up no_c.
  intros Hj. pose proof upto_length as HL. pose proof (b2z_bound hit) as Hhit.
  pose proof (copy1_ok dest src upto m0 m_ok at_src at_dest up j ltac:(lia)) as Hc.
  destruct (lookup_lt_is_Some_2 upto (Z.to_nat j)) as [b Hb]; [lia|].
  pose proof (sub_at dest src upto m0 at_src up j j 1 ltac:(lia) ltac:(lia)) as Hs.
  unfold sub in Hs. rewrite (drop_S _ _ _ Hb) in Hs. cbn [take] in Hs.
  apply bytes_at_cons in Hs as [Hs _]. apply ld8_ok in Hs.
  exists b. split; [exact Hs|]. split; [|by apply (upto_at j)].
  unfold copy1 in Hc. unfold at_j in Hc |- *. cbn [cp_s cp_d cp_m] in *. rewrite Hs in Hc.
  cbn [mbind result_bind] in Hc. destruct (st8 _ _ _) as [m'| |]; try done.
  by injection Hc as _ _ ->.
Qed.

(** A word of the source that starts before the end. *)
Lemma src_word_at k :
  0 <= k < L + Z.b2z hit -> (src + k) mod 8 = 0 ->
  exists ws, length ws = 8%nat /\ Forall is_byte ws /\
    ldw 8 (src + k) (cp_m (at_ k)) = Ok (le_val ws) /\
    (hit = true -> L < k + 8 -> c ∈ ws).
Proof using m_ok m_words at_src at_dest up.
  intros Hk Hs. pose proof upto_length as HL. pose proof (b2z_bound hit) as Hhit. set (m := cp_m (at_ k)).
  assert (bytes_ok m) as Hm.
  { apply bytes_ok_put; [done|]. apply Forall_take. by eapply bytes_at_ok. }
  assert (forall i b, k <= Z.of_nat i -> upto !! i = Some b -> m !! (src + Z.of_nat i) = Some b) as Hat.
  { intros i b Hki Hi. apply lookup_lt_Some in Hi as Hlt. unfold m. cbn [at_j cp_m]. unfold M.
    rewrite lookup_put_bytes, decide_False by (rewrite length_take; lia). by apply at_src. }
  assert (mapped 8 (src + k) m) as Hmap.
  { destruct (lookup_lt_is_Some_2 upto (Z.to_nat k)) as [b Hb]; [lia|].
    apply mapped_put. specialize (m_words (src + k)). rewrite Hs, Z.sub_0_r in m_words.
    apply m_words. exists b. replace (src + k) with (src + Z.of_nat (Z.to_nat k)) by lia. by apply at_src. }
  destruct (mapped_bytes _ _ _ Hmap) as (ws & Hl & Hws). exists ws.
  split; [done|]. split; [by eapply bytes_at_ok|]. split; [by apply ldw_bytes_at|].
  intros Hh Hlt. apply list_elem_of_lookup. exists (Z.to_nat (L - k)).
  destruct (lookup_lt_is_Some_2 ws (Z.to_nat (L - k))) as [b Hb]; [lia|]. rewrite Hb. f_equal.
  specialize (Hws _ _ Hb). replace (src + k + Z.of_nat (Z.to_nat (L - k))) with (src + L) in Hws by (rewrite Hh in *; cbn [Z.b2z] in *; lia).
  specialize (Hat (length l) c). rewrite Hat in Hws; [congruence| |].
  - rewrite Hh in *. cbn [Z.b2z] in *. lia.
  - unfold upto. rewrite Hh. by apply list_lookup_middle.
Qed.

(** The count: past the byte [c], or at the end of [l]. *)
Context (n : Z) (n_ge : Z.of_nat (length upto) <= n) (n_end : hit = false -> n = L).

Lemma copy_until_ok go fuel j :
  0 <= j <= L -> (length upto < fuel)%nat ->
  exists k, j <= k <= L /\
    (copy_until c go fuel (at_ j) (n - j) = Ok (at_ k, n - k) /\ (go (src + k) = false \/ n = k) \/
     hit = true /\ k = L /\ go (src + L) = true /\
     copy_until c go fuel (at_ j) (n - j) = Ok (final, n - L)).
Proof using m_ok at_src at_dest up no_c n_ge n_end.
  intros Hj Hf. pose proof upto_length as HL. pose proof (b2z_bound hit) as Hhit. unfold copy_until.
  edestruct (loop_rule (fun '(st, n) => Ok (go (cp_s st) && negb (n =? 0)))
        (fun '(st, n) =>
           b ← ld8 (cp_s st) (cp_m st);
           m ← st8 (cp_d st) b (cp_m st);
           if b =? c then Ok (inr (mk_cp (cp_d st) (cp_s st) m, n))
           else Ok (inl (mk_cp (cp_d st + 1) (cp_s st + 1) m, n - 1)))
     (fun '(st, i) => exists k, st = at_ k /\ i = n - k /\ j <= k <= L)
     (fun '(st, i) => hit = true /\ st = final /\ i = n - L /\ go (src + L) = true)
     (fun '(st, i) => Z.to_nat (L - (cp_s st - src))) fuel (at_ j, n - j))
    as (o & -> & Ho); [|exists j; split_and!; done || lia|cbn; lia|].
  - intros [st i] (k & -> & -> & Hk). eexists; split; [done|].
    intros [Hgo Hn%negb_true_iff%Z.eqb_neq]%andb_prop.
    assert (k < L + Z.b2z hit) as Hlt by (destruct hit; cbn [Z.b2z] in *; [|specialize (n_end eq_refl)]; lia).
    destruct (byte_step k ltac:(lia)) as (b & Hb & Hst & Hbc).
    cbn [at_j cp_s cp_d cp_m] in Hb, Hst, Hgo |- *. rewrite Hb. cbn [mbind result_bind]. rewrite Hst.
    cbn [mbind result_bind]. destruct (Z.eqb_spec b c) as [Heq|Hne].
    + apply Hbc in Heq as ->. eexists; split; [done|].
      assert (hit = true) as Hh by (destruct hit; [done|cbn [Z.b2z] in *; lia]).
      split_and!; [done| |done|done]. unfold final, M. do 2 f_equal. apply take_ge.
      rewrite Hh in HL. cbn [Z.b2z] in HL. lia.
    + eexists; split; [done|]. assert (k <> L) by tauto. split; [|cbn; lia].
      exists (k + 1). split_and!; [unfold at_j; f_equal; lia|lia..].
  - destruct o as [[st i]|[st i]].
    + destruct Ho as [(k & -> & -> & Hk) Hc]. exists k. split; [done|]. left. split; [done|].
      injection Hc as Hc. apply andb_false_iff in Hc as [Hc|Hc%negb_false_iff%Z.eqb_eq];
        [by left|right; lia].
    + destruct Ho as (Hh & -> & -> & Hgo). exists L. split; [lia|]. by right.
Qed.

Lemma copy_rest fuel j :
  0 <= j <= L -> (length upto < fuel)%nat ->
  copy_until c (fun _ => true) fuel (at_ j) (n - j) = Ok (final, n - L).
Proof using m_ok at_src at_dest up no_c n_ge n_end.
  intros Hj Hf. pose proof upto_length as HL. pose proof (b2z_bound hit) as Hhit.
  destruct (copy_until_ok (fun _ => true) fuel j Hj Hf) as (k & Hk & [[H [|Hn]]|(Hh & -> & _ & H)]);
    [done| |done].
  rewrite H. assert (hit = false) as Hh by (destruct hit; [cbn [Z.b2z] in *; lia|done]).
  specialize (n_end Hh). assert (k = L) as -> by lia. by rewrite end_final.
Qed.

Lemma copy_words_ok found fuel j :
  finds c found -> 0 <= j <= L -> (length upto < fuel)%nat ->
  (src + j) mod 8 = 0 -> (dest + j) mod 8 = 0 ->
  exists k, copy_words found fuel (at_ j) (n - j) = Ok (at_ k, n - k) /\ j <= k <= L.
Proof using m_ok m_words at_src at_dest up no_c n_ge n_end.
  intros Hfind Hj Hf Hs Hd. pose proof upto_length as HL. pose proof (b2z_bound hit) as Hhit. unfold copy_words.
  edestruct (while_rule (fun '(st, n) => if n <? 8 then Ok false
                         else w ← ldw 8 (cp_s st) (cp_m st); Ok (negb (found w)))
        (fun '(st, n) => st ← copy_word 8 0 st; Ok (advance 8 st, n - 8))
     (fun '(st, i) => exists k, st = at_ k /\ i = n - k /\ j <= k <= L /\
        (src + k) mod 8 = 0 /\ (dest + k) mod 8 = 0)
     (fun '(st, i) => Z.to_nat (L - (cp_s st - src))) fuel (at_ j, n - j))
    as ([st i] & -> & (k & -> & -> & Hk & _) & _); [|exists j; split_and!; done || lia|cbn; lia|by exists k].
  intros [st i] (k & -> & -> & Hk & Hsk & Hdk). destruct (Z.ltb_spec (n - k) 8); [by exists false|].
  assert (k < L + Z.b2z hit) as Hlt by (destruct hit; cbn [Z.b2z] in *; [|specialize (n_end eq_refl)]; lia).
  destruct (src_word_at k) as (ws & Hl & Hb & Hw & Hc); [lia|done|].
  cbn [at_j cp_s cp_m] in Hw |- *. rewrite Hw. eexists; split; [done|].
  intros Hfw%negb_true_iff. assert (k + 8 <= L) as Hle.
  { destruct (decide (k + 8 <= L)); [done|]. rewrite Hfind in Hfw; [done..|].
    apply Hc; [|lia]. destruct hit; [done|]. specialize (n_end eq_refl). lia. }
  pose proof (copy_word_ok dest src upto m0 m_ok at_src at_dest up 8 k 0) as Hcw.
  rewrite !Z.add_0_r in Hcw. unfold at_j. rewrite Hcw by (done || lia). cbn [mbind result_bind].
  eexists; split; [done|]. split; [|cbn; lia]. exists (k + 8). unfold at_j, advance.
  cbn [cp_d cp_s cp_m]. split_and!; [f_equal; lia|lia..| |]; rewrite Z.add_assoc;
    rewrite <- Z.add_mod_idemp_l by lia; by rewrite ?Hsk, ?Hdk.
Qed.

Lemma n_is_k k : k <= L -> n = k -> hit = false /\ k = L.
Proof using n_ge n_end.
  intros Hk Hn. pose proof upto_length as HL. pose proof (b2z_bound hit) as Hhit.
  destruct hit; cbn [Z.b2z] in *; [lia|]. split; [done|]. specialize (n_end eq_refl). lia.
Qed.

Lemma memccpy_ok fuel c0 :
  c = u8 c0 -> (length upto < fuel)%nat ->
  memccpy fuel dest src c0 n m0 =
  Ok (if hit then dest + L + 1 else 0, put_bytes dest upto m0).
Proof using m_ok m_words at_src at_dest up no_c n_ge n_end.
  intros Hc Hf. pose proof upto_length as HL. unfold memccpy. rewrite <- Hc, !land_7.
  rewrite (at_start dest src upto m0).
  assert ((if negb (n - L =? 0) then Ok (cp_d final + 1, cp_m final) else Ok (0, cp_m final)) =
          Ok (if hit then dest + L + 1 else 0, put_bytes dest upto m0)) as Htail.
  { destruct hit; cbn [Z.b2z] in *.
    - destruct (Z.eqb_spec (n - L) 0); [lia|done].
    - rewrite (n_end eq_refl), Z.sub_diag. done. }
  replace n with (n - 0) by lia.
  destruct (Z.eqb_spec (src mod 8) (dest mod 8)) as [Heq|];
    [|by rewrite copy_rest by lia].
  destruct (copy_until_ok unaligned fuel 0 ltac:(lia) Hf)
    as (k & Hk & [[-> Hend]|(_ & _ & Hgo & ->)]); cbn [mbind result_bind].
  - change (cp_s (at_ k)) with (src + k). destruct (unaligned (src + k)) eqn:Hu.
    + destruct Hend as [|Hn]; [done|]. destruct (n_is_k k ltac:(lia) Hn) as [Hh ->].
      by rewrite (end_final Hh).
    + apply unaligned_false in Hu.
      destruct (copy_words_ok (fun w => haszero (Z.lxor w (u64 (ONES * c)))) fuel k) as (i & -> & Hi);
        [apply haszero_xor_finds; rewrite Hc; apply Z.mod_pos_bound; lia|lia|done|done|by apply (same_align dest src)|].
      cbn [mbind result_bind]. by rewrite copy_rest by lia.
  - change (cp_s final) with (src + L). by rewrite Hgo.
Qed.

Lemma final_byte : hit = true -> ld8 (src + L) (put_bytes dest upto m0) = Ok c.
Proof using at_src up.
  intros Hh. pose proof upto_length as HL. rewrite Hh in HL. cbn [Z.b2z] in HL.
  assert (upto !! length l = Some c) as Hc by (unfold upto; rewrite Hh; by apply list_lookup_middle).
  apply ld8_ok. rewrite lookup_put_bytes. case_decide as Hd; [|by apply at_src].
  by replace (Z.to_nat (src + L - dest)) with (length l) by lia.
Qed.

(** Copying once more the byte that ended the copy. *)
Lemma copy_again fuel :
  hit = true -> (0 < fuel)%nat -> 0 <= c < 256 ->
  copy_until c (fun _ => true) fuel final (n - L) = Ok (final, n - L).
Proof using m_ok at_src at_dest up n_ge.
  intros Hh Hf Hc. pose proof upto_length as HL. rewrite Hh in HL. cbn [Z.b2z] in HL.
  destruct fuel as [|fuel]; [lia|]. unfold copy_until. cbn [loop].
  destruct (Z.eqb_spec (n - L) 0); [lia|]. cbn [negb andb mbind result_bind]. cbn [final cp_s cp_d cp_m].
  rewrite (final_byte Hh). cbn [mbind result_bind].
  rewrite st8_put by (apply (mapped_put (length upto) _ _ _ dest); [done|lia]).
  cbn [mbind result_bind]. rewrite Z.eqb_refl. cbn [mbind result_bind]. rewrite Z.mod_small by done.
  do 3 f_equal. unfold upto. rewrite Hh. by apply put_over.
Qed.

(** *** Padding with nulls *)

Context (c_null : c = 0) (n_mapped : mapped (Z.to_nat n) dest m0) (n_max : n < 2 ^ 64).

Lemma pad_ok fuel x :
  (Z.to_nat n < fuel)%nat -> Z.of_nat (length x) <= n - L ->
  memset fuel (dest + L) 0 (n - L) (put_bytes dest (l ++ x) m0) =
  Ok (dest + L, put_bytes dest (l ++ replicate (Z.to_nat (n - L)) 0) m0).
Proof using c hit n_mapped n_max.
  intros Hf Hx. rewrite memset_put; [|apply mapped_put; intros y Hy; apply n_mapped; lia|lia|lia].
  rewrite put_over by (rewrite length_replicate; lia). done.
Qed.

Lemma stpncpy_ok fuel :
  (length upto < fuel)%nat -> (Z.to_nat n < fuel)%nat ->
  __stpncpy fuel dest src n m0 =
  Ok (dest + L, put_bytes dest (l ++ replicate (Z.to_nat (n - L)) 0) m0).
Proof using m_ok m_words at_src at_dest up no_c n_ge n_end c_null n_mapped n_max.
  intros Hf Hfn. pose proof upto_length as HL. pose proof (b2z_bound hit) as Hhit. unfold __stpncpy.
  rewrite !land_7, (at_start dest src upto m0).
  assert (('(_, m) ← memset fuel (cp_d final) 0 (n - L) (cp_m final); Ok (cp_d final, m)) =
    Ok (dest + L, put_bytes dest (l ++ replicate (Z.to_nat (n - L)) 0) m0)) as Htail.
  { cbn [final cp_d cp_m]. replace upto with (l ++ (if hit then [c] else []))%list
      by (unfold upto; destruct hit; [done|apply app_nil_r]).
    rewrite pad_ok; [done|done|]. destruct hit; cbn [length Z.b2z] in *; lia. }
  assert (forall j, 0 <= j <= L ->
    ('(st, i) ← copy_until 0 (fun _ => true) fuel (at_ j) (n - j);
     '(_, m) ← memset fuel (cp_d st) 0 i (cp_m st); Ok (cp_d st, m)) =
    Ok (dest + L, put_bytes dest (l ++ replicate (Z.to_nat (n - L)) 0) m0)) as Hrest.
  { intros j Hj. rewrite <- c_null at 1. rewrite copy_rest by done. exact Htail. }
  destruct (Z.eqb_spec (src mod 8) (dest mod 8)) as [Heq|];
    [|specialize (Hrest 0 ltac:(lia)); by rewrite Z.sub_0_r in Hrest].
  destruct (copy_until_ok unaligned fuel 0 ltac:(lia) Hf)
    as (k & Hk & [[Hcu Hend]|(Hh & _ & Hgo & Hcu)]); rewrite Z.sub_0_r, c_null in Hcu; rewrite Hcu;
    cbn [mbind result_bind].
  - destruct (Z.eqb_spec (n - k) 0) as [Hn|Hn]; cbn [mbind result_bind].
    { destruct (n_is_k k ltac:(lia) ltac:(lia)) as [Hh ->]. rewrite (end_final Hh). exact Htail. }
    assert (k < L + Z.b2z hit) as Hlt by (destruct hit; cbn [Z.b2z] in *; [|specialize (n_end eq_refl)]; lia).
    destruct (byte_step k ltac:(lia)) as (b & Hb & _ & Hbc).
    cbn [at_j cp_s cp_m] in Hb |- *. rewrite Hb. cbn [mbind result_bind].
    destruct (Z.eqb_spec b 0) as [Hb0|Hb0].
    + rewrite <- c_null in Hb0. apply Hbc in Hb0 as ->. cbn [cp_d]. unfold M.
      replace (take (Z.to_nat L) upto) with (l ++ [])%list
        by (unfold upto; rewrite Nat2Z.id, app_nil_r; destruct hit; [by rewrite take_app_length|by rewrite firstn_all]).
      rewrite pad_ok; [done|done|]. cbn [length]. lia.
    + fold (at_ k). destruct Hend as [Hu|]; [|lia]. apply unaligned_false in Hu.
      destruct (copy_words_ok haszero fuel k) as (i & -> & Hi);
        [rewrite c_null; apply haszero_finds|lia|done|done|by apply (same_align dest src)|].
      cbn [mbind result_bind]. apply Hrest. lia.
  - destruct (Z.eqb_spec (n - L) 0) as [Hn|Hn]; cbn [mbind result_bind]; [exact Htail|].
    cbn [final cp_s cp_m]. rewrite (final_byte Hh), c_null. cbn [mbind result_bind]. exact Htail.
Qed.

(** *** Truncating *)

Lemma lcpy_core fuel :
  (length upto < fuel)%nat ->
  exists st i,
    (if Z.land src 7 =? Z.land dest 7 then
       '(st, n) ← copy_until 0 unaligned fuel (mk_cp dest src m0) n;
       more ← (if n =? 0 then Ok false else b ← ld8 (cp_s st) (cp_m st); Ok (negb (b =? 0)));
       if more : bool then copy_words haszero fuel st n else Ok (st, n)
     else Ok (mk_cp dest src m0, n)) = Ok (st, i) /\
    copy_until 0 (fun _ => true) fuel st i = Ok (final, n - L).
Proof using m_ok m_words at_src at_dest up no_c n_ge n_end c_null.
  intros Hf. pose proof upto_length as HL. pose proof (b2z_bound hit) as Hhit.
  rewrite !land_7, (at_start dest src upto m0).
  assert (forall j, 0 <= j <= L ->
    copy_until 0 (fun _ => true) fuel (at_ j) (n - j) = Ok (final, n - L)) as Hrest.
  { intros j Hj. rewrite <- c_null. by apply copy_rest. }
  destruct (Z.eqb_spec (src mod 8) (dest mod 8)) as [Heq|];
    [|exists (at_ 0), n; split; [done|]; rewrite <- (Z.sub_0_r n) at 1; apply Hrest; lia].
  destruct (copy_until_ok unaligned fuel 0 ltac:(lia) Hf)
    as (k & Hk & [[Hcu Hend]|(Hh & _ & Hgo & Hcu)]); rewrite Z.sub_0_r, c_null in Hcu; rewrite Hcu;
    cbn [mbind result_bind].
  - destruct (Z.eqb_spec (n - k) 0) as [Hn|Hn]; cbn [mbind result_bind].
    { do 2 eexists; split; [done|]. apply Hrest. lia. }
    assert (k < L + Z.b2z hit) as Hlt by (destruct hit; cbn [Z.b2z] in *; [|specialize (n_end eq_refl)]; lia).
    destruct (byte_step k ltac:(lia)) as (b & Hb & _ & Hbc).
    change (cp_s (at_ k)) with (src + k). rewrite Hb. cbn [mbind result_bind].
    destruct (Z.eqb_spec b 0) as [Hb0|Hb0]; cbn [negb].
    { do 2 eexists; split; [done|]. apply Hrest. lia. }
    destruct Hend as [Hu|]; [|lia]. apply unaligned_false in Hu.
    destruct (copy_words_ok haszero fuel k) as (i & -> & Hi);
      [rewrite c_null; apply haszero_finds|lia|done|done|by apply (same_align dest src)|].
    do 2 eexists; split; [done|]. apply Hrest. lia.
  - assert (copy_until 0 (fun _ => true) fuel final (n - L) = Ok (final, n - L)) as Hag.
    { rewrite <- c_null. apply copy_again; [done|lia|lia]. }
    destruct (Z.eqb_spec (n - L) 0) as [Hn|Hn]; cbn [mbind result_bind]; [by do 2 eexists|].
    cbn [final cp_s cp_m]. rewrite (final_byte Hh), c_null. cbn [mbind result_bind]. by do 2 eexists.
Qed.
End until.

(** *** Copying a whole string *)

Section whole.
Context (dest src : Z) (l : list Z) (m0 : cmem).
Context (m_ok : bytes_ok m0) (m_words : word_mapped m0) (at_src : cstr m0 src l)
  (at_dest : mapped (length l + 1) dest m0)
  (up : dest <= src \/ src + Z.of_nat (length l) + 1 <= dest).
Abbreviation L := (Z.of_nat (length l)).
Abbreviation bs := (upto l 0 true).
Abbreviation at_ := (at_j dest src bs m0).

Lemma bs_length : length bs = (length l + 1)%nat.
Proof. cbn. by rewrite length_app. Qed.

Lemma no_null : 0 ∉ l.
Proof using at_src. destruct at_src as [_ H]. rewrite Forall_forall in H. intros [H0 _]%H. lia. Qed.

Lemma bs_mapped : mapped (length bs) dest m0.
Proof using at_dest. by rewrite bs_length. Qed.

Lemma bs_up : dest <= src \/ src + Z.of_nat (length bs) <= dest.
Proof using up. rewrite bs_length. lia. Qed.

Lemma copy_string_ok go fuel j :
  0 <= j <= L -> (length l < fuel)%nat ->
  exists k, j <= k <= L /\
    (copy_string go fuel (at_ j) = Ok (inl (at_ k)) /\ go (src + k) = false \/
     copy_string go fuel (at_ j) = Ok (inr (dest + L, put_bytes dest bs m0))).
Proof using m_ok at_src at_dest up.
  intros Hj Hf. unfold copy_string.
  edestruct (loop_rule (fun st => Ok (go (cp_s st)))
    (fun st =>
       b ← ld8 (cp_s st) (cp_m st);
       m ← st8 (cp_d st) b (cp_m st);
       if b =? 0 then Ok (inr (cp_d st, m))
       else Ok (inl (mk_cp (cp_d st + 1) (cp_s st + 1) m)))
     (fun st => exists k, st = at_ k /\ j <= k <= L)
     (fun r => r = (dest + L, put_bytes dest bs m0))
     (fun st => Z.to_nat (L - (cp_s st - src))) fuel (at_ j))
    as (o & -> & Ho); [|exists j; split_and!; done || lia|cbn; lia|].
  - intros st (k & -> & Hk). eexists; split; [done|]. intros _.
    destruct (byte_step dest src l 0 true m0 m_ok (proj1 at_src) bs_mapped bs_up no_null k)
      as (b & Hb & Hst & Hbc); [cbn; lia|].
    cbn [at_j cp_s cp_d cp_m] in Hb, Hst |- *. rewrite Hb. cbn [mbind result_bind]. rewrite Hst.
    cbn [mbind result_bind]. destruct (Z.eqb_spec b 0) as [Heq|Hne].
    + apply Hbc in Heq as ->. eexists; split; [done|]. cbn. unfold M. do 2 f_equal. apply take_ge.
      rewrite length_app. cbn [length]. lia.
    + eexists; split; [done|]. assert (k <> L) by tauto. split; [|cbn; lia].
      exists (k + 1). split_and!; [unfold at_j; f_equal; lia|lia..].
  - destruct o as [st|r].
    + destruct Ho as [(k & -> & Hk) Hc]. exists k. split; [done|]. left. split; [done|].
      by injection Hc.
    + subst. exists L. split; [lia|by right].
Qed.

Lemma copy_string_end fuel j :
  0 <= j <= L -> (length l < fuel)%nat ->
  copy_string (fun _ => true) fuel (at_ j) = Ok (inr (dest + L, put_bytes dest bs m0)).
Proof using m_ok at_src at_dest up.
  intros Hj Hf. by destruct (copy_string_ok (fun _ => true) fuel j Hj Hf) as (k & _ & [[_ ?]|]).
Qed.

Lemma string_words fuel j :
  0 <= j <= L -> (length l < fuel)%nat -> (src + j) mod 8 = 0 -> (dest + j) mod 8 = 0 ->
  exists k, while (fun st => w ← ldw 8 (cp_s st) (cp_m st); Ok (negb (haszero w)))
              (fun st => st ← copy_word 8 0 st; Ok (advance 8 st)) fuel (at_ j) = Ok (at_ k) /\
            j <= k <= L.
Proof using m_ok m_words at_src at_dest up.
  intros Hj Hf Hs Hd.
  edestruct (while_rule (fun st => w ← ldw 8 (cp_s st) (cp_m st); Ok (negb (haszero w)))
     (fun st => st ← copy_word 8 0 st; Ok (advance 8 st))
     (fun st => exists k, st = at_ k /\ j <= k <= L /\ (src + k) mod 8 = 0 /\ (dest + k) mod 8 = 0)
     (fun st => Z.to_nat (L - (cp_s st - src))) fuel (at_ j))
    as (st & -> & (k & -> & Hk & _) & _); [|exists j; split_and!; done || lia|cbn; lia|by exists k].
  intros st (k & -> & Hk & Hsk & Hdk).
  destruct (src_word_at dest src l 0 true m0 m_ok m_words (proj1 at_src) bs_mapped bs_up k)
    as (ws & Hl & Hb & Hw & Hc); [cbn; lia|done|].
  cbn [at_j cp_s cp_m] in Hw |- *. rewrite Hw. eexists; split; [done|].
  intros Hfw%negb_true_iff. assert (k + 8 <= L) as Hle.
  { destruct (decide (k + 8 <= L)); [done|]. rewrite haszero_finds in Hfw; [done..|].
    apply Hc; [done|lia]. }
  pose proof (copy_word_ok dest src bs m0 m_ok (proj1 at_src) bs_mapped bs_up 8 k 0) as Hcw.
  rewrite !Z.add_0_r in Hcw. rewrite bs_length in Hcw.
  unfold at_j. rewrite Hcw by (done || lia). cbn [mbind result_bind].
  eexists; split; [done|]. split; [|cbn; lia]. exists (k + 8). unfold at_j, advance.
  cbn [cp_d cp_s cp_m]. split_and!; [f_equal; lia|lia..| |]; rewrite Z.add_assoc;
    rewrite <- Z.add_mod_idemp_l by lia; by rewrite ?Hsk, ?Hdk.
Qed.

Lemma stpcpy_ok fuel :
  (length l < fuel)%nat ->
  __stpcpy fuel dest src m0 = Ok (dest + L, put_bytes dest (l ++ [0]) m0).
Proof using m_ok m_words at_src at_dest up.
  intros Hf. unfold __stpcpy. rewrite (at_start dest src bs m0).
  destruct (Z.eqb_spec (src mod 8) (dest mod 8)) as [Heq|]; [|by rewrite copy_string_end by lia].
  destruct (copy_string_ok (fun s => negb (s mod 8 =? 0)) fuel 0 ltac:(lia) Hf)
    as (k & Hk & [[-> Hu%negb_false_iff%Z.eqb_eq]| ->]); cbn [mbind result_bind]; [|done].
  destruct (string_words fuel k) as (i & -> & Hi); [lia|done|done|exact (same_align dest src k Heq Hu)|].
  cbn [mbind result_bind]. by rewrite copy_string_end by lia.
Qed.
End whole.

(** *** strlcpy and strncat *)

Lemma index_of_app_null l r : 0 ∉ l -> index_of 0 (l ++ 0 :: r) = length l.
Proof.
  induction l as [|b l IH]; [done|]. rewrite not_elem_of_cons. intros [Hb Hl].
  cbn [app index_of length]. destruct (Z.eqb_spec b 0); [congruence|]. by rewrite IH.
Qed.

Lemma cstr_put_other a bs m s l :
  cstr m s l -> a + Z.of_nat (length bs) <= s \/ s + Z.of_nat (length l) + 1 <= a ->
  cstr (put_bytes a bs m) s l.
Proof.
  intros [Hs Hl] Hd. split; [|done]. apply bytes_at_put_other; [done|].
  rewrite length_app. cbn [length]. lia.
Qed.

Lemma null_notin m s l k : cstr m s l -> 0 ∉ take k l.
Proof.
  intros [_ H]. apply (Forall_take _ k) in H. rewrite Forall_forall in H. intros [H0 _]%H. lia.
Qed.

Lemma cstr_index m a l bs :
  cstr m a l -> bytes_at m a bs -> (length l < length bs)%nat -> index_of 0 bs = length l.
Proof.
  intros Hs Hbs Hlt. assert (take (length l + 1) bs = l ++ [0])%list as Ht.
  { apply (list_eq_same_length _ _ (length l + 1)); [rewrite length_app; done|rewrite length_take; lia|].
    intros i x y Hi Hx Hy. apply lookup_take_Some in Hx as [Hx _].
    apply Hbs in Hx. apply (proj1 Hs) in Hy. congruence. }
  rewrite <- (take_drop (length l + 1) bs), Ht, <- app_assoc. apply index_of_app_null.
  apply (null_notin m a l (length l)) in Hs. by rewrite firstn_all in Hs.
Qed.

(** What a copy bounded by [n] takes from a string. *)
Lemma string_upto m src full n :
  cstr m src full -> 0 <= n ->
  let l := take (Z.to_nat n) full in
  let hit := Z.of_nat (length full) <? n in
  bytes_at m src (upto l 0 hit) /\ (0 ∉ l) /\
  (length (upto l 0 hit) = length l + (if hit then 1 else 0))%nat /\
  (length (upto l 0 hit) <= length full + 1)%nat /\
  Z.of_nat (length (upto l 0 hit)) <= n /\ (hit = false -> n = Z.of_nat (length l)).
Proof.
  intros Hs Hn l hit. pose proof (length_take full (Z.to_nat n)) as HlL. fold l in HlL.
  assert (length (upto l 0 hit) = length l + (if hit then 1 else 0))%nat as HL.
  { unfold upto. destruct hit; rewrite ?length_app; cbn [length]; lia. }
  split; [|split; [by eapply null_notin|]].
  - destruct Hs as [Hs _]. unfold upto, hit, l.
    destruct (Z.ltb_spec (Z.of_nat (length full)) n); [by rewrite take_ge by lia|].
    rewrite <- (take_drop (Z.to_nat n) full), <- app_assoc in Hs. by apply bytes_at_app in Hs as [Hs _].
  - rewrite HL. unfold hit. destruct (Z.ltb_spec (Z.of_nat (length full)) n); split_and!; lia || done.
Qed.

Section truncate.
Context (dest src : Z) (full : list Z) (n : Z) (m : cmem).
Abbreviation l := (take (Z.to_nat n) full).
Abbreviation L := (Z.of_nat (length l)).
Context (m_ok : bytes_ok m) (m_words : word_mapped m) (at_src : cstr m src full) (n_pos : 0 <= n)
  (at_dest : mapped (length l + 1) dest m)
  (apart : dest + L + 1 <= src \/ src + Z.of_nat (length full) + 1 <= dest).

Lemma terminated_ok : cstr (put_bytes dest (l ++ [0]) m) (src + L) (drop (length l) full).
Proof using at_src apart.
  apply cstr_drop; [rewrite length_take; lia|]. apply cstr_put_other; [done|].
  rewrite length_app. cbn [length]. lia.
Qed.

Lemma terminated_state :
  bytes_ok (put_bytes dest (l ++ [0]) m) /\ word_mapped (put_bytes dest (l ++ [0]) m).
Proof using m_ok m_words at_src at_dest.
  destruct at_src as [_ Hl]. split.
  - apply bytes_ok_put; [done|]. apply Forall_app. split; [|by repeat constructor].
    apply Forall_take. eapply Forall_impl; [exact Hl|]. cbn. lia.
  - apply word_mapped_put; [done|]. intros x Hx. apply at_dest. rewrite length_app in Hx.
    cbn [length] in Hx. lia.
Qed.

Lemma strlcpy_ok fuel :
  (length full + 1 < fuel)%nat ->
  strlcpy fuel dest src (n + 1) m = Ok (Z.of_nat (length full), put_bytes dest (l ++ [0]) m).
Proof using m_ok m_words at_src n_pos at_dest apart.
  intros Hf. unfold strlcpy. destruct (Z.eqb_spec (n + 1) 0); [lia|].
  replace (n + 1 - 1) with n by lia.
  pose proof (length_take full (Z.to_nat n)) as HlL.
  destruct (string_upto m src full n at_src n_pos) as (Hat & Hno & HL & Hle & Hge & Hend).
  set (hit := Z.of_nat (length full) <? n) in *.
  destruct (lcpy_core dest src l 0 hit m) with (n := n) (fuel := fuel) as (st & i & -> & Hcu); try done.
  - rewrite HL. intros x Hx. apply at_dest. destruct hit; lia.
  - rewrite HL. destruct hit; lia.
  - lia.
  - cbn [mbind result_bind]. rewrite Hcu. cbn [mbind result_bind final cp_d cp_s cp_m].
    rewrite st8_put by (apply (mapped_put (length l + 1) _ _ _ dest); [done|lia]).
    assert (put_bytes (dest + L) [0 mod 256] (put_bytes dest (upto l 0 hit) m) =
            put_bytes dest (l ++ [0]) m) as ->.
    { replace (upto l 0 hit) with (l ++ (if hit then [0] else []))%list
        by (unfold upto; destruct hit; [done|apply app_nil_r]).
      apply put_over. destruct hit; cbn [length]; lia. }
    cbn [mbind result_bind]. destruct terminated_state as [Hok Hw].
    rewrite (strlen_ok _ Hok Hw fuel (src + L) (drop (length l) full)) by
      (apply terminated_ok || (rewrite length_drop; lia)).
    cbn [mbind result_bind]. rewrite length_drop. do 2 f_equal. lia.
Qed.

Lemma strncat_loop fuel :
  (length full < fuel)%nat ->
  exists i, while (fun '(st, n) => if n =? 0 then Ok false
                                  else b ← ld8 (cp_s st) (cp_m st); Ok (negb (b =? 0)))
             (fun '(st, n) => st ← copy1 st; Ok (st, n - 1)) fuel (mk_cp dest src m, n) =
           Ok (at_j dest src l m L, i).
Proof using m_ok at_src n_pos at_dest apart.
  intros Hf. pose proof (length_take full (Z.to_nat n)) as HlL. rewrite (at_start dest src l m).
  destruct at_src as [Hs Hnz].
  assert (forall k, 0 <= k <= L -> k <> n ->
    exists b, ld8 (src + k) (cp_m (at_j dest src l m k)) = Ok b /\ (b = 0 <-> k = L)) as Hbyte.
  { intros k Hk Hkn. destruct (lookup_lt_is_Some_2 (full ++ [0]) (Z.to_nat k)) as [b Hb].
    { rewrite length_app. cbn [length]. lia. }
    exists b. split.
    - apply ld8_ok. cbn [at_j cp_m]. unfold M. rewrite lookup_put_bytes, length_take, decide_False by lia.
      replace k with (Z.of_nat (Z.to_nat k)) by lia. by apply Hs.
    - apply lookup_app_Some in Hb as [Hb|[Hge Hb]].
      + apply lookup_lt_Some in Hb as Hlt. rewrite Forall_forall in Hnz.
        apply list_elem_of_lookup_2, Hnz in Hb. lia.
      + apply list_lookup_singleton_Some in Hb as [_ <-]. lia. }
  edestruct (while_rule (fun '(st, n) => if n =? 0 then Ok false
                                  else b ← ld8 (cp_s st) (cp_m st); Ok (negb (b =? 0)))
             (fun '(st, n) => st ← copy1 st; Ok (st, n - 1))
     (fun '(st, i) => exists k, st = at_j dest src l m k /\ i = n - k /\ 0 <= k <= L)
     (fun '(st, i) => Z.to_nat (L - (cp_s st - src))) fuel (at_j dest src l m 0, n))
    as ([st i] & -> & (k & -> & -> & Hk) & Hc); [|exists 0; split_and!; done || lia|cbn; lia|].
  - intros [st i] (k & -> & -> & Hk). destruct (Z.eqb_spec (n - k) 0); [by exists false|].
    destruct (Hbyte k Hk ltac:(lia)) as (b & Hb & Hb0).
    change (cp_s (at_j dest src l m k)) with (src + k). rewrite Hb. eexists; split; [done|].
    intros Hne%negb_true_iff%Z.eqb_neq. assert (k <> L) by tauto.
    assert (bytes_at m src l) as Hl.
    { rewrite <- (take_drop (Z.to_nat n) full), <- app_assoc in Hs. by apply bytes_at_app in Hs as [Hs _]. }
    rewrite (copy1_ok dest src l m m_ok Hl);
      [|intros x Hx; apply at_dest; lia|lia|lia].
    eexists; split; [done|]. split; [|cbn; lia]. exists (k + 1). split_and!; [done|lia..].
  - exists (n - k). do 3 f_equal. destruct (Z.eqb_spec (n - k) 0); [lia|].
    destruct (Hbyte k Hk ltac:(lia)) as (b & Hb & Hb0).
    change (cp_s (at_j dest src l m k)) with (src + k) in Hc. rewrite Hb in Hc.
    injection Hc as Hc%negb_false_iff%Z.eqb_eq. by apply Hb0.
Qed.

Lemma terminate_ok :
  st8 (dest + L) 0 (cp_m (at_j dest src l m L)) = Ok (put_bytes dest (l ++ [0]) m).
Proof using at_dest.
  cbn [at_j cp_m]. unfold M. rewrite Nat2Z.id, firstn_all.
  rewrite st8_put by (apply (mapped_put (length l + 1) _ _ _ dest); [done|lia]).
  by rewrite put_bytes_snoc.
Qed.
End truncate.

(** *** The others *)

Lemma stpncpy_string fuel dest src l n m :
  bytes_ok m -> word_mapped m -> cstr m src l -> mapped (Z.to_nat n) dest m ->
  dest + n <= src \/ src + Z.of_nat (length l) + 1 <= dest -> 0 <= n < 2 ^ 64 ->
  (Z.to_nat n + length l + 1 < fuel)%nat ->
  let cut := take (Z.to_nat n) l in
  __stpncpy fuel dest src n m =
  Ok (dest + Z.of_nat (length cut),
      put_bytes dest (cut ++ replicate (Z.to_nat n - length l) 0) m).
Proof.
  intros Hm Hw Hs Hd Hap Hn Hf cut. pose proof (length_take l (Z.to_nat n)) as HlL.
  destruct (string_upto m src l n Hs ltac:(lia)) as (Hat & Hno & HL & Hle & Hge & Hend).
  unfold cut in *. rewrite (stpncpy_ok dest src (take (Z.to_nat n) l) 0 (Z.of_nat (length l) <? n));
    try done; try lia.
  - do 5 f_equal. lia.
  - intros x Hx. apply Hd. lia.
Qed.

Lemma strncat_ok fuel dest src l0 l n m :
  let k := (length l0 + Z.to_nat n + 1)%nat in
  let cut := take (Z.to_nat n) l in
  bytes_ok m -> word_mapped m -> cstr m src l -> cstr m dest l0 -> mapped k dest m ->
  dest + Z.of_nat k <= src \/ src + Z.of_nat (length l) + 1 <= dest -> 0 <= n ->
  (k + length l < fuel)%nat ->
  strncat fuel dest src n m = Ok (dest, put_bytes (dest + Z.of_nat (length l0)) (cut ++ [0]) m).
Proof.
  intros k cut Hm Hw Hs Hd Hmap Hap Hn Hf. unfold k, cut in *.
  pose proof (length_take l (Z.to_nat n)) as HlL. unfold strncat.
  rewrite (strlen_ok m Hm Hw fuel dest l0 Hd) by lia. cbn [mbind result_bind].
  assert (mapped (length (take (Z.to_nat n) l) + 1) (dest + Z.of_nat (length l0)) m) as Hmap'.
  { intros x Hx. apply Hmap. lia. }
  destruct (strncat_loop (dest + Z.of_nat (length l0)) src l n m Hm Hs Hn Hmap' ltac:(lia) fuel)
    as [i ->]; [lia|].
  cbn [mbind result_bind]. pose proof (terminate_ok (dest + Z.of_nat (length l0)) src l n m Hmap') as Ht.
  cbn [at_j cp_d]. rewrite Ht. done.
Qed.

Lemma strlcat_ok fuel dest src l0 l n m :
  let k := (length l0 + Z.to_nat n + 1)%nat in
  let cut := take (Z.to_nat n) l in
  bytes_ok m -> word_mapped m -> cstr m src l -> cstr m dest l0 -> mapped k dest m ->
  dest + Z.of_nat k <= src \/ src + Z.of_nat (length l) + 1 <= dest -> 0 < dest -> 0 <= n ->
  (k + length l < fuel)%nat ->
  strlcat fuel dest src (Z.of_nat k) m =
  Ok (Z.of_nat (length l0 + length l), put_bytes (dest + Z.of_nat (length l0)) (cut ++ [0]) m).
Proof.
  intros k cut Hm Hw Hs Hd Hmap Hap Hpos Hn Hf. unfold strlcat.
  destruct (mapped_bytes _ _ _ Hmap) as (bs & Hlen & Hbs).
  pose proof (strnlen_ok m fuel dest bs Hm Hbs ltac:(lia) Hpos) as Hsn. rewrite Hlen in Hsn. rewrite Hsn.
  rewrite (cstr_index m dest l0 bs Hd Hbs) by lia. cbn [mbind result_bind].
  destruct (Z.eqb_spec (Z.of_nat (length l0)) (Z.of_nat k)); [lia|].
  pose proof (length_take l (Z.to_nat n)) as HlL. unfold cut, k in *.
  replace (Z.of_nat (length l0 + Z.to_nat n + 1) - Z.of_nat (length l0)) with (n + 1) by lia.
  rewrite (strlcpy_ok (dest + Z.of_nat (length l0)) src l n m); try done; try lia;
    [|intros x Hx; apply Hmap; lia].
  cbn [mbind result_bind]. do 2 f_equal. lia.
Qed.

(** Up to the first [c] of a block. *)
Lemma memccpy_bytes fuel dest src c bs m :
  let i := index_of (u8 c) bs in
  bytes_ok m -> word_mapped m -> bytes_at m src bs -> mapped (length bs) dest m ->
  dest + Z.of_nat (length bs) <= src \/ src + Z.of_nat (length bs) <= dest ->
  (length bs < fuel)%nat ->
  memccpy fuel dest src c (Z.of_nat (length bs)) m =
  Ok (if (i <? length bs)%nat then dest + Z.of_nat i + 1 else 0, put_bytes dest (take (i + 1) bs) m).
Proof.
  intros i Hm Hw Hs Hd Hap Hf. pose proof (index_of_le (u8 c) bs) as Hi. fold i in Hi.
  assert (upto (take i bs) (u8 c) (i <? length bs)%nat = take (i + 1) bs) as Hu.
  { unfold upto. destruct (Nat.ltb_spec i (length bs)) as [Hlt|Hge].
    - rewrite Nat.add_1_r. symmetry. apply take_S_r. by apply index_of_at.
    - by rewrite !take_ge by lia. }
  assert (length (take i bs) = i) as Hl by (rewrite length_take; lia).
  assert (length (take (i + 1) bs) = (i + 1) `min` length bs)%nat as Hl1 by apply length_take.
  rewrite (memccpy_ok dest src (take i bs) (u8 c) (i <? length bs)%nat m); rewrite ?Hu, ?Hl, ?Hl1; try done.
  - rewrite <- (take_drop (i + 1) bs) in Hs. by apply bytes_at_app in Hs as [Hs _].
  - intros x Hx. apply Hd. lia.
  - lia.
  - intros [j Hj]%list_elem_of_lookup. apply lookup_take_Some in Hj as [Hj Hji].
    by apply (index_of_before (u8 c) bs j (u8 c)).
  - lia.
  - intros Hge%Nat.ltb_ge. lia.
  - lia.
Qed.

(** ** What the functions do *)

(** [m'] is [m] with the string [l] at [a], and nothing changed outside [n] bytes there. *)
Definition holds (m : cmem) (a : Z) (n : nat) (l : list Z) (m' : cmem) : Prop :=
  cstr m' a l /\ forall x, ~ (a <= x < a + Z.of_nat n) -> m' !! x = m !! x.

Lemma holds_append m a l0 l n :
  cstr m a l0 -> Forall (fun b => 0 < b < 256) l -> (length l0 + length l + 1 <= n)%nat ->
  holds m a n (l0 ++ l) (put_bytes (a + Z.of_nat (length l0)) (l ++ [0]) m).
Proof.
  intros [Hs H0] Hl Hn. split; [split; [|by apply Forall_app]|].
  - rewrite <- app_assoc. apply bytes_at_app. split; [|apply bytes_at_put].
    apply bytes_at_put_other; [by apply bytes_at_app in Hs as [Hs _]|lia].
  - intros x Hx. rewrite lookup_put_bytes, length_app, decide_False; [done|]. cbn [length]. lia.
Qed.

Lemma holds_put m a l n :
  Forall (fun b => 0 < b < 256) l -> (length l + 1 <= n)%nat ->
  holds m a n l (put_bytes a (l ++ [0]) m).
Proof.
  intros Hl Hn. split; [split; [apply bytes_at_put|done]|]. intros x Hx.
  rewrite lookup_put_bytes, length_app, decide_False; [done|]. cbn [length]. lia.
Qed.

(** C38: copying a string, or appending it to the string at the destination,
    terminates with the string there and nothing else changed, whether the
    two are aligned alike (then whole words are copied) or not; [stpcpy]
    returns the address of the null it wrote. *)
Theorem str_copy_spec fuel dest src l0 l m :
  let n := (length l0 + length l + 1)%nat in
  bytes_ok m -> word_mapped m -> cstr m src l -> cstr m dest l0 -> mapped n dest m ->
  dest + Z.of_nat n <= src \/ src + Z.of_nat (length l) + 1 <= dest -> (n < fuel)%nat ->
  exists m1 m2,
    __stpcpy fuel dest src m = Ok (dest + Z.of_nat (length l), m1) /\
    strcpy fuel dest src m = Ok (dest, m1) /\ holds m dest (length l + 1) l m1 /\
    strcat fuel dest src m = Ok (dest, m2) /\ holds m dest n (l0 ++ l) m2.
Proof.
  intros n Hm Hw Hs Hd Hmap Hap Hf. unfold n in *. pose proof (proj2 Hs) as Hl.
  assert (__stpcpy fuel dest src m = Ok (dest + Z.of_nat (length l), put_bytes dest (l ++ [0]) m)) as H1.
  { apply stpcpy_ok; try done; [intros x Hx; apply Hmap| |]; lia. }
  assert (__stpcpy fuel (dest + Z.of_nat (length l0)) src m =
          Ok (dest + Z.of_nat (length l0) + Z.of_nat (length l),
              put_bytes (dest + Z.of_nat (length l0)) (l ++ [0]) m)) as H2.
  { apply stpcpy_ok; try done; [intros x Hx; apply Hmap| |]; lia. }
  do 2 eexists. unfold strcat, strcpy. rewrite H1, (strlen_ok m Hm Hw fuel dest l0 Hd) by lia.
  cbn [mbind result_bind]. rewrite H2. split_and!; [done|done| |done|].
  - by apply holds_put.
  - by apply holds_append.
Qed.

(** The bounded copies. [stpncpy] and [strncpy] write exactly [n] bytes,
    the first characters and then nulls; [strlcpy] always terminates what it
    could fit and returns the length it would have needed; [strncat] and
    [strlcat] append up to [n] characters to the string at the destination;
    [memccpy] copies up to the first [c] and returns the address past it. *)
Theorem str_bounded_spec fuel dest src c l0 l n m :
  let k := (length l0 + Z.to_nat n + 1)%nat in
  let cut := take (Z.to_nat n) l in
  let bs := take (Z.to_nat n) (l ++ [0]) in
  let i := index_of (u8 c) bs in
  bytes_ok m -> word_mapped m -> cstr m src l -> cstr m dest l0 -> mapped k dest m ->
  dest + Z.of_nat k <= src \/ src + Z.of_nat (length l) + 1 <= dest ->
  0 < dest -> 0 <= n < 2 ^ 64 -> (k + length l < fuel)%nat ->
  (exists m1, __stpncpy fuel dest src n m = Ok (dest + Z.of_nat (length cut), m1) /\
     strncpy fuel dest src n m = Ok (dest, m1) /\
     copied m dest (cut ++ replicate (Z.to_nat n - length l) 0) m1) /\
  (exists m2, strlcpy fuel dest src (n + 1) m = Ok (Z.of_nat (length l), m2) /\
     holds m dest (Z.to_nat n + 1) cut m2) /\
  (exists m3, strncat fuel dest src n m = Ok (dest, m3) /\
     strlcat fuel dest src (Z.of_nat k) m = Ok (Z.of_nat (length l0 + length l), m3) /\
     holds m dest k (l0 ++ cut) m3) /\
  (n <= Z.of_nat (length l) + 1 ->
   exists m4, memccpy fuel dest src c n m =
       Ok (if (i <? length bs)%nat then dest + Z.of_nat i + 1 else 0, m4) /\
     copied m dest (take (i + 1) bs) m4).
Proof.
  intros k cut bs i Hm Hw Hs Hd Hmap Hap Hpos Hn Hf. unfold k, cut in *.
  pose proof (length_take l (Z.to_nat n)) as HlL.
  assert (Forall (fun b => 0 < b < 256) (take (Z.to_nat n) l)) as Hcut by apply Forall_take, Hs.
  split_and!.
  - eexists. unfold strncpy. rewrite (stpncpy_string fuel dest src l n m); try done; try lia;
      [|intros x Hx; apply Hmap; lia].
    split_and!; [done|done|]. apply copied_put.
  - eexists. rewrite (strlcpy_ok dest src l n m); try done; try lia; [|intros x Hx; apply Hmap; lia].
    split; [done|]. apply holds_put; [done|lia].
  - eexists. rewrite (strncat_ok fuel dest src l0 l n m), (strlcat_ok fuel dest src l0 l n m) by (done || lia).
    split_and!; [done|done|]. apply holds_append; [done|done|lia].
  - intros Hle. assert (Z.of_nat (length bs) = n) as Hlen
      by (unfold bs; rewrite length_take, length_app; cbn [length]; lia).
    eexists. split; [|apply copied_put]. rewrite <- Hlen at 1. apply memccpy_bytes; try done.
    + destruct Hs as [Hs _]. rewrite <- (take_drop (Z.to_nat n) (l ++ [0])) in Hs.
      by apply bytes_at_app in Hs as [Hs _].
    + intros x Hx. apply Hmap. lia.
    + lia.
    + lia.
Qed.

(** ** Examples *)
Module ToyStr.
(** The string ["help"] at 64, room with the string ["he"] at 80. *)
Definition m : cmem := region 64 (ToyMem.help ++ replicate 12 0 ++ [104; 101] ++ replicate 14 0).

Lemma str_toy_ok : bytes_ok m.
Proof. by apply bytes_ok_compute; vm_compute. Qed.

Lemma str_toy_words : word_mapped m.
Proof. by apply word_mapped_compute; vm_compute. Qed.

Lemma toy_src : cstr m 64 ToyMem.help.
Proof. by apply cstr_compute; vm_compute. Qed.

Lemma toy_dest : cstr m 80 [104; 101].
Proof. by apply cstr_compute; vm_compute. Qed.

Lemma toy_room : mapped 16 80 m.
Proof.
  assert (bytes_at m 80 ([104; 101] ++ replicate 14 0)) as H by by apply bytes_at_compute; vm_compute.
  apply (bytes_at_mapped _ _ _ H).
Qed.

Lemma toy_part n : (n <= 16)%nat -> mapped n 80 m.
Proof. intros Hn x Hx. apply toy_room. lia. Qed.

Lemma str_copy_spec_witness :
  exists m2, strcat 20 80 64 m = Ok (80, m2) /\ cstr m2 80 [104; 101; 104; 101; 108; 112].
Proof.
  destruct (str_copy_spec 20 80 64 [104; 101] ToyMem.help m str_toy_ok str_toy_words toy_src toy_dest)
    as (m1 & m2 & _ & _ & _ & H & [Hc _]); [apply toy_part; cbn; lia|cbn; lia|cbn; lia|].
  exists m2. split; [exact H|exact Hc].
Defined.

Lemma str_bounded_spec_witness :
  exists m1 m2, strncpy 20 80 64 3 m = Ok (80, m1) /\ copied m 80 [104; 101; 108] m1 /\
    strlcpy 20 80 64 4 m = Ok (4, m2) /\ cstr m2 80 [104; 101; 108].
Proof.
  destruct (str_bounded_spec 20 80 64 108 [104; 101] ToyMem.help 3 m str_toy_ok str_toy_words toy_src toy_dest)
    as ((m1 & _ & H1 & C1) & (m2 & H2 & [C2 _]) & _);
    [apply toy_part; cbn; lia|cbn; lia|lia|lia|cbn; lia|].
  exists m1, m2. split; [exact H1|]. split; [exact C1|]. split; [exact H2|exact C2].
Defined.
End ToyStr.
