(* ===== verification/TwoWay.v ===== *)
(** * Periods, maximal suffixes and critical positions of words

    The facts on words behind the two-way string search of
    [lib/guest_bw/string/memmem.c] and [strstr.c]: how the maximal suffix of a
    word and its period are found in one pass, and why a position given by the
    maximal suffixes for two opposite orders is critical. A word is a function
    on positions and a length. *)

From S2P Require Import Prelude.
#[local] Open Scope nat_scope.

Section word.
Context (w : nat -> Z) (l : nat).

(** The word repeats itself after [d] letters. *)
Definition period (d : nat) : Prop := forall i, i + d < l -> w i = w (i + d).

(** The letters around position [s], as far as they are there, repeat after
    [r] letters. *)
Definition repeats_at (s r : nat) : Prop :=
  forall i, i < s -> s <= i + r -> i + r < l -> w i = w (i + r).

(** ** The order of suffixes

    For an order [R] of the letters: the suffix at [q] comes before the suffix
    at [s] because of a letter, or because it is a prefix of it. *)
Section order.
Context (R : Z -> Z -> Prop).

Definition before (q s : nat) : Prop :=
  exists i, q + i < l /\ s + i < l /\ (forall j, j < i -> w (q + j) = w (s + j)) /\
    R (w (q + i)) (w (s + i)).

Definition prefix_of (q s : nat) : Prop := s <= q /\ forall j, q + j < l -> w (q + j) = w (s + j).

(** The suffix at [s] is the greatest. *)
Definition max_suffix (s : nat) : Prop := forall q, q < l -> before q s \/ prefix_of q s.

End order.

Lemma before_flip R q s : before R q s -> before (fun x y => R y x) s q.
Proof.
  intros (i & H1 & H2 & He & HR). exists i. split_and!; try done. intros j Hj. symmetry. by apply He.
Qed.

(** The first letters that differ are determined. *)
Lemma before_unique (R1 R2 : Z -> Z -> Prop) q s :
  (forall x, ~ R1 x x) -> (forall x, ~ R2 x x) -> before R1 q s -> before R2 q s ->
  exists x y, R1 x y /\ R2 x y.
Proof.
  intros I1 I2 (i & _ & _ & Hi & R1i) (j & _ & _ & Hj & R2j).
  destruct (lt_eq_lt_dec i j) as [[Hlt| ->]|Hlt]; [|by eauto|].
  - rewrite (Hj i Hlt) in R1i. by destruct (I1 _ R1i).
  - rewrite (Hi j Hlt) in R2j. by destruct (I2 _ R2j).
Qed.

Lemma before_not_prefix R q s : (forall x, ~ R x x) -> before R q s -> ~ prefix_of q s.
Proof.
  intros I (i & Hq & _ & _ & HR) [_ Hp]. rewrite (Hp i Hq) in HR. by destruct (I _ HR).
Qed.

Lemma before_trans R q s t :
  (forall x y z, R x y -> R y z -> R x z) -> before R q s -> before R s t -> before R q t.
Proof.
  intros Ht (i & Hq & Hs & Hi & HRi) (j & Hs' & Htt & Hj & HRj).
  destruct (lt_eq_lt_dec i j) as [[Hlt| ->]|Hlt].
  - exists i. split_and!; try lia.
    + intros x Hx. rewrite Hi by lia. apply Hj. lia.
    + by rewrite <- Hj.
  - exists j. split_and!; try lia; [|by eapply Ht]. intros x Hx. rewrite Hi by lia. by apply Hj.
  - exists j. split_and!; try lia.
    + intros x Hx. rewrite Hi by lia. by apply Hj.
    + by rewrite Hi.
Qed.

(** ** Critical positions

    The shorter of the two maximal suffixes, for an order and its opposite,
    starts at a critical position: every repetition around it is longer than
    what precedes it, and is a period of the whole word. *)
Section critical.
Context (R : Z -> Z -> Prop) (Rirr : forall x, ~ R x x) (Rasym : forall x y, R x y -> ~ R y x).
Context (s s' : nat) (Hmax : max_suffix R s) (Hmax' : max_suffix (fun x y => R y x) s').
Context (Hs : s < l) (Hle : s' <= s).

Lemma repetition_long r : 0 < r -> repeats_at s r -> s < r.
Proof.
  intros Hr Hrep. destruct (le_lt_dec r s) as [Hrs|]; [exfalso|done].
  destruct (Hmax (s - r)) as [(i & Hq & Hsi & Hi & HR)|[? _]]; [lia| |lia].
  destruct (le_lt_dec r i) as [Hri|Hri].
  - assert (before R s (s + r)) as Hb.
    { exists (i - r). split_and!; [lia|lia| |].
      - intros j Hj. replace (s + j) with (s - r + (j + r)) by lia. rewrite Hi by lia. f_equal. lia.
      - replace (s + (i - r)) with (s - r + i) by lia.
        replace (s + r + (i - r)) with (s + i) by lia. done. }
    apply before_flip in Hb. destruct (Hmax (s + r)) as [Hb'|Hp]; [lia| |].
    + destruct (before_unique _ _ _ _ (fun x => Rirr x) (fun x => Rirr x) Hb Hb') as (x & y & H1 & H2).
      by destruct (Rasym x y).
    + by apply (before_not_prefix (fun x y => R y x) _ _ (fun x => Rirr x) Hb).
  - rewrite (Hrep (s - r + i)) in HR by lia.
    replace (s - r + i + r) with (s + i) in HR by lia. by destruct (Rirr _ HR).
Qed.

Lemma repetition_period r : 0 < r -> repeats_at s r -> period r.
Proof.
  intros Hr Hrep. pose proof (repetition_long r Hr Hrep) as Hsr. intros i Hi.
  destruct (le_lt_dec s i) as [Hsi|]; [|apply Hrep; lia].
  destruct (Hmax' (s' + r)) as [(j & H1 & H2 & Hj & HR)|[_ Hp]]; [lia| |].
  - assert (s <= s' + j) as Hsj.
    { destruct (le_lt_dec s (s' + j)) as [|Hlt]; [done|exfalso].
      rewrite (Hrep (s' + j)) in HR by lia.
      replace (s' + r + j) with (s' + j + r) in HR by lia. by destruct (Rirr _ HR). }
    assert (before (fun x y => R y x) (s + r) s) as Hb.
    { exists (s' + j - s). split_and!; [lia|lia| |].
      - intros k Hk. replace (s + r + k) with (s' + r + (s - s' + k)) by lia.
        rewrite Hj by lia. f_equal. lia.
      - replace (s + (s' + j - s)) with (s' + j) by lia.
        replace (s + r + (s' + j - s)) with (s' + r + j) by lia. done. }
    exfalso. destruct (Hmax (s + r)) as [Hb'|Hp]; [lia| |].
    + destruct (before_unique _ _ _ _ (fun x => Rirr x) (fun x => Rirr x) Hb Hb') as (x & y & ? & ?).
      by destruct (Rasym x y).
    + by apply (before_not_prefix (fun x y => R y x) _ _ (fun x => Rirr x) Hb).
  - replace (i + r) with (s' + r + (i - s')) by lia. rewrite Hp by lia. f_equal. lia.
Qed.

End critical.

Definition critical (s : nat) : Prop :=
  s < l /\ forall r, 0 < r -> repeats_at s r -> s < r /\ period r.

Lemma max_suffixes_critical (R : Z -> Z -> Prop) s s' :
  (forall x, ~ R x x) -> (forall x y, R x y -> ~ R y x) ->
  max_suffix R s -> max_suffix (fun x y => R y x) s' -> s < l -> s' <= s -> critical s.
Proof.
  intros Hi Ha Hm Hm' Hs Hle. split; [done|]. intros r Hr Hrep. split.
  - by eapply (repetition_long R).
  - by eapply (repetition_period R).
Qed.

(** ** The period of the word from the period of its right half *)

Definition suffix_period (s d : nat) : Prop := forall i, s <= i -> i + d < l -> w i = w (i + d).

(** [p] is the least period of the suffix at [s]. *)
Definition least_period (s p : nat) : Prop :=
  0 < p /\ p <= l - s /\ suffix_period s p /\ forall d, 0 < d -> d < p -> ~ suffix_period s d.

Section split.
Context (s p : nat) (Hc : critical s) (Hp : least_period s p).

Lemma period_suffix d : period d -> suffix_period s d.
Proof. intros Hd i _. apply Hd. Qed.

Lemma period_repeats d : period d -> repeats_at s d.
Proof. intros Hd i _ _. apply Hd. Qed.

Lemma period_ge d : 0 < d -> period d -> p <= d.
Proof.
  intros Hd Hper. destruct Hp as (_ & _ & _ & Hmin). destruct (le_lt_dec p d) as [|Hlt]; [done|].
  by destruct (Hmin d Hd Hlt (period_suffix d Hper)).
Qed.

Lemma period_gt_left d : 0 < d -> period d -> s < d.
Proof. intros Hd Hper. destruct Hc as [_ Hc']. by apply (Hc' d Hd), period_repeats. Qed.

Lemma left_agrees : (forall i, i < s -> w i = w (i + p)) -> period p.
Proof.
  intros Hl i Hi. destruct Hp as (_ & _ & Hsp & _). destruct (le_lt_dec s i); [by apply Hsp|by apply Hl].
Qed.

(** A period of the word that the right half has room for makes the least
    period of the right half one of the word. *)
Lemma short_period d : 0 < d -> d <= l - s -> period d -> period p.
Proof.
  destruct Hc as [Hs Hc']. pose proof Hp as (Hp0 & _ & Hsp & _).
  induction d as [d IH] using lt_wf_ind. intros Hd Hle Hper.
  destruct (decide (d = p)) as [<-|Hne]; [done|].
  pose proof (period_ge d Hd Hper) as Hge. apply (IH (d - p)); [lia|lia|lia|].
  apply (Hc' (d - p)); [lia|]. intros i Hi Hsi Hl. rewrite (Hper i) by lia.
  rewrite (Hsp (i + (d - p))) by lia. f_equal. lia.
Qed.

Lemma long_period d : ~ period p -> 0 < d -> period d -> s < d /\ l - s < d.
Proof.
  intros Hn Hd Hper. split; [by apply period_gt_left|].
  destruct (le_lt_dec d (l - s)) as [Hle|]; [|done]. by destruct Hn; apply (short_period d).
Qed.

(** ** Shifts that miss no occurrence

    [h] is the text from the window on. *)
Section shifts.
Context (h : nat -> Z).

Definition occurs (d : nat) : Prop := forall i, i < l -> h (d + i) = w i.

(** The right half matches up to [k] and not there. *)
Lemma shift_mismatch k d :
  s <= k -> k < l -> (forall i, s <= i -> i < k -> h i = w i) -> h k <> w k ->
  d <= k - s -> ~ occurs d.
Proof.
  intros Hsk Hk Hm Hne Hd Hocc. destruct (decide (d = 0)) as [->|Hd0]; [by apply Hne, (Hocc k)|].
  destruct Hc as [Hs Hc']. destruct (Hc' d) as [_ Hper]; [lia| |].
  - intros i Hi Hsi Hl. rewrite <- (Hocc i) by lia. rewrite Nat.add_comm. apply Hm; lia.
  - apply Hne. replace k with (d + (k - d)) at 1 by lia. rewrite Hocc by lia.
    rewrite (Hper (k - d)) by lia. f_equal. lia.
Qed.

(** The whole right half matches. *)
Lemma shift_matched d :
  (forall i, s <= i -> i < l -> h i = w i) -> 0 < d -> occurs d -> period d.
Proof.
  intros Hm Hd Hocc. destruct Hc as [_ Hc']. apply (Hc' d Hd).
  intros i Hi Hsi Hl. rewrite <- (Hocc i) by lia. rewrite Nat.add_comm. apply Hm; lia.
Qed.

(** The last letter is wrong in a window whose first letters are known. *)
Lemma shift_known d :
  period p -> (forall i, i < l - p -> h i = w i) -> h (l - 1) <> w (l - 1) ->
  d < l - p -> ~ occurs d.
Proof.
  intros Hper Hm Hne Hd Hocc. apply Hne. destruct Hp as (Hp0 & _).
  replace (l - 1) with (d + (l - 1 - d)) at 1 by lia. rewrite Hocc by lia.
  replace (w (l - 1)) with (w (l - p - 1 + p)) by (f_equal; lia). rewrite <- Hper by lia.
  rewrite <- (Hm (l - p - 1)) by lia.
  replace (l - p - 1) with (d + (l - p - 1 - d)) by lia. rewrite Hocc by lia.
  rewrite (Hper (l - p - 1 - d)) by lia. f_equal. lia.
Qed.

(** After a shift by the period the first letters are known. *)
Lemma shifted_known :
  period p -> (forall i, s <= i -> i < l -> h i = w i) -> forall i, i < l - p -> h (p + i) = w i.
Proof.
  intros Hper Hm i Hi. pose proof Hp as (Hp0 & _). pose proof (period_gt_left p Hp0 Hper).
  rewrite Hm by lia. rewrite (Hper i) by lia. f_equal. lia.
Qed.

End shifts.
End split.

(** ** Finding the maximal suffix

    The pass over the word: [s] is the start of the greatest suffix of what
    was read, [j] a later position whose letters are compared with those at
    [s], [k] how many of them agreed, and [p] the period so far. *)
Section maxsuffix.
Context (R : Z -> Z -> Prop) (Rirr : forall x, ~ R x x).
Context (Rtrans : forall x y z, R x y -> R y z -> R x z).

(** A position inside the period loses to its start before the period ends. *)
Definition loses (s p m : nat) : Prop :=
  exists i, m + i < p /\ (forall j, j < i -> w (s + m + j) = w (s + j)) /\ R (w (s + m + i)) (w (s + i)).

Record suffix_inv (s j k p : nat) : Prop := {
  si_k : k < p;
  si_j : exists e, 0 < e /\ j = s + e * p;
  si_len : j + k <= l;
  si_period : forall i, s <= i -> i + p < j + k -> w i = w (i + p);
  si_left : forall q, q < s -> before R q s;
  si_inner : forall m, 0 < m -> m < p -> loses s p m;
}.

Lemma suffix_init : 0 < l -> suffix_inv 0 1 0 1.
Proof.
  intros Hl. split; try (intros; lia). exists 1. lia.
Qed.

Section step.
Context (s j k p : nat) (Hinv : suffix_inv s j k p).

Lemma periods e i : s <= i -> i + e * p < j + k -> w i = w (i + e * p).
Proof.
  revert i. induction e as [|e IH]; intros i Hi Ht; [f_equal; lia|].
  simpl in Ht |- *. rewrite (si_period _ _ _ _ Hinv i) by lia. rewrite (IH (i + p)) by lia. f_equal. lia.
Qed.

Lemma compared x : x < k -> w (j + x) = w (s + x).
Proof.
  intros Hx. destruct (si_j _ _ _ _ Hinv) as (e & He & Hj). symmetry.
  rewrite (periods e) by lia. f_equal. lia.
Qed.

(** Every position after [s] lies at some offset in some period. *)
Lemma offset q : s <= q -> exists e m, q = s + m + e * p /\ m < p.
Proof.
  intros Hq. pose proof (si_k _ _ _ _ Hinv). exists ((q - s) / p), ((q - s) mod p).
  pose proof (Nat.div_mod (q - s) p). pose proof (Nat.mod_upper_bound (q - s) p). lia.
Qed.

Lemma suffix_equal :
  j + k < l -> w (j + k) = w (s + k) ->
  if k + 1 =? p then suffix_inv s (j + p) 0 p else suffix_inv s j (k + 1) p.
Proof.
  intros Hl Heq. pose proof Hinv as [Hk (e & He & Hj) Hlen Hper Hleft Hin].
  assert (forall i, s <= i -> i + p < j + k + 1 -> w i = w (i + p)) as Hper'.
  { intros i Hi Ht. destruct (decide (i + p = j + k)) as [Ht'|]; [|apply Hper; lia].
    rewrite Ht', Heq. symmetry. destruct e as [|e]; [lia|]. rewrite (periods e) by lia. f_equal. lia. }
  destruct (Nat.eqb_spec (k + 1) p) as [Hp|Hp].
  - split; try done; [lia|exists (S e); lia|lia|]. intros i Hi Ht. apply Hper'; lia.
  - split; try done; [lia|by exists e|lia|]. intros i Hi Ht. apply Hper'; lia.
Qed.

(** The letter at [j + k] is smaller than the one at [s + k]: every position up
    to it loses to [s]. *)
Lemma loses_at m :
  j + k < l -> R (w (j + k)) (w (s + k)) -> 0 < m -> m < j + k + 1 - s ->
  loses s (j + k + 1 - s) m.
Proof.
  intros Hl HR Hm0 Hm. pose proof Hinv as [Hk (f & Hf & Hj) _ _ _ Hin].
  destruct (offset (s + m)) as (e & m' & Hq & Hm'); [lia|].
  assert (forall x, m + x < j + k - s -> w (s + m + x) = w (s + m' + x)) as Hsame.
  { intros x Hx. rewrite (periods e (s + m' + x)) by lia. f_equal. lia. }
  assert (e <= f) as Hef by nia.
  destruct (decide (m' = 0)) as [->|Hm'0].
  - exists (j + k - s - m). split_and!; [lia| |].
    + intros x Hx. rewrite Hsame by lia. f_equal. lia.
    + replace (s + m + (j + k - s - m)) with (j + k) by lia.
      replace (s + (j + k - s - m)) with (s + k + (f - e) * p) by nia.
      rewrite <- periods; [done|lia|nia].
  - destruct (Hin m') as (i & Hi & Hx & HRi); [lia|lia|].
    destruct (le_lt_dec (j + k - s) (m + i)) as [Hge|Hlt].
    + exists (j + k - s - m). split_and!; [lia| |].
      * intros x Hx'. rewrite Hsame by lia. apply Hx. lia.
      * replace (s + m + (j + k - s - m)) with (j + k) by lia.
        assert (k = m' + (j + k - s - m)) as Hkm by (assert (e = f) by nia; nia).
        set (y := j + k - s - m) in *.
        destruct (decide (y = i)) as [->|Hne].
        -- eapply Rtrans; [done|]. rewrite Hkm. by rewrite Nat.add_assoc.
        -- rewrite <- (Hx y) by lia. rewrite Hkm in HR at 2. by rewrite Nat.add_assoc in HR.
    + exists i. split_and!; [lia| |].
      * intros x Hx'. rewrite Hsame by lia. by apply Hx.
      * by rewrite Hsame by lia.
Qed.

Lemma suffix_less :
  j + k < l -> R (w (j + k)) (w (s + k)) -> suffix_inv s (j + k + 1) 0 (j + k + 1 - s).
Proof.
  intros Hl HR. pose proof Hinv as [Hk (f & Hf & Hj) _ _ Hleft _].
  split; [lia|exists 1; lia|lia|intros; lia|done|]. intros m Hm0 Hm. by apply loses_at.
Qed.

(** The letter at [j + k] is greater: [j] starts a greater suffix than every
    position before it. *)
Lemma before_j q : j + k < l -> R (w (s + k)) (w (j + k)) -> q < j -> before R q j.
Proof.
  intros Hl HR Hq. pose proof Hinv as [Hk (f & Hf & Hj) _ _ Hleft Hin].
  assert (before R s j) as Hsj.
  { exists k. split_and!; [nia|lia| |done]. intros x Hx. symmetry. by apply compared. }
  destruct (le_lt_dec s q) as [Hsq|]; [|eapply before_trans; eauto].
  destruct (offset q Hsq) as (e & m & Hqe & Hm).
  assert (e < f) as Hef by nia.
  assert (forall x, q + x < j + k -> w (q + x) = w (s + m + x)) as Hsame.
  { intros x Hx. rewrite (periods e (s + m + x)) by lia. f_equal. lia. }
  destruct (decide (m = 0)) as [->|Hm0].
  - exists k. split_and!; [lia|lia| |].
    + intros x Hx. rewrite Hsame by lia. rewrite compared by done. f_equal. lia.
    + rewrite Hsame by lia. by rewrite Nat.add_0_r.
  - destruct (Hin m) as (i & Hi & Hx & HRi); [lia|lia|].
    apply before_trans with s; [done| |done].
    assert (q + i < j) as Hqi by nia. exists i. split_and!; [lia|lia| |].
    + intros x Hx'. rewrite Hsame by lia. by apply Hx.
    + by rewrite Hsame by lia.
Qed.

Lemma suffix_greater :
  j + k < l -> R (w (s + k)) (w (j + k)) -> suffix_inv j (j + 1) 0 1.
Proof.
  intros Hl HR. split; try (intros; lia); [exists 1; lia|]. intros q Hq. by apply before_j.
Qed.

(** At the end of the word [s] starts its maximal suffix, whose least period
    is [p]. *)
Lemma suffix_max : j + k = l -> max_suffix R s /\ least_period s p.
Proof.
  intros Hl. pose proof Hinv as [Hk (f & Hf & Hj) _ Hper Hleft Hin]. split.
  - intros q Hq. destruct (le_lt_dec s q) as [Hsq|]; [|left; auto].
    destruct (offset q Hsq) as (e & m & Hqe & Hm).
    assert (forall x, q + x < l -> w (q + x) = w (s + m + x)) as Hsame.
    { intros x Hx. rewrite (periods e (s + m + x)) by lia. f_equal. lia. }
    destruct (decide (m = 0)) as [->|Hm0].
    { right. split; [done|]. intros x Hx. rewrite Hsame by done. f_equal. lia. }
    destruct (Hin m) as (i & Hi & Hx & HRi); [lia|lia|].
    destruct (le_lt_dec l (q + i)) as [Hge|Hlt].
    + right. split; [done|]. intros x Hx'. rewrite Hsame by done. apply Hx. lia.
    + left. exists i. split_and!; [lia|lia| |].
      * intros x Hx'. rewrite Hsame by lia. by apply Hx.
      * by rewrite Hsame by lia.
  - split_and!; [lia|nia|intros i Hi Ht; apply Hper; lia|].
    intros d Hd Hdp Hsp. destruct (Hin d Hd Hdp) as (i & Hi & _ & HR).
    rewrite (Hsp (s + i)) in HR by nia. replace (s + i + d) with (s + d + i) in HR by lia.
    by destruct (Rirr _ HR).
Qed.

End step.
End maxsuffix.
End word.
