(* ===== verification/TwoWayOps.v ===== *)
(** * The two-way search, apart from how the text is stored

    The parts that [memmem], [strstr] and [wcsstr] of [lib/guest_bw/string]
    have in common, with the same text in the three files: the critical
    factorization of the needle, and the comparison of a window. They read
    the needle and the window through [ldn] and [ldh], by position. *)

From S2P Require Import Prelude CLoop TwoWay.
#[local] Open Scope Z_scope.

Section ops.
Context (ldn ldh : Z -> result Z).
Implicit Types (fuel : nat) (l k p ms mem : Z).

(** The loop that computes a maximal suffix, with the comparison [gt] of two
    elements: its body on [ip], [jp], [k] and [p], and the last [ip] and [p]. *)
Definition suffix_step (gt : Z -> Z -> bool) (st : Z * Z * Z * Z) : result (Z * Z * Z * Z) :=
  let '(ip, jp, k, p) := st in
  a ← ldn (u64 (ip + k));
  b ← ldn (u64 (jp + k));
  Ok (if a =? b then
        if k =? p then (ip, u64 (jp + p), 1, p) else (ip, jp, u64 (k + 1), p)
      else if gt a b then
        let jp := u64 (jp + k) in (ip, jp, 1, u64 (jp - ip))
      else (jp, u64 (jp + 1), 1, 1)).

Definition suffix_pass (gt : Z -> Z -> bool) fuel l : result (Z * Z) :=
  '(ip, _, _, p) ←
    while (fun '(ip, jp, k, p) => Ok (u64 (jp + k) <? l)) (suffix_step gt)
      fuel (u64 (-1), 0, 1, 1);
  Ok (ip, p).

(** The position [ms] and the period [p]. *)
Definition factorize fuel l : result (Z * Z) :=
  '(ms, p0) ← suffix_pass (fun a b => b <? a) fuel l;
  '(ip, p) ← suffix_pass (fun a b => a <? b) fuel l;
  Ok (if u64 (ms + 1) <? u64 (ip + 1) then (ip, p) else (ms, p0)).

(** [p] and [mem0], after the test for a periodic needle; [cmp] compares so many
    elements of the needle with those [p] further on. *)
Definition periodic (cmp : Z -> Z -> result Z) l ms p : result (Z * Z) :=
  d ← cmp p (u64 (ms + 1));
  Ok (if negb (d =? 0) then (u64 (Z.max ms (u64 (l - ms - 1)) + 1), 0) else (p, u64 (l - p))).

(** [more] says whether [k] is still in the needle. *)
Definition right_half (more : Z -> result bool) fuel k : result Z :=
  while (fun k => c ← more k;
                  if c : bool then a ← ldn k; b ← ldh k; Ok (a =? b) else Ok false)
    (fun k => Ok (u64 (k + 1))) fuel k.

Definition left_half fuel mem k : result Z :=
  while (fun k => if mem <? k then a ← ldn (u64 (k - 1)); b ← ldh (u64 (k - 1)); Ok (a =? b)
                  else Ok false)
    (fun k => Ok (u64 (k - 1))) fuel k.

(** One window: how far it moves and the next [mem], or nothing if it matches. *)
Definition halves (more : Z -> result bool) ms p mem0 fuel mem : result ((Z * Z) + unit) :=
  k ← right_half more fuel (Z.max (u64 (ms + 1)) mem);
  c ← more k;
  if c : bool then Ok (inl (u64 (k - ms), 0)) else
  k ← left_half fuel mem (u64 (ms + 1));
  if k <=? mem then Ok (inr tt) else Ok (inl (p, mem0)).

End ops.

(** ** What a search should find *)

(** The first position of [hay] at which [nd] occurs. *)
Fixpoint sub_index (nd hay : list Z) : option nat :=
  if bool_decide (take (length nd) hay = nd) then Some 0%nat
  else match hay with [] => None | _ :: hay => S <$> sub_index nd hay end.


Lemma sub_index_short nd hay : (length hay < length nd)%nat -> sub_index nd hay = None.
Proof.
  induction hay as [|b hay IH]; intros Hl; cbn [sub_index length] in *.
  - rewrite bool_decide_false; [done|]. rewrite take_nil. intros <-. simpl in Hl. lia.
  - rewrite bool_decide_false by (intros He; apply (f_equal length) in He;
      rewrite length_take in He; simpl in He; lia). rewrite IH by lia. done.
Qed.

Definition occurs_in (nd hay : list Z) (d : nat) : Prop :=
  (d + length nd <= length hay)%nat /\ occurs (nd !!!.) (length nd) (hay !!!.) d.

Lemma prefix_occurs nd hay : take (length nd) hay = nd <-> occurs_in nd hay 0.
Proof.
  unfold occurs_in, occurs. split.
  - intros He. split.
    + apply (f_equal length) in He. rewrite length_take in He. lia.
    + intros i Hi. simpl. rewrite <- He. by rewrite lookup_total_take_lt.
  - intros [Hl Ho]. apply (list_eq_same_length _ _ (length nd)); [done|rewrite length_take; lia|].
    intros i x y Hi Hx Hy. rewrite lookup_take_lt in Hx by done.
    apply list_lookup_total_correct in Hx, Hy. specialize (Ho i Hi). simpl in Ho. congruence.
Qed.

Lemma occurs_cons nd b hay d : occurs_in nd (b :: hay) (S d) <-> occurs_in nd hay d.
Proof. unfold occurs_in, occurs. simpl. split; intros [H1 H2]; (split; [lia|exact H2]). Qed.

Lemma sub_index_Some nd hay d :
  occurs_in nd hay d -> (forall e, (e < d)%nat -> ~ occurs_in nd hay e) -> sub_index nd hay = Some d.
Proof.
  revert d. induction hay as [|b hay IH]; intros d Hd Hn; cbn [sub_index].
  - destruct d as [|d]; [|destruct Hd; simpl in *; lia]. by rewrite bool_decide_true by by apply prefix_occurs.
  - destruct d as [|d]; [by rewrite bool_decide_true by by apply prefix_occurs|].
    rewrite bool_decide_false by (rewrite prefix_occurs; apply Hn; lia).
    rewrite (IH d); [done|by apply occurs_cons in Hd|].
    intros e He Ho. apply (Hn (S e)); [lia|]. by apply occurs_cons.
Qed.

Lemma sub_index_None nd hay : (forall e, ~ occurs_in nd hay e) -> sub_index nd hay = None.
Proof.
  induction hay as [|b hay IH]; intros Hn; cbn [sub_index];
    rewrite bool_decide_false by (rewrite prefix_occurs; apply Hn); [done|].
  rewrite IH; [done|]. intros e He. apply (Hn (S e)). by apply occurs_cons.
Qed.

(** ** The needle *)

Section needle.
Context (ldn : Z -> result Z) (nd : list Z).
Let l := length nd.
Let N : nat -> Z := (nd !!!.).
Context (Hn : forall i, (i < l)%nat -> ldn (Z.of_nat i) = Ok (N i)).
Context (Hl0 : (0 < l)%nat) (Hl : Z.of_nat l < 2 ^ 63).

Lemma needle_ld a i : a = Z.of_nat i -> (i < l)%nat -> ldn a = Ok (N i).
Proof. intros -> Hi. by apply Hn. Qed.

Section pass.
Context (gt : Z -> Z -> bool) (R : Z -> Z -> Prop).
Context (Rirr : forall x, ~ R x x) (Rtrans : forall x y z, R x y -> R y z -> R x z).
Context (gt_R : forall a b, a <> b -> if gt a b then R b a else R a b).

(** The variables of the loop, from those of the pass over the word. *)
Definition pass_state (s j k p : nat) : Z * Z * Z * Z :=
  (u64 (Z.of_nat s - 1), Z.of_nat j - 1, Z.of_nat k + 1, Z.of_nat p).

Lemma pass_step s j k p :
  suffix_inv N l R s j k p -> (j + k < l)%nat ->
  exists s' j' k' p', suffix_step ldn gt (pass_state s j k p) = Ok (pass_state s' j' k' p') /\
    suffix_inv N l R s' j' k' p' /\ (s + j + k < s' + j' + k')%nat.
Proof.
  intros Hinv Hjk. pose proof (si_k _ _ _ _ _ _ _ Hinv) as Hk.
  destruct (si_j _ _ _ _ _ _ _ Hinv) as (e & He & Hj). assert (s + p <= j)%nat as Hsp by nia.
  unfold suffix_step, pass_state.
  rewrite (needle_ld (u64 (u64 (Z.of_nat s - 1) + (Z.of_nat k + 1))) (s + k))
    by (unfold wrap; rewrite ?Zplus_mod_idemp_l, ?Z.mod_small; lia).
  cbn [mbind result_bind].
  rewrite (needle_ld _ (j + k)) by (rewrite ?wrap_small; lia). cbn [mbind result_bind].
  destruct (Z.eqb_spec (N (s + k)) (N (j + k))) as [Heq|Hne].
  - pose proof (suffix_equal _ _ _ _ _ _ _ Hinv Hjk (eq_sym Heq)) as Hnew.
    destruct (Nat.eqb_spec (k + 1) p), (Z.eqb_spec (Z.of_nat k + 1) (Z.of_nat p)); try lia.
    + exists s, (j + p)%nat, 0%nat, p. split_and!; [|done|lia].
      rewrite (wrap_small 64 (Z.of_nat j - 1 + Z.of_nat p)) by lia. repeat f_equal; lia.
    + exists s, j, (k + 1)%nat, p. split_and!; [|done|lia]. rewrite (wrap_small _ (_ + 1 + 1)) by lia.
      repeat f_equal; lia.
  - specialize (gt_R _ _ Hne). destruct (gt _ _).
    + pose proof (suffix_less _ _ _ Rtrans _ _ _ _ Hinv Hjk gt_R) as Hnew.
      exists s, (j + k + 1)%nat, 0%nat, (j + k + 1 - s)%nat. split_and!; [|done|lia].
      rewrite (wrap_small 64 (Z.of_nat j - 1 + _)) by lia.
      repeat f_equal; [lia|]. unfold wrap. rewrite Zminus_mod_idemp_r, Z.mod_small; lia.
    + pose proof (suffix_greater _ _ _ Rtrans _ _ _ _ Hinv Hjk gt_R) as Hnew.
      exists j, (j + 1)%nat, 0%nat, 1%nat. split_and!; [|done|lia].
      rewrite !wrap_small by lia. repeat f_equal; lia.
Qed.

Lemma suffix_pass_ok fuel :
  (2 * l < fuel)%nat ->
  exists s p, suffix_pass ldn gt fuel (Z.of_nat l) = Ok (u64 (Z.of_nat s - 1), Z.of_nat p) /\
    (s < l)%nat /\ max_suffix N l R s /\ least_period N l s p.
Proof.
  intros Hf. unfold suffix_pass.
  edestruct (while_rule (fun '(ip, jp, k, p) => Ok (u64 (jp + k) <? Z.of_nat l)) (suffix_step ldn gt)
      (fun st => exists s j k p, st = pass_state s j k p /\ suffix_inv N l R s j k p)
      (fun '(ip, jp, k, p) => Z.to_nat (2 * Z.of_nat l - (u64 (ip + 1) + jp + k))) fuel
      (u64 (-1), 0, 1, 1)) as (st & -> & (s & j & k & p & -> & Hinv) & Hend).
  - intros st (s & j & k & p & -> & Hinv). eexists. split; [done|].
    pose proof (si_len _ _ _ _ _ _ _ Hinv) as Hlen. pose proof (si_k _ _ _ _ _ _ _ Hinv) as Hk.
    destruct (si_j _ _ _ _ _ _ _ Hinv) as (e & He & Hj). assert (s + p <= j)%nat as Hsp by nia.
    rewrite wrap_small by lia. intros Hlt%Z.ltb_lt.
    destruct (pass_step s j k p Hinv) as (s' & j' & k' & p' & Hstep & Hinv' & Hinc); [lia|].
    eexists. split; [exact Hstep|]. split; [by exists s', j', k', p'|].
    pose proof (si_len _ _ _ _ _ _ _ Hinv') as Hlen'. pose proof (si_k _ _ _ _ _ _ _ Hinv') as Hk'.
    destruct (si_j _ _ _ _ _ _ _ Hinv') as (e' & He' & Hj'). assert (s' + p' <= j')%nat as Hsp' by nia.
    unfold pass_state, wrap. rewrite !Zplus_mod_idemp_l, !Z.mod_small by lia. lia.
  - exists 0%nat, 1%nat, 0%nat, 1%nat. split; [done|]. by apply suffix_init.
  - cbn beta iota. change (u64 (u64 (-1) + 1)) with 0. lia.
  - pose proof (si_len _ _ _ _ _ _ _ Hinv) as Hlen. pose proof (si_k _ _ _ _ _ _ _ Hinv) as Hk.
    destruct (si_j _ _ _ _ _ _ _ Hinv) as (e & He & Hj). assert (s + p <= j)%nat as Hsp by nia.
    simpl in Hend. rewrite wrap_small in Hend by lia. injection Hend as Hge%Z.ltb_ge.
    destruct (suffix_max _ _ _ Rirr _ _ _ _ Hinv) as [Hmax Hper]; [lia|].
    exists s, p. split_and!; [done|lia|done|done].
Qed.

End pass.

Lemma factorize_ok fuel :
  (2 * l < fuel)%nat ->
  exists s p, factorize ldn fuel (Z.of_nat l) = Ok (u64 (Z.of_nat s - 1), Z.of_nat p) /\
    critical N l s /\ least_period N l s p.
Proof.
  intros Hf. unfold factorize.
  destruct (suffix_pass_ok (fun a b => b <? a) Z.lt) with (fuel := fuel)
    as (s1 & p1 & -> & Hs1 & Hm1 & Hp1); [lia|lia| |done|].
  { intros a b Hne. destruct (Z.ltb_spec b a); lia. }
  cbn [mbind result_bind].
  destruct (suffix_pass_ok (fun a b => a <? b) (fun x y => y < x)) with (fuel := fuel)
    as (s2 & p2 & -> & Hs2 & Hm2 & Hp2); [lia|lia| |done|].
  { intros a b Hne. destruct (Z.ltb_spec a b); lia. }
  cbn [mbind result_bind].
  assert (forall s, (s < l)%nat -> u64 (u64 (Z.of_nat s - 1) + 1) = Z.of_nat s) as Hu.
  { intros s Hs. unfold wrap. rewrite Zplus_mod_idemp_l, Z.mod_small; lia. }
  rewrite !Hu by done. destruct (Z.ltb_spec (Z.of_nat s1) (Z.of_nat s2)).
  - exists s2, p2. split_and!; [done| |done].
    apply (max_suffixes_critical N l (fun x y => y < x) s2 s1); (done || lia).
  - exists s1, p1. split_and!; [done| |done].
    apply (max_suffixes_critical N l Z.lt s1 s2); (done || lia).
Qed.

(** How far a window whose right half matched can be moved, and how much of
    the next one is then known to match. *)
Definition safe_shift (s p mem0 : nat) : Prop :=
  (0 < p)%nat /\ (p <= l)%nat /\ (forall d, (0 < d)%nat -> period N l d -> (p <= d)%nat) /\
  (mem0 = 0%nat \/ mem0 = (l - p)%nat /\ period N l p /\ least_period N l s p).

Lemma left_half_eq s p :
  (s + p <= l)%nat -> take s nd = take s (drop p nd) <-> forall i, (i < s)%nat -> N i = N (i + p).
Proof.
  clear Hn Hl0 Hl.
  intros Hsp. split.
  - intros He i Hi. unfold N. rewrite Nat.add_comm, <- lookup_total_drop.
    rewrite <- (lookup_total_take_lt nd s i), <- (lookup_total_take_lt (drop p nd) s i) by done.
    by rewrite He.
  - intros Hi. apply (list_eq_same_length _ _ s); [rewrite length_take, length_drop; lia|
      rewrite length_take; lia|].
    intros i x y Hlt Hx Hy. rewrite lookup_take_lt in Hx, Hy by done. rewrite lookup_drop in Hy.
    apply list_lookup_total_correct in Hx, Hy. specialize (Hi i Hlt). unfold N in Hi.
    rewrite Nat.add_comm in Hi. congruence.
Qed.

Lemma periodic_ok (cmp : Z -> Z -> result Z) s p :
  critical N l s -> least_period N l s p ->
  (exists d, cmp (Z.of_nat p) (Z.of_nat s) = Ok d /\ (d = 0 <-> forall i, (i < s)%nat -> N i = N (i + p))) ->
  exists p' mem0,
    periodic cmp (Z.of_nat l) (u64 (Z.of_nat s - 1)) (Z.of_nat p) = Ok (Z.of_nat p', Z.of_nat mem0) /\
    safe_shift s p' mem0.
Proof.
  intros Hc Hp (d & Hcmp & Hsd). pose proof Hc as [Hs _]. pose proof Hp as (Hp0 & Hpl & _).
  unfold periodic. replace (u64 (u64 (Z.of_nat s - 1) + 1)) with (Z.of_nat s).
  2: { unfold wrap. rewrite Zplus_mod_idemp_l, Z.mod_small; lia. }
  rewrite Hcmp. cbn [mbind result_bind].
  destruct (Z.eqb_spec d 0) as [Hd|Hd]; cbn [negb].
  - pose proof (left_agrees N l s p Hp (proj1 Hsd Hd)) as Hper.
    exists p, (l - p)%nat. rewrite wrap_small by lia. split; [repeat f_equal; lia|].
    split_and!; [done|lia| |by right]. intros d' Hd0 Hdp. by apply (period_ge N l s p Hp).
  - assert (~ period N l p) as Hnp.
    { intros Hper. apply Hd, Hsd. intros i Hi. apply Hper. lia. }
    assert (0 < s)%nat as Hs0.
    { destruct s; [|lia]. destruct Hd. apply Hsd. intros; lia. }
    exists (Nat.max s (l - s + 1)), 0%nat. split.
    + rewrite (wrap_small 64 (Z.of_nat s - 1)), (wrap_small 64 (Z.of_nat l - _ - _)), wrap_small by lia.
      repeat f_equal. lia.
    + split_and!; [lia|lia| |by left]. intros d' Hd0 Hper.
      pose proof (long_period N l s p Hc Hp d' Hnp Hd0 Hper). lia.
Qed.

(** ** One window

    [T] is the text from the window on. *)
Section window.
Context (ldh : Z -> result Z) (T : nat -> Z) (fuel : nat).
Context (HT : forall i, (i < l)%nat -> ldh (Z.of_nat i) = Ok (T i)).
Context (more : Z -> result bool) (Hmore : forall i, (i <= l)%nat -> more (Z.of_nat i) = Ok (i <? l)%nat).
Context (Hf : (l < fuel)%nat).

Lemma text_ld a i : a = Z.of_nat i -> (i < l)%nat -> ldh a = Ok (T i).
Proof. intros -> Hi. by apply HT. Qed.

Lemma right_half_ok s k0 :
  (s <= k0)%nat -> (k0 <= l)%nat -> (forall i, (s <= i)%nat -> (i < k0)%nat -> T i = N i) ->
  exists k, right_half ldn ldh more fuel (Z.of_nat k0) = Ok (Z.of_nat k) /\
    (s <= k)%nat /\ (k <= l)%nat /\ (forall i, (s <= i)%nat -> (i < k)%nat -> T i = N i) /\
    ((k < l)%nat -> T k <> N k).
Proof.
  intros Hs Hk0 Hknown. unfold right_half.
  edestruct (while_rule (fun k => c ← more k;
      if c : bool then a ← ldn k; b ← ldh k; Ok (a =? b) else Ok false)
    (fun k => Ok (u64 (k + 1)))
    (fun z => exists k, z = Z.of_nat k /\ (s <= k)%nat /\ (k <= l)%nat /\
       forall i, (s <= i)%nat -> (i < k)%nat -> T i = N i)
    (fun z => Z.to_nat (Z.of_nat l - z)) fuel (Z.of_nat k0))
    as (z & -> & (k & -> & Hsk & Hk & Heq) & Hend).
  - intros z (k & -> & Hsk & Hk & Heq). rewrite Hmore by done. cbn [mbind result_bind].
    destruct (Nat.ltb_spec k l) as [Hlt|]; [|by eexists].
    rewrite (needle_ld (Z.of_nat k) k), (text_ld (Z.of_nat k) k) by done. cbn [mbind result_bind].
    eexists. split; [done|]. intros He%Z.eqb_eq. eexists. split; [done|].
    rewrite wrap_small by lia. split; [|lia]. exists (S k). split_and!; [lia..|].
    intros i Hi Hik. destruct (decide (i = k)) as [->|]; [done|]. apply Heq; lia.
  - by exists k0.
  - lia.
  - exists k. split_and!; try done. intros Hlt. rewrite Hmore in Hend by done. cbn [mbind result_bind] in Hend.
    destruct (Nat.ltb_spec k l); [|lia].
    rewrite (needle_ld (Z.of_nat k) k), (text_ld (Z.of_nat k) k) in Hend by done.
    cbn [mbind result_bind] in Hend. injection Hend as Hne%Z.eqb_neq. congruence.
Qed.

Lemma left_half_ok s mem :
  (s < l)%nat -> (forall i, (s <= i)%nat -> (i < l)%nat -> T i = N i) ->
  exists k, left_half ldn ldh fuel (Z.of_nat mem) (Z.of_nat s) = Ok (Z.of_nat k) /\
    (forall i, (k <= i)%nat -> (i < l)%nat -> T i = N i) /\
    ((mem < k)%nat -> exists i, (i < l)%nat /\ T i <> N i).
Proof.
  intros Hs Hright. unfold left_half.
  edestruct (while_rule (fun k => if Z.of_nat mem <? k then
       a ← ldn (u64 (k - 1)); b ← ldh (u64 (k - 1)); Ok (a =? b) else Ok false)
    (fun k => Ok (u64 (k - 1)))
    (fun z => exists k, z = Z.of_nat k /\ (k <= s)%nat /\ forall i, (k <= i)%nat -> (i < l)%nat -> T i = N i)
    Z.to_nat fuel (Z.of_nat s)) as (z & -> & (k & -> & Hks & Heq) & Hend).
  - intros z (k & -> & Hks & Heq). destruct (Z.ltb_spec (Z.of_nat mem) (Z.of_nat k)) as [Hlt|]; [|by eexists].
    rewrite !wrap_small by lia.
    rewrite (needle_ld (Z.of_nat k - 1) (k - 1)), (text_ld (Z.of_nat k - 1) (k - 1)) by lia. cbn [mbind result_bind].
    eexists. split; [done|]. intros He%Z.eqb_eq. eexists. split; [done|].
    split; [|lia]. exists (k - 1)%nat. split_and!; [lia..|].
    intros i Hi Hil. destruct (decide (i = k - 1)%nat) as [->|]; [done|]. apply Heq; lia.
  - by exists s.
  - lia.
  - exists k. split_and!; try done. intros Hlt. destruct (Z.ltb_spec (Z.of_nat mem) (Z.of_nat k)); [|lia].
    rewrite !wrap_small in Hend by lia.
    rewrite (needle_ld (Z.of_nat k - 1) (k - 1)), (text_ld (Z.of_nat k - 1) (k - 1)) in Hend by lia. cbn [mbind result_bind] in Hend.
    injection Hend as Hne%Z.eqb_neq. exists (k - 1)%nat. split; [lia|congruence].
Qed.

Context (s p mem0 : nat) (Hc : critical N l s) (Hsafe : safe_shift s p mem0).

(** The first [mem] elements of the text are known to match. *)
Definition known (T : nat -> Z) (mem : nat) : Prop :=
  mem = 0%nat \/ mem = (l - p)%nat /\ period N l p /\ least_period N l s p /\
    forall i, (i < mem)%nat -> T i = N i.

(** The window moves on by [k] positions, at none of which the needle occurs. *)
Definition moves (T : nat -> Z) (k mem' : nat) : Prop :=
  (0 < k <= l)%nat /\ (forall d, (d < k)%nat -> ~ occurs N l T d) /\ known (fun i => T (k + i)%nat) mem'.

Lemma move_forget k :
  (0 < k <= l)%nat -> (forall d, (d < k)%nat -> ~ occurs N l T d) -> moves T k 0.
Proof. intros [Hk Hl'] Hno. split_and!; [done..|]. by left. Qed.

Lemma matched_moves :
  (forall i, (s <= i)%nat -> (i < l)%nat -> T i = N i) -> (exists i, (i < l)%nat /\ T i <> N i) ->
  moves T p mem0.
Proof.
  intros Hright (i & Hi & Hne). destruct Hsafe as (Hp0 & Hpl & Hmin & Hmem).
  split_and!; [done|done| |].
  - intros d Hd Hocc. destruct (decide (d = 0)%nat) as [->|Hd0]; [by apply Hne, (Hocc i)|].
    pose proof (Hmin d ltac:(lia) (shift_matched N l s Hc T d Hright ltac:(lia) Hocc)). lia.
  - destruct Hmem as [->|(-> & Hper & Hlp)]; [by left|right]. split_and!; try done.
    by apply (shifted_known N l s p Hc Hlp T Hper Hright).
Qed.

Lemma halves_ok mem :
  known T mem -> (mem < l)%nat ->
  exists o, halves ldn ldh more (u64 (Z.of_nat s - 1)) (Z.of_nat p) (Z.of_nat mem0) fuel (Z.of_nat mem) = Ok o /\
    match o with
    | inl (k, mem') => exists k' x, k = Z.of_nat k' /\ mem' = Z.of_nat x /\ moves T k' x
    | inr _ => occurs N l T 0
    end.
Proof.
  intros Hkn Hmem. pose proof Hc as [Hs _]. unfold halves.
  replace (u64 (u64 (Z.of_nat s - 1) + 1)) with (Z.of_nat s)
    by (unfold wrap; rewrite Zplus_mod_idemp_l, Z.mod_small; lia).
  rewrite <- Nat2Z.inj_max. destruct (right_half_ok s (Nat.max s mem)) as (k & -> & Hsk & Hk & Heq & Hne);
    [lia|lia| |].
  { intros j Hj Hjm. destruct Hkn as [->|(_ & _ & _ & Hkn)]; [lia|]. apply Hkn. lia. }
  cbn [mbind result_bind]. rewrite Hmore by done. cbn [mbind result_bind].
  destruct (Nat.ltb_spec k l) as [Hlt|Hge].
  - eexists. split; [done|]. exists (k - s + 1)%nat, 0%nat.
    replace (u64 (Z.of_nat k - u64 (Z.of_nat s - 1))) with (Z.of_nat (k - s + 1))
      by (unfold wrap; rewrite Zminus_mod_idemp_r, Z.mod_small; lia).
    split_and!; [done|done|]. apply move_forget; [lia|]. intros d Hd.
    apply (shift_mismatch N l s Hc T k d); [done|done|done|by apply Hne|lia].
  - assert (forall j, (s <= j)%nat -> (j < l)%nat -> T j = N j) as Hright by (intros; apply Heq; lia).
    destruct (left_half_ok s mem Hs Hright) as (k' & -> & Hall & Hbad). cbn [mbind result_bind].
    destruct (Z.leb_spec (Z.of_nat k') (Z.of_nat mem)) as [Hle|Hgt]; (eexists; split; [done|]).
    + intros j Hj. destruct (le_lt_dec k' j); [by apply Hall|].
      destruct Hkn as [->|(_ & _ & _ & Hkn)]; [lia|]. apply Hkn. lia.
    + exists p, mem0. split_and!; [done|done|]. apply matched_moves; [done|]. apply Hbad. lia.
Qed.

End window.
End needle.

(** ** Positions in a text *)

Section search.
Context (nd hay : list Z).
Let l := length nd.

(** The search has come to position [d] of the text. *)
Definition searching (s p d mem : nat) : Prop :=
  (d <= length hay)%nat /\ (forall e, (e < d)%nat -> ~ occurs_in nd hay e) /\
  known nd s p (fun i => hay !!! (d + i)%nat) mem.

Lemma searching_start s p : searching s p 0 0.
Proof. split_and!; [lia|intros; lia|by left]. Qed.

Lemma searching_move s p d mem k x :
  (d + l <= length hay)%nat -> searching s p d mem -> moves nd s p (fun i => hay !!! (d + i)%nat) k x ->
  searching s p (d + k) x /\ (d < d + k <= d + l)%nat.
Proof.
  unfold l in *. intros Hd (Hdl & Hno & Hkn) (Hk & Hnone & Hkn'). split; [|lia]. split_and!; [lia| |].
  + intros e He Hocc. destruct (le_lt_dec d e) as [Hde|]; [|by apply (Hno e)].
    apply (Hnone (e - d)%nat); [lia|]. intros i Hi. destruct Hocc as [_ Hocc].
    rewrite <- (Hocc i Hi). f_equal. lia.
  + destruct Hkn' as [->|(-> & ? & ? & Heq)]; [by left|right]. split_and!; try done.
    intros i Hi. rewrite <- (Heq i Hi). f_equal. lia.
Qed.

Lemma searching_found s p d mem :
  (d + l <= length hay)%nat -> searching s p d mem -> occurs (nd !!!.) l (fun i => hay !!! (d + i)%nat) 0 ->
  sub_index nd hay = Some d.
Proof.
  unfold l in *. intros Hd (Hdl & Hno & Hkn) Hocc. apply sub_index_Some; [|done]. split; [done|]. intros i Hi.
  by rewrite <- (Hocc i Hi).
Qed.

Lemma searching_end s p d mem : searching s p d mem -> (length hay < d + l)%nat -> sub_index nd hay = None.
Proof.
  unfold l in *. intros (Hd & Hno & _) Hlt. apply sub_index_None. intros e Hocc.
  destruct (le_lt_dec d e); [destruct Hocc; lia|]. by apply (Hno e).
Qed.

End search.
