(* ===== verification/Memmem.v ===== *)
(** * Searching for a block in a block

    Models [memmem] of [lib/guest_bw/string]: rolling words for needles of two
    to four bytes, and the two-way algorithm for longer ones, with its table of
    last positions, its critical factorization of the needle and its memory of
    what matched. *)

From S2P Require Import Prelude CMem CLoop StrScan StrCmp TwoWay TwoWayOps.
#[local] Open Scope Z_scope.

Section ops.
Context (m : cmem).
Implicit Types (fuel : nat) (h n z l k p ms mem : Z).

(** [for (h+=w, k-=w; k; k--, hw = step(hw, *h++)) if (hw == nw) return h-w;
    return hw == nw ? h-w : 0;] *)
Definition rolling (w : Z) (step : Z -> Z -> Z) fuel h k (nw hw : Z) : result Z :=
  o ← loop (fun '(h, k, hw) => Ok (negb (k =? 0)))
        (fun '(h, k, hw) =>
           if hw =? nw then Ok (inr (h - w))
           else b ← ld8 h m; Ok (inl (h + 1, u64 (k - 1), step hw b)))
        fuel (h + w, u64 (k - w), hw);
  Ok (match o with
      | inr r => r
      | inl (h, _, hw) => if hw =? nw then h - w else 0
      end).

Definition twobyte_word (a : Z) : result Z :=
  b0 ← ld8 a m; b1 ← ld8 (a + 1) m;
  Ok (u16 (Z.lor (Z.shiftl b0 8) b1)).

Definition twobyte_memmem fuel h k n : result Z :=
  nw ← twobyte_word n; hw ← twobyte_word h;
  rolling 2 (fun hw b => u16 (Z.lor (Z.shiftl hw 8) b)) fuel h k nw hw.

Definition threebyte_word (a : Z) : result Z :=
  b0 ← ld8 a m; b1 ← ld8 (a + 1) m; b2 ← ld8 (a + 2) m;
  Ok (Z.lor (Z.lor (u32 (Z.shiftl b0 24)) (Z.shiftl b1 16)) (Z.shiftl b2 8)).

Definition threebyte_memmem fuel h k n : result Z :=
  nw ← threebyte_word n; hw ← threebyte_word h;
  rolling 3 (fun hw b => u32 (Z.shiftl (Z.lor hw b) 8)) fuel h k nw hw.

Definition fourbyte_word (a : Z) : result Z :=
  b0 ← ld8 a m; b1 ← ld8 (a + 1) m; b2 ← ld8 (a + 2) m; b3 ← ld8 (a + 3) m;
  Ok (Z.lor (Z.lor (Z.lor (u32 (Z.shiftl b0 24)) (Z.shiftl b1 16)) (Z.shiftl b2 8)) b3).

Definition fourbyte_memmem fuel h k n : result Z :=
  nw ← fourbyte_word n; hw ← fourbyte_word h;
  rolling 4 (fun hw b => u32 (Z.lor (u32 (Z.shiftl hw 8)) b)) fuel h k nw hw.

(** ** The two-way algorithm *)

(** The array [shift] is not initialised: it has the entries that were
    written. *)
Definition fill_shift fuel n l : result (list Z * gmap Z Z) :=
  '(_, bset, shift) ←
    while (fun '(i, bset, shift) => Ok (i <? l))
      (fun '(i, bset, shift) =>
         b ← ld8 (n + i) m;
         Ok (u64 (i + 1), bitop_or bset b, <[b := u64 (i + 1)]> (shift : gmap Z Z)))
      fuel (0, byteset0, ∅);
  Ok (bset, shift).

(** One window at [h]: the next [h] and [mem], or the result. *)
Definition window (more : Z -> result bool) (bset : list Z) (shift : gmap Z Z) ms p mem0
    fuel n l h mem : result ((Z * Z) + Z) :=
  last ← ld8 (h + u64 (l - 1)) m;
  if bitop_and bset last =? 0 then Ok (inl (h + l, 0)) else
  sh ← of_option "uninitialised"%string (shift !! last);
  let k := u64 (l - sh) in
  if negb (k =? 0) then Ok (inl (h + (if k <? mem then mem else k), 0)) else
  o ← halves (fun i => ld8 (n + i) m) (fun i => ld8 (h + i) m) more ms p mem0 fuel mem;
  Ok (match o with inl (d, mem) => inl (h + d, mem) | inr _ => inr h end).

Definition twoway_memmem fuel h z n l : result Z :=
  '(bset, shift) ← fill_shift fuel n l;
  '(ms, p) ← factorize (fun i => ld8 (n + i) m) fuel l;
  '(p, mem0) ← periodic (fun p k => memcmp m fuel n (n + p) k) l ms p;
  o ← loop (fun _ => Ok true)
        (fun '(h, mem) => if u64 (z - h) <? l then Ok (inr 0)
                          else window (fun k => Ok (k <? l)) bset shift ms p mem0 fuel n l h mem)
        fuel (h, 0);
  match o with inr r => Ok r | inl _ => Fault "unreachable"%string end.

Definition memmem fuel h0 k n0 l : result Z :=
  if l =? 0 then Ok h0 else
  if k <? l then Ok 0 else
  c ← ld8 n0 m;
  h ← memchr m fuel h0 c k;
  if (h =? 0) || (l =? 1) then Ok h else
  let k := u64 (k - (h - h0)) in
  if k <? l then Ok 0 else
  if l =? 2 then twobyte_memmem fuel h k n0 else
  if l =? 3 then threebyte_memmem fuel h k n0 else
  if l =? 4 then fourbyte_memmem fuel h k n0 else
  twoway_memmem fuel h (h + k) n0 l.

End ops.

(** ** What is computed *)

(** The result of a search from [h] on. *)
Definition found_at (h : Z) (o : option nat) : Z :=
  match o with Some i => h + Z.of_nat i | None => 0 end.

(** An occurrence starts with the first byte of the needle. *)
Lemma sub_index_drop c nd hay :
  sub_index (c :: nd) hay =
  (Nat.add (index_of c hay)) <$> sub_index (c :: nd) (drop (index_of c hay) hay).
Proof.
  induction hay as [|b hay IH]; [done|]. cbn [index_of].
  destruct (Z.eqb_spec b c) as [->|Hne].
  - rewrite drop_0. by destruct (sub_index (c :: nd) (c :: hay)).
  - cbn [sub_index]. rewrite bool_decide_false by (simpl; congruence). rewrite IH. cbn [drop].
    by destruct (sub_index (c :: nd) (drop (index_of c hay) hay)).
Qed.

Lemma found_at_drop h c nd hay :
  found_at h (sub_index (c :: nd) hay) =
  found_at (h + Z.of_nat (index_of c hay)) (sub_index (c :: nd) (drop (index_of c hay) hay)).
Proof.
  rewrite (sub_index_drop c nd hay). destruct (sub_index _ (drop _ hay)); simpl; [lia|done].
Qed.

(** ** Short needles *)

Section rolling.
Context (m : cmem) (w : nat) (val : list Z -> Z) (step : Z -> Z -> Z).
Context (step_val : forall a bs b, length (a :: bs) = w -> Forall is_byte (a :: bs) -> is_byte b ->
  step (val (a :: bs)) b = val (bs ++ [b])).
Context (val_inj : forall bs cs, length bs = w -> length cs = w -> Forall is_byte bs -> Forall is_byte cs ->
  val bs = val cs -> bs = cs).
Context (w_pos : (0 < w)%nat).

Lemma rolling_ok fuel h cur rest nd :
  length cur = w -> length nd = w -> Forall is_byte (cur ++ rest) -> Forall is_byte nd ->
  bytes_at m (h + Z.of_nat w) rest -> (length rest < fuel)%nat -> Z.of_nat (w + length rest) < 2 ^ 64 ->
  rolling m (Z.of_nat w) step fuel h (Z.of_nat (w + length rest)) (val nd) (val cur) =
  Ok (found_at h (sub_index nd (cur ++ rest))).
Proof using step_val val_inj w_pos.
  intros Hcur Hnd Hb Hbn Hat Hf H64. unfold rolling.
  rewrite wrap_small by lia. replace (Z.of_nat (w + length rest) - Z.of_nat w) with (Z.of_nat (length rest)) by lia.
  revert fuel h cur Hcur Hb Hat Hf H64.
  induction rest as [|b rest IH]; intros fuel h cur Hcur Hb Hat Hf H64;
    (destruct fuel as [|fuel]; [simpl in Hf; lia|]); cbn [loop mbind result_bind length].
  - rewrite app_nil_r in *. simpl. f_equal. destruct cur as [|c cur]; [simpl in *; lia|].
    cbn [sub_index]. rewrite Hnd, <- Hcur, take_ge by done.
    destruct (Z.eqb_spec (val (c :: cur)) (val nd)) as [He|Hne].
    + apply val_inj in He; [|done..]. rewrite bool_decide_true by done. simpl. lia.
    + rewrite bool_decide_false by congruence. by rewrite sub_index_short by (simpl in *; lia).
  - destruct (Z.eqb_spec (Z.of_nat (S (length rest))) 0); [lia|]. cbn [negb].
    destruct cur as [|c cur]; [simpl in *; lia|]. cbn [sub_index app].
    assert (take (length nd) (c :: cur ++ b :: rest) = c :: cur) as Ht.
    { rewrite Hnd, <- Hcur. change (c :: cur ++ b :: rest) with ((c :: cur) ++ b :: rest).
      apply take_app_length. }
    rewrite Ht. apply bytes_at_cons in Hat as [Hb0 Hat].
    destruct (Z.eqb_spec (val (c :: cur)) (val nd)) as [He|Hne].
    + apply val_inj in He; [|done..|by apply Forall_app in Hb as [? _]|done].
      rewrite bool_decide_true by done. simpl. f_equal. lia.
    + rewrite bool_decide_false by congruence. rewrite (ld8_ok _ _ _ Hb0). cbn [mbind result_bind].
      pose proof Hb as [Hbc [Hbb Hbr]%Forall_cons]%Forall_app.
      rewrite step_val by done. rewrite wrap_small by (simpl in *; lia).
      replace (Z.of_nat (S (length rest)) - 1) with (Z.of_nat (length rest)) by lia.
      specialize (IH fuel (h + 1) (cur ++ [b])). rewrite <- app_assoc in IH. simpl app in IH.
      replace (h + Z.of_nat w + 1) with (h + 1 + Z.of_nat w) in * by lia.
      rewrite IH.
      * destruct (sub_index nd (cur ++ b :: rest)); simpl; f_equal; lia.
      * rewrite length_app. simpl in *. lia.
      * apply Forall_cons in Hbc as [_ Hbc]. apply Forall_app. split; [done|]. by constructor.
      * done.
      * simpl in Hf. lia.
      * simpl in *. lia.
Qed.

End rolling.

(** The bytes as a number, the first one the most significant. *)
Definition be_val (bs : list Z) : Z := le_val (rev bs).

Lemma lor_shiftl k x y : 0 <= k -> 0 <= y < 2 ^ k -> Z.lor (Z.shiftl x k) y = x * 2 ^ k + y.
Proof.
  intros Hk Hy. rewrite Z.shiftl_mul_pow2, Z.lor_comm, Z.mul_comm, lor_low by done. lia.
Qed.

Lemma be_val_inj w bs cs :
  length bs = w -> length cs = w -> Forall is_byte bs -> Forall is_byte cs ->
  be_val bs = be_val cs -> bs = cs.
Proof.
  intros Hb Hc Fb Fc He. rewrite <- (rev_involutive bs), <- (rev_involutive cs). f_equal.
  rewrite <- (le_list_val (rev bs)), <- (le_list_val (rev cs)) by by apply Forall_rev.
  rewrite !length_rev, Hb, Hc. by unfold be_val in He; rewrite He.
Qed.

(** The next byte is shifted in and the first one out. *)
Lemma be_val_shift a bs b :
  Forall is_byte (a :: bs) -> is_byte b ->
  (be_val (a :: bs) * 256 + b) mod 256 ^ Z.of_nat (length (a :: bs)) = be_val (bs ++ [b]).
Proof.
  intros [Ha Hbs]%Forall_cons Hb. unfold be_val. rewrite rev_app_distr. cbn [rev app le_val].
  rewrite le_val_app, length_rev. cbn [le_val length]. rewrite Nat2Z.inj_succ, Z.pow_succ_r by lia.
  pose proof (le_val_bound (rev bs) ltac:(by apply Forall_rev)) as Hv. rewrite length_rev in Hv.
  set (P := 256 ^ Z.of_nat (length bs)) in *. set (v := le_val (rev bs)) in *.
  replace ((v + P * (a + 256 * 0)) * 256 + b) with (b + 256 * v + a * (256 * P)) by ring.
  rewrite Z.mod_add by lia. apply Z.mod_small. lia.
Qed.

Lemma twobyte_step a bs b :
  length (a :: bs) = 2%nat -> Forall is_byte (a :: bs) -> is_byte b ->
  u16 (Z.lor (Z.shiftl (be_val (a :: bs)) 8) b) = be_val (bs ++ [b]).
Proof.
  intros Hl Hbs Hb. cbv beta in Hb. rewrite lor_shiftl by lia. unfold wrap.
  rewrite <- (be_val_shift a bs b) by done. by rewrite Hl.
Qed.

Lemma threebyte_step a bs b :
  length (a :: bs) = 3%nat -> Forall is_byte (a :: bs) -> is_byte b ->
  u32 (Z.shiftl (Z.lor (256 * be_val (a :: bs)) b) 8) = 256 * be_val (bs ++ [b]).
Proof.
  intros Hl Hbs Hb. cbv beta in Hb.
  rewrite (Z.mul_comm 256), <- (Z.shiftl_mul_pow2 _ 8), lor_shiftl, Z.shiftl_mul_pow2 by lia.
  unfold wrap. change (2 ^ 32) with (256 ^ Z.of_nat 3 * 2 ^ 8). rewrite Z.mul_mod_distr_r by done.
  rewrite <- (be_val_shift a bs b) by done. rewrite Hl. change (2 ^ 8) with 256. lia.
Qed.

Lemma threebyte_inj bs cs :
  length bs = 3%nat -> length cs = 3%nat -> Forall is_byte bs -> Forall is_byte cs ->
  256 * be_val bs = 256 * be_val cs -> bs = cs.
Proof. intros. eapply (be_val_inj 3); try done. lia. Qed.

Lemma fourbyte_step a bs b :
  length (a :: bs) = 4%nat -> Forall is_byte (a :: bs) -> is_byte b ->
  u32 (Z.lor (u32 (Z.shiftl (be_val (a :: bs)) 8)) b) = be_val (bs ++ [b]).
Proof.
  intros Hl Hbs Hb. cbv beta in Hb. rewrite <- (be_val_shift a bs b) by done. rewrite Hl.
  rewrite Z.shiftl_mul_pow2 by lia. unfold wrap.
  replace (be_val (a :: bs) * 2 ^ 8) with (be_val (a :: bs) * 256) by lia.
  set (x := be_val (a :: bs)). change (256 ^ Z.of_nat 4) with (2 ^ 32).
  replace (x * 256 mod 2 ^ 32) with (Z.shiftl (x mod 2 ^ 24) 8).
  2: { rewrite Z.shiftl_mul_pow2 by lia. change (2 ^ 32) with (2 ^ 24 * 256).
       by rewrite Z.mul_mod_distr_r by done. }
  rewrite lor_shiftl by lia. change (2 ^ 32) with (2 ^ 24 * 2 ^ 8).
  rewrite <- Z.mul_mod_distr_r by done. change 256 with (2 ^ 8). by rewrite Z.add_mod_idemp_l.
Qed.

Section short.
Context (m : cmem).

Lemma twobyte_word_ok a b0 b1 :
  bytes_at m a [b0; b1] -> is_byte b0 -> is_byte b1 -> twobyte_word m a = Ok (be_val [b0; b1]).
Proof.
  intros (E0 & (E1 & _)%bytes_at_cons)%bytes_at_cons H0 H1. unfold twobyte_word.
  rewrite (ld8_ok _ _ _ E0), (ld8_ok _ _ _ E1). cbn [mbind result_bind].
  rewrite lor_shiftl, wrap_small by lia. unfold be_val. simpl. f_equal. lia.
Qed.

Lemma threebyte_word_ok a b0 b1 b2 :
  bytes_at m a [b0; b1; b2] -> is_byte b0 -> is_byte b1 -> is_byte b2 ->
  threebyte_word m a = Ok (256 * be_val [b0; b1; b2]).
Proof.
  intros (E0 & (E1 & (E2 & _)%bytes_at_cons)%bytes_at_cons)%bytes_at_cons H0 H1 H2.
  unfold threebyte_word. replace (a + 1 + 1) with (a + 2) in * by lia.
  rewrite (ld8_ok _ _ _ E0), (ld8_ok _ _ _ E1), (ld8_ok _ _ _ E2). cbn [mbind result_bind].
  rewrite !Z.shiftl_mul_pow2 by lia. rewrite wrap_small by lia.
  rewrite <- (Z.shiftl_mul_pow2 b0), lor_shiftl by lia.
  replace (b0 * 2 ^ 24 + b1 * 2 ^ 16) with (Z.shiftl (b0 * 256 + b1) 16)
    by (rewrite Z.shiftl_mul_pow2; lia).
  rewrite lor_shiftl by lia. unfold be_val. cbn [rev app le_val]. f_equal. lia.
Qed.

Lemma fourbyte_word_ok a b0 b1 b2 b3 :
  bytes_at m a [b0; b1; b2; b3] -> is_byte b0 -> is_byte b1 -> is_byte b2 -> is_byte b3 ->
  fourbyte_word m a = Ok (be_val [b0; b1; b2; b3]).
Proof.
  intros (E0 & (E1 & (E2 & (E3 & _)%bytes_at_cons)%bytes_at_cons)%bytes_at_cons)%bytes_at_cons H0 H1 H2 H3.
  unfold fourbyte_word. replace (a + 1 + 1) with (a + 2) in * by lia.
  replace (a + 2 + 1) with (a + 3) in * by lia.
  rewrite (ld8_ok _ _ _ E0), (ld8_ok _ _ _ E1), (ld8_ok _ _ _ E2), (ld8_ok _ _ _ E3).
  cbn [mbind result_bind]. rewrite !Z.shiftl_mul_pow2 by lia. rewrite wrap_small by lia.
  rewrite <- (Z.shiftl_mul_pow2 b0), lor_shiftl by lia.
  replace (b0 * 2 ^ 24 + b1 * 2 ^ 16) with (Z.shiftl (b0 * 256 + b1) 16)
    by (rewrite Z.shiftl_mul_pow2; lia).
  rewrite lor_shiftl by lia.
  replace ((b0 * 256 + b1) * 2 ^ 16 + b2 * 2 ^ 8) with (Z.shiftl ((b0 * 256 + b1) * 256 + b2) 8)
    by (rewrite Z.shiftl_mul_pow2; lia).
  rewrite lor_shiftl by lia. unfold be_val. cbn [rev app le_val]. f_equal. lia.
Qed.

Context (fuel : nat) (h n : Z) (nd hay : list Z).
Context (Hn : bytes_at m n nd) (Hh : bytes_at m h hay).
Context (Fn : Forall is_byte nd) (Fh : Forall is_byte hay).
Context (Hlen : (length nd <= length hay)%nat) (Hfuel : (length hay < fuel)%nat).
Context (H64 : Z.of_nat (length hay) < 2 ^ 64).

Lemma twobyte_ok :
  length nd = 2%nat ->
  twobyte_memmem m fuel h (Z.of_nat (length hay)) n = Ok (found_at h (sub_index nd hay)).
Proof using All.
  intros H2. destruct nd as [|n0 [|n1 []]]; try done.
  destruct hay as [|h0 [|h1 rest]]; [simpl in *; lia..|].
  pose proof Fn as (? & (? & _)%Forall_cons)%Forall_cons.
  pose proof Fh as (? & (? & _)%Forall_cons)%Forall_cons.
  pose proof Hh as [Hcur Hrest]%(bytes_at_app m h [h0; h1] rest).
  unfold twobyte_memmem. rewrite (twobyte_word_ok n n0 n1), (twobyte_word_ok h h0 h1) by done.
  cbn [mbind result_bind].
  apply (rolling_ok m 2 be_val _) with (cur := [h0; h1]) (rest := rest); try done; [| |lia|simpl in *; lia].
  - apply twobyte_step.
  - apply be_val_inj.
Qed.

Lemma threebyte_ok :
  length nd = 3%nat ->
  threebyte_memmem m fuel h (Z.of_nat (length hay)) n = Ok (found_at h (sub_index nd hay)).
Proof using All.
  intros H3. destruct nd as [|n0 [|n1 [|n2 []]]]; try done.
  destruct hay as [|h0 [|h1 [|h2 rest]]]; [simpl in *; lia..|].
  pose proof Fn as (? & (? & (? & _)%Forall_cons)%Forall_cons)%Forall_cons.
  pose proof Fh as (? & (? & (? & _)%Forall_cons)%Forall_cons)%Forall_cons.
  pose proof Hh as [Hcur Hrest]%(bytes_at_app m h [h0; h1; h2] rest).
  unfold threebyte_memmem. rewrite (threebyte_word_ok n n0 n1 n2), (threebyte_word_ok h h0 h1 h2) by done.
  cbn [mbind result_bind].
  apply (rolling_ok m 3 (fun bs => 256 * be_val bs) _) with (cur := [h0; h1; h2]) (rest := rest);
    try done; [| |lia|simpl in *; lia].
  - apply threebyte_step.
  - apply threebyte_inj.
Qed.

Lemma fourbyte_ok :
  length nd = 4%nat ->
  fourbyte_memmem m fuel h (Z.of_nat (length hay)) n = Ok (found_at h (sub_index nd hay)).
Proof using All.
  intros H4. destruct nd as [|n0 [|n1 [|n2 [|n3 []]]]]; try done.
  destruct hay as [|h0 [|h1 [|h2 [|h3 rest]]]]; [simpl in *; lia..|].
  pose proof Fn as (? & (? & (? & (? & _)%Forall_cons)%Forall_cons)%Forall_cons)%Forall_cons.
  pose proof Fh as (? & (? & (? & (? & _)%Forall_cons)%Forall_cons)%Forall_cons)%Forall_cons.
  pose proof Hh as [Hcur Hrest]%(bytes_at_app m h [h0; h1; h2; h3] rest).
  unfold fourbyte_memmem.
  rewrite (fourbyte_word_ok n n0 n1 n2 n3), (fourbyte_word_ok h h0 h1 h2 h3) by done.
  cbn [mbind result_bind].
  apply (rolling_ok m 4 be_val _) with (cur := [h0; h1; h2; h3]) (rest := rest);
    try done; [| |lia|simpl in *; lia].
  - apply fourbyte_step.
  - apply be_val_inj.
Qed.

End short.

(** ** The needle *)

Lemma str_diff_same_length ls rs : length ls = length rs -> str_diff ls rs = 0 <-> ls = rs.
Proof.
  revert rs. induction ls as [|a ls IH]; intros [|b rs] Hl; try done. simpl in Hl |- *.
  destruct (Z.eqb_spec a b) as [->|Hne].
  - rewrite IH by lia. split; [by intros ->|by intros [= ->]].
  - split; [lia|congruence].
Qed.

Section needle.
Context (m : cmem) (n : Z) (nd : list Z).
Context (Hn : bytes_at m n nd) (Fn : Forall is_byte nd).
Let l := length nd.
Let N : nat -> Z := (nd !!!.).
Context (Hl0 : (0 < l)%nat) (Hl : Z.of_nat l < 2 ^ 63).

Lemma needle_ld8 a i : a = n + Z.of_nat i -> (i < l)%nat -> ld8 a m = Ok (N i).
Proof.
  intros -> Hi. apply ld8_ok, Hn. by apply list_lookup_lookup_total_lt.
Qed.

Lemma needle_byte i : (i < l)%nat -> is_byte (N i).
Proof.
  intros Hi. eapply (Forall_lookup_1 _ _ _ _ Fn). by apply list_lookup_lookup_total_lt.
Qed.

(** The tables after the first [x] bytes: which bytes occur, and one past the
    last position of each. *)
Definition tables (x : nat) (bset : list Z) (shift : gmap Z Z) : Prop :=
  forall c, is_byte c ->
    in_set bset c = false /\ (forall i, (i < x)%nat -> N i <> c) \/
    in_set bset c = true /\ exists i, (i < x)%nat /\ N i = c /\
      shift !! c = Some (Z.of_nat i + 1) /\ forall j, (i < j)%nat -> (j < x)%nat -> N j <> c.

Lemma tables_empty shift : tables 0 byteset0 shift.
Proof.
  clear Hl0 Hl. intros c Hc. left. split; [|intros; lia].
  unfold in_set, byteset0. rewrite lookup_total_replicate_2; [by apply Z.bits_0|].
  pose proof (byte_div c Hc). lia.
Qed.

Lemma tables_step x bset shift :
  length bset = 4%nat -> (x < l)%nat -> tables x bset shift ->
  tables (S x) (bitop_or bset (N x)) (<[N x := Z.of_nat x + 1]> shift).
Proof.
  intros Hb Hx Ht c Hc. rewrite in_set_or by (try done; by apply needle_byte).
  destruct (Z.eqb_spec c (N x)) as [->|Hne].
  - right. rewrite orb_true_r. split; [done|]. exists x. rewrite lookup_insert_eq.
    split_and!; try done; lia.
  - rewrite orb_false_r, lookup_insert_ne by done.
    destruct (Ht c Hc) as [[Hs Hno]|(Hs & i & Hi & Hic & Hsh & Hlast)]; [left|right]; (split; [done|]).
    + intros i Hi. destruct (decide (i = x)) as [->|]; [done|]. apply Hno. lia.
    + exists i. split_and!; [lia|done|done|]. intros j Hij Hj.
      destruct (decide (j = x)) as [->|]; [done|]. apply Hlast; lia.
Qed.

Lemma fill_shift_ok fuel :
  (l < fuel)%nat ->
  exists bset shift, fill_shift m fuel n (Z.of_nat l) = Ok (bset, shift) /\ tables l bset shift.
Proof.
  intros Hf. unfold fill_shift.
  edestruct (while_rule (fun '(i, bset, shift) => Ok (i <? Z.of_nat l))
    (fun '(i, bset, shift) =>
       b ← ld8 (n + i) m;
       Ok (u64 (i + 1), bitop_or bset b, <[b := u64 (i + 1)]> (shift : gmap Z Z)))
    (fun '(i, bset, shift) => exists x, (x <= l)%nat /\ i = Z.of_nat x /\ length bset = 4%nat /\
       tables x bset shift) (fun '(i, _, _) => Z.to_nat (Z.of_nat l - i)) fuel (0, byteset0, ∅))
    as ([[i bset] shift] & -> & (x & Hx & -> & Hb & Ht) & Hend).
  - intros [[i bset] shift] (x & Hx & -> & Hb & Ht). eexists. split; [done|].
    intros Hlt%Z.ltb_lt. rewrite (needle_ld8 _ x) by (done || lia). cbn [mbind result_bind].
    eexists. split; [done|]. rewrite wrap_small by lia. split; [|lia].
    exists (S x). split_and!; [lia|lia|by unfold bitop_or; rewrite length_insert|].
    apply tables_step; (done || lia).
  - exists 0%nat. split_and!; try done; [lia|]. apply tables_empty.
  - lia.
  - injection Hend as Hge%Z.ltb_ge. replace x with l in Ht by lia. simpl. by exists bset, shift.
Qed.

(** The test for a periodic needle compares the halves. *)
Lemma memcmp_halves fuel s p :
  (s + p <= l)%nat -> (l < fuel)%nat ->
  exists d, memcmp m fuel n (n + Z.of_nat p) (Z.of_nat s) = Ok d /\
    (d = 0 <-> forall i, (i < s)%nat -> N i = N (i + p)%nat).
Proof.
  intros Hsp Hf. assert (bytes_at m n (take s nd)) as Hleft.
  { eapply bytes_at_app. by rewrite take_drop. }
  assert (bytes_at m (n + Z.of_nat p) (take s (drop p nd))) as Hright.
  { pose proof Hn as Hn'. rewrite <- (take_drop p nd) in Hn'. apply bytes_at_app in Hn' as [_ Hn'].
    rewrite length_take_le in Hn' by lia. eapply bytes_at_app. by rewrite take_drop. }
  replace (Z.of_nat s) with (Z.of_nat (length (take s nd))) by (rewrite length_take; lia).
  rewrite (memcmp_ok m fuel n _ _ _ Hleft Hright) by (rewrite !length_take, ?length_drop; lia).
  eexists. split; [done|]. rewrite str_diff_same_length by (rewrite !length_take, length_drop; lia).
  by apply left_half_eq.
Qed.

(** ** One window

    [T] is the text from the window at [h] on. *)
Section window.
Context (h : Z) (T : nat -> Z) (fuel : nat).
Context (HT : forall a i, a = h + Z.of_nat i -> (i < l)%nat -> ld8 a m = Ok (T i) /\ is_byte (T i)).
Context (more : Z -> result bool) (Hmore : forall i, (i <= l)%nat -> more (Z.of_nat i) = Ok (i <? l)%nat).
Context (Hf : (l < fuel)%nat).

Lemma text_ld8 a i : a = h + Z.of_nat i -> (i < l)%nat -> ld8 a m = Ok (T i).
Proof. intros Ha Hi. by destruct (HT a i Ha Hi). Qed.

Context (s p mem0 : nat) (Hc : critical N l s) (Hsafe : safe_shift nd s p mem0).
Context (bset : list Z) (shift : gmap Z Z) (Htab : tables l bset shift).

(** The last byte of the window is wrong. *)
Lemma last_byte_moves mem i :
  known nd s p T mem -> (i < l - 1)%nat -> N i = T (l - 1)%nat ->
  (forall j, (i < j)%nat -> (j < l)%nat -> N j <> T (l - 1)%nat) ->
  moves nd s p T (Nat.max (l - 1 - i) mem) 0.
Proof.
  intros Hkn Hi HN Hlast. apply move_forget.
  { destruct Hkn as [->|(-> & _)]; lia. }
  intros d Hd Hocc. destruct (le_lt_dec (l - 1 - i) d) as [Hge|Hlt].
  - destruct Hkn as [->|(-> & Hper & Hlp & Heq)]; [lia|].
    apply (shift_known N l s p Hlp T d Hper Heq) in Hocc; [done| |lia].
    intros He. apply (Hlast (l - 1)%nat); [lia|lia|done].
  - apply (Hlast (l - 1 - d)%nat); [lia|lia|]. etrans; [symmetry; apply Hocc; unfold l in *; lia|]. f_equal. lia.
Qed.

Lemma window_ok mem :
  known nd s p T mem ->
  exists o, window m more bset shift (u64 (Z.of_nat s - 1)) (Z.of_nat p) (Z.of_nat mem0)
              fuel n (Z.of_nat l) h (Z.of_nat mem) = Ok o /\
    match o with
    | inl (h', mem') => exists k x, h' = h + Z.of_nat k /\ mem' = Z.of_nat x /\ moves nd s p T k x
    | inr r => r = h /\ occurs N l T 0
    end.
Proof.
  intros Hkn. pose proof Hc as [Hs _]. unfold window. rewrite (wrap_small _ (Z.of_nat l - 1)) by lia.
  destruct (HT (h + (Z.of_nat l - 1)) (l - 1)) as [-> Hb]; [lia..|]. cbn [mbind result_bind].
  assert (mem < l)%nat as Hmem.
  { destruct Hkn as [->|(-> & _ & (? & _) & _)]; unfold l in *; lia. }
  rewrite bitop_and_spec. destruct (Htab _ Hb) as [[-> Hno]|(-> & i & Hi & HN & -> & Hlast)]; cbn [negb].
  { eexists. split; [done|]. exists l, 0%nat. split_and!; [done|done|]. apply move_forget; [lia|]. intros d Hd Hocc.
    apply (Hno (l - 1 - d)%nat); [lia|]. etrans; [symmetry; apply Hocc; unfold l in *; lia|]. f_equal. lia. }
  cbn [of_option mbind result_bind]. rewrite (wrap_small _ (Z.of_nat l - _)) by lia.
  destruct (Z.eqb_spec (Z.of_nat l - (Z.of_nat i + 1)) 0) as [Hz|Hnz]; cbn [negb].
  2: { eexists. split; [done|]. exists (Nat.max (l - 1 - i) mem), 0%nat.
       replace (if _ <? Z.of_nat mem then _ else _) with (Z.of_nat (Nat.max (l - 1 - i) mem))
         by (destruct (Z.ltb_spec (Z.of_nat l - (Z.of_nat i + 1)) (Z.of_nat mem)); lia).
       split_and!; [done|done|]. apply last_byte_moves; (done || lia). }
  destruct (halves_ok (fun i => ld8 (n + i) m) nd) with (ldh := fun i => ld8 (h + i) m) (T := T) (fuel := fuel)
    (more := more) (s := s) (p := p) (mem0 := mem0) (mem := mem) as (o & -> & Ho); try done.
  - intros j Hj. by apply needle_ld8.
  - intros j Hj. by apply text_ld8.
  - cbn [mbind result_bind]. eexists. split; [done|]. destruct o as [[k mem']|[]]; [|done].
    destruct Ho as (k' & x & -> & -> & Hm). by exists k', x.
Qed.

End window.
End needle.

(** ** The search *)

Section search.
Context (m : cmem) (fuel : nat) (h n : Z) (nd hay : list Z).
Context (Hn : bytes_at m n nd) (Hh : bytes_at m h hay).
Context (Fn : Forall is_byte nd) (Fh : Forall is_byte hay).
Let l := length nd.
Context (Hl0 : (0 < l)%nat) (Hl : Z.of_nat l < 2 ^ 63).

Lemma text_at d a i :
  (d + l <= length hay)%nat -> a = h + Z.of_nat d + Z.of_nat i -> (i < l)%nat ->
  ld8 a m = Ok (hay !!! (d + i)%nat) /\ is_byte (hay !!! (d + i)%nat).
Proof.
  intros Hd -> Hi. assert (hay !! (d + i)%nat = Some (hay !!! (d + i)%nat)) as He.
  { apply list_lookup_lookup_total_lt. lia. }
  split; [|by eapply (Forall_lookup_1 _ _ _ _ Fh)]. apply ld8_ok.
  rewrite <- (Hh _ _ He). f_equal. lia.
Qed.

Lemma window_step more s p mem0 bset shift d mem :
  (forall i, (i <= l)%nat -> more (Z.of_nat i) = Ok (i <? l)%nat) -> (l < fuel)%nat ->
  critical (nd !!!.) l s -> safe_shift nd s p mem0 -> tables nd l bset shift ->
  (d + l <= length hay)%nat -> searching nd hay s p d mem ->
  exists o, window m more bset shift (u64 (Z.of_nat s - 1)) (Z.of_nat p) (Z.of_nat mem0) fuel n
              (Z.of_nat l) (h + Z.of_nat d) (Z.of_nat mem) = Ok o /\
    match o with
    | inl (h', mem') => exists d' x, h' = h + Z.of_nat d' /\ mem' = Z.of_nat x /\
        (d < d' <= d + l)%nat /\ searching nd hay s p d' x
    | inr r => r = found_at h (sub_index nd hay)
    end.
Proof.
  unfold l in *. intros Hmore Hf Hc Hs Ht Hd Hsr.
  destruct (window_ok m n nd Hn Hl0 Hl (h + Z.of_nat d) (fun i => hay !!! (d + i)%nat) fuel) with
    (more := more) (s := s) (p := p) (mem0 := mem0) (bset := bset) (shift := shift) (mem := mem)
    as (o & -> & Ho); [intros; by apply text_at|done..|apply Hsr|].
  exists o. split; [done|]. destruct o as [[h' mem']|r].
  - destruct Ho as (k & x & -> & -> & Hm).
    destruct (searching_move nd hay s p d mem k x Hd Hsr Hm) as [Hsr' Hlt].
    exists (d + k)%nat, x. split_and!; [lia|done|lia|lia|done].
  - destruct Ho as [-> Hocc]. by rewrite (searching_found nd hay s p d mem Hd Hsr Hocc).
Qed.

Lemma twoway_ok :
  (2 * l < fuel)%nat -> (length hay < fuel)%nat -> Z.of_nat (length hay) < 2 ^ 63 ->
  twoway_memmem m fuel h (h + Z.of_nat (length hay)) n (Z.of_nat l) =
  Ok (found_at h (sub_index nd hay)).
Proof.
  unfold l in *. intros Hf Hfh Hlh. unfold twoway_memmem.
  destruct (fill_shift_ok m n nd Hn Fn Hl0 Hl fuel ltac:(lia)) as (bset & shift & -> & Ht).
  cbn [mbind result_bind].
  assert (forall i, (i < length nd)%nat -> ld8 (n + Z.of_nat i) m = Ok (nd !!! i)) as Hld.
  { intros i Hi. by apply (needle_ld8 m n nd Hn). }
  destruct (factorize_ok (fun i => ld8 (n + i) m) nd Hld Hl0 Hl fuel Hf) as (s & p0 & -> & Hc & Hp). cbn [mbind result_bind].
  destruct (periodic_ok nd Hl0 Hl (fun p k => memcmp m fuel n (n + p) k) s p0 Hc Hp) as (p & mem0 & -> & Hs).
  { pose proof Hc as [? _]. pose proof Hp as (? & ? & _). apply memcmp_halves; (done || lia). }
  cbn [mbind result_bind].
  edestruct (loop_rule (fun _ : Z * Z => Ok true)
    (fun '(h', mem) => if u64 (h + Z.of_nat (length hay) - h') <? Z.of_nat (length nd) then Ok (inr 0)
       else window m (fun k => Ok (k <? Z.of_nat (length nd))) bset shift (u64 (Z.of_nat s - 1)) (Z.of_nat p)
              (Z.of_nat mem0) fuel n (Z.of_nat (length nd)) h' mem)
    (fun st => exists d mem, st = (h + Z.of_nat d, Z.of_nat mem) /\ searching nd hay s p d mem)
    (fun r => r = found_at h (sub_index nd hay))
    (fun st => Z.to_nat (h + Z.of_nat (length hay) - st.1)) fuel (h, 0)) as (o & -> & Ho).
  - intros st (d & mem & -> & Hsr). eexists. split; [done|]. intros _. pose proof Hsr as (Hd & Hno & _).
    rewrite wrap_small by lia. destruct (Z.ltb_spec (h + Z.of_nat (length hay) - (h + Z.of_nat d)) (Z.of_nat (length nd))).
    + eexists. split; [done|]. rewrite (searching_end nd hay s p d mem Hsr); [done|lia].
    + destruct (window_step (fun k => Ok (k <? Z.of_nat (length nd))) s p mem0 bset shift d mem)
        as (o & Hw & Ho); try done; [|unfold l; lia|unfold l; lia|].
      { intros i Hi. unfold l in *. f_equal. destruct (Nat.ltb_spec i (length nd)), (Z.ltb_spec (Z.of_nat i) (Z.of_nat (length nd))); lia. }
      exists o. split; [exact Hw|]. destruct o as [[h' mem']|r]; [|done].
      destruct Ho as (d' & x & -> & -> & Hlt & Hsr'). split; [by exists d', x|].
      destruct Hsr' as [? _]. simpl. lia.
  - exists 0%nat, 0%nat. split; [f_equal; lia|]. apply searching_start.
  - simpl. lia.
  - cbn [mbind result_bind]. destruct o as [st|r]; [by destruct Ho|]. by rewrite Ho.
Qed.

End search.

(** From the first occurrence of the needle's first byte on. *)
Lemma memmem_rest m fuel h n nd hay :
  bytes_ok m -> bytes_at m n nd -> bytes_at m h hay -> (1 < length nd)%nat ->
  Z.of_nat (length nd) < 2 ^ 63 -> Z.of_nat (length hay) < 2 ^ 63 ->
  (2 * length nd < fuel)%nat -> (length hay < fuel)%nat ->
  let k := Z.of_nat (length hay) in let l := Z.of_nat (length nd) in
  (if k <? l then Ok 0 else
   if l =? 2 then twobyte_memmem m fuel h k n else
   if l =? 3 then threebyte_memmem m fuel h k n else
   if l =? 4 then fourbyte_memmem m fuel h k n else
   twoway_memmem m fuel h (h + k) n l) = Ok (found_at h (sub_index nd hay)).
Proof.
  intros Hok Hn Hh Hl1 Hl Hlh Hf Hfh k l.
  pose proof (bytes_at_ok m n nd Hok Hn) as Fn. pose proof (bytes_at_ok m h hay Hok Hh) as Fh.
  destruct (Z.ltb_spec k l); [by rewrite sub_index_short by lia|].
  destruct (Z.eqb_spec l 2); [apply twobyte_ok; (done || lia)|].
  destruct (Z.eqb_spec l 3); [apply threebyte_ok; (done || lia)|].
  destruct (Z.eqb_spec l 4); [apply fourbyte_ok; (done || lia)|].
  apply twoway_ok; (done || lia).
Qed.

(** C17: the search for a block in a block, by rolling words or by the two-way
    algorithm with its critical factorization, finds what trying every
    position finds: the first place where the needle is, or that there is
    none. It reads nothing but the two blocks and always ends. *)
Theorem memmem_spec m fuel h n nd hay :
  bytes_ok m -> bytes_at m n nd -> bytes_at m h hay -> 0 < h ->
  Z.of_nat (length nd) < 2 ^ 63 -> Z.of_nat (length hay) < 2 ^ 63 ->
  (2 * length nd < fuel)%nat -> (length hay < fuel)%nat ->
  memmem m fuel h (Z.of_nat (length hay)) n (Z.of_nat (length nd)) =
  Ok (found_at h (sub_index nd hay)).
Proof.
  intros Hok Hn Hh H0 Hl Hlh Hf Hfh. unfold memmem.
  destruct nd as [|c nd']; [destruct hay; simpl; f_equal; lia|].
  destruct (Z.eqb_spec (Z.of_nat (length (c :: nd'))) 0); [simpl in *; lia|].
  destruct (Z.ltb_spec (Z.of_nat (length hay)) (Z.of_nat (length (c :: nd')))) as [Hshort|Hlong].
  { rewrite sub_index_short by lia. done. }
  pose proof (bytes_at_ok m n _ Hok Hn) as [Hc _]%Forall_cons. cbv beta in Hc.
  rewrite (ld8_ok n m c) by by apply bytes_at_cons in Hn as [? _].
  cbn [mbind result_bind]. rewrite (memchr_ok m Hok) by done.
  cbn [mbind result_bind]. rewrite (wrap_small 8 c) by lia.
  rewrite found_at_drop. pose proof (index_of_le c hay) as Hle. set (i := index_of c hay) in *.
  destruct (Nat.ltb_spec i (length hay)) as [Hi|Hi]; cbn [orb].
  2: { simpl. rewrite drop_ge by lia. by rewrite sub_index_short by (simpl; lia). }
  destruct (Z.eqb_spec (h + Z.of_nat i) 0); [lia|]. cbn [orb].
  destruct (Z.eqb_spec (Z.of_nat (length (c :: nd'))) 1) as [H1|H1].
  { destruct nd'; [|simpl in H1; lia]. erewrite drop_S by by apply index_of_at.
    cbn [sub_index length take]. rewrite take_0, bool_decide_true by done. simpl. f_equal. lia. }
  pose proof (length_drop hay i) as Hld. rewrite wrap_small by lia.
  replace (Z.of_nat (length hay) - (h + Z.of_nat i - h)) with (Z.of_nat (length (drop i hay))) by lia.
  apply memmem_rest; try done; try lia.
  rewrite <- (take_drop i hay) in Hh. apply bytes_at_app in Hh as [_ Hh].
  by rewrite length_take_le in Hh by lia.
Qed.
