(* ===== verification/Strstr.v ===== *)
(** * Searching for a string in a string

    Models [strstr] of [lib/guest_bw/string]: the algorithms of [memmem] on a
    text whose end is looked for as the search goes on. *)

From S2P Require Import Prelude CMem CLoop StrScan StrCmp TwoWay TwoWayOps Memmem.
#[local] Open Scope Z_scope.

Section ops.
Context (m : cmem).
Implicit Types (fuel : nat) (h n z l k p ms mem : Z).

(** [for (h+=w-1; *h && hw != nw; hw = step(hw, *++h)); return *h ? h-(w-1) : 0;] *)
Definition rolling_str (w : Z) (step : Z -> Z -> Z) fuel h (nw hw : Z) : result Z :=
  '(h, _) ← while (fun '(h, hw) => b ← ld8 h m; Ok (negb (b =? 0) && negb (hw =? nw)))
              (fun '(h, hw) => b ← ld8 (h + 1) m; Ok (h + 1, step hw b))
              fuel (h + (w - 1), hw);
  b ← ld8 h m;
  Ok (if b =? 0 then 0 else h - (w - 1)).

Definition twobyte_strstr fuel h n : result Z :=
  nw ← twobyte_word m n; hw ← twobyte_word m h;
  rolling_str 2 (fun hw b => u16 (Z.lor (Z.shiftl hw 8) b)) fuel h nw hw.

Definition threebyte_strstr fuel h n : result Z :=
  nw ← threebyte_word m n; hw ← threebyte_word m h;
  rolling_str 3 (fun hw b => u32 (Z.shiftl (Z.lor hw b) 8)) fuel h nw hw.

Definition fourbyte_strstr fuel h n : result Z :=
  nw ← fourbyte_word m n; hw ← fourbyte_word m h;
  rolling_str 4 (fun hw b => u32 (Z.lor (u32 (Z.shiftl hw 8)) b)) fuel h nw hw.

(** [for (l=0; n[l] && h[l]; l++) BITOP(byteset, n[l], |=), shift[n[l]] = l+1;] *)
Definition fill_shift_str fuel h n : result (Z * list Z * gmap Z Z) :=
  while (fun '(l, bset, shift) =>
           a ← ld8 (n + l) m;
           if a =? 0 then Ok false else b ← ld8 (h + l) m; Ok (negb (b =? 0)))
    (fun '(l, bset, shift) =>
       b ← ld8 (n + l) m;
       Ok (u64 (l + 1), bitop_or bset b, <[b := u64 (l + 1)]> (shift : gmap Z Z)))
    fuel (0, byteset0, ∅).

(** The end of the text, as far as it is known: the next [z], or nothing when
    the text is too short. *)
Definition grow_end fuel h z l : result (option Z) :=
  if u64 (z - h) <? l then
    let grow := Z.lor l 63 in
    z2 ← memchr m fuel z 0 grow;
    if negb (z2 =? 0) then Ok (if u64 (z2 - h) <? l then None else Some z2)
    else Ok (Some (z + grow))
  else Ok (Some z).

Definition twoway_strstr fuel h n : result Z :=
  '(l, bset, shift) ← fill_shift_str fuel h n;
  e ← ld8 (n + l) m;
  if negb (e =? 0) then Ok 0 else
  '(ms, p) ← factorize (fun i => ld8 (n + i) m) fuel l;
  '(p, mem0) ← periodic (fun p k => memcmp m fuel n (n + p) k) l ms p;
  o ← loop (fun _ => Ok true)
        (fun '(h, z, mem) =>
           z ← grow_end fuel h z l;
           match z with
           | None => Ok (inr 0)
           | Some z =>
               w ← window m (fun k => b ← ld8 (n + k) m; Ok (negb (b =? 0)))
                     bset shift ms p mem0 fuel n l h mem;
               Ok (match w with inl (h, mem) => inl (h, z, mem) | inr r => inr r end)
           end)
        fuel (h, h, 0);
  match o with inr r => Ok r | inl _ => Fault "unreachable"%string end.

Definition strstr fuel h n : result Z :=
  n0 ← ld8 n m;
  if n0 =? 0 then Ok h else
  h ← strchr m fuel h n0;
  if h =? 0 then Ok h else
  n1 ← ld8 (n + 1) m;
  if n1 =? 0 then Ok h else
  h1 ← ld8 (h + 1) m;
  if h1 =? 0 then Ok 0 else
  n2 ← ld8 (n + 2) m;
  if n2 =? 0 then twobyte_strstr fuel h n else
  h2 ← ld8 (h + 2) m;
  if h2 =? 0 then Ok 0 else
  n3 ← ld8 (n + 3) m;
  if n3 =? 0 then threebyte_strstr fuel h n else
  h3 ← ld8 (h + 3) m;
  if h3 =? 0 then Ok 0 else
  n4 ← ld8 (n + 4) m;
  if n4 =? 0 then fourbyte_strstr fuel h n else
  twoway_strstr fuel h n.

End ops.

(** ** Short needles *)

Lemma str_bytes l : Forall (fun b => 0 < b < 256) l -> Forall is_byte l.
Proof. intros Hl. eapply Forall_impl; [exact Hl|]. simpl. lia. Qed.

Section rolling.
Context (m : cmem) (w : nat) (val : list Z -> Z) (step : Z -> Z -> Z).
Context (step_val : forall a bs b, length (a :: bs) = w -> Forall is_byte (a :: bs) -> is_byte b ->
  step (val (a :: bs)) b = val (bs ++ [b])).
Context (val_inj : forall bs cs, length bs = w -> length cs = w -> Forall is_byte bs -> Forall is_byte cs ->
  val bs = val cs -> bs = cs).
Context (w_pos : (0 < w)%nat).

Lemma window_last h cur rest :
  length cur = w -> cstr m h (cur ++ rest) ->
  exists y, ld8 (h + (Z.of_nat w - 1)) m = Ok y /\ 0 < y < 256.
Proof using w_pos.
  intros Hcur [Hat Hnz]. destruct (lookup_lt_is_Some_2 cur (w - 1)) as [y Hy]; [lia|].
  assert ((cur ++ rest) !! (w - 1)%nat = Some y) as Hy' by by apply lookup_app_l_Some.
  exists y. split; [|by apply (Forall_lookup_1 _ _ _ _ Hnz) in Hy']. apply ld8_ok.
  replace (h + (Z.of_nat w - 1)) with (h + Z.of_nat (w - 1)) by lia. apply Hat.
  by apply lookup_app_l_Some.
Qed.

Lemma sub_index_window cur rest nd :
  length cur = w -> length nd = w ->
  sub_index nd (cur ++ rest) =
  if bool_decide (cur = nd) then Some 0%nat else S <$> sub_index nd (tail cur ++ rest).
Proof using w_pos.
  intros Hcur Hnd. destruct cur as [|c cur]; [simpl in *; lia|]. cbn [sub_index app tail].
  change (c :: cur ++ rest) with ((c :: cur) ++ rest).
  by rewrite Hnd, <- Hcur, take_app_length.
Qed.

(** The loop from a window on that is not the needle, or is it. *)
Definition roll (fuel : nat) (nw : Z) : Z * Z -> result (Z * Z) :=
  while (fun '(h, hw) => b ← ld8 h m; Ok (negb (b =? 0) && negb (hw =? nw)))
        (fun '(h, hw) => b ← ld8 (h + 1) m; Ok (h + 1, step hw b)) fuel.

Lemma rolling_str_ok fuel h cur rest nd :
  length cur = w -> length nd = w -> cstr m h (cur ++ rest) -> Forall is_byte nd ->
  (S (length rest) < fuel)%nat ->
  rolling_str m (Z.of_nat w) step fuel h (val nd) (val cur) =
  Ok (found_at h (sub_index nd (cur ++ rest))).
Proof using step_val val_inj w_pos.
  intros Hcur Hnd Hs Hbn Hf. unfold rolling_str. fold (roll fuel (val nd)).
  revert rest fuel h cur Hcur Hs Hf.
  enough (forall k rest fuel h cur, length rest = k -> length cur = w -> cstr m h (cur ++ rest) ->
    (S k < fuel)%nat ->
    ('(h, _) ← roll fuel (val nd) (h + (Z.of_nat w - 1), val cur);
     b ← ld8 h m; Ok (if b =? 0 then 0 else h - (Z.of_nat w - 1))) =
    Ok (found_at h (sub_index nd (cur ++ rest)))) as Hgen by (intros; by eapply Hgen).
  induction k as [k IH] using lt_wf_ind. intros rest fuel h cur Hk Hcur Hs Hf.
  destruct fuel as [|fuel]; [lia|]. destruct (window_last h cur _ Hcur Hs) as (y & Hy & Hyb).
  pose proof Hs as [Hat [Hbc%str_bytes Hbr]%Forall_app]. rewrite (sub_index_window cur rest nd Hcur Hnd).
  unfold roll. rewrite while_S, Hy. cbn [mbind result_bind]. destruct (Z.eqb_spec y 0); [lia|]. cbn [negb andb].
  destruct (Z.eqb_spec (val cur) (val nd)) as [He|Hne]; cbn [negb mbind result_bind].
  { apply val_inj in He; [|done..]. rewrite bool_decide_true, Hy by done. cbn [mbind result_bind].
    destruct (Z.eqb_spec y 0); [lia|]. simpl. f_equal. lia. }
  rewrite bool_decide_false by congruence.
  destruct cur as [|c cur]; [simpl in *; lia|]. cbn [tail].
  assert (forall b rest', rest ++ [0] = b :: rest' ->
    ld8 (h + (Z.of_nat w - 1) + 1) m = Ok b) as Hnext.
  { intros b rest' Er. apply ld8_ok. rewrite <- app_assoc, Er in Hat.
    replace (h + (Z.of_nat w - 1) + 1) with (h + Z.of_nat (length (c :: cur))) by lia.
    apply Hat. by apply list_lookup_middle. }
  destruct rest as [|b rest].
  - rewrite (Hnext 0 [] eq_refl). cbn [mbind result_bind]. destruct fuel as [|fuel]; [lia|].
    rewrite while_S, (Hnext 0 [] eq_refl). cbn [mbind result_bind andb negb Z.eqb].
    rewrite (Hnext 0 [] eq_refl). cbn [mbind result_bind]. rewrite app_nil_r, sub_index_short; [done|].
    simpl in Hcur. lia.
  - rewrite (Hnext b _ eq_refl). cbn [mbind result_bind]. inversion Hbr as [|? ? Hb Hbr']; subst.
    rewrite step_val by (done || lia). fold (roll fuel (val nd)).
    replace (h + (Z.of_nat (length nd) - 1) + 1) with (h + 1 + (Z.of_nat (length nd) - 1)) by lia.
    rewrite (IH (length rest)) with (rest := rest) (cur := (cur ++ [b])%list).
    + rewrite <- app_assoc. cbn [app]. destruct (sub_index nd (cur ++ b :: rest)); simpl; f_equal; lia.
    + simpl. lia.
    + done.
    + rewrite length_app. simpl in *. lia.
    + rewrite <- app_assoc. cbn [app] in *. by apply cstr_cons in Hs as (_ & _ & ?).
    + simpl in Hf. lia.
Qed.

End rolling.

Section short.
Context (m : cmem) (fuel : nat) (h n : Z) (nd hs : list Z).
Context (Hn : cstr m n nd) (Hh : cstr m h hs).
Context (Hlen : (length nd <= length hs)%nat) (Hfuel : (S (length hs) < fuel)%nat).

Lemma twobyte_str_ok :
  length nd = 2%nat -> twobyte_strstr m fuel h n = Ok (found_at h (sub_index nd hs)).
Proof using All.
  intros H2. destruct nd as [|n0 [|n1 []]]; try done.
  destruct hs as [|h0 [|h1 rest]]; [simpl in *; lia..|].
  pose proof Hn as [[Hn' _]%(bytes_at_app m n [n0; n1] [0]) Fn%str_bytes].
  pose proof Hh as [[Hh' _]%(bytes_at_app m h [h0; h1] (rest ++ [0])) Fh%str_bytes].
  pose proof Fn as (? & (? & _)%Forall_cons)%Forall_cons.
  pose proof Fh as (? & (? & _)%Forall_cons)%Forall_cons.
  unfold twobyte_strstr. rewrite (twobyte_word_ok m n n0 n1), (twobyte_word_ok m h h0 h1) by done.
  cbn [mbind result_bind].
  apply (rolling_str_ok m 2 be_val _) with (cur := [h0; h1]) (rest := rest); try done;
    [apply twobyte_step|apply be_val_inj|lia|simpl in *; lia].
Qed.

Lemma threebyte_str_ok :
  length nd = 3%nat -> threebyte_strstr m fuel h n = Ok (found_at h (sub_index nd hs)).
Proof using All.
  intros H3. destruct nd as [|n0 [|n1 [|n2 []]]]; try done.
  destruct hs as [|h0 [|h1 [|h2 rest]]]; [simpl in *; lia..|].
  pose proof Hn as [[Hn' _]%(bytes_at_app m n [n0; n1; n2] [0]) Fn%str_bytes].
  pose proof Hh as [[Hh' _]%(bytes_at_app m h [h0; h1; h2] (rest ++ [0])) Fh%str_bytes].
  pose proof Fn as (? & (? & (? & _)%Forall_cons)%Forall_cons)%Forall_cons.
  pose proof Fh as (? & (? & (? & _)%Forall_cons)%Forall_cons)%Forall_cons.
  unfold threebyte_strstr.
  rewrite (threebyte_word_ok m n n0 n1 n2), (threebyte_word_ok m h h0 h1 h2) by done.
  cbn [mbind result_bind].
  apply (rolling_str_ok m 3 (fun bs => 256 * be_val bs) _) with (cur := [h0; h1; h2]) (rest := rest);
    try done; [apply threebyte_step|apply threebyte_inj|lia|simpl in *; lia].
Qed.

Lemma fourbyte_str_ok :
  length nd = 4%nat -> fourbyte_strstr m fuel h n = Ok (found_at h (sub_index nd hs)).
Proof using All.
  intros H4. destruct nd as [|n0 [|n1 [|n2 [|n3 []]]]]; try done.
  destruct hs as [|h0 [|h1 [|h2 [|h3 rest]]]]; [simpl in *; lia..|].
  pose proof Hn as [[Hn' _]%(bytes_at_app m n [n0; n1; n2; n3] [0]) Fn%str_bytes].
  pose proof Hh as [[Hh' _]%(bytes_at_app m h [h0; h1; h2; h3] (rest ++ [0])) Fh%str_bytes].
  pose proof Fn as (? & (? & (? & (? & _)%Forall_cons)%Forall_cons)%Forall_cons)%Forall_cons.
  pose proof Fh as (? & (? & (? & (? & _)%Forall_cons)%Forall_cons)%Forall_cons)%Forall_cons.
  unfold fourbyte_strstr.
  rewrite (fourbyte_word_ok m n n0 n1 n2 n3), (fourbyte_word_ok m h h0 h1 h2 h3) by done.
  cbn [mbind result_bind].
  apply (rolling_str_ok m 4 be_val _) with (cur := [h0; h1; h2; h3]) (rest := rest);
    try done; [apply fourbyte_step|apply be_val_inj|lia|simpl in *; lia].
Qed.

End short.

(** ** The two-way algorithm *)

(** A character of a string, or the null after it. *)
Lemma str_ld m a s i ls :
  cstr m s ls -> a = s + Z.of_nat i -> (i <= length ls)%nat ->
  exists b, ld8 a m = Ok b /\ (b =? 0) = negb (i <? length ls)%nat /\
    ((i < length ls)%nat -> b = ls !!! i).
Proof.
  intros [Hat Hnz] -> Hi. destruct (decide (i = length ls)) as [->|Hne].
  - exists 0. split_and!; [|by rewrite Nat.ltb_irrefl|lia]. apply ld8_ok, Hat, list_lookup_middle. done.
  - assert (i < length ls)%nat as Hlt by lia.
    pose proof (list_lookup_lookup_total_lt ls i Hlt) as Hx. exists (ls !!! i). split_and!; [| |done].
    + apply ld8_ok, Hat. by apply lookup_app_l_Some.
    + destruct (Nat.ltb_spec i (length ls)); [|lia].
      apply (Forall_lookup_1 _ _ _ _ Hnz) in Hx. simpl in *. lia.
Qed.

Section twoway.
Context (m : cmem) (m_ok : bytes_ok m) (m_words : word_mapped m) (fuel : nat) (h n : Z) (nd hs : list Z).
Context (Hn : cstr m n nd) (Hh : cstr m h hs) (Hh0 : 0 < h).
Let l := length nd.
Context (Hl0 : (0 < l)%nat) (Hl : Z.of_nat l < 2 ^ 63) (Hlh : Z.of_nat (length hs) < 2 ^ 63).
Context (Hfuel : (S (length hs) < fuel)%nat).

Lemma fill_shift_str_ok :
  exists x bset shift, fill_shift_str m fuel h n = Ok (Z.of_nat x, bset, shift) /\
    x = Nat.min l (length hs) /\ tables nd x bset shift.
Proof.
  pose proof Hn as [_ Fn%str_bytes]. unfold fill_shift_str.
  edestruct (while_rule (fun '(l, bset, shift) =>
           a ← ld8 (n + l) m;
           if a =? 0 then Ok false else b ← ld8 (h + l) m; Ok (negb (b =? 0)))
    (fun '(l, bset, shift) =>
       b ← ld8 (n + l) m;
       Ok (u64 (l + 1), bitop_or bset b, <[b := u64 (l + 1)]> (shift : gmap Z Z)))
    (fun '(i, bset, shift) => exists x, (x <= l)%nat /\ (x <= length hs)%nat /\ i = Z.of_nat x /\
       length bset = 4%nat /\ tables nd x bset shift)
    (fun '(i, _, _) => Z.to_nat (Z.of_nat (length hs) - i)) fuel (0, byteset0, ∅))
    as ([[i bset] shift] & -> & (x & Hx & Hxh & -> & Hb & Ht) & Hend).
  - intros [[i bset] shift] (x & Hx & Hxh & -> & Hb & Ht).
    destruct (str_ld m (n + Z.of_nat x) n x nd Hn eq_refl Hx) as (a & -> & Ha & Ha').
    destruct (str_ld m (h + Z.of_nat x) h x hs Hh eq_refl Hxh) as (b & -> & Hb0 & _).
    cbn [mbind result_bind]. rewrite Ha, Hb0. fold l in Ha' |- *.
    destruct (Nat.ltb_spec x l), (Nat.ltb_spec x (length hs)); cbn [negb mbind result_bind];
      (eexists; split; [done|]); try done.
    intros _. eexists. split; [done|]. rewrite wrap_small by lia. split; [|lia].
    exists (S x). split_and!; [lia|lia|lia|by unfold bitop_or; rewrite length_insert|].
    rewrite Ha' by done. by apply tables_step.
  - exists 0%nat. split_and!; try done; [lia|lia|]. apply tables_empty.
  - lia.
  - destruct (str_ld m (n + Z.of_nat x) n x nd Hn eq_refl Hx) as (a & Hra & Ha & _).
    destruct (str_ld m (h + Z.of_nat x) h x hs Hh eq_refl Hxh) as (b & Hrb & Hb0 & _).
    rewrite Hra, Hrb in Hend. cbn [mbind result_bind] in Hend. rewrite Ha, Hb0 in Hend. fold l in Hend.
    exists x, bset, shift. split_and!; [done| |done].
    destruct (Nat.ltb_spec x l), (Nat.ltb_spec x (length hs)); simpl in Hend; (discriminate || lia).
Qed.

Lemma grow_bounds : Z.of_nat l <= Z.lor (Z.of_nat l) 63 < Z.of_nat l + 64.
Proof.
  pose proof (Z.add_lor_land (Z.of_nat l) 63). change 63 with (Z.ones 6) in *.
  rewrite Z.land_ones in * by lia. pose proof (Z.mod_pos_bound (Z.of_nat l) (2 ^ 6)).
  pose proof (Z.mod_le (Z.of_nat l) (2 ^ 6)). change (Z.ones 6) with 63 in *. lia.
Qed.

(** The null is looked for in the next block, which may reach past the text. *)
Lemma find_end z grow :
  (z <= length hs)%nat -> 0 <= grow ->
  memchr m fuel (h + Z.of_nat z) 0 grow =
  Ok (if Z.of_nat (length hs - z) <? grow then h + Z.of_nat (length hs) else 0).
Proof.
  intros Hz Hg. pose proof Hh as [Hat Hnz].
  assert (0 ∉ drop z hs) as Hni.
  { intros Hin. apply (Forall_drop _ z) in Hnz. rewrite Forall_forall in Hnz.
    specialize (Hnz 0 Hin). simpl in Hnz. lia. }
  assert (bytes_at m (h + Z.of_nat z) (drop z hs ++ [0])) as Hrest.
  { rewrite <- (take_drop z hs), <- app_assoc in Hat. apply bytes_at_app in Hat as [_ Hat].
    by rewrite length_take_le in Hat by done. }
  assert (index_of 0 (drop z hs ++ [0]) = length (drop z hs)) as Hidx.
  { clear -Hni. induction (drop z hs) as [|b bs IH]; [done|]. simpl.
    apply not_elem_of_cons in Hni as [? ?]. destruct (Z.eqb_spec b 0); [congruence|]. by rewrite IH. }
  pose proof (length_drop hs z) as Hld. destruct (Z.ltb_spec (Z.of_nat (length hs - z)) grow) as [Hlt|Hge].
  - rewrite (memchr_covers m m_ok fuel _ 0 (drop z hs ++ [0]) grow Hrest).
    + change (u8 0) with 0. rewrite Hidx, length_app. cbn [length].
      destruct (Nat.ltb_spec (length (drop z hs)) (length (drop z hs) + 1)); [f_equal; lia|lia].
    + right. change (u8 0) with 0. rewrite Hidx, length_app. cbn [length]. split_and!; [lia|lia|done].
    + rewrite length_app. simpl. lia.
  - set (bs := take (Z.to_nat grow) (drop z hs)).
    assert (length bs = Z.to_nat grow) as Hlb by (unfold bs; rewrite length_take; lia).
    replace grow with (Z.of_nat (length bs)) by lia.
    assert (bytes_at m (h + Z.of_nat z) bs) as Hbs.
    { rewrite <- (take_drop (Z.to_nat grow) (drop z hs)), <- app_assoc in Hrest.
      by apply bytes_at_app in Hrest as [? _]. }
    rewrite (memchr_found m fuel _ 0 bs m_ok Hbs) by lia. change (u8 0) with 0.
    rewrite decide_False; [done|]. intros Hin. apply Hni. by apply (subseteq_take (Z.to_nat grow)).
Qed.

Lemma grow_end_ok d z :
  (d <= z)%nat -> (z <= length hs)%nat ->
  exists o, grow_end m fuel (h + Z.of_nat d) (h + Z.of_nat z) (Z.of_nat l) = Ok o /\
    match o with
    | None => (length hs < d + l)%nat
    | Some e => exists z', e = h + Z.of_nat z' /\ (d + l <= z')%nat /\ (z' <= length hs)%nat
    end.
Proof.
  intros Hdz Hz. unfold grow_end. rewrite wrap_small by lia.
  destruct (Z.ltb_spec (h + Z.of_nat z - (h + Z.of_nat d)) (Z.of_nat l)) as [Hlt|Hge].
  2: { eexists. split; [done|]. exists z. lia. }
  pose proof grow_bounds as Hg. set (grow := Z.lor (Z.of_nat l) 63) in *.
  rewrite find_end by lia. cbn [mbind result_bind].
  destruct (Z.ltb_spec (Z.of_nat (length hs - z)) grow).
  - destruct (Z.eqb_spec (h + Z.of_nat (length hs)) 0); [lia|]. cbn [negb]. rewrite wrap_small by lia.
    eexists. split; [done|].
    destruct (Z.ltb_spec (h + Z.of_nat (length hs) - (h + Z.of_nat d)) (Z.of_nat l)); [lia|].
    exists (length hs). lia.
  - eexists. split; [done|]. exists (z + Z.to_nat grow)%nat. lia.
Qed.

Lemma twoway_str_ok :
  (2 * l < fuel)%nat -> twoway_strstr m fuel h n = Ok (found_at h (sub_index nd hs)).
Proof.
  intros Hf. unfold twoway_strstr. destruct fill_shift_str_ok as (x & bset & shift & -> & Hx & Ht).
  cbn [mbind result_bind].
  destruct (str_ld m (n + Z.of_nat x) n x nd Hn eq_refl) as (e & -> & He & _); [fold l; lia|].
  cbn [mbind result_bind]. rewrite He, negb_involutive. fold l.
  destruct (Nat.ltb_spec x l) as [Hlt|Hge].
  { rewrite sub_index_short by (fold l; lia). done. }
  replace x with l in * by lia. pose proof Hn as [Hn' Fn%str_bytes]. apply bytes_at_app in Hn' as [Hn' _].
  pose proof Hh as [Hh' Fh%str_bytes]. apply bytes_at_app in Hh' as [Hh' _].
  assert (forall i, (i < length nd)%nat -> ld8 (n + Z.of_nat i) m = Ok (nd !!! i)) as Hld.
  { intros i Hi. by apply (needle_ld8 m n nd Hn'). }
  destruct (factorize_ok (fun i => ld8 (n + i) m) nd Hld Hl0 Hl fuel Hf) as (s & p0 & Hfac & Hc & Hp). fold l in Hfac.
  rewrite Hfac. cbn [mbind result_bind].
  destruct (periodic_ok nd Hl0 Hl (fun p k => memcmp m fuel n (n + p) k) s p0 Hc Hp) as (p & mem0 & Hper & Hs).
  { pose proof Hc as [? _]. pose proof Hp as (? & ? & _). apply memcmp_halves; unfold l in *; (done || lia). }
  fold l in Hper. rewrite Hper. cbn [mbind result_bind].
  edestruct (loop_rule (R := Z) (fun _ : Z * Z * Z => Ok true)
    (fun '(h, z, mem) =>
       z ← grow_end m fuel h z (Z.of_nat l);
       match z with
       | None => Ok (inr 0)
       | Some z =>
           w ← window m (fun k => b ← ld8 (n + k) m; Ok (negb (b =? 0)))
                 bset shift (u64 (Z.of_nat s - 1)) (Z.of_nat p) (Z.of_nat mem0) fuel n (Z.of_nat l) h mem;
           Ok (match w with inl (h, mem) => inl (h, z, mem) | inr r => inr r end)
       end)
    (fun st => exists d z mem, st = (h + Z.of_nat d, h + Z.of_nat z, Z.of_nat mem) /\
       (d <= z)%nat /\ (z <= length hs)%nat /\ searching nd hs s p d mem)
    (fun r => r = found_at h (sub_index nd hs))
    (fun st => Z.to_nat (h + Z.of_nat (length hs) - st.1.1)) fuel (h, h, 0)) as (o & -> & Ho).
  - intros st (d & z & mem & -> & Hdz & Hz & Hsr). eexists. split; [done|]. intros _.
    destruct (grow_end_ok d z Hdz Hz) as ([e'|] & -> & Hend); cbn [mbind result_bind].
    2: { eexists. split; [done|]. rewrite (searching_end nd hs s p d mem Hsr); [done|unfold l in *; lia]. }
    destruct Hend as (z' & -> & Hdz' & Hz').
    destruct (window_step m fuel h n nd hs Hn' Hh' Fh Hl0 Hl) with
      (more := fun k => b ← ld8 (n + k) m; Ok (negb (b =? 0))) (s := s) (p := p) (mem0 := mem0)
      (bset := bset) (shift := shift) (d := d) (mem := mem) as (o & Hw & Ho); try done; [|fold l; lia..|].
    { intros i Hi. destruct (str_ld m (n + Z.of_nat i) n i nd Hn eq_refl Hi) as (b & -> & Hb & _).
      cbn [mbind result_bind]. by rewrite Hb, negb_involutive. }
    fold l in Hw. rewrite Hw. cbn [mbind result_bind]. eexists. split; [done|].
    destruct o as [[h' mem']|r]; [|done]. destruct Ho as (d' & y & -> & -> & Hlt & Hsr').
    fold l in Hlt. split; [exists d', z', y; split_and!; (done || lia)|]. simpl. destruct Hsr'. lia.
  - exists 0%nat, 0%nat, 0%nat. split; [repeat f_equal; lia|].
    split_and!; [lia|lia|]. apply searching_start.
  - simpl. lia.
  - cbn [mbind result_bind]. destruct o as [st|r]; [by destruct Ho|]. by rewrite Ho.
Qed.

End twoway.

Section strstr.
Context (m : cmem) (m_ok : bytes_ok m) (m_words : word_mapped m) (fuel : nat) (h n : Z).

(** From the first occurrence of the needle's first byte on. *)
Lemma strstr_rest nd hs :
  cstr m n nd -> cstr m h hs -> 0 < h -> (1 < length nd)%nat -> hs <> [] ->
  Z.of_nat (length nd) < 2 ^ 63 -> Z.of_nat (length hs) < 2 ^ 63 ->
  (2 * length nd < fuel)%nat -> (S (length hs) < fuel)%nat ->
  (h1 ← ld8 (h + 1) m;
   if h1 =? 0 then Ok 0 else
   n2 ← ld8 (n + 2) m;
   if n2 =? 0 then twobyte_strstr m fuel h n else
   h2 ← ld8 (h + 2) m;
   if h2 =? 0 then Ok 0 else
   n3 ← ld8 (n + 3) m;
   if n3 =? 0 then threebyte_strstr m fuel h n else
   h3 ← ld8 (h + 3) m;
   if h3 =? 0 then Ok 0 else
   n4 ← ld8 (n + 4) m;
   if n4 =? 0 then fourbyte_strstr m fuel h n else
   twoway_strstr m fuel h n) = Ok (found_at h (sub_index nd hs)).
Proof using m_ok m_words.
  intros Hn Hh H0 Hl1 Hne Hl Hlh Hf Hfh.
  assert (0 < length hs)%nat as Hh0 by (destruct hs; [done|simpl; lia]).
  destruct (str_ld m (h + 1) h 1 hs Hh) as (h1 & -> & E & _); [lia|lia|].
  cbn [mbind result_bind]. rewrite E. clear E.
  destruct (Nat.ltb_spec 1 (length hs)); cbn [negb]; [|by rewrite sub_index_short by lia].
  destruct (str_ld m (n + 2) n 2 nd Hn) as (n2 & -> & E & _); [lia|lia|].
  cbn [mbind result_bind]. rewrite E. clear E.
  destruct (Nat.ltb_spec 2 (length nd)); cbn [negb]; [|apply twobyte_str_ok; (done || lia)].
  destruct (str_ld m (h + 2) h 2 hs Hh) as (h2 & -> & E & _); [lia|lia|].
  cbn [mbind result_bind]. rewrite E. clear E.
  destruct (Nat.ltb_spec 2 (length hs)); cbn [negb]; [|by rewrite sub_index_short by lia].
  destruct (str_ld m (n + 3) n 3 nd Hn) as (n3 & -> & E & _); [lia|lia|].
  cbn [mbind result_bind]. rewrite E. clear E.
  destruct (Nat.ltb_spec 3 (length nd)); cbn [negb]; [|apply threebyte_str_ok; (done || lia)].
  destruct (str_ld m (h + 3) h 3 hs Hh) as (h3 & -> & E & _); [lia|lia|].
  cbn [mbind result_bind]. rewrite E. clear E.
  destruct (Nat.ltb_spec 3 (length hs)); cbn [negb]; [|by rewrite sub_index_short by lia].
  destruct (str_ld m (n + 4) n 4 nd Hn) as (n4 & -> & E & _); [lia|lia|].
  cbn [mbind result_bind]. rewrite E. clear E.
  destruct (Nat.ltb_spec 4 (length nd)); cbn [negb]; [|apply fourbyte_str_ok; (done || lia)].
  apply twoway_str_ok; (done || lia).
Qed.
End strstr.

(** C18: the search for a string in a string, which learns the end of the text as
    it goes, finds the first place where the needle is, or that there is none,
    and reads nothing past the words the two strings end in. *)
Theorem strstr_spec m fuel h n nd hs :
  bytes_ok m -> word_mapped m -> cstr m n nd -> cstr m h hs -> 0 < h ->
  Z.of_nat (length nd) < 2 ^ 63 -> Z.of_nat (length hs) < 2 ^ 63 ->
  (2 * length nd < fuel)%nat -> (S (length hs) < fuel)%nat ->
  strstr m fuel h n = Ok (found_at h (sub_index nd hs)).
Proof.
  intros m_ok m_words Hn Hh H0 Hl Hlh Hf Hfh. unfold strstr. rewrite (cstr_head _ _ _ Hn). cbn [mbind result_bind].
  destruct nd as [|c nd']; [destruct hs; simpl; f_equal; lia|].
  cbn [head0]. pose proof Hn as (_ & Hc & _)%cstr_cons. destruct (Z.eqb_spec c 0); [lia|].
  rewrite (strchr_ok m fuel h c hs) by done. cbn [mbind result_bind].
  rewrite (wrap_small 8 c) by lia. rewrite found_at_drop.
  destruct (decide (c ∈ hs ++ [0])) as [Hin|Hni]; rewrite elem_of_app, list_elem_of_singleton in *.
  2: { rewrite index_of_absent, drop_ge by naive_solver. by rewrite sub_index_short by (simpl; lia). }
  destruct Hin as [Hin|]; [|done].
  assert (index_of c (hs ++ [0]) = index_of c hs) as ->.
  { clear -Hin. induction hs as [|b hs IH]; [by apply not_elem_of_nil in Hin|]. simpl.
    destruct (Z.eqb_spec b c); [done|]. apply elem_of_cons in Hin as [?|Hin]; [congruence|].
    by rewrite IH. }
  pose proof (index_of_le c hs) as Hle. set (i := index_of c hs) in *.
  destruct (Z.eqb_spec (h + Z.of_nat i) 0); [lia|].
  assert (i < length hs)%nat as Hi.
  { destruct (decide (i < length hs)%nat) as [|Hge]; [done|exfalso].
    apply list_elem_of_lookup in Hin as [j Hj]. pose proof (lookup_lt_Some _ _ _ Hj).
    by apply (index_of_before c hs j c); [fold i; lia| |]. }
  pose proof (cstr_drop m h hs i Hle Hh) as Hh'.
  pose proof (length_drop hs i) as Hld.
  destruct (str_ld m (n + 1) n 1 (c :: nd') Hn) as (b1 & -> & E & _); [lia|simpl; lia|].
  cbn [mbind result_bind]. rewrite E. clear E. destruct (Nat.ltb_spec 1 (length (c :: nd'))) as [Hlt|Hge]; cbn [negb].
  - apply strstr_rest; try done; try lia. intros He. rewrite He in Hld. simpl in Hld. lia.
  - destruct nd'; [|simpl in Hge; lia]. erewrite drop_S by by apply index_of_at.
    cbn [sub_index length take]. rewrite take_0, bool_decide_true by done. simpl. f_equal. lia.
Qed.

(** ** Examples *)

(** A periodic needle, in a text where the last period is broken once before
    it occurs. *)
Module ToySub.
Definition needle : list Z := [97; 98; 97; 97; 98; 97; 97; 98].
Definition hay : list Z := [99; 97; 98; 97; 97; 98; 97; 97; 97; 98; 97; 97; 98; 97; 97; 98].
Definition m : cmem := region 64 (hay ++ [0; 7; 7; 7; 7; 7; 7; 7] ++ needle ++ [0; 9; 9; 9; 9; 9; 9; 9]).

Lemma sub_bytes_ok : bytes_ok m.
Proof. by apply bytes_ok_compute; vm_compute. Qed.

Lemma sub_words : word_mapped m.
Proof. by apply word_mapped_compute; vm_compute. Qed.

Lemma sub_hay : cstr m 64 hay.
Proof. by apply cstr_compute; vm_compute. Qed.

Lemma sub_needle : cstr m 88 needle.
Proof. by apply cstr_compute; vm_compute. Qed.

Lemma memmem_spec_witness : memmem m 100 64 16 88 8 = Ok 72.
Proof.
  refine (eq_trans (memmem_spec m 100 64 88 needle hay sub_bytes_ok _ _ _ _ _ _ _) _).
  - apply (bytes_at_app m 88 needle [0]), sub_needle.
  - apply (bytes_at_app m 64 hay [0]), sub_hay.
  - lia.
  - simpl. lia.
  - simpl. lia.
  - simpl. lia.
  - simpl. lia.
  - reflexivity.
Defined.

Lemma strstr_spec_witness : strstr m 100 64 88 = Ok 72.
Proof.
  refine (eq_trans (strstr_spec m 100 64 88 needle hay sub_bytes_ok sub_words sub_needle sub_hay
    _ _ _ _ _) _); [lia|simpl; lia|simpl; lia|simpl; lia|simpl; lia|reflexivity].
Defined.

End ToySub.
