(* ===== verification/StrTok.v ===== *)
(** * Tokens, and comparison without case

    Models [strsep], [strtok], [strtok_r], [strcasecmp], [strncasecmp],
    [strcasestr], [index] and [rindex] of [lib/guest_bw/string]. The tokenisers
    write nulls into the string they cut up: the memory is part of their
    result. *)

From S2P Require Import Prelude CMem CLoop StrScan StrCmp TwoWayOps Memmem Strstr.
#[local] Open Scope Z_scope.

(** ** Operations *)

Section tokens_ops.
Implicit Types (fuel : nat) (m : cmem) (s sep p : Z).

(** The pointer that [str] points to is passed and returned. *)
Definition strsep fuel m (str : Z) sep : result (Z * cmem * Z) :=
  let s := str in
  if s =? 0 then Ok (0, m, str) else
  n ← strcspn m fuel s sep;
  let e := s + n in
  b ← ld8 e m;
  if negb (b =? 0) then m ← st8 e 0 m; Ok (s, m, e + 1) else Ok (s, m, 0).

Definition strtok_r fuel m s sep p : result (Z * cmem * Z) :=
  let s := if s =? 0 then p else s in
  if s =? 0 then Ok (0, m, p) else
  n ← strspn m fuel s sep;
  let s := s + n in
  b ← ld8 s m;
  if b =? 0 then Ok (0, m, 0) else
  n ← strcspn m fuel s sep;
  let p := s + n in
  b ← ld8 p m;
  if negb (b =? 0) then m ← st8 p 0 m; Ok (s, m, p + 1) else Ok (s, m, 0).

(** The static [p] is part of the state. *)
Definition strtok fuel (st : cmem * Z) s sep : result (Z * (cmem * Z)) :=
  let '(m, p) := st in
  let s := if s =? 0 then p else s in
  if s =? 0 then Ok (0, (m, p)) else
  n ← strspn m fuel s sep;
  let s := s + n in
  b ← ld8 s m;
  if b =? 0 then Ok (0, (m, 0)) else
  n ← strcspn m fuel s sep;
  let p := s + n in
  b ← ld8 p m;
  if negb (b =? 0) then m ← st8 p 0 m; Ok (s, (m, p + 1)) else Ok (s, (m, 0)).

End tokens_ops.

Section case_ops.
Context (tolower : Z -> Z) (m : cmem).
Implicit Types (fuel : nat) (l r h n s c : Z).

Definition strcasecmp fuel l r : result Z :=
  '(l, r) ← while (fun '(l, r) =>
                a ← ld8 l m;
                if a =? 0 then Ok false else
                b ← ld8 r m;
                Ok (negb (b =? 0) && ((a =? b) || (tolower a =? tolower b))))
              (fun '(l, r) => Ok (l + 1, r + 1)) fuel (l, r);
  a ← ld8 l m; b ← ld8 r m; Ok (tolower a - tolower b).

Definition strncasecmp fuel l r n : result Z :=
  if n =? 0 then Ok 0 else
  '(l, r, n) ← while (fun '(l, r, n) =>
                  a ← ld8 l m;
                  if a =? 0 then Ok false else
                  b ← ld8 r m;
                  Ok (negb (b =? 0) && negb (n =? 0) && ((a =? b) || (tolower a =? tolower b))))
                (fun '(l, r, n) => Ok (l + 1, r + 1, n - 1)) fuel (l, r, n - 1);
  a ← ld8 l m; b ← ld8 r m; Ok (tolower a - tolower b).

Definition strcasestr fuel h n : result Z :=
  l ← strlen m fuel n;
  o ← loop (fun h => b ← ld8 h m; Ok (negb (b =? 0)))
        (fun h => d ← strncasecmp fuel h n l;
                  if d =? 0 then Ok (inr h) else Ok (inl (h + 1)))
        fuel h;
  match o with inr r => Ok r | inl _ => Ok 0 end.

Definition index fuel s c : result Z := strchr m fuel s c.
Definition rindex fuel s c : result Z := strrchr m fuel s c.

End case_ops.

(** ** Tokens *)

Section tokens.
Context (sep : Z -> bool).

(** The maximal runs of bytes that are not separators; [cur] is the run that
    was begun, backwards. *)
Fixpoint tokens_from (cur l : list Z) : list (list Z) :=
  match l with
  | [] => if decide (cur = []) then [] else [rev cur]
  | b :: l =>
      if sep b then if decide (cur = []) then tokens_from [] l else rev cur :: tokens_from [] l
      else tokens_from (b :: cur) l
  end.

Definition tokens : list Z -> list (list Z) := tokens_from [].

Lemma tokens_skip l : tokens (drop (span sep l) l) = tokens l.
Proof.
  unfold tokens. induction l as [|b l IH]; [done|]. simpl. destruct (sep b) eqn:Hb; [|by simpl; rewrite Hb].
  simpl. by rewrite IH.
Qed.

Lemma tokens_take cur l :
  (cur <> [] \/ 0 < span (fun b => negb (sep b)) l)%nat ->
  tokens_from cur l = (rev cur ++ take (span (fun b => negb (sep b)) l) l) ::
    tokens (drop (S (span (fun b => negb (sep b)) l)) l).
Proof.
  revert cur. induction l as [|b l IH]; intros cur Hc; simpl in *.
  - destruct (decide (cur = [])) as [->|]; [destruct Hc; [done|lia]|]. by rewrite app_nil_r.
  - destruct (sep b) eqn:Hb; simpl in *.
    + destruct (decide (cur = [])) as [->|]; [destruct Hc; [done|lia]|]. by rewrite app_nil_r, drop_0.
    + rewrite IH by (left; done). simpl. by rewrite <- app_assoc.
Qed.

(** The byte after a run of separators is none. *)
Lemma span_next p l b : l !! span p l = Some b -> p b = false.
Proof. induction l as [|a l IH]; simpl; [done|]. destruct (p a) eqn:Ha; [done|]. by intros [= ->]. Qed.

End tokens.

Lemma cstr_frame m m' s l :
  cstr m s l -> (forall x, s <= x <= s + Z.of_nat (length l) -> m' !! x = m !! x) -> cstr m' s l.
Proof.
  intros [Hat Hnz] Hf. split; [|done]. intros i b Hi. rewrite Hf; [by apply Hat|].
  apply lookup_lt_Some in Hi. rewrite length_app in Hi. simpl in Hi. lia.
Qed.

(** A null written over a character cuts the string in two. *)
Lemma cstr_cut m s l j :
  cstr m s l -> (j < length l)%nat ->
  exists m', st8 (s + Z.of_nat j) 0 m = Ok m' /\ cstr m' s (take j l) /\
    cstr m' (s + Z.of_nat j + 1) (drop (S j) l) /\
    (forall x, x <> s + Z.of_nat j -> m' !! x = m !! x) /\
    (bytes_ok m -> bytes_ok m') /\ (word_mapped m -> word_mapped m').
Proof.
  intros Hs Hj. pose proof Hs as [Hat Hnz].
  destruct (lookup_lt_is_Some_2 l j Hj) as [b Hb].
  assert (m !! (s + Z.of_nat j) = Some b) as Hm by (apply Hat; by apply lookup_app_l_Some).
  exists (<[s + Z.of_nat j := 0]> m). split_and!.
  - unfold st8. by rewrite Hm.
  - split; [|by apply Forall_take]. intros i c [Hi|[Hle Hi]]%lookup_app_Some.
    + apply lookup_take_Some in Hi as [Hi Hij]. rewrite lookup_insert_ne by lia. apply Hat.
      by apply lookup_app_l_Some.
    + rewrite length_take_le in Hle, Hi by lia. apply list_lookup_singleton_Some in Hi as [Hz ->].
      replace i with j by lia. apply lookup_insert_eq.
  - replace (s + Z.of_nat j + 1) with (s + Z.of_nat (S j)) by lia.
    apply (cstr_frame m); [by apply cstr_drop|]. intros x Hx. apply lookup_insert_ne. lia.
  - intros x Hx. by apply lookup_insert_ne.
  - intros Hok. apply (bytes_ok_put (s + Z.of_nat j) [0]); [done|]. repeat constructor; lia.
  - intros Hw a Ha. apply (mapped_put 8 (s + Z.of_nat j) [0]), Hw. simpl in Ha.
    destruct (decide (s + Z.of_nat j = a)) as [<-|]; [by exists b|]. by rewrite lookup_insert_ne in Ha.
Qed.

Section strtok.
Context (fuel : nat) (c : Z) (cs : list Z).
Let isep : Z -> bool := fun b => bool_decide (b ∈ cs).
Let nsep : Z -> bool := fun b => bool_decide (b ∉ cs).

Lemma nsep_isep l : span nsep l = span (fun b => negb (isep b)) l.
Proof.
  apply span_ext, Forall_forall. intros b _. unfold nsep, isep.
  by rewrite bool_decide_not.
Qed.

(** What a memory has to be for a call on a string at [s]. *)
Definition tok_ready (m : cmem) (s : Z) (l : list Z) : Prop :=
  bytes_ok m /\ word_mapped m /\ cstr m c cs /\ cstr m s l /\ 0 < s /\
  (s + Z.of_nat (length l) < c \/ c + Z.of_nat (length cs) < s) /\
  (length l < fuel)%nat /\ (length cs < fuel)%nat.

(** One call: the next token, cut off, and the rest of the string. *)
Lemma strtok_r_step m s0 p s l :
  (s0 = s \/ s0 = 0 /\ p = s) -> tok_ready m s l ->
  exists r m' p', strtok_r fuel m s0 c p = Ok (r, m', p') /\
    (forall x, x < s \/ s + Z.of_nat (length l) <= x -> m' !! x = m !! x) /\
    match tokens isep l with
    | [] => r = 0 /\ m' = m
    | t :: ts => s <= r /\ cstr m' r t /\
        (p' = 0 /\ ts = [] \/
         exists l', tokens isep l' = ts /\ r + Z.of_nat (length t) < p' /\ (length l' < length l)%nat /\
           p' + Z.of_nat (length l') = s + Z.of_nat (length l) /\ tok_ready m' p' l')
    end.
Proof.
  intros Hsp (Hok & Hw & Hc & Hs & H0 & Hd & Hf & Hfc). unfold strtok_r.
  assert ((if s0 =? 0 then p else s0) = s) as ->
    by (destruct Hsp as [->|[-> ->]]; [destruct (Z.eqb_spec s 0); lia|done]).
  destruct (Z.eqb_spec s 0); [lia|]. rewrite (strspn_ok m fuel s c l cs) by done.
  cbn [mbind result_bind]. pose proof (span_le isep l) as Hi. fold isep. set (i := span isep l) in *.
  pose proof (cstr_drop m s l i Hi Hs) as Hs'. rewrite <- (tokens_skip isep l). fold i.
  set (rest := drop i l) in *. assert (length rest = (length l - i)%nat) as Hlr by apply length_drop.
  rewrite (cstr_head _ _ _ Hs'). cbn [mbind result_bind].
  assert (rest = [] \/ exists b rest', rest = b :: rest') as [Er|(b & rest' & Er)]
    by (destruct rest; eauto).
  { rewrite Er. cbn [head0 Z.eqb tokens tokens_from]. rewrite decide_True by done.
    exists 0, m, 0. split_and!; done. }
  assert (0 < b < 256) as Hb by (rewrite Er in Hs'; by apply cstr_cons in Hs' as (_ & ? & _)).
  replace (head0 rest) with b by by rewrite Er. destruct (Z.eqb_spec b 0); [lia|].
  rewrite (strcspn_ok m Hok Hw fuel _ c rest cs) by (done || lia). cbn [mbind result_bind].
  fold nsep. pose proof (span_le nsep rest) as Hj. set (j := span nsep rest) in *.
  assert (isep b = false) as Hbs.
  { apply (span_next isep l). fold i. rewrite <- (Nat.add_0_r i), <- lookup_drop. fold rest. by rewrite Er. }
  assert (0 < j)%nat as Hj0.
  { unfold j. rewrite nsep_isep, Er. simpl. rewrite Hbs. simpl. lia. }
  assert (tokens isep rest = take j rest :: tokens isep (drop (S j) rest)) as ->.
  { unfold tokens. rewrite tokens_take by (rewrite <- nsep_isep; by right). by rewrite <- nsep_isep. }
  destruct (str_ld m (s + Z.of_nat i + Z.of_nat j) _ j rest Hs') as (y & -> & Ey & _); [done|done|].
  cbn [mbind result_bind]. rewrite Ey. destruct (Nat.ltb_spec j (length rest)) as [Hlt|Hge]; cbn [negb].
  - destruct (cstr_cut m _ rest j Hs' Hlt) as (m' & -> & Htok & Hrest & Hfr & Hok' & Hw').
    cbn [mbind result_bind]. exists (s + Z.of_nat i), m', (s + Z.of_nat i + Z.of_nat j + 1).
    split; [done|]. split; [intros x Hx; apply Hfr; lia|]. split_and!; [lia|done|right].
    exists (drop (S j) rest). rewrite length_take_le, length_drop by done.
    split_and!; [done|lia|lia|lia|]. unfold tok_ready. rewrite length_drop.
    split_and!; try done; try lia; [by apply Hok'|by apply Hw'|].
    apply (cstr_frame m); [done|]. intros x Hx. apply Hfr. lia.
  - exists (s + Z.of_nat i), m, 0. rewrite take_ge by done. split_and!; try done; [lia|left].
    split; [done|]. by rewrite drop_ge by lia.
Qed.

(** The way [strtok_r] is used: first with the string, then with a null
    pointer, until it gives one. *)
Fixpoint calls (k : nat) (m : cmem) (s p : Z) : result (list Z * cmem) :=
  match k with
  | O => Fault "fuel"%string
  | S k =>
      '(r, m, p) ← strtok_r fuel m s c p;
      if r =? 0 then Ok ([], m) else
      '(rs, m) ← calls k m 0 p;
      Ok (r :: rs, m)
  end.

Lemma calls_end k m : (0 < k)%nat -> calls k m 0 0 = Ok ([], m).
Proof. by destruct k; [lia|]. Qed.

Lemma calls_ok k m s0 p s l :
  (s0 = s \/ s0 = 0 /\ p = s) -> tok_ready m s l -> (S (length l) < k)%nat ->
  exists rs m', calls k m s0 p = Ok (rs, m') /\ Forall2 (cstr m') rs (tokens isep l) /\
    (forall x, x < s \/ s + Z.of_nat (length l) <= x -> m' !! x = m !! x).
Proof.
  revert m s0 p s l. induction k as [|k IH]; intros m s0 p s l Hsp Hr Hk; [lia|].
  destruct (strtok_r_step m s0 p s l Hsp Hr) as (r & m' & p' & Hcall & Hfr & Htok).
  pose proof Hr as (_ & _ & _ & _ & H0 & _). cbn [calls]. rewrite Hcall. cbn [mbind result_bind].
  destruct (tokens isep l) as [|t ts].
  { destruct Htok as [-> ->]. by exists [], m. }
  destruct Htok as (Hsr & Ht & Hrest). destruct (Z.eqb_spec r 0); [lia|].
  destruct Hrest as [[-> ->]|(l' & <- & Hlt & Hlen & Hend & Hr')].
  - rewrite calls_end by lia. cbn [mbind result_bind]. exists [r], m'. split_and!; [done| |done].
    by constructor; [|constructor].
  - destruct (IH m' 0 p' p' l') as (rs & m'' & -> & Hall & Hfr'); [by right|done|lia|].
    cbn [mbind result_bind]. exists (r :: rs), m''. split; [done|]. split.
    + constructor; [|done]. apply (cstr_frame m'); [done|]. intros x Hx. apply Hfr'. lia.
    + intros x Hx. rewrite Hfr' by lia. apply Hfr. lia.
Qed.

End strtok.

(** [strtok] is [strtok_r] with a pointer of its own. *)
Lemma strtok_strtok_r fuel m p s sep :
  strtok fuel (m, p) s sep = ('(r, m, p) ← strtok_r fuel m s sep p; Ok (r, (m, p))).
Proof.
  unfold strtok, strtok_r. destruct ((if s =? 0 then p else s) =? 0); [done|].
  destruct (strspn m fuel _ sep); cbn [mbind result_bind]; try done.
  destruct (ld8 _ m); cbn [mbind result_bind]; try done. case_match; [done|].
  destruct (strcspn m fuel _ sep); cbn [mbind result_bind]; try done.
  destruct (ld8 _ m); cbn [mbind result_bind]; try done. case_match; [|done].
  by destruct (st8 _ 0 m).
Qed.

(** One [strsep] cuts the string at its first separator, and an empty field
    counts. *)
Lemma strsep_ok fuel m s l c cs :
  tok_ready fuel c cs m s l ->
  let j := span (fun b => bool_decide (b ∉ cs)) l in
  exists m', strsep fuel m s c = Ok (s, m', if (j <? length l)%nat then s + Z.of_nat j + 1 else 0) /\
    cstr m' s (take j l) /\ (j < length l -> tok_ready fuel c cs m' (s + Z.of_nat j + 1) (drop (S j) l))%nat /\
    (forall x, x <> s + Z.of_nat j -> m' !! x = m !! x).
Proof.
  intros (Hok & Hw & Hc & Hs & H0 & Hd & Hf & Hfc) j. unfold strsep.
  destruct (Z.eqb_spec s 0); [lia|]. rewrite (strcspn_ok m Hok Hw fuel s c l cs) by done.
  cbn [mbind result_bind]. fold j. pose proof (span_le (fun b => bool_decide (b ∉ cs)) l) as Hj. fold j in Hj.
  destruct (str_ld m (s + Z.of_nat j) s j l Hs) as (y & -> & Ey & _); [done|done|].
  cbn [mbind result_bind]. rewrite Ey. destruct (Nat.ltb_spec j (length l)) as [Hlt|Hge]; cbn [negb].
  - destruct (cstr_cut m s l j Hs Hlt) as (m' & -> & Htok & Hrest & Hfr & Hok' & Hw').
    cbn [mbind result_bind]. exists m'. split_and!; [done|done| |done]. intros _.
    unfold tok_ready. rewrite length_drop. split_and!; try done; try lia; [by apply Hok'|by apply Hw'|].
    apply (cstr_frame m); [done|]. intros x Hx. apply Hfr. lia.
  - exists m. rewrite take_ge by done. split_and!; try done. lia.
Qed.

(** ** Comparison without case *)

Section nocase.
Context (tolower : Z -> Z) (m : cmem).
Context (lower_0 : tolower 0 = 0) (lower_pos : forall b, 0 < b < 256 -> 0 < tolower b < 256).

Lemma lower_head l : tolower (head0 l) = head0 (map tolower l).
Proof. by destruct l. Qed.

Lemma str_diff_heads a l b r :
  tolower a <> tolower b -> str_diff (map tolower (a :: l)) (map tolower (b :: r)) = tolower a - tolower b.
Proof. intros Hne. simpl. by destruct (Z.eqb_spec (tolower a) (tolower b)). Qed.

Lemma case_eqb a b : (a =? b) || (tolower a =? tolower b) = (tolower a =? tolower b).
Proof. destruct (Z.eqb_spec a b) as [->|]; [by rewrite Z.eqb_refl|done]. Qed.

Lemma strcasecmp_ok fuel l r ls rs :
  cstr m l ls -> cstr m r rs -> (length ls < fuel)%nat ->
  strcasecmp tolower m fuel l r = Ok (str_diff (map tolower ls) (map tolower rs)).
Proof using lower_0.
  unfold strcasecmp. revert l r rs fuel. induction ls as [|a ls IH]; intros l r rs fuel Hl Hr Hf;
    (destruct fuel as [|fuel]; [simpl in Hf; lia|]); rewrite while_S, (cstr_head _ _ _ Hl);
    cbn [mbind result_bind head0].
  - cbn [Z.eqb mbind result_bind]. rewrite (cstr_head _ _ _ Hl), (cstr_head _ _ _ Hr).
    cbn [mbind result_bind]. rewrite lower_head, lower_head. simpl. f_equal. by destruct rs.
  - pose proof Hl as (Ha & Hab & Hl')%cstr_cons. destruct (Z.eqb_spec a 0); [lia|].
    rewrite (cstr_head _ _ _ Hr). cbn [mbind result_bind]. rewrite case_eqb.
    destruct rs as [|b rs]; cbn [head0].
    + cbn [Z.eqb negb andb mbind result_bind]. rewrite (cstr_head _ _ _ Hl), (cstr_head _ _ _ Hr).
      cbn [mbind result_bind]. rewrite lower_head, lower_head. simpl. f_equal. lia.
    + pose proof Hr as (Hb & Hbb & Hr')%cstr_cons. destruct (Z.eqb_spec b 0); [lia|]. cbn [negb andb map str_diff].
      destruct (Z.eqb_spec (tolower a) (tolower b)) as [He|Hne]; cbn [mbind result_bind].
      * apply IH; [done..|simpl in Hf; lia].
      * rewrite (cstr_head _ _ _ Hl), (cstr_head _ _ _ Hr). done.
Qed.

Lemma strncasecmp_ok fuel l r n ls rs :
  cstr m l ls -> cstr m r rs -> (length ls < fuel)%nat ->
  strncasecmp tolower m fuel l r (Z.of_nat n) =
  Ok (str_diff (map tolower (take n ls)) (map tolower (take n rs))).
Proof using lower_0.
  unfold strncasecmp. destruct n as [|n]; [done|].
  destruct (Z.eqb_spec (Z.of_nat (S n)) 0); [lia|]. replace (Z.of_nat (S n) - 1) with (Z.of_nat n) by lia.
  revert l r n rs fuel n0. induction ls as [|a ls IH]; intros l r n rs fuel _ Hl Hr Hf;
    (destruct fuel as [|fuel]; [simpl in Hf; lia|]); rewrite while_S, (cstr_head _ _ _ Hl);
    cbn [mbind result_bind head0].
  - cbn [Z.eqb mbind result_bind]. rewrite (cstr_head _ _ _ Hl), (cstr_head _ _ _ Hr).
    cbn [mbind result_bind]. rewrite lower_head, lower_head. simpl. f_equal. by destruct rs.
  - pose proof Hl as (Ha & Hab & Hl')%cstr_cons. destruct (Z.eqb_spec a 0); [lia|].
    rewrite (cstr_head _ _ _ Hr). cbn [mbind result_bind]. rewrite case_eqb.
    destruct rs as [|b rs]; cbn [head0].
    { cbn [Z.eqb negb andb mbind result_bind]. rewrite (cstr_head _ _ _ Hl), (cstr_head _ _ _ Hr).
      cbn [mbind result_bind]. rewrite lower_head, lower_head. simpl. f_equal. lia. }
    pose proof Hr as (Hb & Hbb & Hr')%cstr_cons. destruct (Z.eqb_spec b 0); [lia|].
    cbn [negb andb map take str_diff].
    destruct n as [|n].
    { change (Z.of_nat 0 =? 0) with true. cbn [negb andb mbind result_bind].
      rewrite (cstr_head _ _ _ Hl), (cstr_head _ _ _ Hr). cbn [mbind result_bind head0]. rewrite !take_0.
      simpl. destruct (Z.eqb_spec (tolower a) (tolower b)); f_equal; lia. }
    destruct (Z.eqb_spec (Z.of_nat (S n)) 0); [lia|]. cbn [negb andb].
    destruct (Z.eqb_spec (tolower a) (tolower b)) as [He|Hne]; cbn [mbind result_bind].
    + replace (Z.of_nat (S n) - 1) with (Z.of_nat n) by lia. apply IH; [lia|done..|simpl in Hf; lia].
    + rewrite (cstr_head _ _ _ Hl), (cstr_head _ _ _ Hr). done.
Qed.

Lemma lower_str l : Forall (fun b => 0 < b < 256) l -> Forall (fun b => 0 < b < 256) (map tolower l).
Proof using lower_pos. intros Hl. apply Forall_map. eapply Forall_impl; [exact Hl|]. apply lower_pos. Qed.

Lemma strcasestr_ok fuel h n hs nd :
  bytes_ok m -> word_mapped m -> cstr m h hs -> cstr m n nd ->
  (length hs < fuel)%nat -> (length nd < fuel)%nat ->
  strcasestr tolower m fuel h n =
  Ok (match hs with [] => 0 | _ => found_at h (sub_index (map tolower nd) (map tolower hs)) end).
Proof using lower_0 lower_pos.
  intros Hok Hw Hh Hn Hf Hfn. unfold strcasestr. rewrite (strlen_ok m Hok Hw fuel n nd Hn Hfn).
  cbn [mbind result_bind].
  enough (forall k h hs, (length hs < k)%nat -> (length hs < fuel)%nat -> cstr m h hs ->
    (o ← loop (fun h => b ← ld8 h m; Ok (negb (b =? 0)))
        (fun h => d ← strncasecmp tolower m fuel h n (Z.of_nat (length nd));
                  if d =? 0 then Ok (inr h) else Ok (inl (h + 1))) k h;
     match o with inr r => Ok r | inl _ => Ok 0 end) =
    Ok (match hs with [] => 0 | _ => found_at h (sub_index (map tolower nd) (map tolower hs)) end))
    as Hgen by by apply Hgen.
  clear h hs Hh Hf. induction k as [|k IH]; intros h hs Hk Hf Hh; [lia|]. cbn [loop].
  rewrite (cstr_head _ _ _ Hh). cbn [mbind result_bind]. destruct hs as [|b hs]; [done|].
  pose proof Hh as (_ & Hb & Hh')%cstr_cons. cbn [head0]. destruct (Z.eqb_spec b 0); [lia|]. cbn [negb].
  rewrite (strncasecmp_ok fuel h n (length nd) (b :: hs) nd) by done. cbn [mbind result_bind].
  rewrite (take_ge nd) by done. cbn [map sub_index].
  assert (str_diff (map tolower (take (length nd) (b :: hs))) (map tolower nd) = 0 <->
    take (length (map tolower nd)) (tolower b :: map tolower hs) = map tolower nd) as Heq.
  { rewrite str_diff_eq by (apply lower_str; first [apply Forall_take, Hh|apply Hn]).
    by rewrite length_map, <- (map_cons tolower), <- fmap_take. }
  destruct (Z.eqb_spec (str_diff (map tolower (take (length nd) (b :: hs))) (map tolower nd)) 0) as [Hd|Hd].
  - rewrite bool_decide_true by by apply Heq. simpl. f_equal. lia.
  - rewrite bool_decide_false by by rewrite <- Heq. simpl in Hk, Hf.
    cbn [mbind result_bind]. rewrite (IH (h + 1) hs) by (done || lia). f_equal. destruct hs as [|b' hs].
    + destruct nd; [|done]. by destruct Hd.
    + cbn [map]. destruct (sub_index (map tolower nd) (tolower b' :: map tolower hs)); simpl; lia.
Qed.

End nocase.

(** ** The specifications *)

(** Calling [strtok_r] first with a string and then with a null pointer, until
    it returns one, ends and returns pointers to all the tokens of the string
    in order. In the memory it leaves, each pointer points to its token as a
    string of its own, and nothing outside the characters of the string has
    changed. *)
Theorem strtok_spec fuel c cs k m s l p :
  tok_ready fuel c cs m s l -> (S (length l) < k)%nat ->
  exists rs m', calls fuel c k m s p = Ok (rs, m') /\
    Forall2 (cstr m') rs (tokens (fun b => bool_decide (b ∈ cs)) l) /\
    (forall x, x < s \/ s + Z.of_nat (length l) <= x -> m' !! x = m !! x).
Proof. intros Hr Hk. apply calls_ok; [by left|done|done]. Qed.

(** The comparisons without case compare the strings in lower case, and the
    search without case finds the first place where the needle is in lower
    case; but it does not find the empty string in the empty string. *)
Theorem str_nocase_spec (tolower : Z -> Z) m fuel l r n ls rs :
  tolower 0 = 0 -> (forall b, 0 < b < 256 -> 0 < tolower b < 256) ->
  bytes_ok m -> word_mapped m -> cstr m l ls -> cstr m r rs ->
  (length ls < fuel)%nat -> (length rs < fuel)%nat ->
  strcasecmp tolower m fuel l r = Ok (str_diff (map tolower ls) (map tolower rs)) /\
  strncasecmp tolower m fuel l r (Z.of_nat n) =
    Ok (str_diff (map tolower (take n ls)) (map tolower (take n rs))) /\
  strcasestr tolower m fuel l r =
    Ok (match ls with [] => 0 | _ => found_at l (sub_index (map tolower rs) (map tolower ls)) end).
Proof.
  intros H0 Hp Hok Hw Hl Hr Hf Hfr.
  split_and!; [by apply strcasecmp_ok|by apply strncasecmp_ok|by apply strcasestr_ok].
Qed.

(** ** Examples *)

(** ["a, bc,"] cut at commas and blanks. *)
Module ToyTok.
Definition str : list Z := [97; 44; 32; 98; 99; 44].
Definition seps : list Z := [44; 32].
Definition m : cmem := region 64 (str ++ [0; 7] ++ seps ++ [0; 9; 9; 9; 9; 9]).

Lemma toy_ready : tok_ready 100 72 seps m 64 str.
Proof.
  split_and!; [by apply bytes_ok_compute; vm_compute|by apply word_mapped_compute; vm_compute|
    by apply cstr_compute; vm_compute|by apply cstr_compute; vm_compute|lia|left; simpl; lia|
    simpl; lia|simpl; lia].
Qed.

Lemma strtok_spec_witness :
  exists rs m', calls 100 72 20 m 64 0 = Ok (rs, m') /\ Forall2 (cstr m') rs [[97]; [98; 99]].
Proof.
  destruct (strtok_spec 100 72 seps 20 m 64 str 0 toy_ready) as (rs & m' & H1 & H2 & _); [simpl; lia|].
  exists rs, m'. split; [exact H1|exact H2].
Defined.

End ToyTok.
