(* ===== verification/StrVers.v ===== *)
(** * Comparing versions and duplicating strings

    Models [strverscmp], [strdup] and [strndup] of [lib/guest_bw/string].
    [malloc], which belongs to the allocator, is a parameter. *)

From S2P Require Import Prelude CMem CLoop StrScan StrCmp MemCopy.
#[local] Open Scope Z_scope.

(** [isdigit(c)] *)
Definition isdigit (c : Z) : bool := u32 (c - 48) <? 10.

Section ops.
Context (m : cmem).

Definition prefix_body (l : Z) : Z * Z * bool -> result ((Z * Z * bool) + Z) := fun '(i, dp, z) =>
  c ← ld8 (l + i) m;
  if c =? 0 then Ok (inr 0) else
  let '(dp, z) := if negb (isdigit c) then (u64 (i + 1), true)
                  else if negb (c =? 48) then (dp, false) else (dp, z) in
  Ok (inl (u64 (i + 1), dp, z)).

(** The common beginning: where it ends, where its last run of digits starts,
    and whether these are all zeros; or the result for equal strings. *)
Definition vers_prefix (fuel : nat) (l r : Z) : result ((Z * Z * bool) + Z) :=
  loop (fun '(i, dp, z) => a ← ld8 (l + i) m; b ← ld8 (r + i) m; Ok (a =? b))
    (prefix_body l) fuel (0, 0, true).

(** The longer run of digits from [i] on, or [j] after runs of the same length. *)
Definition longer_digits (fuel : nat) (l r i : Z) : result (Z + Z) :=
  o ← loop (fun j => a ← ld8 (l + j) m; Ok (isdigit a))
        (fun j => b ← ld8 (r + j) m;
                  if negb (isdigit b) then Ok (inr 1) else Ok (inl (u64 (j + 1)))) fuel i;
  match o with
  | inr v => Ok (inr v)
  | inl j => b ← ld8 (r + j) m; if isdigit b then Ok (inr (-1)) else Ok (inl j)
  end.

Definition strverscmp (fuel : nat) (l r : Z) : result Z :=
  o ← vers_prefix fuel l r;
  match o with
  | inr v => Ok v
  | inl (i, dp, z) =>
      a ← ld8 (l + i) m; b ← ld8 (r + i) m;
      la ← ld8 (l + dp) m; rb ← ld8 (r + dp) m;
      if (u32 (la - 49) <? 9) && (u32 (rb - 49) <? 9) then
        o ← longer_digits fuel l r i;
        match o with inr v => Ok v | inl _ => Ok (a - b) end
      else if z && (dp <? i) && (isdigit a || isdigit b) then Ok (u8 (a - 48) - u8 (b - 48))
      else Ok (a - b)
  end.

End ops.

Section dup.
Context (malloc : Z -> cmem -> result (Z * cmem)).

Definition strdup (fuel : nat) (s : Z) (m : cmem) : result (Z * cmem) :=
  l ← strlen m fuel s;
  '(d, m) ← malloc (u64 (l + 1)) m;
  if d =? 0 then Ok (0, m) else memcpy fuel d s (u64 (l + 1)) m.

Definition strndup (fuel : nat) (s n : Z) (m : cmem) : result (Z * cmem) :=
  l ← strnlen m fuel s n;
  '(d, m) ← malloc (u64 (l + 1)) m;
  if d =? 0 then Ok (0, m) else
  '(_, m) ← memcpy fuel d s l m;
  m ← st8 (d + l) 0 m;
  Ok (d, m).

End dup.

(** ** The order of versions *)

(** Where two lists differ first, from position [i] on, with the start of the
    last run of digits before and whether it has only zeros. *)
Fixpoint diverge (i dp : nat) (z : bool) (l r : list Z) : option (nat * nat * bool) :=
  match l, r with
  | [], [] => None
  | a :: l', b :: r' =>
      if a =? b then
        if isdigit a then diverge (S i) dp (z && (a =? 48)) l' r' else diverge (S i) (S i) true l' r'
      else Some (i, dp, z)
  | _, _ => Some (i, dp, z)
  end.

(** The number of digits a list starts with. *)
Fixpoint digits (l : list Z) : nat :=
  match l with [] => 0 | a :: l => if isdigit a then S (digits l) else 0 end.

(** A character, or the null behind. *)
Definition char_at (l : list Z) (i : nat) : Z := default 0 (l !! i).

(** One to nine. *)
Definition nonzero_digit (c : Z) : bool := (49 <=? c) && (c <=? 57).

Definition vers_cmp (l r : list Z) : Z :=
  match diverge 0 0 true l r with
  | None => 0
  | Some (i, dp, z) =>
      let a := char_at l i in let b := char_at r i in
      let na := digits (drop i l) in let nb := digits (drop i r) in
      if nonzero_digit (char_at l dp) && nonzero_digit (char_at r dp) then
        if (nb <? na)%nat then 1 else if (na <? nb)%nat then -1 else a - b
      else if z && (dp <? i)%nat && (isdigit a || isdigit b) then u8 (a - 48) - u8 (b - 48)
      else a - b
  end.

Lemma diverge_sym i dp z l r : diverge i dp z r l = diverge i dp z l r.
Proof.
  revert i dp z r. induction l as [|a l IH]; intros i dp z [|b r]; try done. cbn [diverge].
  rewrite (Z.eqb_sym b a). destruct (Z.eqb_spec a b) as [->|]; [|done]. by destruct (isdigit b).
Qed.

Lemma vers_cmp_antisym l r : vers_cmp r l = - vers_cmp l r.
Proof.
  unfold vers_cmp. rewrite (diverge_sym _ _ _ l r). destruct (diverge 0 0 true l r) as [[[i dp] z]|]; [|done].
  cbv zeta. rewrite (andb_comm (nonzero_digit (char_at r dp))), (orb_comm (isdigit (char_at r i))).
  destruct (_ && nonzero_digit _); [|destruct (z && _ && _); lia].
  destruct (Nat.ltb_spec (digits (drop i l)) (digits (drop i r))), (Nat.ltb_spec (digits (drop i r)) (digits (drop i l))); lia.
Qed.

(** The lists agree before the place, and differ there. *)
Lemma diverge_spec i dp z l r :
  match diverge i dp z l r with
  | None => l = r
  | Some (j, _, _) => (i <= j)%nat /\ (j - i <= length l)%nat /\ (j - i <= length r)%nat /\
      take (j - i) l = take (j - i) r /\ l !! (j - i)%nat <> r !! (j - i)%nat
  end.
Proof.
  revert i dp z r. induction l as [|a l IH]; intros i dp z [|b r]; cbn [diverge]; try done;
    rewrite ?Nat.sub_diag; try (split_and!; simpl; done || lia).
  destruct (Z.eqb_spec a b) as [->|Hne]; [|rewrite Nat.sub_diag; split_and!; simpl; try lia; congruence].
  assert (forall dp z, match diverge (S i) dp z l r with
    | None => b :: l = b :: r
    | Some (j, _, _) => (i <= j)%nat /\ (j - i <= length (b :: l))%nat /\ (j - i <= length (b :: r))%nat /\
        take (j - i) (b :: l) = take (j - i) (b :: r) /\ (b :: l) !! (j - i)%nat <> (b :: r) !! (j - i)%nat
    end) as H; [|destruct (isdigit b); apply H].
  intros dp' z'. specialize (IH (S i) dp' z' r). destruct (diverge _ _ _ l r) as [[[j ?] ?]|]; [|by subst].
  destruct IH as (? & ? & ? & Ht & Hn). replace (j - i)%nat with (S (j - S i)) by lia.
  split_and!; simpl; try lia; [by rewrite Ht|done].
Qed.

Lemma char_at_byte l i : Forall (fun b => 0 < b < 256) l -> 0 <= char_at l i < 256.
Proof.
  intros Hl. unfold char_at. destruct (l !! i) as [b|] eqn:Hb; simpl; [|lia].
  apply (Forall_lookup_1 _ _ _ _ Hl) in Hb. simpl in Hb. lia.
Qed.

Lemma vers_cmp_zero l r :
  Forall (fun b => 0 < b < 256) l -> Forall (fun b => 0 < b < 256) r -> vers_cmp l r = 0 <-> l = r.
Proof.
  intros Hl Hr. unfold vers_cmp. pose proof (diverge_spec 0 0 true l r) as H.
  destruct (diverge 0 0 true l r) as [[[i dp] z]|]; [|done]. rewrite Nat.sub_0_r in H.
  destruct H as (_ & _ & _ & _ & Hne). split; [|by intros ->]. intros H0. exfalso.
  pose proof (char_at_byte l i Hl) as Ba. pose proof (char_at_byte r i Hr) as Bb.
  assert (char_at l i <> char_at r i) as Hc.
  { intros Hc. apply Hne. clear H0. unfold char_at in *.
    destruct (l !! i) as [a|] eqn:Ha, (r !! i) as [b|] eqn:Hb; simpl in *; try done; [by subst|..].
    - apply (Forall_lookup_1 _ _ _ _ Hl) in Ha. simpl in Ha. lia.
    - apply (Forall_lookup_1 _ _ _ _ Hr) in Hb. simpl in Hb. lia. }
  cbv zeta in H0. revert H0. destruct (_ && nonzero_digit _).
  { destruct (_ <? _)%nat; [lia|]. destruct (_ <? _)%nat; lia. }
  destruct (z && _ && _); [|lia]. unfold wrap. intros H0. Z.to_euclidean_division_equations. lia.
Qed.

(** ** [strverscmp] computes it *)

Section compare.
Context (m : cmem) (l r : Z).

Lemma prefix_from ls rs i dp z fuel :
  cstr m (l + Z.of_nat i) ls -> cstr m (r + Z.of_nat i) rs ->
  Z.of_nat (i + length ls) < 2 ^ 64 -> (length ls < fuel)%nat ->
  loop (fun '(i, dp, z) => a ← ld8 (l + i) m; b ← ld8 (r + i) m; Ok (a =? b)) (prefix_body m l)
    fuel (Z.of_nat i, Z.of_nat dp, z) =
  Ok (match diverge i dp z ls rs with
      | None => inr 0
      | Some (j, dp, z) => inl (Z.of_nat j, Z.of_nat dp, z)
      end).
Proof.
  revert rs i dp z fuel. induction ls as [|a ls IH]; intros rs i dp z [|fuel] Hl Hr Hi Hf; simpl in Hf; try lia;
    cbn [loop]; rewrite (cstr_head _ _ _ Hl), (cstr_head _ _ _ Hr); cbn [mbind result_bind]; destruct rs as [|b rs];
    cbn [head0 diverge].
  - unfold prefix_body. by rewrite (cstr_head _ _ _ Hl).
  - apply cstr_cons in Hr as (_ & ? & _). by destruct (Z.eqb_spec 0 b); [lia|].
  - apply cstr_cons in Hl as (_ & ? & _). by destruct (Z.eqb_spec a 0); [lia|].
  - destruct (Z.eqb_spec a b) as [->|]; [|done]. cbn [prefix_body]. rewrite (cstr_head _ _ _ Hl).
    apply cstr_cons in Hl as (_ & Hb & Hl), Hr as (_ & _ & Hr). cbn [head0 mbind result_bind].
    destruct (Z.eqb_spec b 0); [lia|]. rewrite (wrap_small 64) by (simpl in Hi; lia).
    replace (Z.of_nat i + 1) with (Z.of_nat (S i)) by lia.
    rewrite <- Z.add_assoc in Hl, Hr. replace (Z.of_nat i + 1) with (Z.of_nat (S i)) in Hl, Hr by lia.
    destruct (isdigit b); cbn [negb]; [|apply IH; simpl in *; done || lia].
    destruct (Z.eqb_spec b 48); cbn [negb]; rewrite ?andb_true_r, ?andb_false_r; apply IH; simpl in *; done || lia.
Qed.

Lemma longer_from ls rs i fuel :
  cstr m (l + Z.of_nat i) ls -> cstr m (r + Z.of_nat i) rs ->
  Z.of_nat (i + length ls) < 2 ^ 64 -> (length ls < fuel)%nat ->
  exists j, longer_digits m fuel l r (Z.of_nat i) =
  Ok (if (digits rs <? digits ls)%nat then inr 1 else if (digits ls <? digits rs)%nat then inr (-1) else inl j).
Proof.
  unfold longer_digits.
  revert rs i fuel. induction ls as [|a ls IH]; intros rs i [|fuel] Hl Hr Hi Hf; simpl in Hf; try lia.
  - exists (Z.of_nat i). cbn [loop]. rewrite (cstr_head _ _ _ Hl). cbn [mbind result_bind head0].
    change (isdigit 0) with false. cbn [mbind result_bind].
    rewrite (cstr_head _ _ _ Hr). destruct rs as [|b rs]; [done|]. cbn [mbind result_bind head0 digits].
    by destruct (isdigit b).
  - cbn [loop]. rewrite (cstr_head _ _ _ Hl), (cstr_head _ _ _ Hr). cbn [mbind result_bind head0 digits].
    apply cstr_cons in Hl as (Ha & Hb & Hl). destruct (isdigit a).
    + destruct rs as [|b rs]; [by exists 0|].
      cbn [head0 digits]. destruct (isdigit b); [|by exists 0]. cbn [negb mbind result_bind].
      apply cstr_cons in Hr as (_ & _ & Hr). rewrite (wrap_small 64) by (simpl in Hi; lia).
      replace (Z.of_nat i + 1) with (Z.of_nat (S i)) by lia.
      rewrite <- Z.add_assoc in Hl, Hr. replace (Z.of_nat i + 1) with (Z.of_nat (S i)) in Hl, Hr by lia.
      apply IH; simpl in *; done || lia.
    + exists (Z.of_nat i). cbn [mbind result_bind]. rewrite (cstr_head _ _ _ Hr).
      destruct rs as [|b rs]; [done|]. cbn [mbind result_bind head0 digits]. by destruct (isdigit b).
Qed.

End compare.

Lemma char_at_ld m s cs i : cstr m s cs -> (i <= length cs)%nat -> ld8 (s + Z.of_nat i) m = Ok (char_at cs i).
Proof.
  intros [Hs _] Hi. apply ld8_ok, Hs. unfold char_at. destruct (decide (i = length cs)) as [->|].
  - rewrite list_lookup_middle by done. by rewrite lookup_ge_None_2.
  - rewrite lookup_app_l by lia. destruct (lookup_lt_is_Some_2 cs i) as [b ->]; [lia|done].
Qed.

Lemma diverge_digits i dp z l r : (dp <= i)%nat ->
  match diverge i dp z l r with Some (j, dp, _) => (dp <= j)%nat | None => True end.
Proof.
  revert i dp z r. induction l as [|a l IH]; intros i dp z [|b r] Hd; cbn [diverge]; try done.
  destruct (a =? b); [|done]. destruct (isdigit a); apply IH; lia.
Qed.

Lemma nonzero_digit_spec c : 0 <= c < 256 -> (u32 (c - 49) <? 9) = nonzero_digit c.
Proof.
  intros Hc. unfold nonzero_digit, wrap. destruct (Z.leb_spec 49 c), (Z.leb_spec c 57); simpl.
  - rewrite Z.mod_small by lia. lia.
  - rewrite Z.mod_small by lia. lia.
  - rewrite <- (Z.mod_add _ 1), Z.mod_small by lia. lia.
  - lia.
Qed.

(** [strverscmp] ends with the result of the order of versions, for which it
    reads the two strings only; the order is antisymmetric, and two strings
    compare equal only when they are the same. *)
Theorem strverscmp_spec m fuel l r ls rs :
  cstr m l ls -> cstr m r rs -> Z.of_nat (length ls) < 2 ^ 64 -> Z.of_nat (length rs) < 2 ^ 64 ->
  (length ls < fuel)%nat -> (length rs < fuel)%nat ->
  exists v, strverscmp m fuel l r = Ok v /\ v = vers_cmp ls rs /\
    strverscmp m fuel r l = Ok (- v) /\ (v = 0 <-> ls = rs).
Proof.
  assert (forall l r ls rs, cstr m l ls -> cstr m r rs -> Z.of_nat (length ls) < 2 ^ 64 ->
    (length ls < fuel)%nat -> strverscmp m fuel l r = Ok (vers_cmp ls rs)) as Hv.
  2: { intros Hl Hr ? ? ? ?. exists (vers_cmp ls rs). split_and!; [by apply Hv|done| |].
       - rewrite <- vers_cmp_antisym. by apply Hv.
       - apply vers_cmp_zero; [apply Hl|apply Hr]. }
  clear l r ls rs. intros l r ls rs Hl Hr Hb Hf. unfold strverscmp, vers_prefix, vers_cmp.
  change (loop ?c ?b fuel (0, 0, true)) with (loop c b fuel (Z.of_nat 0, Z.of_nat 0, true)).
  rewrite (prefix_from m l r ls rs) by (rewrite ?Z.add_0_r; done). cbn [mbind result_bind].
  pose proof (diverge_spec 0 0 true ls rs) as Hd. pose proof (diverge_digits 0 0 true ls rs ltac:(lia)) as Hdp.
  destruct (diverge 0 0 true ls rs) as [[[i dp] z]|]; [|done]. rewrite Nat.sub_0_r in Hd.
  destruct Hd as (_ & Hil & Hir & _).
  rewrite !(char_at_ld m l ls), !(char_at_ld m r rs) by (done || lia). cbn [mbind result_bind].
  rewrite !nonzero_digit_spec by (apply char_at_byte; apply Hl || apply Hr).
  destruct (nonzero_digit _ && nonzero_digit _).
  - destruct (longer_from m l r (drop i ls) (drop i rs) i fuel) as [j ->];
      [by apply cstr_drop|by apply cstr_drop|rewrite length_drop; lia..|]. cbn [mbind result_bind].
    destruct (_ <? _)%nat; [done|]. by destruct (_ <? _)%nat.
  - replace (Z.of_nat dp <? Z.of_nat i) with (dp <? i)%nat; [by destruct (z && _ && _)|].
    destruct (Nat.ltb_spec dp i), (Z.ltb_spec (Z.of_nat dp) (Z.of_nat i)); lia || done.
Qed.

(** ** Duplicates *)

(** What [malloc] promises: null, or the address of a block that was not
    mapped before; nothing else in memory changes. *)
Record malloc_ok (malloc : Z -> cmem -> result (Z * cmem)) : Prop := {
  malloc_total : forall n m, 0 <= n -> exists d m', malloc n m = Ok (d, m');
  malloc_block : forall n m d m', malloc n m = Ok (d, m') -> 0 <= n ->
    m ⊆ m' /\ (bytes_ok m -> bytes_ok m') /\
    (d <> 0 -> mapped (Z.to_nat n) d m' /\ forall x, d <= x < d + n -> m !! x = None)
}.

Section dup_ok.
Context (malloc : Z -> cmem -> result (Z * cmem)) (malloc_spec : malloc_ok malloc).
Context (m : cmem) (m_ok : bytes_ok m) (s : Z).

(** A new block does not overlap the source, and writing to it leaves the old
    memory as it was. *)
Lemma new_block n d m' bs :
  malloc n m = Ok (d, m') -> 0 < n -> d <> 0 -> bytes_at m s bs -> Z.of_nat (length bs) <= n ->
  bytes_at m' s bs /\ mapped (Z.to_nat n) d m' /\ (d <= s \/ s + Z.of_nat (length bs) <= d) /\
  forall cs, Z.of_nat (length cs) <= n -> m ⊆ put_bytes d cs m'.
Proof.
  intros Ha Hn Hd Hs Hl. destruct (malloc_block _ malloc_spec _ _ _ _ Ha ltac:(lia)) as (Hsub & _ & Hblk).
  destruct (Hblk Hd) as [Hm Hnew]. split_and!; [|done| |].
  - intros i b Hi. eapply lookup_weaken; [by apply Hs|done].
  - destruct (decide (d <= s)); [by left|]. destruct (decide (s + Z.of_nat (length bs) <= d)); [by right|].
    destruct (lookup_lt_is_Some_2 bs (Z.to_nat (d - s))) as [b Hb]; [lia|]. apply Hs in Hb.
    replace (s + Z.of_nat (Z.to_nat (d - s))) with d in Hb by lia. rewrite Hnew in Hb by lia. done.
  - intros cs Hc. apply map_subseteq_spec. intros x b Hx. rewrite lookup_put_bytes, decide_False.
    + by eapply lookup_weaken.
    + intros Hin. rewrite Hnew in Hx by lia. done.
Qed.

(** [strdup] gives null or a new string with the same characters, and leaves
    the old memory as it was. *)
Theorem strdup_spec fuel ls :
  word_mapped m -> cstr m s ls -> Z.of_nat (length ls) < 2 ^ 63 -> (S (length ls) < fuel)%nat ->
  exists d m', strdup malloc fuel s m = Ok (d, m') /\ m ⊆ m' /\ (d <> 0 -> cstr m' d ls).
Proof.
  intros Hwm Hs Hl Hf. unfold strdup. rewrite (strlen_ok m m_ok Hwm fuel s ls Hs) by lia.
  cbn [mbind result_bind]. rewrite wrap_small by lia.
  destruct (malloc_total _ malloc_spec (Z.of_nat (length ls) + 1) m) as (d & m' & Ha); [lia|].
  rewrite Ha. cbn [mbind result_bind].
  pose proof (malloc_block _ malloc_spec _ _ _ _ Ha ltac:(lia)) as (Hsub & Hok & _).
  destruct (Z.eqb_spec d 0) as [->|Hd]; [by exists 0, m'|].
  assert (length (ls ++ [0]) = S (length ls)) as Hlen by (rewrite length_app; simpl; lia).
  destruct (new_block _ d m' (ls ++ [0]) Ha) as (Hs' & Hm & Hdis & Hput); [lia|done|apply Hs|lia|].
  replace (Z.of_nat (length ls) + 1) with (Z.of_nat (length (ls ++ [0]))) in * by lia.
  rewrite memcpy_ok; [|by apply Hok|done|by rewrite Nat2Z.id in Hm|done|lia].
  exists d. eexists. split; [done|]. split; [by apply Hput|]. intros _.
  split; [apply bytes_at_put|apply Hs].
Qed.

Lemma put_last d bs b m' :
  is_Some (m' !! (d + Z.of_nat (length bs))) ->
  st8 (d + Z.of_nat (length bs)) b (put_bytes d bs m') = Ok (put_bytes d (bs ++ [b mod 256]) m').
Proof.
  intros Hm. rewrite st8_put, put_bytes_snoc; [done|]. rewrite lookup_put_bytes, decide_False; [done|lia].
Qed.

(** [strndup] gives null or a new string with the first [n] characters, or
    with those before the null. *)
Theorem strndup_spec fuel bs :
  bytes_at m s bs -> 0 < s -> Z.of_nat (length bs) < 2 ^ 63 -> (length bs < fuel)%nat ->
  exists d m', strndup malloc fuel s (Z.of_nat (length bs)) m = Ok (d, m') /\ m ⊆ m' /\
    (d <> 0 -> cstr m' d (take (index_of 0 bs) bs)).
Proof.
  intros Hs H0 Hl Hf. unfold strndup. rewrite strnlen_ok by done. cbn [mbind result_bind].
  pose proof (index_of_le 0 bs) as Hk. set (k := index_of 0 bs) in *. rewrite wrap_small by lia.
  destruct (malloc_total _ malloc_spec (Z.of_nat k + 1) m) as (d & m' & Ha); [lia|].
  rewrite Ha. cbn [mbind result_bind].
  pose proof (malloc_block _ malloc_spec _ _ _ _ Ha ltac:(lia)) as (Hsub & Hok & _).
  destruct (Z.eqb_spec d 0) as [->|Hd]; [by exists 0, m'|].
  assert (length (take k bs) = k) as Hlen by (rewrite length_take; lia).
  assert (bytes_at m s (take k bs)) as Hst.
  { rewrite <- (take_drop k bs) in Hs. by apply bytes_at_app in Hs as [Hs _]. }
  destruct (new_block _ d m' (take k bs) Ha) as (Hs' & Hm & Hdis & Hput); [lia|done|done|lia|].
  pose proof (memcpy_ok d s (take k bs) m' (Hok m_ok) Hs' ltac:(intros x Hx; apply Hm; lia) Hdis fuel ltac:(lia)) as Hc.
  pose proof (put_last d (take k bs) 0 m' ltac:(apply Hm; lia)) as He. rewrite Hlen in Hc, He.
  rewrite Hc. cbn [mbind result_bind]. rewrite He. cbn [mbind result_bind].
  exists d. eexists. split; [done|]. split; [apply Hput; rewrite length_app; simpl; lia|]. intros _.
  split; [apply bytes_at_put|]. apply Forall_lookup. intros i b Hi.
  apply lookup_take_Some in Hi as [Hi Hik]. pose proof (m_ok _ _ (Hs _ _ Hi)).
  assert (b <> 0); [|lia]. intros ->. by apply (index_of_before 0 bs i 0 Hik Hi).
Qed.

End dup_ok.
