(* ===== verification/WideStr.v ===== *)
(** * Wide-character strings

    Models the [wcs*] and [wmem*] functions of [lib/guest_bw/string]. A wide
    character is an [int] in memory; pointers to them go in steps of four
    bytes. [towlower] and [malloc], which are not in the sources, are
    parameters. *)

From S2P Require Import Prelude CMem CLoop StrScan StrCmp.
#[local] Open Scope Z_scope.

(** [*s] and [*s = v] *)
Definition ldc (a : Z) (m : cmem) : result Z := w ← ldw 4 a m; Ok (swrap 32 w).
Definition stc (a v : Z) (m : cmem) : result cmem := stw 4 a v m.

(** The difference of two pointers. *)
Definition wdiff (p q : Z) : Z := (p - q) / 4.

(** [x < y ? -1 : x > y] *)
Definition wsign (x y : Z) : Z := if x <? y then -1 else if y <? x then 1 else 0.

Section search_ops.
Context (m : cmem).
Implicit Types (fuel : nat) (s c l r n : Z).

Definition wcslen fuel s : result Z :=
  let a := s in
  s ← while (fun s => b ← ldc s m; Ok (negb (b =? 0))) (fun s => Ok (s + 4)) fuel s;
  Ok (wdiff s a).

Definition wmemchr fuel s c n : result Z :=
  '(s, n) ← while (fun '(s, n) => if n =? 0 then Ok false else b ← ldc s m; Ok (negb (b =? c)))
              (fun '(s, n) => Ok (s + 4, n - 1)) fuel (s, n);
  Ok (if negb (n =? 0) then s else 0).

Definition wcsnlen fuel s n : result Z :=
  z ← wmemchr fuel s 0 n;
  Ok (if negb (z =? 0) then wdiff z s else n).

Definition wmemcmp fuel l r n : result Z :=
  '(l, r, n) ← while (fun '(l, r, n) =>
                  if n =? 0 then Ok false else a ← ldc l m; b ← ldc r m; Ok (a =? b))
                (fun '(l, r, n) => Ok (l + 4, r + 4, n - 1)) fuel (l, r, n);
  if n =? 0 then Ok 0 else a ← ldc l m; b ← ldc r m; Ok (wsign a b).

Definition wcscmp fuel l r : result Z :=
  '(l, r) ← while (fun '(l, r) => a ← ldc l m; b ← ldc r m;
                                  Ok ((a =? b) && negb (a =? 0) && negb (b =? 0)))
              (fun '(l, r) => Ok (l + 4, r + 4)) fuel (l, r);
  a ← ldc l m; b ← ldc r m; Ok (wsign a b).

Definition wcsncmp fuel l r n : result Z :=
  '(l, r, n) ← while (fun '(l, r, n) =>
                  if n =? 0 then Ok false else
                  a ← ldc l m; b ← ldc r m; Ok ((a =? b) && negb (a =? 0) && negb (b =? 0)))
                (fun '(l, r, n) => Ok (l + 4, r + 4, n - 1)) fuel (l, r, n);
  if n =? 0 then Ok 0 else a ← ldc l m; b ← ldc r m; Ok (wsign a b).

Definition wcschr fuel s c : result Z :=
  if c =? 0 then n ← wcslen fuel s; Ok (s + 4 * n) else
  s ← while (fun s => b ← ldc s m; Ok (negb (b =? 0) && negb (b =? c))) (fun s => Ok (s + 4)) fuel s;
  b ← ldc s m;
  Ok (if negb (b =? 0) then s else 0).

Definition wcsrchr fuel s c : result Z :=
  n ← wcslen fuel s;
  p ← while (fun p => if s <=? p then b ← ldc p m; Ok (negb (b =? c)) else Ok false)
        (fun p => Ok (p - 4)) fuel (s + 4 * n);
  Ok (if s <=? p then p else 0).

Definition wcsspn fuel s c : result Z :=
  let a := s in
  s ← while (fun s => b ← ldc s m;
                      if b =? 0 then Ok false else p ← wcschr fuel c b; Ok (negb (p =? 0)))
        (fun s => Ok (s + 4)) fuel s;
  Ok (wdiff s a).

Definition wcscspn fuel s c : result Z :=
  c0 ← ldc c m;
  if c0 =? 0 then wcslen fuel s else
  c1 ← ldc (c + 4) m;
  if c1 =? 0 then
    let a := s in
    s ← wcschr fuel s c0;
    if negb (s =? 0) then Ok (wdiff s a) else wcslen fuel a
  else
  let a := s in
  s ← while (fun s => b ← ldc s m;
                      if b =? 0 then Ok false else p ← wcschr fuel c b; Ok (p =? 0))
        (fun s => Ok (s + 4)) fuel s;
  Ok (wdiff s a).

Definition wcspbrk fuel s b : result Z :=
  n ← wcscspn fuel s b;
  let s := s + 4 * n in
  c ← ldc s m;
  Ok (if negb (c =? 0) then s else 0).

Context (towlower : Z -> Z).

(** The difference is one of unsigned numbers, converted to [int]. *)
Definition wcsncasecmp fuel l r n : result Z :=
  if n =? 0 then Ok 0 else
  '(l, r, n) ← while (fun '(l, r, n) =>
                  a ← ldc l m;
                  if a =? 0 then Ok false else
                  b ← ldc r m;
                  Ok (negb (b =? 0) && negb (n =? 0) && ((a =? b) || (towlower a =? towlower b))))
                (fun '(l, r, n) => Ok (l + 4, r + 4, n - 1)) fuel (l, r, n - 1);
  a ← ldc l m; b ← ldc r m; Ok (swrap 32 (towlower a - towlower b)).

Definition wcscasecmp fuel l r : result Z := wcsncasecmp fuel l r (u64 (-1)).

End search_ops.

Section copy_ops.
Implicit Types (fuel : nat) (d s n : Z) (m : cmem).

(** [while (n--) *d++ = *s++;] *)
Definition wcopy_up fuel d s n m : result cmem :=
  '(_, _, _, m) ← while (fun '(d, s, n, m) => Ok (negb (n =? 0)))
                    (fun '(d, s, n, m) => b ← ldc s m; m ← stc d b m; Ok (d + 4, s + 4, n - 1, m))
                    fuel (d, s, n, m);
  Ok m.

(** [while (n--) d[n] = s[n];] *)
Definition wcopy_down fuel d s n m : result cmem :=
  '(_, m) ← while (fun '(n, m) => Ok (negb (n =? 0)))
              (fun '(n, m) => let n := n - 1 in
                 b ← ldc (s + 4 * n) m; m ← stc (d + 4 * n) b m; Ok (n, m))
              fuel (n, m);
  Ok m.

Definition wmemcpy fuel d s n m : result (Z * cmem) := m ← wcopy_up fuel d s n m; Ok (d, m).

Definition wmemmove fuel d s n m : result (Z * cmem) :=
  let d0 := d in
  if d =? s then Ok (d, m) else
  m ← (if u64 (d - s) <? u64 (n * 4) then wcopy_down fuel d s n m else wcopy_up fuel d s n m);
  Ok (d0, m).

Definition wmemset fuel d c n m : result (Z * cmem) :=
  let ret := d in
  '(_, _, m) ← while (fun '(d, n, m) => Ok (negb (n =? 0)))
                 (fun '(d, n, m) => m ← stc d c m; Ok (d + 4, n - 1, m)) fuel (d, n, m);
  Ok (ret, m).

(** [while (( *d++ = *s++ ));] *)
Definition wcscpy fuel d s m : result (Z * cmem) :=
  let a := d in
  o ← loop (R := cmem) (fun _ => Ok true)
        (fun '(d, s, m) => b ← ldc s m; m ← stc d b m;
                           if b =? 0 then Ok (inr m) else Ok (inl (d + 4, s + 4, m)))
        fuel (d, s, m);
  match o with inr m => Ok (a, m) | inl _ => Fault "unreachable"%string end.

Definition wcpcpy fuel d s m : result (Z * cmem) :=
  '(p, m) ← wcscpy fuel d s m; n ← wcslen m fuel s; Ok (p + 4 * n, m).

Definition wcscat fuel dest src m : result (Z * cmem) :=
  n ← wcslen m fuel dest;
  '(_, m) ← wcscpy fuel (dest + 4 * n) src m;
  Ok (dest, m).

(** [while (n && *s) n--, *d++ = *s++;] *)
Definition wcopy_n fuel d s n m : result (Z * Z * cmem) :=
  '(d, _, n, m) ← while (fun '(d, s, n, m) => if n =? 0 then Ok false else b ← ldc s m; Ok (negb (b =? 0)))
                    (fun '(d, s, n, m) => b ← ldc s m; m ← stc d b m; Ok (d + 4, s + 4, n - 1, m))
                    fuel (d, s, n, m);
  Ok (d, n, m).

Definition wcsncpy fuel d s n m : result (Z * cmem) :=
  let a := d in
  '(d, n, m) ← wcopy_n fuel d s n m;
  '(_, m) ← wmemset fuel d 0 n m;
  Ok (a, m).

Definition wcpncpy fuel d s n m : result (Z * cmem) :=
  '(p, m) ← wcsncpy fuel d s n m; k ← wcsnlen m fuel s n; Ok (p + 4 * k, m).

Definition wcsncat fuel d s n m : result (Z * cmem) :=
  let a := d in
  k ← wcslen m fuel d;
  '(d, _, m) ← wcopy_n fuel (d + 4 * k) s n m;
  m ← stc d 0 m;
  Ok (a, m).

(** The token, the memory and [*p]; null is [0]. *)
Definition wcstok fuel s sep p m : result (Z * cmem * Z) :=
  let s := if s =? 0 then p else s in
  if s =? 0 then Ok (0, m, p) else
  n ← wcsspn m fuel s sep;
  let s := s + 4 * n in
  b ← ldc s m;
  if b =? 0 then Ok (0, m, 0) else
  n ← wcscspn m fuel s sep;
  let p := s + 4 * n in
  b ← ldc p m;
  if negb (b =? 0) then m ← stc p 0 m; Ok (s, m, p + 4) else Ok (s, m, 0).

Context (malloc : Z -> cmem -> result (Z * cmem)).

Definition wcsdup fuel s m : result (Z * cmem) :=
  l ← wcslen m fuel s;
  '(d, m) ← malloc (u64 ((l + 1) * 4)) m;
  if d =? 0 then Ok (0, m) else wmemcpy fuel d s (l + 1) m.

End copy_ops.

(** ** Wide characters in memory *)

Definition wide_at (m : cmem) (a : Z) (ws : list Z) : Prop :=
  forall i w, ws !! i = Some w -> ldc (a + 4 * Z.of_nat i) m = Ok w.

(** A wide string: its characters are [ws], and a null follows. *)
Definition wstr (m : cmem) (a : Z) (ws : list Z) : Prop :=
  wide_at m a (ws ++ [0]) /\ Forall (fun w => w <> 0) ws.

Lemma wide_at_total m a ws i : wide_at m a ws -> (i < length ws)%nat -> ldc (a + 4 * Z.of_nat i) m = Ok (ws !!! i).
Proof. intros Hw Hi. apply Hw. by apply list_lookup_lookup_total_lt. Qed.

Lemma wide_at_app m a l1 l2 :
  wide_at m a (l1 ++ l2) -> wide_at m a l1 /\ wide_at m (a + 4 * Z.of_nat (length l1)) l2.
Proof.
  intros Hw. split; intros i w Hi.
  - apply Hw. by apply lookup_app_l_Some.
  - replace (a + 4 * Z.of_nat (length l1) + 4 * Z.of_nat i) with (a + 4 * Z.of_nat (length l1 + i)) by lia.
    apply Hw. rewrite lookup_app_r by lia. by replace (length l1 + i - length l1)%nat with i by lia.
Qed.

Lemma wide_at_drop m a ws k : (k <= length ws)%nat -> wide_at m a ws -> wide_at m (a + 4 * Z.of_nat k) (drop k ws).
Proof.
  intros Hk Hw. rewrite <- (take_drop k ws) in Hw. apply wide_at_app in Hw as [_ Hw].
  by rewrite length_take_le in Hw.
Qed.

Lemma wstr_drop m a ws k : (k <= length ws)%nat -> wstr m a ws -> wstr m (a + 4 * Z.of_nat k) (drop k ws).
Proof.
  intros Hk [Hw Hz]. split; [|by apply Forall_drop].
  rewrite <- drop_app_le by done. apply wide_at_drop; [rewrite length_app; lia|done].
Qed.

(** A character of a string, or the null after it. *)
Lemma wstr_ld m a ws i : wstr m a ws -> (i <= length ws)%nat ->
  exists b, ldc (a + 4 * Z.of_nat i) m = Ok b /\ (b =? 0) = negb (i <? length ws)%nat /\
    ((i < length ws)%nat -> b = ws !!! i).
Proof.
  intros [Hw Hz] Hi. destruct (decide (i = length ws)) as [->|Hne].
  - exists 0. split_and!; [apply Hw; by apply list_lookup_middle|by rewrite Nat.ltb_irrefl|lia].
  - assert (i < length ws)%nat as Hlt by lia.
    pose proof (list_lookup_lookup_total_lt ws i Hlt) as Hx. exists (ws !!! i). split_and!; [| |done].
    + apply Hw. by apply lookup_app_l_Some.
    + destruct (Nat.ltb_spec i (length ws)); [|lia].
      apply (Forall_lookup_1 _ _ _ _ Hz) in Hx. simpl in *. lia.
Qed.

Lemma wdiff_at a k : wdiff (a + 4 * k) a = k.
Proof. unfold wdiff. replace (a + 4 * k - a) with (k * 4) by lia. by apply Z.div_mul. Qed.

(** *** Searching *)

Section search.
Context (m : cmem).
Implicit Types (fuel k : nat) (a c : Z) (ws : list Z).

(** [for (; cond; s++);] *)
Lemma wscan (cond : Z -> result bool) fuel a k :
  (forall i, (i < k)%nat -> cond (a + 4 * Z.of_nat i) = Ok true) ->
  cond (a + 4 * Z.of_nat k) = Ok false -> (k < fuel)%nat ->
  while cond (fun s => Ok (s + 4)) fuel a = Ok (a + 4 * Z.of_nat k).
Proof.
  intros Ht Hf Hk. replace a with (a + 4 * Z.of_nat 0) at 1 by lia.
  apply (while_steps cond (fun s => Ok (s + 4)) (fun i => a + 4 * Z.of_nat i) k); [|done|done].
  intros i Hi. split; [by apply Ht|f_equal; lia].
Qed.

Lemma wcslen_ok fuel a ws : wstr m a ws -> (length ws < fuel)%nat -> wcslen m fuel a = Ok (Z.of_nat (length ws)).
Proof.
  intros Hw Hf. unfold wcslen. rewrite (wscan _ fuel a (length ws)); [cbn [mbind result_bind]; by rewrite wdiff_at| | |done].
  - intros i Hi. destruct (wstr_ld m a ws i Hw ltac:(lia)) as (b & -> & Hb & _). cbn [mbind result_bind].
    rewrite Hb. by destruct (Nat.ltb_spec i (length ws)); [|lia].
  - destruct (wstr_ld m a ws (length ws) Hw ltac:(lia)) as (b & -> & Hb & _). cbn [mbind result_bind].
    by rewrite Hb, Nat.ltb_irrefl.
Qed.

Lemma wcschr_ok fuel a ws c : wstr m a ws -> (length ws < fuel)%nat -> c <> 0 ->
  wcschr m fuel a c =
  Ok (if (index_of c ws <? length ws)%nat then a + 4 * Z.of_nat (index_of c ws) else 0).
Proof.
  intros Hw Hf Hc. unfold wcschr. destruct (Z.eqb_spec c 0); [done|].
  pose proof (index_of_le c ws) as Hle. set (k := index_of c ws) in *.
  destruct (wstr_ld m a ws k Hw Hle) as (b & Hb & Hb0 & Hbk).
  rewrite (wscan _ fuel a k); cycle 1.
  - intros i Hi. destruct (wstr_ld m a ws i Hw ltac:(lia)) as (b' & -> & Hb' & Hbi). cbn [mbind result_bind].
    rewrite Hb'. destruct (Nat.ltb_spec i (length ws)); [|lia]. cbn [negb andb].
    destruct (Z.eqb_spec b' c) as [->|]; [|done]. specialize (Hbi ltac:(lia)).
    destruct (index_of_before c ws i c Hi); [|done]. rewrite Hbi. by apply list_lookup_lookup_total_lt.
  - rewrite Hb. cbn [mbind result_bind]. rewrite Hb0. destruct (Nat.ltb_spec k (length ws)) as [Hlt|]; [|done].
    cbn [negb andb]. pose proof (index_of_at c ws Hlt) as Hat. apply list_lookup_total_correct in Hat.
    rewrite Hbk by done. unfold k. rewrite Hat, Z.eqb_refl. done.
  - lia.
  - cbn [mbind result_bind]. rewrite Hb. cbn [mbind result_bind]. rewrite Hb0, negb_involutive. done.
Qed.

(** A null in the next [n] characters of a string. *)
Lemma wmemchr_null fuel a ws n :
  wstr m a ws -> 0 <= n -> (length ws < fuel)%nat ->
  wmemchr m fuel a 0 n = Ok (if Z.of_nat (length ws) <? n then a + 4 * Z.of_nat (length ws) else 0).
Proof.
  intros Hw Hn Hf. unfold wmemchr.
  set (k := Nat.min (length ws) (Z.to_nat n)).
  replace (a, n) with (a + 4 * Z.of_nat 0, n - Z.of_nat 0) by (f_equal; lia).
  rewrite (while_steps _ _ (fun i => (a + 4 * Z.of_nat i, n - Z.of_nat i)) k); cbn beta iota; [| | |lia].
  - cbn [mbind result_bind]. destruct (Z.ltb_spec (Z.of_nat (length ws)) n).
    + destruct (Z.eqb_spec (n - Z.of_nat k) 0); [lia|]. cbn [negb]. do 2 f_equal. lia.
    + by destruct (Z.eqb_spec (n - Z.of_nat k) 0); [|lia].
  - intros i Hi. destruct (Z.eqb_spec (n - Z.of_nat i) 0); [lia|].
    destruct (wstr_ld m a ws i Hw ltac:(lia)) as (b & -> & Hb & _). cbn [mbind result_bind].
    rewrite Hb. destruct (Nat.ltb_spec i (length ws)); [|lia]. split; [done|]. f_equal. repeat apply (f_equal2 pair); lia.
  - destruct (Z.eqb_spec (n - Z.of_nat k) 0); [done|].
    destruct (wstr_ld m a ws k Hw ltac:(lia)) as (b & -> & Hb & _). cbn [mbind result_bind].
    rewrite Hb. by destruct (Nat.ltb_spec k (length ws)); [lia|].
Qed.

(** The sign of the first difference. *)
Fixpoint wide_diff (l1 l2 : list Z) : Z :=
  match l1, l2 with
  | a :: l1, b :: l2 => if a =? b then wide_diff l1 l2 else wsign a b
  | _, _ => 0
  end.

Lemma wide_diff_zero l1 l2 : length l1 = length l2 -> wide_diff l1 l2 = 0 <-> l1 = l2.
Proof.
  revert l2. induction l1 as [|a l1 IH]; intros [|b l2] Hl; try done. simpl in Hl |- *.
  destruct (Z.eqb_spec a b) as [->|Hne].
  - rewrite IH by lia. split; [by intros ->|by intros [= ->]].
  - unfold wsign. destruct (Z.ltb_spec a b), (Z.ltb_spec b a); split; (congruence || lia).
Qed.

Lemma wide_at_cons a w ws : wide_at m a (w :: ws) -> ldc a m = Ok w /\ wide_at m (a + 4) ws.
Proof.
  intros Hw. split; [rewrite <- (Hw 0%nat w); [f_equal; lia|done]|].
  intros i w' Hi. rewrite <- (Hw (S i) w' Hi). f_equal. lia.
Qed.

Lemma wmemcmp_ok fuel l r l1 l2 :
  wide_at m l l1 -> wide_at m r l2 -> length l1 = length l2 -> (length l1 < fuel)%nat ->
  wmemcmp m fuel l r (Z.of_nat (length l1)) = Ok (wide_diff l1 l2).
Proof.
  intros H1 H2 Hlen Hf. unfold wmemcmp.
  assert (exists k, (k <= length l1)%nat /\ take k l1 = take k l2 /\
    (k = length l1 \/ exists a b, l1 !! k = Some a /\ l2 !! k = Some b /\ a <> b) /\
    wide_diff l1 l2 = if (k =? length l1)%nat then 0 else wsign (l1 !!! k) (l2 !!! k)) as (k & Hk & Hpre & Hkend & ->).
  { clear -Hlen. revert l2 Hlen. induction l1 as [|a l1 IH]; intros [|b l2] Hlen; try done; simpl in Hlen.
    - exists 0%nat. split_and!; [done|done|by left|done].
    - destruct (Z.eqb_spec a b) as [->|Hne].
      + destruct (IH l2 ltac:(lia)) as (k & Hk & Hpre & Hend & Hd). exists (S k).
        split_and!; [simpl; lia|simpl; by rewrite Hpre| |simpl; rewrite Z.eqb_refl; exact Hd].
        destruct Hend as [->|(x & y & ? & ? & ?)]; [by left|right]. by exists x, y.
      + exists 0%nat. split_and!; [lia|done|right; by exists a, b|]. simpl. by destruct (Z.eqb_spec a b). }
  replace (l, r, Z.of_nat (length l1)) with
    (l + 4 * Z.of_nat 0, r + 4 * Z.of_nat 0, Z.of_nat (length l1) - Z.of_nat 0) by (repeat apply (f_equal2 pair); lia).
  rewrite (while_steps _ _ (fun i => (l + 4 * Z.of_nat i, r + 4 * Z.of_nat i, Z.of_nat (length l1) - Z.of_nat i)) k);
    cbn beta iota; [| | |lia].
  - cbn [mbind result_bind]. destruct (Nat.eqb_spec k (length l1)), (Z.eqb_spec (Z.of_nat (length l1) - Z.of_nat k) 0); try lia; try done.
    rewrite (wide_at_total m l l1 k H1), (wide_at_total m r l2 k H2) by lia. done.
  - intros i Hi. destruct (Z.eqb_spec (Z.of_nat (length l1) - Z.of_nat i) 0); [lia|].
    rewrite (wide_at_total m l l1 i H1), (wide_at_total m r l2 i H2) by lia. cbn [mbind result_bind].
    split; [|f_equal; repeat apply (f_equal2 pair); lia]. rewrite <- (lookup_total_take_lt l1 k i), Hpre, lookup_total_take_lt by done.
    by rewrite Z.eqb_refl.
  - destruct (Z.eqb_spec (Z.of_nat (length l1) - Z.of_nat k) 0); [done|].
    destruct Hkend as [->|(x & y & Hx & Hy & Hne)]; [lia|].
    rewrite (H1 k x Hx), (H2 k y Hy). cbn [mbind result_bind]. by destruct (Z.eqb_spec x y).
Qed.

End search.
