(* ===== verification/Wcsstr.v ===== *)
(** * Searching for a wide string in a wide string

    Models [wcsstr] and [wcswcs] of [lib/guest_bw/string]: the two-way
    algorithm without a table, on a text whose end is looked for as the search
    goes on. *)

From S2P Require Import Prelude CMem CLoop StrScan StrCmp TwoWay TwoWayOps Memmem WideStr.
#[local] Open Scope Z_scope.

Section ops.
Context (m : cmem).
Implicit Types (fuel : nat) (h n z l : Z).

(** [for (l=0; n[l] && h[l]; l++);] *)
Definition needle_len fuel h n : result Z :=
  while (fun l => a ← ldc (n + 4 * l) m;
                  if a =? 0 then Ok false else b ← ldc (h + 4 * l) m; Ok (negb (b =? 0)))
    (fun l => Ok (u64 (l + 1))) fuel 0.

(** The end of the text, as far as it is known: the next [z], or nothing when
    the text is too short. *)
Definition wgrow_end fuel h z l : result (option Z) :=
  if u64 (wdiff z h) <? l then
    let grow := Z.lor l 63 in
    z2 ← wmemchr m fuel z 0 grow;
    if negb (z2 =? 0) then Ok (if u64 (wdiff z2 h) <? l then None else Some z2)
    else Ok (Some (z + 4 * grow))
  else Ok (Some z).

(** One round of the search loop. *)
Definition wcs_round fuel n l (ms p mem0 : Z) (st : Z * Z * Z) : result ((Z * Z * Z) + Z) :=
  let '(h, z, mem) := st in
  z ← wgrow_end fuel h z l;
  match z with
  | None => Ok (inr 0)
  | Some z =>
      w ← halves (fun i => ldc (n + 4 * i) m) (fun i => ldc (h + 4 * i) m)
            (fun k => b ← ldc (n + 4 * k) m; Ok (negb (b =? 0))) ms p mem0 fuel mem;
      Ok (match w with inl (d, mem) => inl (h + 4 * d, z, mem) | inr _ => inr h end)
  end.

Definition twoway_wcsstr fuel h n : result Z :=
  l ← needle_len fuel h n;
  e ← ldc (n + 4 * l) m;
  if negb (e =? 0) then Ok 0 else
  '(ms, p) ← factorize (fun i => ldc (n + 4 * i) m) fuel l;
  '(p, mem0) ← periodic (fun p k => wmemcmp m fuel n (n + 4 * p) k) l ms p;
  o ← loop (fun _ => Ok true) (wcs_round fuel n l ms p mem0) fuel (h, h, 0);
  match o with inr r => Ok r | inl _ => Fault "unreachable"%string end.

Definition wcsstr fuel h n : result Z :=
  n0 ← ldc n m;
  if n0 =? 0 then Ok h else
  h0 ← ldc h m;
  if h0 =? 0 then Ok 0 else
  h ← wcschr m fuel h n0;
  if h =? 0 then Ok h else
  n1 ← ldc (n + 4) m;
  if n1 =? 0 then Ok h else
  h1 ← ldc (h + 4) m;
  if h1 =? 0 then Ok 0 else
  twoway_wcsstr fuel h n.

Definition wcswcs fuel haystack needle : result Z := wcsstr fuel haystack needle.

End ops.

(** The result of a search from [h] on. *)
Definition wfound_at (h : Z) (o : option nat) : Z :=
  match o with Some i => h + 4 * Z.of_nat i | None => 0 end.

Section twoway.
Context (m : cmem) (fuel : nat) (h n : Z) (nd hs : list Z).
Context (Hn : wstr m n nd) (Hh : wstr m h hs) (Hh0 : 0 < h).
Let l := length nd.
Context (Hl0 : (0 < l)%nat) (Hl : Z.of_nat l < 2 ^ 61) (Hlh : Z.of_nat (length hs) < 2 ^ 61).
Context (Hfuel : (S (length hs) < fuel)%nat).

Lemma needle_len_ok : needle_len m fuel h n = Ok (Z.of_nat (Nat.min l (length hs))).
Proof.
  unfold needle_len. change (while ?c ?b fuel 0) with (while c b fuel (Z.of_nat 0)).
  apply (while_steps _ _ (fun i => Z.of_nat i)); [| |lia].
  - intros i Hi. destruct (wstr_ld m n nd i Hn ltac:(fold l; lia)) as (a & -> & Ha & _).
    destruct (wstr_ld m h hs i Hh ltac:(lia)) as (b & -> & Hb & _). cbn [mbind result_bind].
    rewrite Ha, Hb. fold l. destruct (Nat.ltb_spec i l); [|lia]. cbn [negb mbind result_bind].
    destruct (Nat.ltb_spec i (length hs)); [|lia]. split; [done|]. f_equal. rewrite wrap_small; lia.
  - set (k := Nat.min l (length hs)).
    destruct (wstr_ld m n nd k Hn ltac:(fold l; lia)) as (a & -> & Ha & _).
    destruct (wstr_ld m h hs k Hh ltac:(lia)) as (b & -> & Hb & _). cbn [mbind result_bind].
    rewrite Ha, Hb. fold l. destruct (Nat.ltb_spec k l); [|done]. cbn [negb mbind result_bind].
    destruct (Nat.ltb_spec k (length hs)); [lia|done].
Qed.

Lemma wgrow_bounds : Z.of_nat l <= Z.lor (Z.of_nat l) 63 < Z.of_nat l + 64.
Proof.
  pose proof (Z.add_lor_land (Z.of_nat l) 63). change 63 with (Z.ones 6) in *.
  rewrite Z.land_ones in * by lia. pose proof (Z.mod_pos_bound (Z.of_nat l) (2 ^ 6)).
  pose proof (Z.mod_le (Z.of_nat l) (2 ^ 6)). change (Z.ones 6) with 63 in *. lia.
Qed.

Lemma wdiff_between d z : wdiff (h + 4 * Z.of_nat z) (h + 4 * Z.of_nat d) = Z.of_nat z - Z.of_nat d.
Proof.
  rewrite <- (wdiff_at (h + 4 * Z.of_nat d) (Z.of_nat z - Z.of_nat d)). f_equal. lia.
Qed.

Lemma wgrow_end_ok d z :
  (d <= z)%nat -> (z <= length hs)%nat ->
  exists o, wgrow_end m fuel (h + 4 * Z.of_nat d) (h + 4 * Z.of_nat z) (Z.of_nat l) = Ok o /\
    match o with
    | None => (length hs < d + l)%nat
    | Some e => exists z', e = h + 4 * Z.of_nat z' /\ (d + l <= z')%nat /\ (z' <= length hs)%nat
    end.
Proof.
  intros Hdz Hz. unfold wgrow_end. rewrite wdiff_between, wrap_small by lia.
  destruct (Z.ltb_spec (Z.of_nat z - Z.of_nat d) (Z.of_nat l)) as [Hlt|Hge].
  2: { eexists. split; [done|]. exists z. lia. }
  pose proof wgrow_bounds as Hg. set (grow := Z.lor (Z.of_nat l) 63) in *.
  pose proof (wstr_drop m h hs z Hz Hh) as Hrest. pose proof (length_drop hs z) as Hld.
  rewrite (wmemchr_null m fuel _ _ grow Hrest) by lia. cbn [mbind result_bind].
  destruct (Z.ltb_spec (Z.of_nat (length (drop z hs))) grow).
  - replace (h + 4 * Z.of_nat z + 4 * Z.of_nat (length (drop z hs))) with (h + 4 * Z.of_nat (length hs)) by lia.
    destruct (Z.eqb_spec (h + 4 * Z.of_nat (length hs)) 0); [lia|]. cbn [negb]. rewrite wdiff_between, wrap_small by lia.
    eexists. split; [done|]. destruct (Z.ltb_spec (Z.of_nat (length hs) - Z.of_nat d) (Z.of_nat l)); [lia|].
    exists (length hs). lia.
  - eexists. split; [done|]. exists (z + Z.to_nat grow)%nat. lia.
Qed.

(** The test for a periodic needle compares the halves. *)
Lemma wmemcmp_halves s p :
  (s + p <= l)%nat -> (l < fuel)%nat ->
  exists d, wmemcmp m fuel n (n + 4 * Z.of_nat p) (Z.of_nat s) = Ok d /\
    (d = 0 <-> forall i, (i < s)%nat -> nd !!! i = nd !!! (i + p)%nat).
Proof.
  intros Hsp Hf. pose proof Hn as [Hw _]. apply wide_at_app in Hw as [Hw _].
  assert (wide_at m n (take s nd)) as Hleft.
  { rewrite <- (take_drop s nd) in Hw. by apply wide_at_app in Hw as [? _]. }
  assert (wide_at m (n + 4 * Z.of_nat p) (take s (drop p nd))) as Hright.
  { apply (wide_at_drop m n nd p ltac:(fold l; lia)) in Hw. rewrite <- (take_drop s (drop p nd)) in Hw.
    by apply wide_at_app in Hw as [? _]. }
  assert (length (take s nd) = length (take s (drop p nd))) as Hlen by (rewrite !length_take, length_drop; fold l; lia).
  replace (Z.of_nat s) with (Z.of_nat (length (take s nd))) by (rewrite length_take; fold l; lia).
  rewrite (wmemcmp_ok m fuel n _ _ _ Hleft Hright Hlen) by (rewrite length_take; fold l; lia).
  eexists. split; [done|]. rewrite wide_diff_zero by done. by apply left_half_eq.
Qed.

Lemma wneedle_ld i : (i < l)%nat -> ldc (n + 4 * Z.of_nat i) m = Ok (nd !!! i).
Proof.
  intros Hi. pose proof Hn as [Hw _]. apply wide_at_app in Hw as [Hw _]. by apply wide_at_total.
Qed.

Lemma wtext_ld d i : (d + l <= length hs)%nat -> (i < l)%nat ->
  ldc (h + 4 * Z.of_nat d + 4 * Z.of_nat i) m = Ok (hs !!! (d + i)%nat).
Proof.
  intros Hd Hi. pose proof Hh as [Hw _]. apply wide_at_app in Hw as [Hw _].
  rewrite <- (wide_at_total m h hs (d + i) Hw) by lia. f_equal. lia.
Qed.

Lemma wmore_ok i : (i <= l)%nat ->
  (b ← ldc (n + 4 * Z.of_nat i) m; Ok (negb (b =? 0))) = Ok (i <? l)%nat.
Proof.
  intros Hi. destruct (wstr_ld m n nd i Hn Hi) as (b & -> & Hb & _). cbn [mbind result_bind].
  by rewrite Hb, negb_involutive.
Qed.

(** The search has come to position [d], and the text is known up to [z]. *)
Definition wcs_inv (s p : nat) (st : Z * Z * Z) : Prop :=
  exists d z mem, st = (h + 4 * Z.of_nat d, h + 4 * Z.of_nat z, Z.of_nat mem) /\
    (d <= z)%nat /\ (z <= length hs)%nat /\ searching nd hs s p d mem.

Lemma wcs_round_ok s p mem0 st :
  critical (nd !!!.) l s -> safe_shift nd s p mem0 -> (l < fuel)%nat -> wcs_inv s p st ->
  exists o, wcs_round m fuel n (Z.of_nat l) (u64 (Z.of_nat s - 1)) (Z.of_nat p) (Z.of_nat mem0) st = Ok o /\
    match o with
    | inl st' => wcs_inv s p st' /\
        (Z.to_nat (wdiff (h + 4 * Z.of_nat (length hs)) st'.1.1) <
         Z.to_nat (wdiff (h + 4 * Z.of_nat (length hs)) st.1.1))%nat
    | inr r => r = wfound_at h (sub_index nd hs)
    end.
Proof.
  intros Hc Hs Hf (d & z & mem & -> & Hdz & Hz & Hsr). unfold wcs_round.
  destruct (wgrow_end_ok d z Hdz Hz) as ([e'|] & -> & Hend); cbn [mbind result_bind].
  2: { eexists. split; [done|]. by rewrite (searching_end nd hs s p d mem Hsr). }
  destruct Hend as (z' & -> & Hdz' & Hz').
  destruct (halves_ok (fun i => ldc (n + 4 * i) m) nd wneedle_ld Hl0) with
    (ldh := fun i => ldc (h + 4 * Z.of_nat d + 4 * i) m) (T := fun i => hs !!! (d + i)%nat) (fuel := fuel)
    (more := fun k => b ← ldc (n + 4 * k) m; Ok (negb (b =? 0)))
    (s := s) (p := p) (mem0 := mem0) (mem := mem) as (o & -> & Ho); try done.
  - fold l. lia.
  - intros i Hi. apply wtext_ld; [unfold l in *; lia|done].
  - apply wmore_ok.
  - apply Hsr.
  - destruct Hsr as (_ & _ & [->|(-> & _ & (? & _) & _)]); fold l; lia.
  - cbn [mbind result_bind]. eexists. split; [done|]. destruct o as [[k mem']|[]].
    + destruct Ho as (k' & y & -> & -> & Hmv).
      destruct (searching_move nd hs s p d mem k' y) as [Hsr' Hlt]; [unfold l in *; lia|done..|].
      replace (h + 4 * Z.of_nat d + 4 * Z.of_nat k') with (h + 4 * Z.of_nat (d + k')) by lia.
      split; [exists (d + k')%nat, z', y; split_and!; try done; unfold l in *; lia|].
      cbn [fst]. rewrite !wdiff_between. destruct Hsr' as [? _]. lia.
    + rewrite (searching_found nd hs s p d mem); [done|unfold l in *; lia|done|done].
Qed.

Lemma twoway_wcs_ok :
  (2 * l < fuel)%nat -> twoway_wcsstr m fuel h n = Ok (wfound_at h (sub_index nd hs)).
Proof.
  intros Hf. unfold twoway_wcsstr. rewrite needle_len_ok. cbn [mbind result_bind].
  set (x := Nat.min l (length hs)).
  destruct (wstr_ld m n nd x Hn) as (e & -> & He & _); [fold l; lia|].
  cbn [mbind result_bind]. rewrite He, negb_involutive. fold l.
  destruct (Nat.ltb_spec x l) as [Hlt|Hge].
  { rewrite sub_index_short by (fold l; lia). done. }
  replace x with l in * by lia.
  destruct (factorize_ok (fun i => ldc (n + 4 * i) m) nd wneedle_ld Hl0 ltac:(fold l; lia) fuel Hf)
    as (s & p0 & Hfac & Hc & Hp). fold l in Hfac. rewrite Hfac. cbn [mbind result_bind].
  destruct (periodic_ok nd Hl0 ltac:(fold l; lia) (fun p k => wmemcmp m fuel n (n + 4 * p) k) s p0 Hc Hp)
    as (p & mem0 & Hper & Hs).
  { pose proof Hc as [? _]. pose proof Hp as (? & ? & _). apply wmemcmp_halves; unfold l in *; lia. }
  fold l in Hper. rewrite Hper. cbn [mbind result_bind].
  edestruct (loop_rule (fun _ => Ok true)
    (wcs_round m fuel n (Z.of_nat l) (u64 (Z.of_nat s - 1)) (Z.of_nat p) (Z.of_nat mem0)) (wcs_inv s p)
    (fun r => r = wfound_at h (sub_index nd hs))
    (fun st => Z.to_nat (wdiff (h + 4 * Z.of_nat (length hs)) st.1.1)) fuel (h, h, 0)) as (o & -> & Ho).
  - intros st Hst. eexists. split; [done|]. intros _. apply wcs_round_ok; [done..|lia|done].
  - exists 0%nat, 0%nat, 0%nat. split; [repeat apply (f_equal2 pair); lia|].
    split_and!; [lia|lia|]. apply searching_start.
  - simpl. replace h with (h + 4 * Z.of_nat 0) at 2 by lia. rewrite wdiff_between. lia.
  - cbn [mbind result_bind]. destruct o as [st|r]; [by destruct Ho|]. by rewrite Ho.
Qed.

End twoway.

Lemma wfound_at_drop h c nd hs :
  wfound_at h (sub_index (c :: nd) hs) =
  wfound_at (h + 4 * Z.of_nat (index_of c hs)) (sub_index (c :: nd) (drop (index_of c hs) hs)).
Proof.
  rewrite (sub_index_drop c nd hs). destruct (sub_index _ (drop _ hs)); simpl; [lia|done].
Qed.

(** The tests of [h[0]], [n[1]] and [h[1]]. *)
Lemma wstr_null m a ws i : wstr m a ws -> (i <= length ws)%nat ->
  exists b, ldc (a + 4 * Z.of_nat i) m = Ok b /\ (b =? 0) = (length ws =? i)%nat.
Proof.
  intros Hw Hi. destruct (wstr_ld m a ws i Hw Hi) as (b & Hb & Hb0 & _). exists b. split; [done|].
  rewrite Hb0. destruct (Nat.ltb_spec i (length ws)), (Nat.eqb_spec (length ws) i); simpl; lia.
Qed.

(** The string from the first place of the needle's first character on. *)
Lemma wcsstr_from m fuel h n c nd hs :
  wstr m n (c :: nd) -> wstr m h (c :: hs) -> 0 < h ->
  Z.of_nat (length (c :: nd)) < 2 ^ 61 -> Z.of_nat (length (c :: hs)) < 2 ^ 61 ->
  (2 * length (c :: nd) < fuel)%nat -> (S (length (c :: hs)) < fuel)%nat ->
  (n1 ← ldc (n + 4) m;
   if n1 =? 0 then Ok h else
   h1 ← ldc (h + 4) m;
   if h1 =? 0 then Ok 0 else twoway_wcsstr m fuel h n) = Ok (wfound_at h (sub_index (c :: nd) (c :: hs))).
Proof.
  intros Hn Hh H0 Hl Hlh Hf Hfh.
  destruct (wstr_null m n (c :: nd) 1 Hn) as (n1 & Hn1 & E1); [simpl; lia|].
  change (n + 4 * Z.of_nat 1) with (n + 4) in Hn1. rewrite Hn1. cbn [mbind result_bind]. rewrite E1.
  destruct nd as [|c' nd]; cbn [length Nat.eqb].
  { cbn [sub_index length take]. rewrite take_0, bool_decide_true by done. simpl. f_equal. lia. }
  destruct (wstr_null m h (c :: hs) 1 Hh) as (h1 & Hh1 & E2); [simpl; lia|].
  change (h + 4 * Z.of_nat 1) with (h + 4) in Hh1. rewrite Hh1. cbn [mbind result_bind]. rewrite E2.
  destruct hs as [|c'' hs]; cbn [length Nat.eqb]; [by rewrite sub_index_short by (simpl; lia)|].
  apply twoway_wcs_ok; simpl in *; done || lia.
Qed.

(** C19: the search for a wide string in a wide string by the two-way algorithm finds
    what trying every position finds: the first place where the needle is, or
    that there is none. It reads nothing but the two strings and always ends. *)
Theorem wcsstr_spec m fuel h n nd hs :
  wstr m n nd -> wstr m h hs -> 0 < h ->
  Z.of_nat (length nd) < 2 ^ 61 -> Z.of_nat (length hs) < 2 ^ 61 ->
  (2 * length nd < fuel)%nat -> (S (length hs) < fuel)%nat ->
  wcsstr m fuel h n = Ok (wfound_at h (sub_index nd hs)) /\
  wcswcs m fuel h n = Ok (wfound_at h (sub_index nd hs)).
Proof.
  intros Hn Hh H0 Hl Hlh Hf Hfh. enough (wcsstr m fuel h n = Ok (wfound_at h (sub_index nd hs))) by done.
  unfold wcsstr. destruct (wstr_ld m n nd 0 Hn) as (b & Hb & Hb0 & Hbc); [lia|].
  rewrite Z.add_0_r in Hb. rewrite Hb. cbn [mbind result_bind]. rewrite Hb0.
  destruct nd as [|c nd]; [simpl; f_equal; destruct hs; simpl; lia|]. cbn [length Nat.ltb Nat.leb negb].
  rewrite Hbc by (simpl; lia). cbn [lookup_total list_lookup_total].
  destruct (wstr_null m h hs 0 Hh) as (h0 & Hh0 & E0); [lia|].
  rewrite Z.add_0_r in Hh0. rewrite Hh0. cbn [mbind result_bind]. rewrite E0.
  destruct (Nat.eqb_spec (length hs) 0) as [Hz|Hz]; [by destruct hs|].
  assert (c <> 0) as Hc by (by destruct Hn as [_ [? _]%Forall_cons]).
  rewrite (wcschr_ok m fuel h hs c Hh) by (done || lia). cbn [mbind result_bind].
  rewrite wfound_at_drop. set (i := index_of c hs) in *.
  destruct (Nat.ltb_spec i (length hs)) as [Hi|Hi].
  2: { rewrite drop_ge by lia. by rewrite sub_index_short by (simpl; lia). }
  destruct (Z.eqb_spec (h + 4 * Z.of_nat i) 0); [lia|].
  pose proof (wstr_drop m h hs i ltac:(lia) Hh) as Hd. pose proof (length_drop hs i) as Hld.
  erewrite drop_S in * by by apply index_of_at. apply wcsstr_from; simpl in *; done || lia.
Qed.

Module ToyWide.

(** The words "xabab" and "bab" of wide characters, one of them above [2^16]. *)
Definition hay : list Z := [120; 97; 66304; 97; 66304].
Definition needle : list Z := [66304; 97; 66304].

Definition m : cmem := put_bytes 64 (concat (map (le_bytes 4) (hay ++ [0] ++ needle ++ [0]))) ∅.

Lemma hay_at : wstr m 64 hay.
Proof.
  split; [|by repeat constructor]. intros i w Hi.
  do 6 (destruct i as [|i]; [injection Hi as <-; vm_compute; reflexivity|]). done.
Defined.

Lemma needle_at : wstr m 88 needle.
Proof.
  split; [|by repeat constructor]. intros i w Hi.
  do 4 (destruct i as [|i]; [injection Hi as <-; vm_compute; reflexivity|]). done.
Defined.

Lemma wcsstr_spec_witness : wcsstr m 100 64 88 = Ok 72.
Proof.
  refine (eq_trans (proj1 (wcsstr_spec m 100 64 88 needle hay needle_at hay_at _ _ _ _ _)) _);
    [lia|simpl; lia|simpl; lia|simpl; lia|simpl; lia|reflexivity].
Defined.

End ToyWide.
