(* ===== verification/WideCopy.v ===== *)
(** * Copying wide characters

    Theorems on [wmemcpy], [wmemmove], [wmemset], [wcscpy], [wcscat] and
    [wcsdup] of [lib/guest_bw/string] (their definitions are in [WideStr]):
    the bytes they leave in memory. *)

From S2P Require Import Prelude CMem CLoop StrScan StrCmp MemCopy WideStr.
#[local] Open Scope Z_scope.

Abbreviation is_int := (fun w : Z => - 2 ^ 31 <= w < 2 ^ 31).

(** The bytes of wide characters. *)
Definition wbytes (ws : list Z) : list Z := concat (le_list 4 <$> ws).

Lemma wbytes_app l1 l2 : wbytes (l1 ++ l2) = wbytes l1 ++ wbytes l2.
Proof. unfold wbytes. by rewrite fmap_app, concat_app. Qed.

Lemma wbytes_length ws : length (wbytes ws) = (4 * length ws)%nat.
Proof.
  induction ws as [|w ws IH]; [done|]. change (w :: ws) with ([w] ++ ws).
  rewrite wbytes_app, length_app, IH. simpl. lia.
Qed.

Lemma wbytes_single w : wbytes [w] = le_list 4 w.
Proof. done. Qed.

Lemma wbytes_snoc ws i w : ws !! i = Some w -> wbytes (take (S i) ws) = wbytes (take i ws) ++ le_list 4 w.
Proof. intros Hw. by rewrite (take_S_r ws i w Hw), wbytes_app. Qed.

Lemma le_val_list n v : le_val (le_list n v) = v mod 256 ^ Z.of_nat n.
Proof.
  revert v. induction n as [|n IH]; intros v; [by rewrite Z.mod_1_r|].
  cbn [le_list le_val]. rewrite IH, Nat2Z.inj_succ, Z.pow_succ_r by lia.
  pose proof (Z.pow_pos_nonneg 256 (Z.of_nat n) ltac:(lia) ltac:(lia)).
  rewrite Z.rem_mul_r by lia. lia.
Qed.

Lemma swrap_int w : is_int w -> swrap 32 (w mod 2 ^ 32) = w.
Proof.
  cbv beta zeta. intros Hw. unfold swrap, wrap. cbv zeta. rewrite Z.mod_mod by done. change (2 ^ (32 - 1)) with (2 ^ 31).
  destruct (Z.ltb_spec (w mod 2 ^ 32) (2 ^ 31)); Z.to_euclidean_division_equations; lia.
Qed.

(** A character read. *)
Lemma ldc_bytes m a w : a mod 4 = 0 -> is_int w -> bytes_at m a (le_list 4 w) -> ldc a m = Ok w.
Proof.
  intros Ha Hw Hb. unfold ldc. rewrite (ldw_bytes_at 4 (le_list 4 w)) by (done || apply le_list_length).
  cbn [mbind result_bind]. rewrite le_val_list. f_equal. by apply swrap_int.
Qed.

Lemma stc_put m a w : a mod 4 = 0 -> mapped 4 a m -> stc a w m = Ok (put_bytes a (le_list 4 w) m).
Proof. apply (stw_put 4). Qed.

Lemma mod4_step a i : a mod 4 = 0 -> (a + 4 * i) mod 4 = 0.
Proof. intros Ha. by rewrite (Z.mul_comm 4), Z.mod_add. Qed.

Lemma bytes_at_wide m a ws i w :
  bytes_at m a (wbytes ws) -> ws !! i = Some w -> bytes_at m (a + 4 * Z.of_nat i) (le_list 4 w).
Proof.
  intros Hb Hw. rewrite <- (take_drop_middle ws i w Hw), wbytes_app in Hb.
  apply bytes_at_app in Hb as [_ Hb]. change (w :: ?l) with ([w] ++ l) in Hb. rewrite wbytes_app in Hb.
  apply bytes_at_app in Hb as [Hb _]. rewrite wbytes_length, length_take in Hb.
  apply lookup_lt_Some in Hw. by replace (a + 4 * Z.of_nat i) with (a + Z.of_nat (4 * (i `min` length ws))) by lia.
Qed.

(** A character read after other bytes were written. *)
Lemma ldc_put m d bs s ws i w :
  s mod 4 = 0 -> Forall is_int ws -> bytes_at m s (wbytes ws) -> ws !! i = Some w ->
  s + 4 * Z.of_nat i + 4 <= d \/ d + Z.of_nat (length bs) <= s + 4 * Z.of_nat i ->
  ldc (s + 4 * Z.of_nat i) (put_bytes d bs m) = Ok w.
Proof.
  intros Hs4 Hws Hs Hw Hd.
  apply ldc_bytes; [by apply mod4_step|by apply (Forall_lookup_1 _ _ _ _ Hws Hw)|].
  apply bytes_at_put_other; [by eapply bytes_at_wide|]. rewrite le_list_length. lia.
Qed.

(** The characters, from the bytes. *)
Lemma wide_at_bytes m a ws :
  a mod 4 = 0 -> Forall is_int ws -> bytes_at m a (wbytes ws) -> wide_at m a ws.
Proof.
  intros Ha Hws Hb i w Hw. apply ldc_bytes; [by apply mod4_step|by apply (Forall_lookup_1 _ _ _ _ Hws Hw)|].
  by eapply bytes_at_wide.
Qed.

Lemma mapped_sub n a m k b : mapped n a m -> a <= b -> b + Z.of_nat k <= a + Z.of_nat n -> mapped k b m.
Proof. intros Hm Hb Hk x Hx. apply Hm. lia. Qed.

Lemma take_min_length {A} n (l : list A) : take (n `min` length l) l = take n l.
Proof. destruct (Nat.le_ge_cases n (length l)); [by rewrite Nat.min_l|by rewrite Nat.min_r, !take_ge by lia]. Qed.

Section copying.
Context (m : cmem) (d s : Z) (ws : list Z).
Context (Hd4 : d mod 4 = 0) (Hs4 : s mod 4 = 0) (Hws : Forall is_int ws).
Context (Hs : bytes_at m s (wbytes ws)) (Hd : mapped (4 * length ws) d m).
Let n := length ws.

(** The first [i] characters are copied. *)
Definition wup (i : nat) : cmem := put_bytes d (wbytes (take i ws)) m.
(** The characters from [i] on are copied. *)
Definition wdown (i : nat) : cmem := put_bytes (d + 4 * Z.of_nat i) (wbytes (drop i ws)) m.

Lemma wup_step i w :
  d <= s \/ s + 4 * Z.of_nat n <= d -> ws !! i = Some w ->
  ldc (s + 4 * Z.of_nat i) (wup i) = Ok w /\ stc (d + 4 * Z.of_nat i) w (wup i) = Ok (wup (S i)).
Proof.
  intros Hup Hw. pose proof (lookup_lt_Some _ _ _ Hw) as Hi. unfold n in *. split.
  - eapply ldc_put; [done..|]. rewrite wbytes_length, length_take. lia.
  - rewrite stc_put; [|by apply mod4_step|apply mapped_put; eapply mapped_sub; [exact Hd|lia..]].
    unfold wup. rewrite (wbytes_snoc ws i w Hw), <- put_bytes_snoc, wbytes_length, length_take. do 3 f_equal. lia.
Qed.

Lemma wdown_step i w :
  s <= d -> ws !! i = Some w ->
  ldc (s + 4 * Z.of_nat i) (wdown (S i)) = Ok w /\
  stc (d + 4 * Z.of_nat i) w (wdown (S i)) = Ok (wdown i).
Proof.
  intros Hdn Hw. pose proof (lookup_lt_Some _ _ _ Hw) as Hi. split.
  - eapply ldc_put; [done..|lia].
  - rewrite stc_put; [|by apply mod4_step|apply mapped_put; eapply mapped_sub; [exact Hd|unfold n in *; lia..]].
    unfold wdown. rewrite (drop_S ws w i Hw). change (w :: ?l) with ([w] ++ l).
    rewrite wbytes_app, put_bytes_app, wbytes_single, le_list_length. do 3 f_equal. lia.
Qed.

Lemma wcopy_up_ok fuel :
  d <= s \/ s + 4 * Z.of_nat n <= d -> (n < fuel)%nat ->
  wcopy_up fuel d s (Z.of_nat n) m = Ok (put_bytes d (wbytes ws) m).
Proof.
  intros Hup Hf. unfold wcopy_up.
  set (f := fun i => (d + 4 * Z.of_nat i, s + 4 * Z.of_nat i, Z.of_nat n - Z.of_nat i, wup i)).
  replace (d, s, Z.of_nat n, m) with (f 0%nat) by (unfold f, wup; simpl; repeat apply (f_equal2 pair); lia || done).
  rewrite (while_steps _ _ f n); [|..|done].
  - unfold f, wup, n. cbn [mbind result_bind]. by rewrite firstn_all.
  - intros i Hi. unfold f. destruct (lookup_lt_is_Some_2 ws i Hi) as [w Hw].
    destruct (wup_step i w Hup Hw) as [-> E]. cbn [mbind result_bind]. rewrite E. cbn [mbind result_bind].
    split; f_equal; [lia|]. repeat apply (f_equal2 pair); lia || done.
  - unfold f. f_equal. lia.
Qed.

Lemma wcopy_down_ok fuel :
  s <= d -> (n < fuel)%nat -> wcopy_down fuel d s (Z.of_nat n) m = Ok (put_bytes d (wbytes ws) m).
Proof.
  intros Hdn Hf. unfold wcopy_down.
  set (f := fun i => (Z.of_nat (n - i), wdown (n - i))).
  replace (Z.of_nat n, m) with (f 0%nat).
  2: { unfold f, wdown. rewrite Nat.sub_0_r. f_equal. unfold n. by rewrite drop_all. }
  rewrite (while_steps _ _ f n); [|..|done].
  - unfold f, wdown. cbn [mbind result_bind]. rewrite Nat.sub_diag, drop_0. do 2 f_equal. lia.
  - intros i Hi. unfold f. destruct (lookup_lt_is_Some_2 ws (n - S i)) as [w Hw]; [unfold n in *; lia|].
    destruct (wdown_step (n - S i) w Hdn Hw) as [E1 E2].
    replace (n - i)%nat with (S (n - S i)) by lia.
    replace (Z.of_nat (S (n - S i)) - 1) with (Z.of_nat (n - S i)) by lia.
    rewrite E1. cbn [mbind result_bind]. rewrite E2. split; [f_equal; lia|done].
  - unfold f. by rewrite Nat.sub_diag.
Qed.

End copying.

Lemma wmemmove_ok fuel m d s ws :
  d mod 4 = 0 -> s mod 4 = 0 -> Forall is_int ws -> bytes_at m s (wbytes ws) -> mapped (4 * length ws) d m ->
  0 <= d -> 0 <= s -> d + 4 * Z.of_nat (length ws) <= 2 ^ 64 -> s + 4 * Z.of_nat (length ws) <= 2 ^ 64 ->
  (length ws < fuel)%nat ->
  wmemmove fuel d s (Z.of_nat (length ws)) m = Ok (d, put_bytes d (wbytes ws) m).
Proof.
  intros Hd4 Hs4 Hws Hs Hd Hd0 Hs0 Hd1 Hs1 Hf. unfold wmemmove. destruct (Z.eqb_spec d s) as [->|Hne].
  { do 2 f_equal. symmetry. by apply put_bytes_same. }
  destruct ws as [|w0 ws0] eqn:Hl.
  { destruct fuel; [simpl in Hf; lia|]. simpl. by destruct (_ <? _). }
  rewrite <- Hl in *. assert (0 < Z.of_nat (length ws)) by (rewrite Hl; simpl; lia).
  replace (u64 (Z.of_nat (length ws) * 4)) with (4 * Z.of_nat (length ws)) by (rewrite wrap_small; lia).
  assert (s <= d /\ u64 (d - s) = d - s \/ d < s /\ u64 (d - s) = d - s + 2 ^ 64) as Hw.
  { destruct (Z.ltb_spec d s); [right; split; [done|]|left; split; [done|]; rewrite wrap_small; lia].
    unfold wrap. rewrite <- (Z.mod_add _ 1), Z.mod_small by lia. lia. }
  destruct (Z.ltb_spec (u64 (d - s)) (4 * Z.of_nat (length ws))) as [Hlt|Hge].
  - by rewrite wcopy_down_ok by (done || lia).
  - by rewrite wcopy_up_ok by (done || lia).
Qed.

Lemma wmemset_ok fuel m d c n :
  d mod 4 = 0 -> mapped (4 * n) d m -> (n < fuel)%nat ->
  wmemset fuel d c (Z.of_nat n) m = Ok (d, put_bytes d (wbytes (replicate n c)) m).
Proof.
  intros Hd4 Hd Hf. unfold wmemset.
  set (f := fun i => (d + 4 * Z.of_nat i, Z.of_nat n - Z.of_nat i, put_bytes d (wbytes (replicate i c)) m)).
  replace (d, Z.of_nat n, m) with (f 0%nat) by (unfold f; simpl; repeat apply (f_equal2 pair); lia || done).
  rewrite (while_steps _ _ f n); [done|..|done].
  - intros i Hi. unfold f. rewrite stc_put; [|by apply mod4_step|apply mapped_put; eapply mapped_sub; [exact Hd|lia..]].
    cbn [mbind result_bind]. split; f_equal; [lia|]. repeat apply (f_equal2 pair); [lia..|].
    rewrite <- (wbytes_single c). change [c] with (replicate 1 c). rewrite <- (Nat.add_1_r i), replicate_add.
    rewrite wbytes_app, <- put_bytes_snoc, wbytes_length, length_replicate. f_equal. lia.
  - unfold f. f_equal. lia.
Qed.

(** Copying a string, with its null. *)
Lemma wcscpy_ok fuel m d s ws :
  d mod 4 = 0 -> s mod 4 = 0 -> Forall is_int ws -> Forall (fun w => w <> 0) ws ->
  bytes_at m s (wbytes (ws ++ [0])) -> mapped (4 * S (length ws)) d m ->
  d <= s \/ s + 4 * Z.of_nat (S (length ws)) <= d -> (length ws < fuel)%nat ->
  wcscpy fuel d s m = Ok (d, put_bytes d (wbytes (ws ++ [0])) m).
Proof.
  intros Hd4 Hs4 Hi Hz Hs Hd Hup Hf. unfold wcscpy.
  assert (length (ws ++ [0]) = S (length ws)) as Hl by (rewrite length_app; simpl; lia).
  assert (Forall is_int (ws ++ [0])) as Hi' by (apply Forall_app; split; [done|by repeat constructor]).
  assert (forall i w, (ws ++ [0]) !! i = Some w ->
    ldc (s + 4 * Z.of_nat i) (wup m d (ws ++ [0]) i) = Ok w /\
    stc (d + 4 * Z.of_nat i) w (wup m d (ws ++ [0]) i) = Ok (wup m d (ws ++ [0]) (S i))) as Hstep.
  { intros i w. apply wup_step; rewrite ?Hl; done. }
  set (f := fun i => (d + 4 * Z.of_nat i, s + 4 * Z.of_nat i, wup m d (ws ++ [0]) i)).
  replace (d, s, m) with (f 0%nat) by (unfold f, wup; simpl; repeat apply (f_equal2 pair); lia || done).
  rewrite (loop_steps _ _ f (length ws)); [| |lia].
  - destruct (fuel - length ws)%nat eqn:Hn; [lia|]. cbn [loop mbind result_bind f].
    destruct (Hstep (length ws) 0) as [E1 E2]; [by apply list_lookup_middle|]. unfold f.
    rewrite E1. cbn [mbind result_bind]. rewrite E2. cbn [mbind result_bind Z.eqb].
    unfold wup. by rewrite <- Hl, firstn_all.
  - intros i Hi2. split; [done|]. destruct (lookup_lt_is_Some_2 ws i Hi2) as [w Hw]. unfold f.
    destruct (Hstep i w) as [E1 E2]; [by apply lookup_app_l_Some|].
    rewrite E1. cbn [mbind result_bind]. rewrite E2. cbn [mbind result_bind].
    apply (Forall_lookup_1 _ _ _ _ Hz) in Hw. destruct (Z.eqb_spec w 0); [done|].
    do 2 f_equal. repeat apply (f_equal2 pair); lia || done.
Qed.

(** At most [n] characters of a string. *)
Lemma wcopy_n_ok fuel m d s ws n :
  let k := Nat.min n (length ws) in
  d mod 4 = 0 -> s mod 4 = 0 -> Forall is_int ws -> Forall (fun w => w <> 0) ws ->
  bytes_at m s (wbytes (ws ++ [0])) -> mapped (4 * k) d m ->
  d <= s \/ s + 4 * Z.of_nat (S (length ws)) <= d -> (length ws < fuel)%nat ->
  wcopy_n fuel d s (Z.of_nat n) m =
  Ok (d + 4 * Z.of_nat k, Z.of_nat (n - k), put_bytes d (wbytes (take k ws)) m).
Proof.
  intros k Hd4 Hs4 Hi Hz Hs Hd Hup Hf. unfold wcopy_n.
  assert (Forall is_int (ws ++ [0])) as Hi' by (apply Forall_app; split; [done|by repeat constructor]).
  set (M := fun i => put_bytes d (wbytes (take i ws)) m).
  assert (forall i w, (i <= k)%nat -> (ws ++ [0]) !! i = Some w -> ldc (s + 4 * Z.of_nat i) (M i) = Ok w) as Hld.
  { intros i w Hik Hw. eapply ldc_put; [done..|]. rewrite wbytes_length, length_take. lia. }
  set (f := fun i => (d + 4 * Z.of_nat i, s + 4 * Z.of_nat i, Z.of_nat (n - i), M i)).
  replace (d, s, Z.of_nat n, m) with (f 0%nat)
    by (unfold f, M; simpl; repeat apply (f_equal2 pair); lia || done).
  rewrite (while_steps _ _ f k); [done| | |lia]; unfold f.
  - intros i Hik. destruct (lookup_lt_is_Some_2 ws i) as [w Hw]; [lia|].
    destruct (Z.eqb_spec (Z.of_nat (n - i)) 0); [lia|].
    rewrite (Hld i w); [|lia|by apply lookup_app_l_Some]. cbn [mbind result_bind].
    split; [apply (Forall_lookup_1 _ _ _ _ Hz) in Hw; f_equal; simpl in Hw; lia|].
    rewrite stc_put; [|by apply mod4_step|apply mapped_put; eapply mapped_sub; [exact Hd|lia..]].
    cbn [mbind result_bind]. f_equal. repeat apply (f_equal2 pair); [lia..|].
    unfold M. rewrite (wbytes_snoc ws i w Hw), <- put_bytes_snoc, wbytes_length, length_take. f_equal. lia.
  - destruct (Z.eqb_spec (Z.of_nat (n - k)) 0) as [|Hk]; [done|].
    rewrite (Hld k 0); [done|lia|]. replace k with (length ws) by lia. by apply list_lookup_middle.
Qed.

(** [m'] is [m] with the characters [ws] at [d] and nothing else changed. *)
Definition wide_copied (m : cmem) (d : Z) (ws : list Z) (m' : cmem) : Prop :=
  wide_at m' d ws /\ copied m d (wbytes ws) m'.

Lemma wide_copied_put m d ws :
  d mod 4 = 0 -> Forall is_int ws -> wide_copied m d ws (put_bytes d (wbytes ws) m).
Proof.
  intros Hd Hws. split; [|apply copied_put]. apply wide_at_bytes; [done..|]. apply bytes_at_put.
Qed.

(** The move of wide characters ends for any overlap and leaves the old
    characters of the source at the destination and every other byte as it
    was; so does the copy when the destination does not start inside the
    source. Filling leaves the character in every place. *)
Theorem wide_move_spec fuel m d s ws c :
  let n := Z.of_nat (length ws) in
  d mod 4 = 0 -> s mod 4 = 0 -> Forall is_int ws -> is_int c ->
  bytes_at m s (wbytes ws) -> mapped (4 * length ws) d m ->
  0 <= d -> 0 <= s -> d + 4 * n <= 2 ^ 64 -> s + 4 * n <= 2 ^ 64 -> (length ws < fuel)%nat ->
  (exists m', wide_copied m d ws m' /\ wmemmove fuel d s n m = Ok (d, m') /\
     (d <= s \/ s + 4 * n <= d -> wmemcpy fuel d s n m = Ok (d, m'))) /\
  (exists m', wide_copied m d (replicate (length ws) c) m' /\ wmemset fuel d c n m = Ok (d, m')).
Proof.
  intros n Hd4 Hs4 Hws Hc Hs Hd Hd0 Hs0 Hd1 Hs1 Hf. unfold n in *. split.
  - eexists. split; [by apply wide_copied_put|]. split; [by apply wmemmove_ok|].
    intros Hup. unfold wmemcpy. by rewrite wcopy_up_ok.
  - eexists. split; [apply wide_copied_put; [done|by apply Forall_replicate]|]. by apply wmemset_ok.
Qed.

Lemma wstr_bytes m s ws :
  s mod 4 = 0 -> Forall is_int ws -> Forall (fun w => w <> 0) ws ->
  bytes_at m s (wbytes (ws ++ [0])) -> wstr m s ws.
Proof.
  intros Hs4 Hi Hz Hs. split; [|done]. apply wide_at_bytes; [done| |done].
  apply Forall_app. split; [done|by repeat constructor].
Qed.

Section strings.
Context (fuel : nat) (m : cmem) (d s : Z) (ws : list Z).
Context (Hd4 : d mod 4 = 0) (Hs4 : s mod 4 = 0) (Hi : Forall is_int ws) (Hz : Forall (fun w => w <> 0) ws).
Context (Hs : bytes_at m s (wbytes (ws ++ [0]))) (Hf : (length ws < fuel)%nat).

Lemma is_int_snoc : Forall is_int (ws ++ [0]).
Proof. apply Forall_app. split; [done|by repeat constructor]. Qed.

(** [wcscpy] copies the string with its null. *)
Theorem wcscpy_spec :
  mapped (4 * S (length ws)) d m -> d <= s \/ s + 4 * Z.of_nat (S (length ws)) <= d ->
  exists m', wide_copied m d (ws ++ [0]) m' /\ wcscpy fuel d s m = Ok (d, m').
Proof.
  intros Hd Hup. eexists. split; [apply wide_copied_put; [done|apply is_int_snoc]|]. by apply wcscpy_ok.
Qed.

(** [wcscat] copies it behind the string that is already there. *)
Theorem wcscat_spec ds :
  wstr m d ds -> (length ds < fuel)%nat -> mapped (4 * S (length ws)) (d + 4 * Z.of_nat (length ds)) m ->
  d + 4 * Z.of_nat (length ds) <= s \/ s + 4 * Z.of_nat (S (length ws)) <= d + 4 * Z.of_nat (length ds) ->
  exists m', wide_copied m (d + 4 * Z.of_nat (length ds)) (ws ++ [0]) m' /\ wcscat fuel d s m = Ok (d, m').
Proof.
  intros Hds Hfd Hd Hup. eexists. split; [apply wide_copied_put; [by apply mod4_step|apply is_int_snoc]|].
  unfold wcscat. rewrite (wcslen_ok m fuel d ds) by done. cbn [mbind result_bind].
  by rewrite (wcscpy_ok fuel m _ s ws) by (done || by apply mod4_step).
Qed.

(** [wcsncpy] writes exactly [n] characters: the string, cut or filled up with nulls. *)
Theorem wcsncpy_spec n :
  mapped (4 * n) d m -> d <= s \/ s + 4 * Z.of_nat (S (length ws)) <= d -> (n < fuel)%nat ->
  exists m', wide_copied m d (take n ws ++ replicate (n - length ws) 0) m' /\
    wcsncpy fuel d s (Z.of_nat n) m = Ok (d, m').
Proof.
  intros Hd Hup Hn. eexists. split; [apply wide_copied_put; [done|]|].
  { apply Forall_app. split; [by apply Forall_take|by apply Forall_replicate]. }
  unfold wcsncpy. rewrite (wcopy_n_ok fuel m d s ws n); try done; [|eapply mapped_sub; [exact Hd|lia..]].
  cbn [mbind result_bind]. rewrite wmemset_ok; [|by apply mod4_step|apply mapped_put; eapply mapped_sub; [exact Hd|lia..]|lia].
  cbn [mbind result_bind]. do 2 f_equal.
  replace (n - n `min` length ws)%nat with (n - length ws)%nat by lia.
  rewrite wbytes_app, <- put_bytes_snoc, wbytes_length, length_take.
  rewrite take_min_length. f_equal. lia.
Qed.

(** [wcsncat] appends at most [n] characters and always a null. *)
Theorem wcsncat_spec ds n :
  let e := d + 4 * Z.of_nat (length ds) in
  wstr m d ds -> (length ds < fuel)%nat -> mapped (4 * S (Nat.min n (length ws))) e m ->
  e <= s \/ s + 4 * Z.of_nat (S (length ws)) <= e ->
  exists m', wide_copied m e (take n ws ++ [0]) m' /\ wcsncat fuel d s (Z.of_nat n) m = Ok (d, m').
Proof.
  intros e Hds Hfd Hd Hup. assert (e mod 4 = 0) as He by by apply mod4_step.
  eexists. split; [apply wide_copied_put; [done|]|].
  { apply Forall_app. split; [by apply Forall_take|by repeat constructor]. }
  unfold wcsncat. rewrite (wcslen_ok m fuel d ds) by done. cbn [mbind result_bind]. fold e.
  rewrite (wcopy_n_ok fuel m e s ws n); try done; [|eapply mapped_sub; [exact Hd|lia..]].
  cbn [mbind result_bind]. rewrite stc_put; [|by apply mod4_step|apply mapped_put; eapply mapped_sub; [exact Hd|lia..]].
  cbn [mbind result_bind]. do 2 f_equal. rewrite wbytes_app, <- put_bytes_snoc, wbytes_length, length_take.
  rewrite take_min_length. f_equal. lia.
Qed.

End strings.
