(* ===== verification/Fp.v ===== *)
(** * Floating-point numbers

    The types [float] and [double] as the C code of [lib/guest_bw/math] sees
    them: words of bits that it takes apart, and numbers that it adds,
    multiplies and compares. A number is its word. The value of a finite number
    is an integer multiple of the smallest positive number of the format, and
    that integer is what the definitions compute with. *)

From S2P Require Import Prelude.
#[local] Open Scope Z_scope.

(** ** Formats *)

(** The widths of the fraction and of the exponent. *)
Record fmt := Fmt { mb : Z; eb : Z }.

Definition double : fmt := Fmt 52 11.
Definition single : fmt := Fmt 23 8.

Class FmtOk (F : fmt) : Prop := {
  mb_min : 2 <= mb F;
  eb_min : 3 <= eb F;
  mb_bias : 3 * mb F + 7 <= 2 ^ (eb F - 1);
}.

#[export] Instance double_ok : FmtOk double.
Proof. split; vm_compute; discriminate. Qed.

#[export] Instance single_ok : FmtOk single.
Proof. split; vm_compute; discriminate. Qed.

(** The rounding mode of the machine. *)
Inductive rmode := RNE | RZ | RUP | RDN.

Section format.
Context (F : fmt).

(** The width of the word, the largest exponent field (for infinities and NaNs)
    and the bias. *)
Definition wb : Z := 1 + eb F + mb F.
Definition emask : Z := 2 ^ eb F - 1.
Definition bias : Z := 2 ^ (eb F - 1) - 1.

(** The sign, the exponent field, the word without the sign. *)
Definition fsign (x : Z) : bool := 2 ^ (wb - 1) <=? x.
Definition fabs_bits (x : Z) : Z := x mod 2 ^ (wb - 1).
Definition fexp (x : Z) : Z := fabs_bits x / 2 ^ mb F.
Definition ffrac (x : Z) : Z := x mod 2 ^ mb F.

Definition pack (s : bool) (a : Z) : Z := (if s then 2 ^ (wb - 1) else 0) + a.

Definition inf_bits : Z := emask * 2 ^ mb F.

Definition is_word (x : Z) : Prop := 0 <= x < 2 ^ wb.
Definition is_nan (x : Z) : bool := inf_bits <? fabs_bits x.
Definition is_finite (x : Z) : bool := fabs_bits x <? inf_bits.

(** *** Values, in units of the smallest positive number *)

Definition mag (a : Z) : Z :=
  let e := a / 2 ^ mb F in let f := a mod 2 ^ mb F in
  if e =? 0 then f else (f + 2 ^ mb F) * 2 ^ (e - 1).

(** The word of a magnitude that has one. *)
Definition enc (n : Z) : Z :=
  let e := Z.max 0 (Z.log2 n - mb F) in e * 2 ^ mb F + n / 2 ^ e.

Definition signed (s : bool) (n : Z) : Z := if s then - n else n.
Definition sval (x : Z) : Z := signed (fsign x) (mag (fabs_bits x)).

(** The number one, and the bound from which on numbers overflow. *)
Definition unit_val : Z := 2 ^ (bias + mb F - 1).
Definition mag_inf : Z := mag inf_bits.

(** ** Arithmetic

    The quotient of two integers, rounded to an integer as the mode says. *)
Definition rdiv (rm : rmode) (s : bool) (num den : Z) : Z :=
  let q := num / den in let r := num mod den in
  let up := match rm with
            | RNE => (den <? 2 * r) || ((2 * r =? den) && Z.odd q)
            | RZ => false
            | RUP => negb (r =? 0) && negb s
            | RDN => negb (r =? 0) && s
            end in
  if up then q + 1 else q.

Definition overflow (rm : rmode) (s : bool) : Z :=
  match rm with
  | RNE => inf_bits
  | RZ => inf_bits - 1
  | RUP => if s then inf_bits - 1 else inf_bits
  | RDN => if s then inf_bits else inf_bits - 1
  end.

(** The number nearest to [num / den] units in the sense of the mode. *)
Definition fround (rm : rmode) (s : bool) (num den : Z) : Z :=
  let e := Z.max 0 (Z.log2 (num / den) - mb F) in
  let n := rdiv rm s num (den * 2 ^ e) * 2 ^ e in
  pack s (if mag_inf <=? n then overflow rm s else enc n).

End format.

(** What the machine adds to the operands: the rounding mode, and which NaN an
    operation gives, which is not specified. *)
Record fpenv (F : fmt) := {
  rm : rmode;
  nan2 : Z -> Z -> Z;
  nan2_nan : forall x y, is_word F (nan2 x y) /\ is_nan F (nan2 x y) = true;
}.
Arguments rm {F}. Arguments nan2 {F}. Arguments nan2_nan {F}.

Section arith.
Context {F : fmt} (E : fpenv F).

Definition fneg (x : Z) : Z := pack F (negb (fsign F x)) (fabs_bits F x).

Definition fadd (x y : Z) : Z :=
  if is_nan F x || is_nan F y then nan2 E x y else
  if negb (is_finite F x) then
    if negb (is_finite F y) && negb (Bool.eqb (fsign F x) (fsign F y)) then nan2 E x y else x
  else if negb (is_finite F y) then y else
  let z := sval F x + sval F y in
  if z =? 0 then
    pack F (if Bool.eqb (fsign F x) (fsign F y) then fsign F x
            else match rm E with RDN => true | _ => false end) 0
  else fround F (rm E) (z <? 0) (Z.abs z) 1.

Definition fsub (x y : Z) : Z := if is_nan F y then nan2 E x y else fadd x (fneg y).

Definition is_zero (x : Z) : bool := fabs_bits F x =? 0.

Definition fmul (x y : Z) : Z :=
  let s := xorb (fsign F x) (fsign F y) in
  if is_nan F x || is_nan F y then nan2 E x y else
  if negb (is_finite F x) || negb (is_finite F y) then
    if is_zero x || is_zero y then nan2 E x y else pack F s (inf_bits F)
  else fround F (rm E) s (mag F (fabs_bits F x) * mag F (fabs_bits F y)) (unit_val F).

Definition fdiv (x y : Z) : Z :=
  let s := xorb (fsign F x) (fsign F y) in
  if is_nan F x || is_nan F y then nan2 E x y else
  if negb (is_finite F x) then
    if negb (is_finite F y) then nan2 E x y else pack F s (inf_bits F)
  else if negb (is_finite F y) then pack F s 0 else
  if is_zero y then if is_zero x then nan2 E x y else pack F s (inf_bits F)
  else fround F (rm E) s (mag F (fabs_bits F x) * unit_val F) (mag F (fabs_bits F y)).

(** The comparisons [<], [==] and [<=]; a NaN compares with nothing. *)
Definition flt (x y : Z) : bool := negb (is_nan F x || is_nan F y) && (sval F x <? sval F y).
Definition feq (x y : Z) : bool := negb (is_nan F x || is_nan F y) && (sval F x =? sval F y).
Definition fle (x y : Z) : bool := negb (is_nan F x || is_nan F y) && (sval F x <=? sval F y).

End arith.

(** ** Powers of two *)

Lemma pow2_pos k : 0 <= k -> 0 < 2 ^ k.
Proof. intros Hk. by apply Z.pow_pos_nonneg. Qed.

Lemma pow2_split a b : 0 <= a -> 0 <= b -> 2 ^ (a + b) = 2 ^ a * 2 ^ b.
Proof. intros Ha Hb. by apply Z.pow_add_r. Qed.

Lemma pow2_succ a : 0 <= a -> 2 ^ (a + 1) = 2 * 2 ^ a.
Proof. intros Ha. rewrite Z.add_1_r, Z.pow_succ_r by done. done. Qed.

Lemma pow2_le a b : 0 <= a <= b -> exists k, 0 < k /\ 2 ^ b = k * 2 ^ a.
Proof.
  intros Hab. exists (2 ^ (b - a)). split; [apply pow2_pos; lia|].
  rewrite <- Z.pow_add_r by lia. f_equal. lia.
Qed.

(** Multiplying by a power of two moves the logarithm. *)
Lemma log2_range n k : 0 <= k -> 2 ^ k <= n < 2 ^ (k + 1) -> Z.log2 n = k.
Proof. intros Hk Hn. apply Z.log2_unique; [done|]. by rewrite <- Z.add_1_r. Qed.

Lemma log2_lt n k : 0 <= n -> 0 <= k -> n < 2 ^ (k + 1) -> Z.log2 n <= k.
Proof.
  intros Hn Hk Hlt. destruct (decide (n = 0)) as [->|]; [done|].
  enough (Z.log2 n < k + 1) by lia. apply Z.log2_lt_pow2; lia.
Qed.

(** ** Words *)

Section words.
Context (F : fmt) `{!FmtOk F}.
Abbreviation B := (2 ^ mb F).

Lemma B_pos : 4 <= B.
Proof. pose proof (mb_min (F := F)). change 4 with (2 ^ 2). apply Z.pow_le_mono_r; lia. Qed.

Lemma emask_min : 7 <= emask F.
Proof.
  unfold emask. pose proof (eb_min (F := F)). enough (2 ^ 3 <= 2 ^ eb F) by lia.
  apply Z.pow_le_mono_r; lia.
Qed.

Lemma wb_split : 2 ^ (wb F - 1) = (emask F + 1) * B.
Proof.
  unfold wb, emask. pose proof (mb_min (F := F)). pose proof (eb_min (F := F)).
  replace (1 + eb F + mb F - 1) with (eb F + mb F) by lia. rewrite pow2_split by lia. lia.
Qed.

Lemma wb_top : 2 ^ wb F = 2 * 2 ^ (wb F - 1).
Proof.
  pose proof (mb_min (F := F)). pose proof (eb_min (F := F)).
  rewrite <- pow2_succ by (unfold wb; lia). f_equal. lia.
Qed.

Lemma inf_lt : inf_bits F + B = 2 ^ (wb F - 1).
Proof. rewrite wb_split. unfold inf_bits. lia. Qed.

Lemma bias_emask : emask F = 2 * bias F + 1.
Proof.
  unfold emask, bias. pose proof (eb_min (F := F)).
  replace (eb F) with (eb F - 1 + 1) at 1 by lia. rewrite pow2_succ by lia. lia.
Qed.

Lemma bias_min : 3 * mb F + 6 <= bias F.
Proof. unfold bias. pose proof (mb_bias (F := F)). lia. Qed.

Lemma fabs_bits_range x : 0 <= fabs_bits F x < 2 ^ (wb F - 1).
Proof.
  unfold fabs_bits. apply Z.mod_pos_bound, pow2_pos. unfold wb.
  pose proof (mb_min (F := F)). pose proof (eb_min (F := F)). lia.
Qed.

(** A word is a sign and the rest. *)
Lemma pack_word x : is_word F x -> pack F (fsign F x) (fabs_bits F x) = x.
Proof.
  unfold is_word, pack, fsign, fabs_bits. rewrite wb_top. set (P := 2 ^ (wb F - 1)). intros Hx.
  destruct (Z.leb_spec P x).
  - rewrite <- (Z.mod_unique x P 1 (x - P)); lia.
  - rewrite Z.mod_small; lia.
Qed.

Lemma fsign_pack s a : 0 <= a < 2 ^ (wb F - 1) -> fsign F (pack F s a) = s.
Proof. unfold fsign, pack. intros Ha. destruct s; lia. Qed.

Lemma fabs_pack s a : 0 <= a < 2 ^ (wb F - 1) -> fabs_bits F (pack F s a) = a.
Proof.
  unfold fabs_bits, pack. intros Ha. destruct s; [|by rewrite Z.mod_small].
  symmetry. apply (Z.mod_unique _ _ 1); lia.
Qed.

Lemma is_word_pack s a : 0 <= a < 2 ^ (wb F - 1) -> is_word F (pack F s a).
Proof. unfold is_word, pack. rewrite wb_top. destruct s; lia. Qed.

Lemma fexp_range x : 0 <= fexp F x <= emask F.
Proof.
  pose proof (fabs_bits_range x) as Hx. rewrite wb_split in Hx. pose proof B_pos. unfold fexp.
  split; [apply Z.div_pos; lia|]. enough (fabs_bits F x / B < emask F + 1) by lia.
  apply Z.div_lt_upper_bound; lia.
Qed.

(** ** Magnitudes *)

(** The scale of the numbers with a given word. *)
Definition scale (a : Z) : Z := Z.max 0 (a / B - 1).

Lemma mag_scale a : 0 <= a -> mag F a = (a - scale a * B) * 2 ^ scale a.
Proof.
  intros Ha. unfold mag, scale. pose proof B_pos. pose proof (Z.div_mod a B ltac:(lia)).
  pose proof (Z.div_pos a B Ha ltac:(lia)).
  destruct (Z.eqb_spec (a / B) 0) as [He|He].
  - rewrite Z.max_l by lia. lia.
  - rewrite Z.max_r by lia. nia.
Qed.

Lemma scale_range a : 0 <= a -> 0 <= scale a /\ 0 <= a - scale a * B < 2 * B /\
  (0 < scale a -> B <= a - scale a * B).
Proof.
  intros Ha. unfold scale. pose proof B_pos. pose proof (Z.div_mod a B ltac:(lia)).
  pose proof (Z.mod_pos_bound a B ltac:(lia)). pose proof (Z.div_pos a B Ha ltac:(lia)).
  split_and!; nia.
Qed.

Lemma mag_nonneg a : 0 <= a -> 0 <= mag F a.
Proof.
  intros Ha. rewrite mag_scale by done. pose proof (scale_range a Ha) as (? & ? & _).
  pose proof (pow2_pos (scale a) ltac:(done)). nia.
Qed.

(** A word is determined by its scale. *)
Lemma scale_unique a e : 0 <= e -> e * B <= a < e * B + 2 * B -> (0 < e -> e * B + B <= a) -> scale a = e.
Proof.
  intros He Ha Hn. unfold scale. pose proof B_pos.
  destruct (decide (e * B + B <= a)) as [Hle|Hlt].
  - rewrite <- (Z.div_unique a B (e + 1) (a - (e + 1) * B)) by lia. lia.
  - assert (e = 0) as -> by lia. rewrite Z.div_small by lia. done.
Qed.

Lemma mag_succ a : 0 <= a -> mag F a < mag F (a + 1).
Proof.
  intros Ha. pose proof (scale_range a Ha) as (He & Hr & Hn). pose proof B_pos.
  rewrite (mag_scale a), (mag_scale (a + 1)) by lia. set (e := scale a) in *.
  pose proof (pow2_pos e He).
  destruct (decide (a + 1 < e * B + 2 * B)) as [Hlt|Hge].
  - rewrite (scale_unique (a + 1) e) by lia. nia.
  - rewrite (scale_unique (a + 1) (e + 1)) by lia. rewrite pow2_succ by done. nia.
Qed.

Lemma mag_lt a b : 0 <= a -> a < b -> mag F a < mag F b.
Proof.
  intros Ha Hab. replace b with (a + 1 + (b - a - 1)) by lia.
  assert (0 <= b - a - 1) as Hk by lia. revert Hk. generalize (b - a - 1). clear b Hab.
  apply natlike_ind; [rewrite Z.add_0_r; by apply mag_succ|]. intros k Hk IH.
  pose proof (mag_succ (a + 1 + k) ltac:(lia)). replace (a + 1 + Z.succ k) with (a + 1 + k + 1) by lia. lia.
Qed.

Lemma mag_le a b : 0 <= a -> a <= b -> mag F a <= mag F b.
Proof.
  intros Ha Hab. destruct (decide (a = b)) as [->|]; [done|]. pose proof (mag_lt a b). lia.
Qed.

Lemma mag_inj a b : 0 <= a -> 0 <= b -> mag F a = mag F b -> a = b.
Proof.
  intros Ha Hb He. destruct (Z.lt_trichotomy a b) as [H|[H|H]]; [|done|].
  - pose proof (mag_lt a b Ha H). lia.
  - pose proof (mag_lt b a Hb H). lia.
Qed.

Lemma mag_0 : mag F 0 = 0.
Proof. unfold mag. by rewrite Z.div_0_l, Z.mod_0_l by (pose proof B_pos; lia). Qed.

(** ** Representable magnitudes *)

Definition repr (n : Z) : Prop := exists c e, 0 <= c < 2 * B /\ 0 <= e /\ n = c * 2 ^ e.

Lemma mag_repr a : 0 <= a -> repr (mag F a).
Proof.
  intros Ha. pose proof (scale_range a Ha) as (He & Hr & _). rewrite mag_scale by done.
  by exists (a - scale a * B), (scale a).
Qed.

(** The exponent at which a magnitude is rounded. *)
Definition lexp (n : Z) : Z := Z.max 0 (Z.log2 n - mb F).

Lemma lexp_range n : 0 <= n -> n < 2 ^ lexp n * (2 * B) /\ (0 < lexp n -> 2 ^ lexp n * B <= n).
Proof.
  intros Hn. unfold lexp. pose proof (mb_min (F := F)). pose proof B_pos.
  destruct (decide (n = 0)) as [->|Hn0]; [simpl; lia|].
  pose proof (Z.log2_spec n ltac:(lia)) as [Hlo Hhi]. rewrite <- Z.add_1_r in Hhi.
  destruct (Z.max_spec 0 (Z.log2 n - mb F)) as [[Hlt ->]|[Hle ->]].
  - rewrite <- pow2_succ, <- !pow2_split by lia. split; [|intros _].
    + replace (Z.log2 n - mb F + (mb F + 1)) with (Z.log2 n + 1) by lia. done.
    + replace (Z.log2 n - mb F + mb F) with (Z.log2 n) by lia. done.
  - split; [|lia]. rewrite <- pow2_succ by lia. simpl. rewrite Z.mul_1_l.
    eapply Z.lt_le_trans; [exact Hhi|]. apply Z.pow_le_mono_r; lia.
Qed.

Lemma repr_div n : 0 <= n -> repr n -> n = n / 2 ^ lexp n * 2 ^ lexp n.
Proof.
  intros Hn (c & e & Hc & He & ->). pose proof (mb_min (F := F)).
  assert (lexp (c * 2 ^ e) <= e) as Hle.
  { unfold lexp. destruct (decide (c = 0)) as [->|]; [simpl; lia|].
    enough (Z.log2 (c * 2 ^ e) <= mb F + e) by lia. apply log2_lt; [done|lia|].
    replace (mb F + e + 1) with (mb F + 1 + e) by lia. rewrite pow2_split, pow2_succ by lia.
    pose proof (pow2_pos e He). nia. }
  destruct (pow2_le (lexp (c * 2 ^ e)) e) as (k & _ & Hk); [unfold lexp in *; lia|].
  rewrite Hk at 2. rewrite Z.mul_assoc, Z.div_mul, <- Z.mul_assoc, <- Hk; [done|].
  pose proof (pow2_pos (lexp (c * 2 ^ e))). unfold lexp in *. lia.
Qed.

Lemma enc_scale n : 0 <= n -> 0 <= enc F n /\ scale (enc F n) = lexp n /\
  enc F n - lexp n * B = n / 2 ^ lexp n.
Proof.
  intros Hn. pose proof B_pos. pose proof (lexp_range n Hn) as [Hhi Hlo].
  assert (0 <= lexp n) as Hl by (unfold lexp; lia). pose proof (pow2_pos _ Hl) as Hp.
  unfold enc. fold (lexp n).
  assert (0 <= n / 2 ^ lexp n < 2 * B) as Hq.
  { split; [apply Z.div_pos; lia|apply Z.div_lt_upper_bound; lia]. }
  split; [nia|]. split; [|lia]. apply scale_unique; [done|lia|].
  intros Hl0. specialize (Hlo Hl0). enough (B <= n / 2 ^ lexp n) by lia.
  apply Z.div_le_lower_bound; lia.
Qed.

Lemma mag_enc n : 0 <= n -> repr n -> mag F (enc F n) = n.
Proof.
  intros Hn Hr. pose proof (enc_scale n Hn) as (He & Hs & Hq).
  rewrite mag_scale, Hs, Hq by done. symmetry. by apply repr_div.
Qed.

Lemma enc_mag a : 0 <= a -> enc F (mag F a) = a.
Proof.
  intros Ha. pose proof (mag_nonneg a Ha) as Hm. apply mag_inj; [by apply enc_scale|done|].
  apply mag_enc; [done|]. by apply mag_repr.
Qed.

Lemma enc_nonneg n : 0 <= n -> 0 <= enc F n.
Proof. apply enc_scale. Qed.

Lemma enc_lt_inf n : 0 <= n -> repr n -> n < mag_inf F -> enc F n < inf_bits F.
Proof.
  intros Hn Hr Hlt. destruct (Z.lt_ge_cases (enc F n) (inf_bits F)) as [|Hge]; [done|].
  pose proof (mag_le (inf_bits F) (enc F n)) as Hm. rewrite (mag_enc n Hn Hr) in Hm.
  unfold mag_inf in Hlt. pose proof B_pos. pose proof emask_min. unfold inf_bits in *. nia.
Qed.

(** ** Rounding *)

Lemma rdiv_exact rm s q d : 0 < d -> rdiv rm s (q * d) d = q.
Proof.
  intros Hd. unfold rdiv. rewrite Z.div_mul, Z.mod_mul by lia.
  replace (d <? 2 * 0) with false by lia. replace (2 * 0 =? d) with false by lia. by destruct rm.
Qed.

Lemma rdiv_range rm s n d : n / d <= rdiv rm s n d <= n / d + 1.
Proof. unfold rdiv. case_match; lia. Qed.

(** Whole multiples pass through, if they do not change the parity. *)
Lemma rdiv_add rm s k n d : 0 < d -> Z.even k = true -> rdiv rm s (n + k * d) d = k + rdiv rm s n d.
Proof.
  intros Hd Hk. unfold rdiv. rewrite Z.div_add, Z.mod_add by lia.
  rewrite Z.odd_add. rewrite <- Z.negb_even, <- (Z.negb_even k), Hk. simpl negb.
  rewrite xorb_false_r. destruct (match rm with RNE => _ | _ => _ end); lia.
Qed.

Lemma rdiv_small rm s d : 0 < d -> rdiv rm s 0 d = 0.
Proof. intros Hd. by apply (rdiv_exact rm s 0). Qed.

(** A quotient that is a number is not rounded, but it may be too large. *)
Lemma fround_repr rm s n den :
  0 < den -> 0 <= n -> repr n ->
  fround F rm s (n * den) den = pack F s (if mag_inf F <=? n then overflow F rm s else enc F n).
Proof.
  intros Hd Hn Hr. unfold fround. rewrite Z.div_mul by lia. fold (lexp n).
  pose proof (repr_div n Hn Hr) as Hdiv. pose proof (pow2_pos (lexp n) ltac:(unfold lexp; lia)).
  replace (n * den) with (n / 2 ^ lexp n * (den * 2 ^ lexp n)) by lia.
  rewrite rdiv_exact by nia. by rewrite <- Hdiv.
Qed.

Lemma fround_exact rm s n den :
  0 < den -> 0 <= n -> repr n -> n < mag_inf F -> fround F rm s (n * den) den = pack F s (enc F n).
Proof.
  intros Hd Hn Hr Hlt. rewrite fround_repr by done. by destruct (Z.leb_spec (mag_inf F) n); [lia|].
Qed.

Lemma rdiv_scale rm s a b c : 0 < b -> 0 < c -> rdiv rm s (a * c) (b * c) = rdiv rm s a b.
Proof.
  intros Hb Hc. unfold rdiv. rewrite Z.div_mul_cancel_r, Z.mul_mod_distr_r by lia.
  set (r := a mod b). replace (b * c <? 2 * (r * c)) with (b <? 2 * r) by nia.
  replace (2 * (r * c) =? b * c) with (2 * r =? b) by nia. by replace (r * c =? 0) with (r =? 0) by nia.
Qed.

Lemma fround_scale rm s a b c : 0 < b -> 0 < c -> fround F rm s (a * c) (b * c) = fround F rm s a b.
Proof.
  intros Hb Hc. unfold fround. rewrite Z.div_mul_cancel_r by lia. set (e := Z.max 0 _).
  pose proof (pow2_pos e ltac:(lia)). replace (b * c * 2 ^ e) with (b * 2 ^ e * c) by ring.
  by rewrite rdiv_scale by nia.
Qed.

(** ** Values *)

Lemma is_finite_spec x : is_finite F x = true <-> fabs_bits F x < inf_bits F.
Proof. unfold is_finite. lia. Qed.

Lemma finite_not_nan x : is_finite F x = true -> is_nan F x = false.
Proof. unfold is_finite, is_nan. lia. Qed.

Lemma mag_finite x : is_finite F x = true -> 0 <= mag F (fabs_bits F x) < mag_inf F.
Proof.
  intros Hx%is_finite_spec. pose proof (fabs_bits_range x) as [H0 _].
  split; [by apply mag_nonneg|by apply mag_lt].
Qed.

Lemma sval_pack s a : 0 <= a < 2 ^ (wb F - 1) -> sval F (pack F s a) = signed s (mag F a).
Proof. intros Ha. unfold sval. by rewrite fsign_pack, fabs_pack. Qed.

Lemma enc_bound n : 0 <= n -> repr n -> n < mag_inf F -> 0 <= enc F n < 2 ^ (wb F - 1).
Proof.
  intros Hn Hr Hlt. pose proof (enc_lt_inf n Hn Hr Hlt). pose proof (enc_nonneg n Hn).
  pose proof inf_lt. pose proof B_pos. lia.
Qed.

Lemma sval_enc s n : 0 <= n -> repr n -> n < mag_inf F -> sval F (pack F s (enc F n)) = signed s n.
Proof.
  intros Hn Hr Hlt. rewrite sval_pack by by apply enc_bound. by rewrite mag_enc.
Qed.

Lemma finite_enc s n : 0 <= n -> repr n -> n < mag_inf F -> is_finite F (pack F s (enc F n)) = true.
Proof.
  intros Hn Hr Hlt. unfold is_finite. rewrite fabs_pack by by apply enc_bound.
  pose proof (enc_lt_inf n Hn Hr Hlt). lia.
Qed.

Lemma enc_0 : enc F 0 = 0.
Proof. unfold enc. simpl. rewrite Z.max_l by (pose proof (mb_min (F := F)); lia). done. Qed.

(** A word from its sign and its value. *)
Lemma word_of x : is_word F x -> pack F (fsign F x) (enc F (mag F (fabs_bits F x))) = x.
Proof.
  intros Hx. rewrite enc_mag by apply fabs_bits_range. by apply pack_word.
Qed.

Lemma mag_zero_iff a : 0 <= a -> mag F a = 0 <-> a = 0.
Proof.
  intros Ha. split; [|intros ->; apply mag_0]. intros He. apply mag_inj; [done|done|].
  by rewrite mag_0.
Qed.

Lemma zero_repr : repr 0.
Proof. exists 0, 0. pose proof B_pos. lia. Qed.

Lemma unit_pos : 0 < unit_val F.
Proof.
  unfold unit_val. apply pow2_pos. pose proof bias_min. pose proof (mb_min (F := F)). lia.
Qed.

(** Multiples of a power of two that fit into the fraction. *)
Lemma repr_mul c e : 0 <= c <= 2 * B -> 0 <= e -> repr (c * 2 ^ e).
Proof.
  intros Hc He. destruct (decide (c = 2 * B)) as [->|]; [|by exists c, e; split_and!; try lia].
  pose proof B_pos. exists B, (e + 1). rewrite pow2_succ by done. split_and!; lia.
Qed.

(** A multiple of the unit at which a number is rounded, and not larger. *)
Lemma repr_lexp n d : 0 <= n -> 0 <= d <= n -> (2 ^ lexp n | d) -> repr d.
Proof.
  intros Hn Hd [c ->]. pose proof (lexp_range n Hn) as [Hlt _].
  assert (0 <= lexp n) as Hl by (unfold lexp; lia). pose proof (pow2_pos _ Hl).
  exists c, (lexp n). split_and!; [nia|nia|done|done].
Qed.

Lemma lexp_divide n m : 0 <= n <= m -> repr m -> (2 ^ lexp n | m).
Proof.
  intros Hn Hm. rewrite (repr_div m ltac:(lia) Hm). apply Z.divide_mul_r.
  destruct (pow2_le (lexp n) (lexp m)) as (k & _ & ->); [|by exists k].
  unfold lexp. pose proof (Z.log2_le_mono n m). lia.
Qed.

(** The difference of two numbers that are near each other is a number. *)
Lemma repr_sub n m : 0 <= n -> repr n -> repr m -> n <= m <= 2 * n -> repr (m - n).
Proof.
  intros Hn Hrn Hrm Hm. apply (repr_lexp n); [done|lia|].
  apply Z.divide_sub_r; apply lexp_divide; (done || lia).
Qed.

(** Powers of two. *)
Lemma mag_pow2 e : 1 <= e -> mag F (e * B) = B * 2 ^ (e - 1).
Proof.
  intros He. pose proof B_pos. unfold mag. rewrite Z.div_mul, Z.mod_mul by lia.
  destruct (Z.eqb_spec e 0); lia.
Qed.

Lemma mag_inf_val : mag_inf F = B * 2 ^ (emask F - 1).
Proof.
  pose proof B_pos. pose proof emask_min. unfold mag_inf, mag, inf_bits.
  rewrite Z.div_mul, Z.mod_mul by lia. destruct (Z.eqb_spec (emask F) 0); lia.
Qed.

End words.

(** ** Exact operations *)

Section exact.
Context {F : fmt} `{!FmtOk F} (E : fpenv F).

(** The word of an exact result: the sign of a zero sum is that of its terms,
    or the mode decides it. *)
Definition sum_word (x y z : Z) : Z :=
  if z =? 0 then
    pack F (if Bool.eqb (fsign F x) (fsign F y) then fsign F x
            else match rm E with RDN => true | _ => false end) 0
  else pack F (z <? 0) (enc F (Z.abs z)).

Lemma fadd_exact x y :
  is_finite F x = true -> is_finite F y = true ->
  repr F (Z.abs (sval F x + sval F y)) -> Z.abs (sval F x + sval F y) < mag_inf F ->
  fadd E x y = sum_word x y (sval F x + sval F y).
Proof.
  intros Hx Hy Hr Hlt. unfold fadd, sum_word. rewrite !finite_not_nan, Hx, Hy by done.
  simpl orb. simpl negb. destruct (Z.eqb_spec (sval F x + sval F y) 0); [done|].
  pose proof (fround_exact F (rm E) (sval F x + sval F y <? 0) (Z.abs (sval F x + sval F y)) 1) as He.
  rewrite Z.mul_1_r in He. apply He; (done || lia).
Qed.

Lemma fmul_exact x y n :
  is_finite F x = true -> is_finite F y = true ->
  mag F (fabs_bits F x) * mag F (fabs_bits F y) = n * unit_val F ->
  0 <= n -> repr F n -> n < mag_inf F ->
  fmul E x y = pack F (xorb (fsign F x) (fsign F y)) (enc F n).
Proof.
  intros Hx Hy Hn H0 Hr Hlt. unfold fmul. rewrite !finite_not_nan, Hx, Hy by done. simpl orb. cbv iota.
  rewrite Hn. apply fround_exact; [done|by apply unit_pos|done..].
Qed.

Lemma fmul_zero x : is_finite F x = true -> fmul E 0 x = pack F (fsign F x) 0.
Proof.
  intros Hx. pose proof (unit_pos F). pose proof (wb_split F). pose proof (B_pos F). pose proof (emask_min F).
  assert (fabs_bits F 0 = 0) as Hz by (apply Z.mod_0_l; nia).
  assert (is_finite F 0 = true) as Hf by (unfold is_finite, inf_bits; rewrite Hz; nia).
  unfold fmul. rewrite (finite_not_nan F 0 Hf), (finite_not_nan F x Hx), Hf, Hx. simpl.
  assert (fsign F 0 = false) as -> by (unfold fsign; nia). rewrite Hz, (mag_0 F). simpl xorb.
  replace (0 * mag F (fabs_bits F x)) with (0 * unit_val F) by lia.
  rewrite (fround_exact F); [by rewrite (enc_0 F)|done|lia|by apply zero_repr|].
  pose proof (mag_finite F x Hx). lia.
Qed.

(** Changing the sign. *)
Lemma fneg_pack s a : 0 <= a < 2 ^ (wb F - 1) -> fneg (F := F) (pack F s a) = pack F (negb s) a.
Proof. intros Ha. unfold fneg. by rewrite fsign_pack, fabs_pack. Qed.

(** A difference of different numbers. *)
Lemma fsub_exact x y :
  is_finite F x = true -> is_finite F y = true -> sval F x <> sval F y ->
  repr F (Z.abs (sval F x - sval F y)) -> Z.abs (sval F x - sval F y) < mag_inf F ->
  fsub E x y = pack F (sval F x <? sval F y) (enc F (Z.abs (sval F x - sval F y))).
Proof.
  intros Hx Hy Hne Hr Hlt. unfold fsub. rewrite (finite_not_nan F y Hy).
  pose proof (fabs_bits_range F y) as Hb.
  assert (sval F (fneg (F := F) y) = - sval F y) as Hs.
  { unfold fneg. rewrite sval_pack by done. unfold sval. destruct (fsign F y); simpl; lia. }
  assert (is_finite F (fneg (F := F) y) = true) as Hf.
  { unfold is_finite, fneg in *. by rewrite fabs_pack. }
  rewrite fadd_exact; rewrite ?Hs, ?Z.add_opp_r; try done. unfold sum_word.
  destruct (Z.eqb_spec (sval F x - sval F y) 0); [lia|]. f_equal. lia.
Qed.

End exact.

(** A machine that gives one NaN for all. *)
Definition some_env (F : fmt) `{!FmtOk F} (m : rmode) : fpenv F.
Proof.
  refine {| rm := m; nan2 := fun _ _ => inf_bits F + 1 |}. intros _ _. pose proof (B_pos F). pose proof (emask_min F).
  pose proof (inf_lt F). pose proof (wb_top F). unfold is_word, is_nan, inf_bits in *. split; [nia|].
  unfold fabs_bits. rewrite Z.mod_small by nia. lia.
Defined.
