(* ===== verification/FpBits.v ===== *)
(** * Functions on the bits of floating-point numbers

    Models the functions of [lib/guest_bw/math] that take numbers apart by
    their bits: classification, signs, minimum and maximum, [trunc], [floorf],
    [ceilf], [modf], [frexp], [ilogb], [logb] and [nextafter]. Where the files
    for [double] and [float] have the same text up to the widths, they are one
    definition for any format. *)

From S2P Require Import Prelude Fp.
#[local] Open Scope Z_scope.

Section ops.
Context (F : fmt) (E : fpenv F).
Implicit Types (x y : Z).

(** [-1ULL], and the conversion to the unsigned type of the width. *)
Definition ones : Z := 2 ^ wb F - 1.
Definition uw (z : Z) : Z := wrap (wb F) z.

(** [u.i>>52 & 0x7ff], [u.i>>63], [1ULL<<63] and [-1ULL/2] *)
Definition expo x : Z := Z.land (Z.shiftr x (mb F)) (emask F).
Definition sbit x : Z := Z.shiftr x (wb F - 1).
Definition smask : Z := Z.shiftl 1 (wb F - 1).
Definition amask : Z := ones / 2.

(** *** [math.h] *)

Definition isnan x : bool := Z.shiftl (emask F) (mb F) <? Z.land x (Z.shiftr ones 1).
Definition isfinite x : bool := Z.land x (Z.shiftr ones 1) <? Z.shiftl (emask F) (mb F).
Definition signbit x : Z := sbit x.

Inductive fpclass := FP_NAN | FP_INFINITE | FP_ZERO | FP_SUBNORMAL | FP_NORMAL.

Definition gfpclassify x : fpclass :=
  let e := expo x in
  if e =? 0 then if negb (uw (Z.shiftl x 1) =? 0) then FP_SUBNORMAL else FP_ZERO else
  if e =? emask F then if negb (uw (Z.shiftl x (eb F + 1)) =? 0) then FP_NAN else FP_INFINITE else
  FP_NORMAL.

Definition gsignbit x : Z := sbit x.
Definition gfinite x : bool := isfinite x.

Definition gfabs x : Z := Z.land x amask.
Definition gcopysign x y : Z := Z.lor (Z.land x amask) (Z.land y smask).

Definition gfmin x y : Z :=
  if isnan x then y else if isnan y then x else
  if negb (signbit x =? signbit y) then if negb (signbit x =? 0) then x else y else
  if flt (F := F) x y then x else y.

Definition gfmax x y : Z :=
  if isnan x then y else if isnan y then x else
  if negb (signbit x =? signbit y) then if negb (signbit x =? 0) then y else x else
  if flt (F := F) x y then y else x.

Definition gfdim x y : Z :=
  if isnan x then x else if isnan y then y else
  if flt (F := F) y x then fsub E x y else 0.

(** *** Integral parts *)

Definition gtrunc x : Z :=
  let e := expo x - bias F + (eb F + 1) in
  if mb F + (eb F + 1) <=? e then x else
  let e := if e <? eb F + 1 then 1 else e in
  let m := Z.shiftr ones e in
  if Z.land x m =? 0 then x else Z.land x (uw (Z.lnot m)).

(** The integral part, which goes to [*iptr], and the fractional part. *)
Definition gmodf x : Z * Z :=
  let e := expo x - bias F in
  if mb F <=? e then
    if (e =? bias F + 1) && negb (uw (Z.shiftl x (eb F + 1)) =? 0) then (x, x)
    else (x, Z.land x smask)
  else if e <? 0 then (Z.land x smask, x) else
  let mask := Z.shiftr (Z.shiftr ones (eb F + 1)) e in
  if Z.land x mask =? 0 then (x, Z.land x smask)
  else let u := Z.land x (uw (Z.lnot mask)) in (u, fsub E x u).

(** *** Exponents *)

(** [for (e = -0x3ff; i>>63 == 0; e--, i<<=1);] *)
Fixpoint count_up (fuel : nat) (i e : Z) : result Z :=
  match fuel with
  | O => Fault "fuel"%string
  | S fuel => if sbit i =? 0 then count_up fuel (uw (Z.shiftl i 1)) (e - 1) else Ok e
  end.

Definition INT_MAX : Z := 2 ^ 31 - 1.
Definition FP_ILOGBNAN : Z := -1 - INT_MAX.
Definition FP_ILOGB0 : Z := FP_ILOGBNAN.

Definition gilogb x : result Z :=
  let i := x in
  let e := expo i in
  if e =? 0 then
    let i := uw (Z.shiftl i (eb F + 1)) in
    if i =? 0 then Ok FP_ILOGB0 else count_up (Z.to_nat (wb F)) i (- bias F)
  else if e =? emask F then
    if negb (uw (Z.shiftl i (eb F + 1)) =? 0) then Ok FP_ILOGBNAN else Ok INT_MAX
  else Ok (e - bias F).

(** The result and [*e], which is not written for a NaN or an infinity. For
    [float] the product is one of [double]s, converted; both are exact. *)
Definition pow64 : Z := Z.shiftl (bias F + 64) (mb F).

Fixpoint gfrexp (fuel : nat) x (e : Z) : result (Z * Z) :=
  match fuel with
  | O => Fault "fuel"%string
  | S fuel =>
      let ee := expo x in
      if ee =? 0 then
        if negb (feq (F := F) x 0) then
          '(x, e) ← gfrexp fuel (fmul E x pow64) e; Ok (x, e - 64)
        else Ok (x, 0)
      else if ee =? emask F then Ok (x, e)
      else Ok (Z.lor (Z.land x (smask + (2 ^ mb F - 1))) (Z.shiftl (bias F - 1) (mb F)),
               ee - (bias F - 1))
  end.

(** *** Neighbours *)

Definition gnextafter x y : Z :=
  if isnan x || isnan y then fadd E x y else
  if x =? y then y else
  let ax := Z.land x amask in
  let ay := Z.land y amask in
  if ax =? 0 then if ay =? 0 then y else Z.lor (Z.land y smask) 1 else
  if (ay <? ax) || negb (Z.land (Z.lxor x y) smask =? 0) then uw (x - 1) else uw (x + 1).

End ops.

(** *** [float] only *)

Section float_ops.
Abbreviation F := single.
Implicit Types (x : Z).

Definition minus_one : Z := Z.lor (Z.shiftl 1 31) (Z.shiftl 127 23).
Definition plus_one : Z := Z.shiftl 127 23.

Definition floorf x : Z :=
  let e := expo F x - 0x7f in
  if 23 <=? e then x else
  if 0 <=? e then
    let m := Z.shiftr 0x007fffff e in
    if Z.land x m =? 0 then x else
    let u := if negb (sbit F x =? 0) then u32 (x + m) else x in
    Z.land u (u32 (Z.lnot m))
  else
    if sbit F x =? 0 then 0 else
    if negb (u32 (Z.shiftl x 1) =? 0) then minus_one else x.

Definition ceilf x : Z :=
  let e := expo F x - 0x7f in
  if 23 <=? e then x else
  if 0 <=? e then
    let m := Z.shiftr 0x007fffff e in
    if Z.land x m =? 0 then x else
    let u := if sbit F x =? 0 then u32 (x + m) else x in
    Z.land u (u32 (Z.lnot m))
  else
    if negb (sbit F x =? 0) then Z.shiftl 1 31 else
    if negb (u32 (Z.shiftl x 1) =? 0) then plus_one else x.

End float_ops.

(** ** Fields *)

(** Both widths. *)
Ltac fmt_fact H := let N := fresh "fmt" in pose proof H as N.
Ltac fmt_facts F :=
  fmt_fact (mb_min (F := F)); fmt_fact (eb_min (F := F)); fmt_fact (B_pos F);
  fmt_fact (emask_min F); fmt_fact (bias_emask F); fmt_fact (bias_min F).

Lemma land_pow2 x k : 0 <= k -> 0 <= x < 2 ^ (k + 1) -> Z.land x (2 ^ k) = if 2 ^ k <=? x then 2 ^ k else 0.
Proof.
  intros Hk Hx. rewrite pow2_succ in Hx by done.
  assert (Z.testbit x k = (2 ^ k <=? x)) as Hb.
  { rewrite Z.testbit_odd, Z.shiftr_div_pow2 by done. destruct (Z.leb_spec (2 ^ k) x).
    - by rewrite <- (Z.div_unique x (2 ^ k) 1 (x - 2 ^ k)) by lia.
    - by rewrite Z.div_small by lia. }
  apply Z.bits_inj'. intros n Hn. rewrite Z.land_spec, Z.pow2_bits_eqb by done.
  destruct (Z.eqb_spec k n) as [<-|Hne].
  - rewrite andb_true_r, Hb. case_match; [by rewrite Z.pow2_bits_true|by rewrite Z.bits_0].
  - rewrite andb_false_r. case_match; [by rewrite Z.pow2_bits_false|by rewrite Z.bits_0].
Qed.

Section fields.
Context (F : fmt) `{!FmtOk F}.
Implicit Types (x : Z).

Lemma ones_spec : ones F = Z.ones (wb F).
Proof. unfold ones. rewrite Z.ones_equiv. lia. Qed.

Lemma shiftr_ones k : 0 <= k <= wb F -> Z.shiftr (ones F) k = Z.ones (wb F - k).
Proof.
  intros Hk. rewrite ones_spec. apply Z.bits_inj'. intros n Hn. rewrite Z.shiftr_spec by done.
  rewrite !Z.testbit_ones by lia. lia.
Qed.

Lemma amask_spec : amask F = Z.ones (wb F - 1).
Proof.
  fmt_facts F. unfold amask. rewrite <- (Z.shiftr_div_pow2 _ 1) by done.
  apply shiftr_ones. unfold wb. lia.
Qed.

Lemma expo_spec x : expo F x = fexp F x.
Proof.
  fmt_facts F. unfold expo, fexp, fabs_bits, emask.
  replace (2 ^ eb F - 1) with (Z.ones (eb F)) by (rewrite Z.ones_equiv; lia).
  rewrite Z.land_ones, Z.shiftr_div_pow2 by lia. unfold wb.
  replace (1 + eb F + mb F - 1) with (mb F + eb F) by lia. rewrite pow2_split by lia.
  rewrite Z.rem_mul_r by lia. rewrite Z.mul_comm, Z.div_add by lia.
  rewrite (Z.div_small (x mod _)) by (apply Z.mod_pos_bound; lia). done.
Qed.

Lemma sbit_spec x : is_word F x -> sbit F x = if fsign F x then 1 else 0.
Proof.
  intros Hx. fmt_facts F. unfold is_word in Hx. rewrite wb_top in Hx by done. unfold sbit, fsign.
  rewrite Z.shiftr_div_pow2 by (unfold wb; lia). destruct (Z.leb_spec (2 ^ (wb F - 1)) x).
  - symmetry. apply (Z.div_unique _ _ _ (x - 2 ^ (wb F - 1))); lia.
  - apply Z.div_small. lia.
Qed.

Lemma land_amask x : Z.land x (amask F) = fabs_bits F x.
Proof. fmt_facts F. rewrite amask_spec, Z.land_ones; [done|unfold wb; lia]. Qed.

Lemma land_smask x : is_word F x -> Z.land x (smask F) = pack F (fsign F x) 0.
Proof.
  intros Hx. fmt_facts F. unfold smask, is_word in *. rewrite Z.shiftl_mul_pow2, Z.mul_1_l by (unfold wb; lia).
  rewrite land_pow2; [|unfold wb; lia|by replace (wb F - 1 + 1) with (wb F) by lia].
  unfold pack, fsign. case_match; lia.
Qed.

Lemma shl_1 x : is_word F x -> uw F (Z.shiftl x 1) = 2 * fabs_bits F x.
Proof.
  intros Hx. fmt_facts F. unfold uw, wrap, fabs_bits. rewrite Z.shiftl_mul_pow2, wb_top by done.
  rewrite (Z.mul_comm x), Z.mul_mod_distr_l; try lia. pose proof (pow2_pos (wb F - 1)). unfold wb in *. lia.
Qed.

Lemma shl_frac x : uw F (Z.shiftl x (eb F + 1)) = ffrac F x * 2 ^ (eb F + 1).
Proof.
  fmt_facts F. unfold uw, wrap, ffrac, wb. rewrite Z.shiftl_mul_pow2 by lia.
  replace (1 + eb F + mb F) with (mb F + (eb F + 1)) by lia.
  rewrite (pow2_split (mb F) (eb F + 1)) by lia. pose proof (pow2_pos (eb F + 1)). apply Z.mul_mod_distr_r; lia.
Qed.

(** Clearing the low bits. *)
Lemma land_clear x k :
  is_word F x -> 0 <= k -> Z.land x (uw F (Z.lnot (Z.ones k))) = x - x mod 2 ^ k.
Proof.
  intros Hx Hk. fmt_facts F. assert (0 <= wb F) as Hw by (unfold wb; lia).
  transitivity (Z.ldiff x (Z.ones k)).
  - apply Z.bits_inj'. intros i Hi. rewrite Z.land_spec, Z.ldiff_spec. unfold uw, wrap.
    destruct (decide (i < wb F)).
    + by rewrite Z.mod_pow2_bits_low, Z.lnot_spec by lia.
    + rewrite Z.mod_pow2_bits_high by lia. unfold is_word in Hx.
      rewrite <- (Z.mod_small x (2 ^ wb F)), Z.mod_pow2_bits_high by lia. done.
  - rewrite Z.ldiff_ones_r, Z.shiftl_mul_pow2, Z.shiftr_div_pow2 by done.
    pose proof (pow2_pos k Hk). pose proof (Z.div_mod x (2 ^ k)). lia.
Qed.

Lemma shiftl_inf : Z.shiftl (emask F) (mb F) = inf_bits F.
Proof. fmt_facts F. unfold inf_bits. by rewrite Z.shiftl_mul_pow2 by lia. Qed.

Lemma half_ones : Z.shiftr (ones F) 1 = amask F.
Proof. unfold amask. by rewrite Z.shiftr_div_pow2. Qed.

Lemma isnan_spec x : isnan F x = is_nan F x.
Proof. unfold isnan, is_nan. by rewrite shiftl_inf, half_ones, land_amask. Qed.

Lemma isfinite_spec x : isfinite F x = is_finite F x.
Proof. unfold isfinite, is_finite. by rewrite shiftl_inf, half_ones, land_amask. Qed.

(** The fields determine the rest of the word. *)
Lemma abs_fields x : fabs_bits F x = fexp F x * 2 ^ mb F + ffrac F x.
Proof.
  fmt_facts F. unfold fexp, ffrac. assert (x mod 2 ^ mb F = fabs_bits F x mod 2 ^ mb F) as ->.
  { unfold fabs_bits. rewrite (wb_split F). by rewrite Z.mod_mod_divide by (by exists (emask F + 1)). }
  pose proof (Z.div_mod (fabs_bits F x) (2 ^ mb F)). lia.
Qed.

Lemma ffrac_range x : 0 <= ffrac F x < 2 ^ mb F.
Proof. fmt_facts F. apply Z.mod_pos_bound. lia. Qed.

Lemma exp_finite x : is_finite F x = true <-> fexp F x < emask F.
Proof.
  rewrite is_finite_spec, abs_fields. pose proof (ffrac_range x). unfold inf_bits. fmt_facts F. nia.
Qed.

(** A normal number. *)
Lemma mag_normal x : 0 < fexp F x -> mag F (fabs_bits F x) = (2 ^ mb F + ffrac F x) * 2 ^ (fexp F x - 1).
Proof.
  intros He. fmt_facts F. pose proof (ffrac_range x). unfold mag. rewrite abs_fields.
  rewrite Z.add_comm, Z.div_add, Z.mod_add, Z.div_small, Z.mod_small, Z.add_0_l by lia.
  destruct (Z.eqb_spec (fexp F x) 0); [lia|]. lia.
Qed.

Lemma mag_subnormal x : fexp F x = 0 -> mag F (fabs_bits F x) = ffrac F x.
Proof.
  intros He. fmt_facts F. pose proof (ffrac_range x). unfold mag. rewrite abs_fields, He.
  rewrite Z.mul_0_l, Z.add_0_l, Z.div_small, Z.mod_small by lia. done.
Qed.

(** The loops that look for the first bit. *)
Lemma count_up_spec fuel i e :
  0 < i < 2 ^ wb F -> wb F <= Z.log2 i + Z.of_nat fuel ->
  count_up F fuel i e = Ok (e - (wb F - 1 - Z.log2 i)).
Proof.
  fmt_facts F. revert i e. induction fuel as [|fuel IH]; intros i e Hi Hf.
  { pose proof (Z.log2_lt_pow2 i (wb F)). lia. }
  simpl. rewrite (sbit_spec i) by (unfold is_word; lia). unfold fsign.
  pose proof (Z.log2_lt_pow2 i (wb F) ltac:(lia)). pose proof (wb_top F).
  destruct (Z.leb_spec (2 ^ (wb F - 1)) i) as [Hle|Hlt]; simpl.
  - apply Z.log2_le_pow2 in Hle; [|lia]. f_equal. lia.
  - assert (uw F (Z.shiftl i 1) = 2 * i) as ->.
    { unfold uw, wrap. rewrite Z.shiftl_mul_pow2, Z.mod_small by lia. lia. }
    rewrite IH; rewrite ?Z.log2_double by lia; [f_equal| |]; lia.
Qed.

(** *** Integral parts *)

Abbreviation n_of x := (mag F (fabs_bits F x)).

Lemma mag_linear a d : 0 <= a -> 0 <= d -> a + d <= (scale F a + 2) * 2 ^ mb F ->
  mag F (a + d) = mag F a + d * 2 ^ scale F a.
Proof.
  intros Ha Hd Hle. fmt_facts F. pose proof (scale_range F a Ha) as (He & Hr & Hn).
  set (e := scale F a) in *. rewrite (mag_scale F a), (mag_scale F (a + d)) by lia. fold e.
  destruct (decide (a + d < e * 2 ^ mb F + 2 * 2 ^ mb F)) as [Hlt|Hge].
  - rewrite (scale_unique F (a + d) e) by lia. ring.
  - rewrite (scale_unique F (a + d) (e + 1)) by lia. rewrite pow2_succ by done.
    replace (a + d) with ((e + 2) * 2 ^ mb F) by lia.
    replace d with ((e + 2) * 2 ^ mb F - a) by lia. ring.
Qed.

(** Numbers below a power of two. *)
Lemma below_exp x e : 1 <= e -> fexp F x < e <-> n_of x < 2 ^ mb F * 2 ^ (e - 1).
Proof.
  intros He. fmt_facts F. rewrite <- (mag_pow2 F) by done. pose proof (fabs_bits_range F x) as [Ha _].
  pose proof (ffrac_range x). split; intros H'.
  - apply mag_lt; [done..|]. rewrite abs_fields. nia.
  - destruct (Z.lt_ge_cases (fexp F x) e) as [|Hge]; [done|].
    enough (mag F (e * 2 ^ mb F) <= n_of x) by lia. apply mag_le; [done|nia|].
    rewrite abs_fields. nia.
Qed.

Lemma unit_split : unit_val F = 2 ^ mb F * 2 ^ (bias F - 1).
Proof. fmt_facts F. unfold unit_val. rewrite <- pow2_split by lia. f_equal. lia. Qed.

Lemma below_one x : fexp F x < bias F <-> n_of x < unit_val F.
Proof. fmt_facts F. rewrite unit_split. apply below_exp. lia. Qed.

(** Numbers without a fractional part. *)
Lemma large_integral x : bias F + mb F <= fexp F x -> exists q, n_of x = q * unit_val F.
Proof.
  intros He. fmt_facts F. rewrite mag_normal by lia. unfold unit_val.
  exists ((2 ^ mb F + ffrac F x) * 2 ^ (fexp F x - (bias F + mb F))).
  rewrite <- Z.mul_assoc, <- pow2_split by lia. do 2 f_equal. lia.
Qed.

(** In between, the low [k] bits are the fractional part. *)
Lemma low_bits x k :
  k = bias F + mb F - fexp F x -> 1 <= k <= mb F ->
  let a := fabs_bits F x in
  mag F (a - a mod 2 ^ k) = n_of x / unit_val F * unit_val F /\
  mag F (a - a mod 2 ^ k + 2 ^ k) = (n_of x / unit_val F + 1) * unit_val F /\
  (a mod 2 ^ k = 0 <-> n_of x mod unit_val F = 0) /\ 0 <= a - a mod 2 ^ k /\
  a - a mod 2 ^ k + 2 ^ k <= (fexp F x + 1) * 2 ^ mb F.
Proof.
  intros Hk Hkr a. fmt_facts F. pose proof (ffrac_range x) as Hf. set (f := ffrac F x) in *.
  set (e := fexp F x) in *. assert (a = e * 2 ^ mb F + f) as Ha by apply abs_fields.
  destruct (pow2_le k (mb F)) as (c & Hc & HB); [lia|]. pose proof (pow2_pos k ltac:(lia)) as HP.
  assert (unit_val F = 2 ^ k * 2 ^ (e - 1)) as Hu.
  { unfold unit_val. rewrite <- pow2_split by lia. f_equal. lia. }
  assert (n_of x = (2 ^ mb F + f) * 2 ^ (e - 1)) as Hn by (apply mag_normal; lia).
  pose proof (pow2_pos (e - 1) ltac:(lia)) as HQ. set (P := 2 ^ k) in *. set (Q := 2 ^ (e - 1)) in *.
  assert (a mod P = f mod P) as Hmod.
  { rewrite Ha, HB. replace (e * (c * P) + f) with (f + e * c * P) by ring. apply Z.mod_add. lia. }
  pose proof (Z.mod_pos_bound f P ltac:(lia)) as Hr. pose proof (Z.div_mod f P ltac:(lia)) as Hd.
  pose proof (Z.mod_le f P ltac:(lia) ltac:(lia)) as Hle.
  assert (n_of x / unit_val F = c + f / P) as Hq.
  { rewrite Hn, Hu, Z.div_mul_cancel_r by lia. rewrite HB, Z.add_comm, Z.div_add by lia. lia. }
  assert (n_of x mod unit_val F = f mod P * Q) as Hm.
  { rewrite Hn, Hu, Z.mul_mod_distr_r by lia. rewrite HB, Z.add_comm, Z.mod_add by lia. done. }
  assert (scale F (a - a mod P) = e - 1) as Hs by (apply scale_unique; [done|lia|lia|lia]).
  assert (f - f mod P + P <= 2 ^ mb F) as Hup by (assert (f / P < c) by nia; nia).
  assert (0 <= a - a mod P) as H0 by (rewrite Hmod, Ha; nia).
  assert (mag F (a - a mod P) = (c + f / P) * (P * Q)) as Hlo.
  { rewrite mag_scale, Hs by done. fold Q. rewrite Hmod, Ha. replace (f - f mod P) with (f / P * P) by lia. nia. }
  rewrite Hq, Hm, Hu. split_and!; [done| | |done|nia].
  - rewrite mag_linear, Hlo, Hs by (try done; rewrite ?Hs; nia). fold Q. ring.
  - rewrite Hmod. nia.
Qed.

(** Clearing low bits leaves the sign. *)
Lemma clear_pack x k : is_word F x -> 0 <= k <= mb F ->
  x - x mod 2 ^ k = pack F (fsign F x) (fabs_bits F x - fabs_bits F x mod 2 ^ k).
Proof.
  intros Hx Hk. fmt_facts F. destruct (pow2_le k (mb F)) as (c & _ & Hc); [lia|].
  assert (fabs_bits F x mod 2 ^ k = x mod 2 ^ k) as ->.
  { unfold fabs_bits. rewrite (wb_split F), Hc, Z.mul_assoc.
    rewrite Z.mod_mod_divide; [done|]. by exists ((emask F + 1) * c). }
  rewrite <- (pack_word F x Hx) at 1. unfold pack. lia.
Qed.

(** A number without its sign. *)
Lemma abs_word y : is_word F y ->
  (if negb (sbit F y =? 0) then fneg (F := F) y else y) = pack F false (fabs_bits F y).
Proof.
  intros Hy. rewrite (sbit_spec y Hy). pose proof (pack_word F y Hy) as Hp.
  destruct (fsign F y) eqn:Hs; simpl; [by unfold fneg; rewrite Hs|]. by rewrite <- Hp at 1.
Qed.

End fields.

(** ** [trunc], [floorf] and [ceilf] *)

(** Division rounding up. *)
Definition cdiv (n d : Z) : Z := - ((- n) / d).

Lemma cdiv_exact q d : 0 < d -> cdiv (q * d) d = q.
Proof. intros Hd. unfold cdiv. rewrite <- Z.mul_opp_l, Z.div_mul; lia. Qed.

Lemma cdiv_up n d : 0 < d -> n mod d <> 0 -> cdiv n d = n / d + 1.
Proof.
  intros Hd Hm. unfold cdiv. pose proof (Z.mod_pos_bound n d Hd). pose proof (Z.div_mod n d ltac:(lia)).
  rewrite <- (Z.div_unique (- n) d (- (n / d) - 1) (d - n mod d)); lia.
Qed.

(** The integral part of a magnitude: rounded away from zero if [away], and
    towards it otherwise. *)
Definition int_part (F : fmt) (away : bool) (n : Z) : Z :=
  (if away then cdiv n (unit_val F) else n / unit_val F) * unit_val F.

Lemma int_part_exact F `{!FmtOk F} away n : n mod unit_val F = 0 -> int_part F away n = n.
Proof.
  intros Hn. pose proof (unit_pos F). pose proof (Z.div_mod n (unit_val F) ltac:(lia)) as Hd.
  unfold int_part. destruct away; [|lia]. replace n with (n / unit_val F * unit_val F) at 1 by lia.
  rewrite cdiv_exact by lia. lia.
Qed.

Lemma int_part_small F `{!FmtOk F} away n : 0 < n < unit_val F -> int_part F away n = if away then unit_val F else 0.
Proof.
  intros Hn. unfold int_part. destruct away; [|by rewrite Z.div_small by lia].
  rewrite cdiv_up, Z.div_small by (rewrite ?Z.mod_small; lia). lia.
Qed.

Section trunc.
Context (F : fmt) `{!FmtOk F}.

(** Rounding towards zero, in place of the fraction. *)
Theorem trunc_spec x :
  is_word F x ->
  gtrunc F x =
  if is_finite F x
  then pack F (fsign F x) (enc F (int_part F false (mag F (fabs_bits F x)))) else x.
Proof.
  intros Hx. fmt_facts F. unfold gtrunc, int_part. rewrite expo_spec by done.
  pose proof (unit_pos F) as Hu. pose proof (fexp_range F x) as He.
  destruct (Z.leb_spec (mb F + (eb F + 1)) (fexp F x - bias F + (eb F + 1))) as [Hbig|Hsmall].
  { destruct (is_finite F x); [|done]. destruct (large_integral F x) as [q Hq]; [lia|].
    rewrite Hq, Z.div_mul, <- Hq by lia. by rewrite word_of. }
  assert (is_finite F x = true) as -> by (apply exp_finite; [done|lia]).
  destruct (Z.ltb_spec (fexp F x - bias F + (eb F + 1)) (eb F + 1)) as [Hlt|Hge].
  - assert (mag F (fabs_bits F x) < unit_val F) as Hn by (apply below_one; [done|lia]).
    pose proof (fabs_bits_range F x) as Ha. pose proof (mag_nonneg F _ (proj1 Ha)).
    rewrite (Z.div_small (mag _ _)), Z.mul_0_l, (enc_0 F) by lia.
    rewrite half_ones, land_amask by done. destruct (Z.eqb_spec (fabs_bits F x) 0) as [H0|H0].
    + rewrite <- (pack_word F x Hx), H0 at 1. done.
    + rewrite amask_spec, land_clear by (try done; unfold wb; lia). fold (fabs_bits F x).
      pose proof (pack_word F x Hx). unfold pack in *. lia.
  - set (k := bias F + mb F - fexp F x). rewrite shiftr_ones by (unfold wb; lia).
    replace (wb F - (fexp F x - bias F + (eb F + 1))) with k by (unfold wb, k; lia).
    rewrite Z.land_ones, (land_clear F), (clear_pack F) by (try done; lia).
    destruct (low_bits F x k) as (Hlo & _ & Hz & H0 & _); [done|lia|].
    rewrite <- Hlo, enc_mag by done. destruct (Z.eqb_spec (x mod 2 ^ k) 0) as [Hx0|]; [|done].
    rewrite <- (clear_pack F) by (done || lia). lia.
Qed.

End trunc.

Lemma add_clear x k : 0 <= k -> x mod 2 ^ k <> 0 ->
  (x + Z.ones k) - (x + Z.ones k) mod 2 ^ k = x - x mod 2 ^ k + 2 ^ k.
Proof.
  intros Hk Hx. pose proof (pow2_pos k Hk). rewrite Z.ones_equiv.
  pose proof (Z.mod_pos_bound x (2 ^ k) ltac:(lia)). pose proof (Z.div_mod x (2 ^ k) ltac:(lia)).
  rewrite <- (Z.mod_unique (x + Z.pred (2 ^ k)) (2 ^ k) (x / 2 ^ k + 1) (x mod 2 ^ k - 1)); lia.
Qed.

Section floorf.
Abbreviation F := single.
Implicit Types (x : Z).

Lemma clear_bits x away k :
  is_word F x -> k = 150 - fexp F x -> 1 <= k <= 23 -> x mod 2 ^ k <> 0 ->
  Z.land (if away : bool then u32 (x + Z.ones k) else x) (u32 (Z.lnot (Z.ones k))) =
  pack F (fsign F x) (enc F (int_part F away (mag F (fabs_bits F x)))).
Proof.
  intros Hx Hk Hkr Hm. destruct (low_bits F x k) as (Hlo & Hhi & Hz & H0 & Hb); [done|done|].
  pose proof (clear_pack F x k Hx ltac:(change (mb F) with 23; lia)) as Hcl.
  pose proof (unit_pos F) as Hu. pose proof (pow2_pos k ltac:(lia)).
  assert (fabs_bits F x mod 2 ^ k = x mod 2 ^ k) as Hax.
  { pose proof (pack_word F x Hx) as Hp. unfold pack in Hcl, Hp. lia. }
  assert (x - x mod 2 ^ k = pack F (fsign F x) (fabs_bits F x - fabs_bits F x mod 2 ^ k)) as Hp by done.
  destruct away; unfold int_part.
  - rewrite cdiv_up, <- Hhi, enc_mag by (try done; try lia; rewrite <- Hz, Hax; done).
    pose proof (add_clear x k ltac:(lia) Hm) as Had.
    assert (is_word F (x + Z.ones k)) as Hw.
    { unfold is_word in *. pose proof (Z.mod_pos_bound x (2 ^ k) ltac:(lia)).
      pose proof (Z.mod_pos_bound (x + Z.ones k) (2 ^ k) ltac:(lia)).
      rewrite (wb_top F), (wb_split F) in *. rewrite Z.ones_equiv in *. unfold pack in Hp. rewrite (wb_split F) in Hp.
      assert (2 ^ k <= 2 ^ mb F) by (apply Z.pow_le_mono_r; [lia|change (mb F) with 23; lia]).
      assert ((fexp F x + 1) * 2 ^ mb F <= 150 * 2 ^ mb F) by (apply Z.mul_le_mono_nonneg_r; [done|lia]).
      change (emask F) with 255 in *. destruct (fsign F x); lia. }
    change u32 with (uw F). unfold uw at 1, wrap. rewrite Z.mod_small by done.
    rewrite land_clear, Had, Hp by (done || lia). unfold pack. lia.
  - change u32 with (uw F). rewrite land_clear, Hp by (done || lia). rewrite <- Hlo, enc_mag by done. done.
Qed.

Lemma large_part x away : is_word F x -> 150 <= fexp F x ->
  pack F (fsign F x) (enc F (int_part F away (mag F (fabs_bits F x)))) = x.
Proof.
  intros Hx He. destruct (large_integral F x) as [q Hq]; [done|]. pose proof (unit_pos F).
  rewrite (int_part_exact F); [by apply word_of|]. rewrite Hq. apply Z.mod_mul. lia.
Qed.

(** The middle branch of [floorf] and [ceilf]. *)
Lemma middle_part x away :
  is_word F x -> 0 <= fexp F x - 127 < 23 ->
  (let m := Z.shiftr 0x007fffff (fexp F x - 127) in
   if Z.land x m =? 0 then x
   else Z.land (if away : bool then u32 (x + m) else x) (u32 (Z.lnot m))) =
  pack F (fsign F x) (enc F (int_part F away (mag F (fabs_bits F x)))).
Proof.
  intros Hx He. set (k := 150 - fexp F x).
  assert (Z.shiftr 0x007fffff (fexp F x - 127) = Z.ones k) as ->.
  { change 0x007fffff with (Z.ones 23). apply Z.bits_inj'. intros n Hn.
    rewrite Z.shiftr_spec, !Z.testbit_ones by lia. lia. }
  cbv zeta. rewrite Z.land_ones by lia. destruct (Z.eqb_spec (x mod 2 ^ k) 0) as [Hx0|Hx0].
  - destruct (low_bits F x k) as (_ & _ & Hz & _ & _); [done|change (mb F) with 23; lia|].
    pose proof (clear_pack F x k Hx ltac:(change (mb F) with 23; lia)) as Hcl.
    pose proof (pack_word F x Hx) as Hp. rewrite (int_part_exact F); [by rewrite word_of|].
    apply Hz. unfold pack in *. lia.
  - apply clear_bits; (done || lia).
Qed.

(** Below one only the sign counts. *)
Lemma small_part x away :
  is_word F x -> fexp F x < 127 ->
  pack F (fsign F x) (enc F (int_part F away (mag F (fabs_bits F x)))) =
  if fabs_bits F x =? 0 then x else pack F (fsign F x) (if away then 0x3f800000 else 0).
Proof.
  intros Hx He. apply (below_one F) in He. pose proof (fabs_bits_range F x) as [H0 _].
  destruct (Z.eqb_spec (fabs_bits F x) 0) as [Hz|Hz].
  - rewrite (int_part_exact F); [by apply word_of|]. by rewrite Hz.
  - rewrite (int_part_small F); [by destruct away|]. pose proof (mag_nonneg F _ H0).
    pose proof (mag_zero_iff F _ H0). lia.
Qed.

(** [floorf] rounds negative numbers away from zero and positive ones towards
    it, for every word. *)
Theorem floorf_spec x :
  is_word F x ->
  floorf x =
  if is_finite F x
  then pack F (fsign F x) (enc F (int_part F (fsign F x) (mag F (fabs_bits F x)))) else x.
Proof.
  intros Hx. unfold floorf. rewrite expo_spec, (sbit_spec F x Hx) by done. cbv zeta.
  destruct (Z.leb_spec 23 (fexp F x - 0x7f)) as [H23|H23].
  { rewrite large_part by (done || lia). by case_match. }
  assert (is_finite F x = true) as -> by (apply exp_finite; [done|]; change (emask F) with 255; lia).
  destruct (Z.leb_spec 0 (fexp F x - 0x7f)) as [H0|H0].
  - rewrite <- middle_part by (done || lia). cbv zeta. by destruct (fsign F x).
  - rewrite small_part by (done || lia). change u32 with (uw F). rewrite (shl_1 F x Hx).
    pose proof (pack_word F x Hx) as Hp. destruct (fsign F x); simpl.
    + destruct (Z.eqb_spec (fabs_bits F x) 0) as [->|]; [done|].
      by destruct (Z.eqb_spec (2 * fabs_bits F x) 0); [lia|].
    + destruct (Z.eqb_spec (fabs_bits F x) 0) as [Hz|]; [|done]. by rewrite <- Hp, Hz.
Qed.

(** [ceilf] rounds positive numbers away from zero and negative ones towards
    it, for every word. *)
Theorem ceilf_spec x :
  is_word F x ->
  ceilf x =
  if is_finite F x
  then pack F (fsign F x) (enc F (int_part F (negb (fsign F x)) (mag F (fabs_bits F x)))) else x.
Proof.
  intros Hx. unfold ceilf. rewrite expo_spec, (sbit_spec F x Hx) by done. cbv zeta.
  destruct (Z.leb_spec 23 (fexp F x - 0x7f)) as [H23|H23].
  { rewrite large_part by (done || lia). by case_match. }
  assert (is_finite F x = true) as -> by (apply exp_finite; [done|]; change (emask F) with 255; lia).
  destruct (Z.leb_spec 0 (fexp F x - 0x7f)) as [H0|H0].
  - rewrite <- middle_part by (done || lia). cbv zeta. by destruct (fsign F x).
  - rewrite small_part by (done || lia). change u32 with (uw F). rewrite (shl_1 F x Hx).
    pose proof (pack_word F x Hx) as Hp. destruct (fsign F x); simpl.
    + destruct (Z.eqb_spec (fabs_bits F x) 0) as [Hz|]; [|done]. by rewrite <- Hp, Hz.
    + destruct (Z.eqb_spec (fabs_bits F x) 0) as [->|]; [done|].
      by destruct (Z.eqb_spec (2 * fabs_bits F x) 0); [lia|].
Qed.

End floorf.
