(* ===== verification/FpOrder.v ===== *)
(** * Order of floating-point numbers

    What [fabs], [copysign], [fpclassify], [fmin], [fmax], [fdim] and
    [nextafter] of [lib/guest_bw/math] return. The words of a format without
    its NaNs are in the order of integers, which the theorems use: a step to the
    next number is a step to the next integer. *)

From S2P Require Import Prelude Fp FpBits.
#[local] Open Scope Z_scope.

Section order.
Context (F : fmt) `{!FmtOk F} (E : fpenv F).
Implicit Types (x y : Z).
Abbreviation B := (2 ^ mb F).
Abbreviation n_of x := (mag F (fabs_bits F x)).

(** The position of a number, with one zero and with two. *)
Definition ikey x : Z := signed (fsign F x) (fabs_bits F x).
Definition tkey x : Z := if fsign F x then - 1 - fabs_bits F x else fabs_bits F x.

(** Values are in the order of positions. *)
Lemma sval_ikey x y : sval F x < sval F y <-> ikey x < ikey y.
Proof.
  unfold sval, ikey, signed. pose proof (fabs_bits_range F x) as [Hx _].
  pose proof (fabs_bits_range F y) as [Hy _]. pose proof (mag_nonneg F _ Hx). pose proof (mag_nonneg F _ Hy).
  pose proof (mag_zero_iff F _ Hx). pose proof (mag_zero_iff F _ Hy).
  destruct (Z.lt_trichotomy (fabs_bits F x) (fabs_bits F y)) as [Hc|[Hc|Hc]].
  - pose proof (mag_lt F _ _ Hx Hc). destruct (fsign F x), (fsign F y); lia.
  - assert (n_of x = n_of y) by by rewrite Hc. destruct (fsign F x), (fsign F y); lia.
  - pose proof (mag_lt F _ _ Hy Hc). destruct (fsign F x), (fsign F y); lia.
Qed.

Lemma flt_ikey x y : is_nan F x = false -> is_nan F y = false -> flt (F := F) x y = (ikey x <? ikey y).
Proof.
  intros Hx Hy. unfold flt. rewrite Hx, Hy. simpl. pose proof (sval_ikey x y).
  destruct (Z.ltb_spec (sval F x) (sval F y)), (Z.ltb_spec (ikey x) (ikey y)); try done; lia.
Qed.

(** *** Signs and classes *)

Lemma gfabs_spec x : gfabs F x = pack F false (fabs_bits F x).
Proof. unfold gfabs. by rewrite land_amask. Qed.

Lemma gcopysign_spec x y : is_word F y -> gcopysign F x y = pack F (fsign F y) (fabs_bits F x).
Proof.
  intros Hy. fmt_facts F. unfold gcopysign. rewrite land_amask, (land_smask F y Hy) by done.
  pose proof (fabs_bits_range F x). unfold pack.
  pose proof (lor_low (wb F - 1) (fabs_bits F x) (if fsign F y then 1 else 0)) as Hl.
  destruct (fsign F y); [|apply Z.lor_0_r]. rewrite Z.mul_1_r in Hl. rewrite Z.add_0_r, Hl; [lia|unfold wb; lia|done].
Qed.

Theorem gfpclassify_spec x : is_word F x ->
  gfpclassify F x =
  if is_nan F x then FP_NAN else if negb (is_finite F x) then FP_INFINITE else
  if n_of x =? 0 then FP_ZERO else if n_of x <? B then FP_SUBNORMAL else FP_NORMAL.
Proof.
  intros Hx. fmt_facts F. pose proof (ffrac_range F x) as Hf. pose proof (fexp_range F x) as He.
  pose proof (abs_fields F x) as Ha. pose proof (pow2_pos (eb F + 1) ltac:(lia)) as HP.
  unfold gfpclassify. rewrite expo_spec, shl_1, shl_frac by done. cbv zeta.
  unfold is_nan, is_finite, inf_bits. destruct (Z.eqb_spec (fexp F x) 0) as [He0|He0].
  - rewrite (mag_subnormal F) by done. rewrite He0 in Ha.
    replace (emask F * B <? fabs_bits F x) with false by nia.
    replace (fabs_bits F x <? emask F * B) with true by nia. simpl.
    replace (ffrac F x <? B) with true by lia. replace (2 * fabs_bits F x =? 0) with (ffrac F x =? 0) by lia.
    by destruct (ffrac F x =? 0).
  - destruct (Z.eqb_spec (fexp F x) (emask F)) as [Hem|Hem].
    + rewrite Ha, Hem. replace (emask F * B + ffrac F x <? emask F * B) with false by lia.
      replace (emask F * B <? emask F * B + ffrac F x) with (negb (ffrac F x * 2 ^ (eb F + 1) =? 0)) by nia.
      by destruct (negb _).
    + replace (emask F * B <? fabs_bits F x) with false by nia.
      replace (fabs_bits F x <? emask F * B) with true by nia. simpl.
      assert (B <= n_of x) by (pose proof (below_exp F x 1 ltac:(lia)); lia).
      replace (n_of x =? 0) with false by lia. by replace (n_of x <? B) with false by lia.
Qed.

(** *** Minimum and maximum *)

Lemma sign_test x y : is_word F x -> is_word F y ->
  (signbit F x =? signbit F y) = Bool.eqb (fsign F x) (fsign F y) /\ (signbit F x =? 0) = negb (fsign F x).
Proof.
  intros Hx Hy. unfold signbit. rewrite (sbit_spec F x Hx), (sbit_spec F y Hy).
  by destruct (fsign F x), (fsign F y).
Qed.

(** The smaller and the larger number, with [-0] below [+0]; a NaN counts as
    missing. *)
Theorem gfmin_fmax_spec x y : is_word F x -> is_word F y ->
  (is_nan F x = true -> gfmin F x y = y /\ gfmax F x y = y) /\
  (is_nan F x = false -> is_nan F y = true -> gfmin F x y = x /\ gfmax F x y = x) /\
  (is_nan F x = false -> is_nan F y = false ->
   gfmin F x y = (if tkey x <? tkey y then x else y) /\ gfmax F x y = (if tkey x <? tkey y then y else x)).
Proof.
  intros Hx Hy. unfold gfmin, gfmax. rewrite !isnan_spec by done.
  destruct (sign_test x y Hx Hy) as [-> ->]. split_and!; [by intros ->|by intros -> ->|].
  intros Hnx Hny. rewrite Hnx, Hny, flt_ikey by done. unfold tkey, ikey.
  pose proof (fabs_bits_range F x). pose proof (fabs_bits_range F y).
  destruct (fsign F x), (fsign F y); simpl.
  - by replace (- fabs_bits F x <? - fabs_bits F y) with (- 1 - fabs_bits F x <? - 1 - fabs_bits F y) by lia.
  - by replace (- 1 - fabs_bits F x <? fabs_bits F y) with true by lia.
  - by replace (fabs_bits F x <? - 1 - fabs_bits F y) with false by lia.
  - done.
Qed.

(** *** Neighbours *)

Lemma ikey_pack s a : 0 <= a < 2 ^ (wb F - 1) -> ikey (pack F s a) = signed s a.
Proof. intros Ha. unfold ikey. by rewrite fsign_pack, fabs_pack. Qed.

Lemma sign_differs x y : is_word F x -> is_word F y ->
  negb (Z.land (Z.lxor x y) (smask F) =? 0) = xorb (fsign F x) (fsign F y).
Proof.
  intros Hx Hy. fmt_facts F. rewrite Z.land_comm. 
  assert (Z.land (smask F) (Z.lxor x y) = Z.lxor (pack F (fsign F x) 0) (pack F (fsign F y) 0)) as ->.
  { rewrite <- (land_smask F x Hx), <- (land_smask F y Hy). apply Z.bits_inj'. intros i Hi.
    rewrite !Z.land_spec, !Z.lxor_spec, !Z.land_spec. by destruct (Z.testbit x i), (Z.testbit y i), (Z.testbit (smask F) i). }
  pose proof (wb_split F). unfold pack. rewrite !Z.add_0_r.
  destruct (fsign F x), (fsign F y); simpl; rewrite ?Z.lxor_nilpotent, ?Z.lxor_0_r, ?Z.lxor_0_l; try done;
    destruct (Z.eqb_spec (2 ^ (wb F - 1)) 0); nia.
Qed.

Lemma lor_one y : is_word F y -> Z.lor (Z.land y (smask F)) 1 = pack F (fsign F y) 1.
Proof.
  intros Hy. fmt_facts F. rewrite (land_smask F y Hy), Z.lor_comm. pose proof (wb_split F).
  pose proof (lor_low (wb F - 1) 1 (if fsign F y then 1 else 0)) as Hl. unfold pack. rewrite Z.add_0_r.
  destruct (fsign F y); [|done]. rewrite Z.mul_1_r in Hl. rewrite Hl; [lia|unfold wb; lia|nia].
Qed.

Lemma step_word s a z : 0 <= a < 2 ^ (wb F - 1) -> z = pack F s a -> uw F z = pack F s a.
Proof. intros Ha ->. apply Z.mod_small. by apply is_word_pack. Qed.

Lemma step_ok s a k : 0 <= a <= inf_bits F -> signed s a = k ->
  is_word F (pack F s a) /\ is_nan F (pack F s a) = false /\ ikey (pack F s a) = k.
Proof.
  intros Ha <-. fmt_facts F. pose proof (inf_lt F). unfold is_nan.
  rewrite ikey_pack, fabs_pack by (done || lia). split_and!; [by apply is_word_pack; [|lia]|lia|done].
Qed.

(** One step towards [y]. *)
Theorem gnextafter_spec x y : is_word F x -> is_word F y -> is_nan F x = false -> is_nan F y = false ->
  is_word F (gnextafter F E x y) /\ is_nan F (gnextafter F E x y) = false /\
  ikey (gnextafter F E x y) = ikey x + Z.sgn (ikey y - ikey x).
Proof.
  intros Hx Hy Hnx Hny. unfold gnextafter. rewrite !isnan_spec, Hnx, Hny by done. simpl orb. cbv iota zeta.
  rewrite !land_amask, sign_differs by done. fmt_facts F.
  pose proof (fabs_bits_range F x) as Hax. pose proof (fabs_bits_range F y) as Hay. pose proof (inf_lt F) as Hinf.
  assert (fabs_bits F x <= inf_bits F /\ fabs_bits F y <= inf_bits F) as [Hix Hiy] by (unfold is_nan in *; lia).
  destruct (Z.eqb_spec x y) as [->|Hne]; [by rewrite Z.sub_diag, Z.add_0_r|].
  destruct (Z.eqb_spec (fabs_bits F x) 0) as [Hx0|Hx0].
  { destruct (Z.eqb_spec (fabs_bits F y) 0) as [Hy0|Hy0].
    - split_and!; [done..|]. unfold ikey. rewrite Hx0, Hy0. by destruct (fsign F x), (fsign F y).
    - rewrite lor_one by done. apply step_ok; [lia|]. unfold ikey. rewrite Hx0. destruct (fsign F x), (fsign F y); simpl; lia. }
  assert (fabs_bits F x = fabs_bits F y -> fsign F x <> fsign F y) as Hdiff.
  { intros Ha Hs. apply Hne. by rewrite <- (pack_word F x Hx), <- (pack_word F y Hy), Ha, Hs. }
  pose proof (pack_word F x Hx) as Hp.
  destruct ((fabs_bits F y <? fabs_bits F x) || xorb (fsign F x) (fsign F y)) eqn:Hdown.
  - assert (uw F (x - 1) = pack F (fsign F x) (fabs_bits F x - 1)) as -> by (apply step_word; [lia|unfold pack in *; lia]).
    apply step_ok; [lia|]. unfold ikey. destruct (fsign F x), (fsign F y); simpl in *; lia.
  - assert (uw F (x + 1) = pack F (fsign F x) (fabs_bits F x + 1)) as -> by
      (apply step_word; [lia|unfold pack in *; lia]).
    destruct (fsign F x) eqn:Hsx, (fsign F y) eqn:Hsy; simpl in Hdown; try lia.
    + apply step_ok; [lia|]. unfold ikey. rewrite Hsx, Hsy. simpl. lia.
    + apply step_ok; [lia|]. unfold ikey. rewrite Hsx, Hsy. simpl. lia.
Qed.

(** Between a number and the next one towards [y] there is none. *)
Definition next_ok x y r : Prop :=
  is_word F r /\ is_nan F r = false /\
  (sval F x < sval F y ->
   sval F x < sval F r <= sval F y /\ forall z, sval F x < sval F z -> sval F r <= sval F z) /\
  (sval F y < sval F x ->
   sval F y <= sval F r < sval F x /\ forall z, sval F z < sval F x -> sval F z <= sval F r) /\
  (sval F x = sval F y -> sval F r = sval F y).

Lemma gnextafter_between x y : is_word F x -> is_word F y -> is_nan F x = false -> is_nan F y = false ->
  next_ok x y (gnextafter F E x y).
Proof.
  intros Hx Hy Hnx Hny. destruct (gnextafter_spec x y Hx Hy Hnx Hny) as (Hw & Hn & Hk).
  set (r := gnextafter F E x y) in *.
  pose proof (sval_ikey x y). pose proof (sval_ikey y x). pose proof (sval_ikey x r). pose proof (sval_ikey r x).
  pose proof (sval_ikey r y). pose proof (sval_ikey y r). unfold next_ok. split_and!; [done|done|..].
  - intros Hlt. split; [lia|]. intros z Hz. pose proof (sval_ikey x z). pose proof (sval_ikey z r). lia.
  - intros Hlt. split; [lia|]. intros z Hz. pose proof (sval_ikey z x). pose proof (sval_ikey r z). lia.
  - intros He. lia.
Qed.

(** A NaN in, a NaN out. *)
Lemma gnextafter_nan x y : is_nan F x || is_nan F y = true -> is_nan F (gnextafter F E x y) = true.
Proof.
  intros Hn. unfold gnextafter. rewrite !isnan_spec, Hn by done. unfold fadd. rewrite Hn. apply nan2_nan.
Qed.

End order.

(** ** [double] and [float] *)

Definition fabs := gfabs double.
Definition fabsf := gfabs single.
Definition copysign := gcopysign double.
Definition copysignf := gcopysign single.
Definition __fpclassify := gfpclassify double.
Definition __fpclassifyf := gfpclassify single.
Definition __signbit := gsignbit double.
Definition __signbitf := gsignbit single.
Definition finite := gfinite double.
Definition finitef := gfinite single.
Definition fmin := gfmin double.
Definition fminf := gfmin single.
Definition fmax := gfmax double.
Definition fmaxf := gfmax single.
Definition fdim (E : fpenv double) := gfdim double E.
Definition fdimf (E : fpenv single) := gfdim single E.
Definition nextafter (E : fpenv double) := gnextafter double E.
Definition nextafterf (E : fpenv single) := gnextafter single E.

(** [nextafter] and [nextafterf] give the number next to [x] in the direction of
    [y]: between the two there is no number, past [y] it does not go, and the
    result is [y]'s value if the values are the same. *)
Theorem nextafter_spec (E : fpenv double) (Ef : fpenv single) x y xf yf :
  is_word double x -> is_word double y -> is_nan double x = false -> is_nan double y = false ->
  is_word single xf -> is_word single yf -> is_nan single xf = false -> is_nan single yf = false ->
  next_ok double x y (nextafter E x y) /\ next_ok single xf yf (nextafterf Ef xf yf).
Proof. intros. split; by apply gnextafter_between. Qed.

(** From the largest number below one to one, and from [+0] downwards. *)
Lemma nextafter_witness :
  next_ok double 0x3fefffffffffffff 0x4000000000000000 0x3ff0000000000000 /\
  next_ok single 0 0xff800000 0x80000001.
Proof.
  apply (nextafter_spec (some_env double RNE) (some_env single RNE) 0x3fefffffffffffff 0x4000000000000000 0 0xff800000);
    vm_compute; try split; discriminate || reflexivity.
Defined.
