(* ===== verification/Fmod.v ===== *)
(** * Remainders of floating-point numbers

    Models [fmod], [remquo] and [remainder] of [lib/guest_bw/math], for [double]
    and [float]: significands made to have their leading bit, long division by
    shifting and subtracting in words of the machine, and the result put
    together again. The remainder is exact, for every pair of numbers. *)

From S2P Require Import Prelude Fp FpBits.
#[local] Open Scope Z_scope.

Section ops.
Context (F : fmt) (E : fpenv F).
Implicit Types (x y : Z).

(** [normalize x and y]: the significand with its leading bit, and the
    exponent. *)
Definition normalize (u e : Z) : result (Z * Z) :=
  if e =? 0 then
    e ← count_up F (Z.to_nat (wb F)) (uw F (Z.shiftl u (eb F + 1))) e;
    Ok (uw F (Z.shiftl u (- e + 1)), e)
  else Ok (Z.lor (Z.land u (Z.shiftr (ones F) (eb F + 1))) (Z.shiftl 1 (mb F)), e).

(** [x mod y]; [None] where the function returns a zero at once. *)
Fixpoint fmod_loop (fuel : nat) (uxi uyi ex ey : Z) : result (option (Z * Z)) :=
  match fuel with
  | O => Fault "fuel"%string
  | S fuel =>
      if ey <? ex then
        let i := uw F (uxi - uyi) in
        if sbit F i =? 0 then
          if i =? 0 then Ok None else fmod_loop fuel (uw F (Z.shiftl i 1)) uyi (ex - 1) ey
        else fmod_loop fuel (uw F (Z.shiftl uxi 1)) uyi (ex - 1) ey
      else
        let i := uw F (uxi - uyi) in
        if sbit F i =? 0 then if i =? 0 then Ok None else Ok (Some (i, ex))
        else Ok (Some (uxi, ex))
  end.

(** [for (; uxi>>52 == 0; uxi <<= 1, ex--);] *)
Fixpoint shift_up (fuel : nat) (u e : Z) : result (Z * Z) :=
  match fuel with
  | O => Fault "fuel"%string
  | S fuel =>
      if Z.shiftr u (mb F) =? 0 then shift_up fuel (uw F (Z.shiftl u 1)) (e - 1) else Ok (u, e)
  end.

(** [scale result] *)
Definition scale_up (u e : Z) : Z :=
  if 0 <? e then Z.lor (u - Z.shiftl 1 (mb F)) (Z.shiftl e (mb F)) else Z.shiftr u (- e + 1).

(** More rounds than there are exponents. *)
Definition rounds : nat := Z.to_nat (2 ^ eb F + wb F).

Definition gfmod x y : result Z :=
  let ex := expo F x in let ey := expo F y in let sx := sbit F x in
  if (uw F (Z.shiftl y 1) =? 0) || isnan F y || (ex =? emask F) then
    Ok (fdiv E (fmul E x y) (fmul E x y))
  else if uw F (Z.shiftl x 1) <=? uw F (Z.shiftl y 1) then
    if uw F (Z.shiftl x 1) =? uw F (Z.shiftl y 1) then Ok (fmul E 0 x) else Ok x
  else
  '(uxi, ex) ← normalize x ex;
  '(uyi, ey) ← normalize y ey;
  o ← fmod_loop rounds uxi uyi ex ey;
  match o with
  | None => Ok (fmul E 0 x)
  | Some (uxi, ex) =>
      '(uxi, ex) ← shift_up (Z.to_nat (wb F)) uxi ex;
      Ok (Z.lor (scale_up uxi ex) (Z.shiftl sx (wb F - 1)))
  end.

(** The loop of [remquo] with the subtraction that follows it, which counts the
    quotient in [q]. *)
Fixpoint remquo_loop (fuel : nat) (uxi uyi ex ey q : Z) : result (Z * Z * Z) :=
  match fuel with
  | O => Fault "fuel"%string
  | S fuel =>
      let i := uw F (uxi - uyi) in
      let '(uxi, q) := if sbit F i =? 0 then (i, u32 (q + 1)) else (uxi, q) in
      if ey <? ex then
        remquo_loop fuel (uw F (Z.shiftl uxi 1)) uyi (ex - 1) ey (u32 (Z.shiftl q 1))
      else Ok (uxi, ex, q)
  end.

Definition two : Z := Z.shiftl (bias F + 1) (mb F).

(** [end:], with the numbers [x] and [y] as they were passed. *)
Definition remquo_end x y (uxi ex ey q : Z) : Z * Z :=
  let sx := sbit F x in let sy := sbit F y in
  let x := scale_up uxi ex in
  let y := if negb (sy =? 0) then fneg (F := F) y else y in
  let '(x, q) :=
    if (ex =? ey) ||
       ((ex + 1 =? ey) &&
        (flt (F := F) y (fmul E two x) || (feq (F := F) (fmul E two x) y && negb (q mod 2 =? 0))))
    then (fsub E x y, u32 (q + 1)) else (x, q) in
  let q := Z.land q 0x7fffffff in
  (if negb (sx =? 0) then fneg (F := F) x else x,
   if negb (Z.lxor sx sy =? 0) then - q else q).

(** The result and [*quo]. The exponent [ezero] of a zero remainder is [-60] in
    [remquo] and [-30] in [remquof]. *)
Definition gremquo (ezero : Z) x y : result (Z * Z) :=
  let ex := expo F x in let ey := expo F y in
  if (uw F (Z.shiftl y 1) =? 0) || isnan F y || (ex =? emask F) then
    Ok (fdiv E (fmul E x y) (fmul E x y), 0)
  else if uw F (Z.shiftl x 1) =? 0 then Ok (x, 0) else
  '(uxi, ex) ← normalize x ex;
  '(uyi, ey) ← normalize y ey;
  if ex <? ey then
    if ex + 1 =? ey then Ok (remquo_end x y uxi ex ey 0) else Ok (x, 0)
  else
  '(uxi, ex, q) ← remquo_loop rounds uxi uyi ex ey 0;
  '(uxi, ex) ← (if uxi =? 0 then Ok (uxi, ezero) else shift_up (Z.to_nat (wb F)) uxi ex);
  Ok (remquo_end x y uxi ex ey q).

End ops.

Definition fmod (E : fpenv double) := gfmod double E.
Definition fmodf (E : fpenv single) := gfmod single E.
Definition remquo (E : fpenv double) := gremquo double E (-60).
Definition remquof (E : fpenv single) := gremquo single E (-30).
Definition remainder (E : fpenv double) (x y : Z) : result Z := fst <$> remquo E x y.
Definition remainderf (E : fpenv single) (x y : Z) : result Z := fst <$> remquof E x y.

(** ** Significands *)

Section nrm.
Context (F : fmt) `{!FmtOk F}.
Abbreviation B := (2 ^ mb F).

(** The number [n] is [m * 2 ^ (e - 1)], and [m] has its leading bit. *)
Definition nrm (m e n : Z) : Prop :=
  B <= m < 2 * B /\ 0 <= e + mb F - 1 /\ m * 2 ^ (e + mb F - 1) = n * B.

Lemma nrm_pos m e n : nrm m e n -> 0 < n.
Proof.
  intros (Hm & He & Hn). pose proof (B_pos F). pose proof (pow2_pos _ He). nia.
Qed.

Lemma nrm_lt m e n m' e' n' k :
  nrm m e n -> nrm m' e' n' -> 0 <= k -> e + k < e' -> 2 ^ k * n < n'.
Proof.
  intros (Hm & He & Hn) (Hm' & He' & Hn') Hk Hlt. pose proof (B_pos F).
  replace (e' + mb F - 1) with (e + mb F - 1 + 1 + (k + (e' - e - k - 1))) in Hn' by lia.
  rewrite (pow2_split (_ + 1)), (pow2_split k), pow2_succ in Hn' by lia.
  pose proof (pow2_pos _ He). pose proof (pow2_pos k Hk). pose proof (pow2_pos (e' - e - k - 1) ltac:(lia)).
  set (P := 2 ^ (e + mb F - 1)) in *. set (K := 2 ^ k) in *. set (R := 2 ^ _) in Hn'.
  assert (K * n * B < n' * B); [|nia].
  rewrite <- Hn', <- Z.mul_assoc, <- Hn.
  replace (K * (m * P)) with (m * (P * K)) by ring.
  replace (m' * (2 * P * (K * R))) with (m' * R * 2 * (P * K)) by ring.
  assert (0 < P * K) by nia. assert (B <= m' * R) by nia. nia.
Qed.

Lemma nrm_eq m n m' n' e : nrm m e n -> nrm m' e n' -> n' < 2 * n.
Proof.
  intros (Hm & He & Hn) (Hm' & _ & Hn'). pose proof (B_pos F). pose proof (pow2_pos _ He). nia.
Qed.

Lemma scale_up_spec m e n : nrm m e n -> scale_up F m e = enc F n.
Proof.
  intros Hnrm. pose proof (nrm_pos _ _ _ Hnrm). destruct Hnrm as (Hm & He & Hn). fmt_facts F. unfold scale_up.
  destruct (Z.ltb_spec 0 e) as [H0|H0].
  - rewrite !Z.shiftl_mul_pow2, Z.mul_1_l, (Z.mul_comm e), lor_low by lia.
    replace (m - B + B * e) with (e * B + (m - B)) by lia.
    assert (0 <= e * B) by (apply Z.mul_nonneg_nonneg; lia).
    assert (mag F (e * B + (m - B)) = n) as <-; [|by rewrite (enc_mag F) by lia].
    unfold mag. rewrite Z.add_comm, Z.div_add, Z.mod_add, Z.div_small, Z.mod_small, Z.add_0_l by lia.
    destruct (Z.eqb_spec e 0); [lia|]. replace (e + mb F - 1) with (e - 1 + mb F) in Hn by lia.
    rewrite pow2_split in Hn by lia. nia.
  - rewrite Z.shiftr_div_pow2 by lia.
    assert (m = n * 2 ^ (- e + 1)) as Hmn.
    { pose proof (pow2_pos _ He). replace (mb F) with (e + mb F - 1 + (- e + 1)) in Hn at 2 by lia.
      rewrite pow2_split in Hn by lia. nia. }
    rewrite Hmn, Z.div_mul by (pose proof (pow2_pos (- e + 1)); lia).
    assert (n < B) as Hlt.
    { rewrite pow2_succ in Hmn by lia. pose proof (pow2_pos (- e)). nia. }
    assert (mag F n = n) as Hmg by (unfold mag; by rewrite Z.div_small, Z.mod_small by lia).
    rewrite <- Hmg at 2. by rewrite (enc_mag F) by lia.
Qed.

Lemma nrm_repr m e n : nrm m e n -> repr F n.
Proof.
  intros Hnrm. pose proof (nrm_pos _ _ _ Hnrm). destruct Hnrm as (Hm & He & Hn). fmt_facts F.
  destruct (Z.lt_ge_cases 0 e) as [H0|H0].
  - exists m, (e - 1). split_and!; [lia..|]. replace (e + mb F - 1) with (e - 1 + mb F) in Hn by lia.
    rewrite pow2_split in Hn by lia. nia.
  - exists n, 0. rewrite Z.mul_1_r. split_and!; [lia| |lia|done].
    pose proof (pow2_pos _ He). replace (mb F) with (e + mb F - 1 + (- e + 1)) in Hn at 2 by lia.
    rewrite pow2_split in Hn by lia. pose proof (pow2_pos (- e + 1)).
    assert (m = n * 2 ^ (- e + 1)) by nia. nia.
Qed.

Lemma nrm_double m e n : nrm m e n -> nrm m (e + 1) (2 * n).
Proof.
  intros (Hm & He & Hn). split_and!; [lia..|]. replace (e + 1 + mb F - 1) with (e + mb F - 1 + 1) by lia.
  rewrite pow2_succ by lia. lia.
Qed.

Lemma nrm_bound m e n : nrm m e n -> e < emask F -> n < mag_inf F.
Proof.
  intros (Hm & He & Hn) Hlt. fmt_facts F. rewrite mag_inf_val by done.
  assert (2 ^ (e + mb F - 1) * 2 <= 2 ^ (emask F - 1) * B) as Hle.
  { rewrite Z.mul_comm, <- pow2_succ, <- pow2_split by lia. apply Z.pow_le_mono_r; lia. }
  pose proof (pow2_pos _ He). nia.
Qed.

(** Taking a number apart. *)
Lemma shl_subnormal x k :
  is_word F x -> fexp F x = 0 -> 1 <= k -> ffrac F x * 2 ^ k < 2 * B ->
  uw F (Z.shiftl x k) = ffrac F x * 2 ^ k.
Proof.
  intros Hx He Hk Hlt. fmt_facts F. pose proof (ffrac_range F x) as Hf. pose proof (pow2_pos k ltac:(lia)).
  pose proof (abs_fields F x) as Ha. rewrite He in Ha. pose proof (pack_word F x Hx) as Hp.
  rewrite Z.shiftl_mul_pow2 by lia. unfold uw, wrap.
  assert (0 <= ffrac F x * 2 ^ k < 2 ^ wb F) as Hs by (rewrite wb_top, wb_split by done; nia).
  unfold pack in Hp. destruct (fsign F x).
  - replace (x * 2 ^ k) with (ffrac F x * 2 ^ k + 2 ^ (k - 1) * 2 ^ wb F).
    + rewrite Z.mod_add by lia. by apply Z.mod_small.
    + rewrite wb_top by done. assert (2 ^ k = 2 * 2 ^ (k - 1)) as Hk2.
      { rewrite <- pow2_succ by lia. f_equal. lia. }
      transitivity ((2 ^ (wb F - 1) + ffrac F x) * 2 ^ k); [rewrite Hk2; ring|f_equal; lia].
  - replace x with (ffrac F x) at 1 by lia. by apply Z.mod_small.
Qed.

Lemma normalize_spec x :
  is_word F x -> fabs_bits F x <> 0 ->
  exists m e, normalize F x (fexp F x) = Ok (m, e) /\ nrm m e (mag F (fabs_bits F x)) /\
    e <= fexp F x.
Proof.
  intros Hx H0. fmt_facts F. pose proof (ffrac_range F x) as Hf. pose proof (fexp_range F x) as He.
  unfold normalize, nrm. destruct (Z.eqb_spec (fexp F x) 0) as [He0|He0].
  - rewrite (shl_frac F). assert (0 < ffrac F x) as Hf0.
    { pose proof (abs_fields F x) as Ha. rewrite He0 in Ha. lia. }
    set (f := ffrac F x) in *. set (l := Z.log2 f).
    pose proof (Z.log2_spec f Hf0) as Hl. rewrite <- Z.add_1_r, pow2_succ in Hl by apply Z.log2_nonneg.
    fold l in Hl. assert (l < mb F) by (apply Z.log2_lt_pow2; lia).
    assert (0 <= l) by apply Z.log2_nonneg. pose proof (pow2_pos (eb F + 1) ltac:(lia)).
    assert (B = 2 ^ (mb F - l) * 2 ^ l) as HB by (rewrite <- pow2_split by lia; f_equal; lia).
    pose proof (pow2_pos (mb F - l) ltac:(lia)).
    rewrite (count_up_spec F).
    2:{ split; [nia|]. unfold wb. replace (1 + eb F + mb F) with (mb F + (eb F + 1)) by lia.
        rewrite (pow2_split (mb F)) by lia. apply Z.mul_lt_mono_pos_r; lia. }
    2:{ rewrite Z.log2_mul_pow2 by lia. pose proof (Z.log2_nonneg f). unfold wb. lia. }
    rewrite Z.log2_mul_pow2 by lia. fold l. rewrite He0.
    replace (0 - (wb F - 1 - (eb F + 1 + l))) with (- (mb F - 1 - l)) by (unfold wb; lia). simpl.
    replace (- - (mb F - 1 - l) + 1) with (mb F - l) by lia.
    rewrite shl_subnormal, mag_subnormal by (try done; fold f; nia || lia). fold f.
    eexists _, _. split; [done|]. split_and!; [nia|nia|lia| |lia].
    rewrite <- Z.mul_assoc, <- pow2_split by lia. do 2 f_equal. lia.
  - rewrite shiftr_ones by (unfold wb; lia).
    replace (wb F - (eb F + 1)) with (mb F) by (unfold wb; lia). rewrite Z.land_ones by lia.
    fold (ffrac F x). rewrite Z.shiftl_mul_pow2, Z.mul_1_l by lia.
    pose proof (lor_low (mb F) (ffrac F x) 1) as Hlor. rewrite Z.mul_1_r in Hlor. rewrite Hlor by lia.
    rewrite (mag_normal F) by lia. eexists _, _. split; [done|]. split_and!; [lia..| |lia].
    replace (fexp F x + mb F - 1) with (fexp F x - 1 + mb F) by lia. rewrite pow2_split by lia. ring.
Qed.

End nrm.

(** ** Long division *)

Section division.
Context (F : fmt) `{!FmtOk F}.
Abbreviation B := (2 ^ mb F).
Implicit Types (u m : Z).

(** The sign bit of the difference compares. *)
Lemma sub_test u m :
  B <= m < 2 * B -> 0 <= u < 2 * m ->
  (sbit F (uw F (u - m)) =? 0) = (m <=? u) /\ (m <= u -> uw F (u - m) = u - m).
Proof.
  intros Hm Hu. fmt_facts F. pose proof (wb_top F) as Ht. pose proof (wb_split F) as Hs.
  assert (is_word F (uw F (u - m))) as Hw by (apply Z.mod_pos_bound; lia).
  rewrite (sbit_spec F _ Hw). unfold fsign, uw, wrap in *.
  destruct (Z.leb_spec m u).
  - rewrite Z.mod_small by nia. destruct (Z.leb_spec (2 ^ (wb F - 1)) (u - m)); [nia|done].
  - rewrite <- (Z.mod_unique (u - m) (2 ^ wb F) (-1) (u - m + 2 ^ wb F)) by nia.
    destruct (Z.leb_spec (2 ^ (wb F - 1)) (u - m + 2 ^ wb F)); [split; [done|lia]|nia].
Qed.

Lemma shl_double u : 0 <= u < 2 * B -> uw F (Z.shiftl u 1) = 2 * u.
Proof.
  intros Hu. fmt_facts F. pose proof (wb_top F) as Ht. pose proof (wb_split F) as Hs.
  unfold uw, wrap. rewrite Z.shiftl_mul_pow2, Z.mod_small by nia. lia.
Qed.

(** One round, where [u] has at most one multiple of [m]. *)
Lemma round_step u m : 0 < m -> 0 <= u < 2 * m ->
  u mod m = (if m <=? u then u - m else u) /\ u / m = (if m <=? u then 1 else 0) /\ 0 <= u mod m < m.
Proof.
  intros Hm Hu. destruct (Z.leb_spec m u).
  - rewrite <- (Z.mod_unique u m 1 (u - m)), <- (Z.div_unique u m 1 (u - m)) by lia. lia.
  - rewrite Z.mod_small, Z.div_small by lia. lia.
Qed.

Lemma rem_shift u m d : 0 < m -> 0 <= d ->
  (2 * (u mod m)) * 2 ^ d mod m = u * 2 ^ (d + 1) mod m.
Proof.
  intros Hm Hd. rewrite pow2_succ by done. replace (2 * (u mod m) * 2 ^ d) with (u mod m * (2 * 2 ^ d)) by ring.
  by rewrite Z.mul_mod_idemp_l by lia.
Qed.

Lemma fmod_loop_spec fuel u m ex ey :
  B <= m < 2 * B -> 0 < u < 2 * m -> ey <= ex -> ex - ey < Z.of_nat fuel ->
  fmod_loop F fuel u m ex ey =
  let r := u * 2 ^ (ex - ey) mod m in Ok (if r =? 0 then None else Some (r, ey)).
Proof.
  intros Hm. fmt_facts F. revert u ex. induction fuel as [|fuel IH]; intros u ex Hu He Hf; [lia|].
  cbn [fmod_loop]. destruct (sub_test u m Hm ltac:(lia)) as [-> Hi].
  destruct (round_step u m ltac:(lia) ltac:(lia)) as (Hr & _ & Hb).
  destruct (Z.ltb_spec ey ex) as [Hlt|Hge].
  - replace (ex - ey) with (ex - 1 - ey + 1) by lia. rewrite <- rem_shift by lia. rewrite Hr.
    destruct (Z.leb_spec m u).
    + rewrite Hi by done. destruct (Z.eqb_spec (u - m) 0) as [->|Hne].
      * rewrite Z.mul_0_r, Z.mul_0_l, Z.mod_0_l by lia. done.
      * rewrite shl_double by lia. by rewrite IH by lia.
    + rewrite shl_double by lia. by rewrite IH by lia.
  - replace (ex - ey) with 0 by lia. rewrite Z.mul_1_r, Hr. replace ex with ey by lia.
    destruct (Z.leb_spec m u); [by rewrite Hi by done; case_match|].
    cbv zeta. by destruct (Z.eqb_spec u 0); [lia|].
Qed.

Lemma quo_shift u m q d : 0 < m -> 0 <= d ->
  u32 (u32 (2 * u32 (q + u / m)) * 2 ^ d + 2 * (u mod m) * 2 ^ d / m) =
  u32 (q * 2 ^ (d + 1) + u * 2 ^ (d + 1) / m).
Proof.
  intros Hm Hd. rewrite pow2_succ by done. pose proof (Z.div_mod u m ltac:(lia)) as Hu.
  replace (u * (2 * 2 ^ d)) with (2 * (u mod m) * 2 ^ d + u / m * 2 * 2 ^ d * m) by nia.
  rewrite Z.div_add by lia. unfold wrap.
  rewrite <- Z.add_mod_idemp_l, Z.mul_mod_idemp_l by done.
  replace (2 * ((q + u / m) mod 2 ^ 32) * 2 ^ d) with (2 * 2 ^ d * ((q + u / m) mod 2 ^ 32)) by ring.
  rewrite Z.mul_mod_idemp_r, Z.add_mod_idemp_l by done. f_equal. ring.
Qed.

Lemma remquo_loop_spec fuel u m ex ey q :
  B <= m < 2 * B -> 0 <= u < 2 * m -> ey <= ex -> ex - ey < Z.of_nat fuel -> 0 <= q < 2 ^ 32 ->
  remquo_loop F fuel u m ex ey q =
  Ok (u * 2 ^ (ex - ey) mod m, ey, u32 (q * 2 ^ (ex - ey) + u * 2 ^ (ex - ey) / m)).
Proof.
  intros Hm. fmt_facts F. revert u ex q. induction fuel as [|fuel IH]; intros u ex q Hu He Hf Hq; [lia|].
  cbn [remquo_loop]. destruct (sub_test u m Hm ltac:(lia)) as [-> Hi].
  destruct (round_step u m ltac:(lia) ltac:(lia)) as (Hr & Hd & Hb).
  assert ((if m <=? u then (uw F (u - m), u32 (q + 1)) else (u, q)) = (u mod m, u32 (q + u / m))) as ->.
  { rewrite Hr, Hd. destruct (Z.leb_spec m u); [by rewrite Hi by done|].
    by rewrite Z.add_0_r, wrap_small by done. }
  destruct (Z.ltb_spec ey ex) as [Hlt|Hge].
  - rewrite shl_double by lia.
    assert (u32 (Z.shiftl (u32 (q + u / m)) 1) = u32 (2 * u32 (q + u / m))) as ->.
    { rewrite Z.shiftl_mul_pow2 by lia. f_equal. lia. }
    rewrite IH by (try apply wrap_bound; lia). rewrite rem_shift, quo_shift by lia.
    by replace (ex - 1 - ey + 1) with (ex - ey) by lia.
  - replace (ex - ey) with 0 by lia. rewrite !Z.mul_1_r. by replace ex with ey by lia.
Qed.

(** [shift_up] finds the leading bit. *)
Lemma shift_up_spec fuel u e :
  0 < u < 2 * B -> mb F < Z.log2 u + Z.of_nat fuel ->
  shift_up F fuel u e = Ok (u * 2 ^ (mb F - Z.log2 u), e - (mb F - Z.log2 u)).
Proof.
  fmt_facts F. revert u e. induction fuel as [|fuel IH]; intros u e Hu Hf.
  { rewrite <- pow2_succ in Hu by lia. pose proof (Z.log2_lt_pow2 u (mb F + 1) ltac:(lia)). lia. }
  cbn [shift_up]. rewrite Z.shiftr_div_pow2 by lia. destruct (Z.eqb_spec (u / B) 0) as [Hz|Hz].
  - apply Z.div_small_iff in Hz as [Hz|Hz]; [|lia..]. rewrite shl_double by lia.
    rewrite IH; rewrite ?Z.log2_double by lia; [|lia|lia].
    assert (Z.log2 u < mb F) by (apply Z.log2_lt_pow2; lia).
    do 2 f_equal; [|lia]. replace (mb F - Z.log2 u) with (mb F - Z.succ (Z.log2 u) + 1) by lia.
    rewrite pow2_succ by lia. ring.
  - assert (B <= u) as Hle by (destruct (Z.le_gt_cases B u); [done|by rewrite Z.div_small in Hz by lia]).
    rewrite (log2_range u (mb F)) by (rewrite ?pow2_succ; lia).
    rewrite Z.sub_diag, Z.mul_1_r. do 2 f_equal. lia.
Qed.

(** Remainder and quotient of the significands are those of the numbers. *)
Lemma div_nrm mx ex nx my ey ny :
  nrm F mx ex nx -> nrm F my ey ny -> ey <= ex ->
  mx * 2 ^ (ex - ey) mod my * 2 ^ (ey + mb F - 1) = nx mod ny * B /\
  mx * 2 ^ (ex - ey) / my = nx / ny.
Proof.
  intros Hx Hy He. pose proof (nrm_pos F _ _ _ Hy). fmt_facts F.
  destruct Hx as (Hmx & Hex & Hx), Hy as (Hmy & Hey & Hy). pose proof (pow2_pos _ Hey).
  replace (ex + mb F - 1) with (ex - ey + (ey + mb F - 1)) in Hx by lia.
  rewrite pow2_split, Z.mul_assoc in Hx by lia. split.
  - by rewrite <- !Z.mul_mod_distr_r, Hx, Hy by lia.
  - rewrite <- (Z.div_mul_cancel_r nx ny B), <- Hx, <- Hy by lia. by rewrite Z.div_mul_cancel_r by lia.
Qed.

Lemma shift_nrm r e n :
  0 < r < 2 * B -> 0 <= e + mb F - 1 -> r * 2 ^ (e + mb F - 1) = n * B ->
  nrm F (r * 2 ^ (mb F - Z.log2 r)) (e - (mb F - Z.log2 r)) n.
Proof.
  intros Hr He Hn. fmt_facts F. pose proof (Z.log2_spec r ltac:(lia)) as Hl.
  pose proof (Z.log2_nonneg r). set (l := Z.log2 r) in *. rewrite <- Z.add_1_r in Hl.
  assert (l < mb F + 1) by (apply Z.log2_lt_pow2; [lia|]; rewrite pow2_succ; lia).
  pose proof (pow2_pos (mb F - l) ltac:(lia)). pose proof (pow2_pos _ He).
  assert (0 < e + l) as Hel.
  { assert (0 < n) by nia. assert (r * 2 ^ (e + mb F - 1) < 2 ^ (l + 1) * 2 ^ (e + mb F - 1)) by nia.
    assert (B < 2 ^ (l + 1) * 2 ^ (e + mb F - 1)) as Hlt by nia. rewrite <- pow2_split in Hlt by lia.
    apply Z.pow_lt_mono_r_iff in Hlt; lia. }
  rewrite pow2_succ in Hl by lia.
  assert (B = 2 ^ l * 2 ^ (mb F - l)) as HB by (rewrite <- pow2_split by lia; f_equal; lia).
  split_and!; [nia|nia|lia|].
  rewrite <- Z.mul_assoc, <- pow2_split by lia. rewrite <- Hn. do 2 f_equal. lia.
Qed.

Lemma lor_sign x n : is_word F x -> 0 <= n < 2 ^ (wb F - 1) ->
  Z.lor n (Z.shiftl (sbit F x) (wb F - 1)) = pack F (fsign F x) n.
Proof.
  intros Hx Hn. fmt_facts F. rewrite (sbit_spec F x Hx), Z.shiftl_mul_pow2 by (unfold wb; lia).
  rewrite Z.mul_comm, lor_low by (try done; unfold wb; lia). unfold pack. case_match; lia.
Qed.

End division.

(** ** Theorems *)

Section spec.
Context (F : fmt) `{!FmtOk F} (E : fpenv F).
Implicit Types (x y : Z).
Abbreviation B := (2 ^ mb F).
Abbreviation n_of x := (mag F (fabs_bits F x)).

(** The guard of both functions. *)
Definition rem_invalid x y : bool := is_zero (F := F) y || is_nan F y || negb (is_finite F x).

Lemma zero_finite x : is_zero (F := F) x = true -> is_finite F x = true.
Proof. unfold is_zero, is_finite, inf_bits. fmt_facts F. nia. Qed.

Lemma fmul_zero_r x y : is_finite F x = true -> is_zero (F := F) y = true ->
  exists s, fmul E x y = pack F s 0.
Proof.
  intros Hx Hy. pose proof (zero_finite y Hy) as Hyf. pose proof (unit_pos F).
  unfold fmul. rewrite !finite_not_nan, Hx, Hyf by done. simpl. eexists.
  apply Z.eqb_eq in Hy. rewrite Hy, (mag_0 F), Z.mul_0_r.
  change 0 with (0 * unit_val F) at 1.
  rewrite (fround_exact F); [by rewrite (enc_0 F)|done|lia|by apply zero_repr|].
  pose proof (mag_finite F x Hx). lia.
Qed.

(** [(x*y)/(x*y)] is a NaN there. *)
Lemma rem_invalid_nan x y :
  rem_invalid x y = true -> is_nan F (fdiv E (fmul E x y) (fmul E x y)) = true.
Proof.
  intros Hi. unfold rem_invalid in Hi. pose proof (inf_lt F) as Hinf. fmt_facts F.
  assert (0 <= inf_bits F) by (unfold inf_bits; nia).
  destruct (is_finite F x) eqn:Hx.
  - destruct (is_nan F y) eqn:Hny.
    + unfold fdiv. assert (is_nan F (fmul E x y) = true) as ->; [|apply nan2_nan].
      unfold fmul. rewrite Hny, orb_true_r. apply nan2_nan.
    + rewrite !orb_false_r in Hi. destruct (fmul_zero_r x y Hx Hi) as [s ->]. unfold fdiv, is_zero, is_nan, is_finite.
      rewrite !fabs_pack by (done || nia). replace (inf_bits F <? 0) with false by lia.
      replace (0 <? inf_bits F) with true by (unfold inf_bits; nia). apply nan2_nan.
  - unfold fdiv. destruct (is_nan F (fmul E x y)) eqn:Hn; [apply nan2_nan|]. revert Hn.
    unfold fmul. destruct (is_nan F x || is_nan F y); [by rewrite (proj2 (nan2_nan E x y))|].
    rewrite Hx. simpl. destruct (is_zero x || is_zero y); [by rewrite (proj2 (nan2_nan E x y))|].
    intros _. unfold is_finite. rewrite fabs_pack by (done || lia). rewrite Z.ltb_irrefl. simpl. apply nan2_nan.
Qed.

Lemma guard_spec x y : is_word F x -> is_word F y ->
  (uw F (Z.shiftl y 1) =? 0) || isnan F y || (expo F x =? emask F) = rem_invalid x y.
Proof.
  intros Hx Hy. unfold rem_invalid. rewrite (shl_1 F y Hy), isnan_spec, expo_spec by done.
  f_equal; [f_equal; unfold is_zero; lia|]. pose proof (exp_finite F x). pose proof (fexp_range F x).
  destruct (is_finite F x); simpl; [|destruct (Z.eqb_spec (fexp F x) (emask F)); [done|]].
  - destruct (Z.eqb_spec (fexp F x) (emask F)); [|done]. pose proof (proj1 H eq_refl). lia.
  - assert (fexp F x < emask F) as Hlt by lia. apply H in Hlt. done.
Qed.

(** What the loops start from. *)
Lemma loop_start x y mx ex my ey :
  nrm F mx ex (n_of x) -> nrm F my ey (n_of y) -> ex <= fexp F x -> ey <= fexp F y -> ey <= ex ->
  B <= my < 2 * B /\ 0 < mx < 2 * my /\ ex - ey < Z.of_nat (rounds F).
Proof.
  intros (Hmx & _ & _) (Hmy & Hey & _) Hex _ He. fmt_facts F. pose proof (fexp_range F x).
  unfold rounds, wb, emask in *. lia.
Qed.

(** The remainder of every number by every number. *)
Theorem gfmod_spec x y :
  is_word F x -> is_word F y ->
  if rem_invalid x y then exists r, gfmod F E x y = Ok r /\ is_nan F r = true
  else gfmod F E x y = Ok (pack F (fsign F x) (enc F (n_of x mod n_of y))).
Proof.
  intros Hx Hy. unfold gfmod. rewrite guard_spec by done.
  destruct (rem_invalid x y) eqn:Hi; [eexists; split; [done|by apply rem_invalid_nan]|].
  unfold rem_invalid in Hi. apply orb_false_iff in Hi as [[Hyz Hyn]%orb_false_iff Hxf%negb_false_iff].
  rewrite !shl_1, !expo_spec by done. unfold is_zero in Hyz.
  pose proof (fabs_bits_range F x) as [Hax _]. pose proof (fabs_bits_range F y) as [Hay _].
  destruct (Z.leb_spec (2 * fabs_bits F x) (2 * fabs_bits F y)) as [Hle|Hgt].
  { destruct (Z.eqb_spec (2 * fabs_bits F x) (2 * fabs_bits F y)) as [Heq|Hne].
    - rewrite fmul_zero by done. replace (fabs_bits F x) with (fabs_bits F y) by lia.
      rewrite Z.mod_same by (rewrite mag_zero_iff; [lia|done|done]). by rewrite (enc_0 F).
    - rewrite Z.mod_small; [by rewrite word_of|]. split; [by apply mag_nonneg|apply mag_lt; [done|done|lia]]. }
  destruct (normalize_spec F x Hx) as (mx & ex & -> & Hnx & Hex); [lia|].
  destruct (normalize_spec F y Hy) as (my & ey & -> & Hny & Hey); [lia|].
  assert (n_of y < n_of x) as Hlt by (apply mag_lt; [done|done|lia]).
  assert (ey <= ex) as He.
  { destruct (Z.le_gt_cases ey ex); [done|]. pose proof (nrm_lt F _ _ _ _ _ _ 0 Hnx Hny). lia. }
  destruct (loop_start x y mx ex my ey) as (Hmy & Hmx & Hr); [done..|].
  cbn [mbind result_bind]. rewrite (fmod_loop_spec F) by lia. cbv zeta.
  destruct (div_nrm F mx ex (n_of x) my ey (n_of y)) as [Hm _]; [done..|].
  pose proof (Z.mod_pos_bound (mx * 2 ^ (ex - ey)) my ltac:(lia)) as Hrb.
  set (r := mx * 2 ^ (ex - ey) mod my) in *. cbn [mbind result_bind].
  pose proof (pow2_pos (ey + mb F - 1) ltac:(apply Hny)). fmt_facts F.
  destruct (Z.eqb_spec r 0) as [Hr0|Hr0].
  { rewrite fmul_zero by done. replace (n_of x mod n_of y) with 0 by nia. by rewrite (enc_0 F). }
  cbv iota. rewrite (shift_up_spec F) by (try (unfold wb; pose proof (Z.log2_nonneg r)); lia).
  cbn [mbind result_bind].
  assert (nrm F (r * 2 ^ (mb F - Z.log2 r)) (ey - (mb F - Z.log2 r)) (n_of x mod n_of y)) as Hnr.
  { apply shift_nrm; [done|lia|apply Hny|done]. }
  rewrite (scale_up_spec F _ _ _ Hnr), (lor_sign F); [done|done|].
  pose proof (nrm_pos F _ _ _ Hnr). pose proof (mag_finite F x Hxf).
  apply enc_bound; [done|lia|by eapply nrm_repr|]. pose proof (nrm_pos F _ _ _ Hny).
  pose proof (Z.mod_le (n_of x) (n_of y)). lia.
Qed.

(** ** [remquo] *)

(** The nearest quotient, to an even one if there are two. *)
Definition near_quo x y : Z := rdiv RNE false (n_of x) (n_of y).
Definition near_rem x y : Z := n_of x - near_quo x y * n_of y.
Definition near_up x y : bool :=
  let r := n_of x mod n_of y in
  (n_of y <? 2 * r) || ((2 * r =? n_of y) && Z.odd (n_of x / n_of y)).

Lemma near_rem_up x y : 0 < n_of y ->
  near_quo x y = n_of x / n_of y + (if near_up x y then 1 else 0) /\
  near_rem x y = n_of x mod n_of y - (if near_up x y then n_of y else 0).
Proof.
  intros Hy. unfold near_rem, near_quo, rdiv. fold (near_up x y).
  pose proof (Z.div_mod (n_of x) (n_of y) ltac:(lia)). destruct (near_up x y); lia.
Qed.

(** The low bits of the quotient. *)
Lemma quo_bits a b : Z.land (u32 (u32 a + b)) 0x7fffffff = (a + b) mod 2 ^ 31.
Proof.
  change 0x7fffffff with (Z.ones 31). rewrite Z.land_ones by lia. unfold wrap.
  rewrite Z.add_mod_idemp_l by done. by rewrite Z.mod_mod_divide by by exists 2.
Qed.

Lemma quo_odd a : negb (u32 a mod 2 =? 0) = Z.odd a.
Proof.
  unfold wrap. rewrite Z.mod_mod_divide by by exists (2 ^ 31). rewrite Zmod_odd. by destruct (Z.odd a).
Qed.

(** A remainder as [remquo] has it at the end: taken apart, or a zero with an
    exponent that is below every other. *)
Definition rem_word (u e r ey : Z) : Prop := nrm F u e r \/ (r = 0 /\ u = 0 /\ e <= 0 /\ e + 1 < ey).

Lemma rem_word_spec u e r ey : rem_word u e r ey -> 0 <= r /\ repr F r /\ scale_up F u e = enc F r.
Proof.
  intros [Hn|(-> & -> & He & _)].
  - pose proof (nrm_pos F _ _ _ Hn). split_and!; [lia|by eapply nrm_repr|by apply scale_up_spec].
  - split_and!; [done|by apply zero_repr|]. unfold scale_up. rewrite (enc_0 F).
    destruct (Z.ltb_spec 0 e); [lia|]. apply Z.shiftr_0_l.
Qed.

(** [2*x] is exact. *)
Lemma fmul_two u e r ey :
  rem_word u e r ey -> e + 1 < emask F ->
  fmul E (two F) (enc F r) = pack F false (enc F (2 * r)) /\ repr F (2 * r) /\ 2 * r < mag_inf F.
Proof.
  intros Hw He. destruct (rem_word_spec u e r ey Hw) as (H0 & Hr & _). fmt_facts F.
  assert (repr F (2 * r)) as Hr2.
  { destruct Hr as (c & k & Hc & Hk & ->). exists c, (k + 1). rewrite pow2_succ by done. split_and!; lia. }
  assert (2 * r < mag_inf F) as Hlt.
  { destruct Hw as [Hn|(-> & _)]; [|rewrite (mag_inf_val F); pose proof (pow2_pos (emask F - 1)); nia].
    apply nrm_double in Hn. by eapply nrm_bound. }
  assert (two F = pack F false ((bias F + 1) * B)) as Ht by (unfold two; by rewrite Z.shiftl_mul_pow2 by lia).
  assert (0 <= (bias F + 1) * B < 2 ^ (wb F - 1)) as Hb by (rewrite wb_split by done; nia).
  pose proof (enc_bound F r H0 Hr ltac:(lia)) as Her. change (enc F r) with (pack F false (enc F r)).
  split_and!; [|done|done]. rewrite (fmul_exact E _ _ (2 * r)); [|..|done|done].
  - by rewrite Ht, !fsign_pack.
  - rewrite Ht. unfold is_finite. rewrite fabs_pack by done. unfold inf_bits. nia.
  - apply finite_enc; [done..|lia].
  - rewrite Ht, !fabs_pack, (mag_enc F r), (mag_pow2 F) by (done || lia).
    unfold unit_val. replace (bias F + 1 - 1) with (bias F - 1 + 1) by lia. rewrite pow2_succ by lia.
    replace (bias F + mb F - 1) with (bias F - 1 + mb F) by lia. rewrite pow2_split by lia. ring.
  - lia.
Qed.

(** The decision for the nearer multiple. *)
Lemma near_test x y u e my ey :
  is_finite F y = true -> nrm F my ey (n_of y) -> ey <= fexp F y ->
  rem_word u e (n_of x mod n_of y) ey ->
  let x2 := fmul E (two F) (enc F (n_of x mod n_of y)) in
  let ay := pack F false (fabs_bits F y) in
  (e =? ey) || ((e + 1 =? ey) &&
    (flt (F := F) ay x2 || (feq (F := F) x2 ay && negb (u32 (n_of x / n_of y) mod 2 =? 0)))) =
  near_up x y.
Proof.
  intros Hyf Hny Hey Hw x2 ay. pose proof (fabs_bits_range F y) as Hyb.
  pose proof (nrm_pos F _ _ _ Hny) as Hy0. pose proof (Z.mod_pos_bound (n_of x) (n_of y) Hy0) as Hrb.
  rewrite quo_odd. unfold near_up. set (r := n_of x mod n_of y) in *.
  destruct (Z.eqb_spec e ey) as [->|Hne]; simpl.
  { destruct Hw as [Hn|(_ & _ & _ & ?)]; [|lia]. pose proof (nrm_eq F _ _ _ _ _ Hn Hny).
    destruct (Z.ltb_spec (n_of y) (2 * r)); [done|lia]. }
  destruct (Z.eqb_spec (e + 1) ey) as [He|He]; simpl.
  - assert (e + 1 < emask F) as Hm by (apply exp_finite in Hyf; [lia|done]).
    destruct (fmul_two u e r ey Hw Hm) as (Hx2 & Hr2 & Hlt). unfold x2, ay, flt, feq. rewrite Hx2.
    assert (is_nan F (pack F false (fabs_bits F y)) = false) as ->.
    { apply finite_not_nan. unfold is_finite in *. by rewrite fabs_pack. }
    rewrite (finite_not_nan F (pack F false (enc F (2 * r)))) by (apply finite_enc; (done || lia)).
    by rewrite (sval_enc F false (2 * r)), (sval_pack F) by (done || lia).
  - assert (2 * r < n_of y) as Hlt.
    { destruct Hw as [Hn|(-> & _)]; [|lia].
      assert (e <= ey).
      { destruct (Z.le_gt_cases e ey); [done|]. pose proof (nrm_lt F _ _ _ _ _ _ 0 Hny Hn). lia. }
      pose proof (nrm_lt F _ _ _ _ _ _ 1 Hn Hny). lia. }
    destruct (Z.ltb_spec (n_of y) (2 * r)); [lia|]. by destruct (Z.eqb_spec (2 * r) (n_of y)); [lia|].
Qed.

(** [x -= y] *)
Lemma near_sub x y :
  is_finite F y = true -> near_up x y = true -> repr F (n_of x mod n_of y) -> 0 < n_of y ->
  fsub E (enc F (n_of x mod n_of y)) (pack F false (fabs_bits F y)) =
  pack F true (enc F (Z.abs (near_rem x y))) /\ near_rem x y < 0 /\
  0 <= enc F (Z.abs (near_rem x y)) < 2 ^ (wb F - 1).
Proof.
  intros Hyf Hup Hr Hy. destruct (near_rem_up x y Hy) as [_ Hrem]. rewrite Hup in Hrem.
  pose proof (fabs_bits_range F y) as Hyb. pose proof (Z.mod_pos_bound (n_of x) (n_of y) Hy) as Hrb.
  pose proof (mag_finite F y Hyf) as Hyfin.
  unfold near_up in Hup. set (r := n_of x mod n_of y) in *.
  assert (n_of y <= 2 * r) as H2 by lia.
  assert (repr F (n_of y - r)) as Hd by (apply repr_sub; [done|lia|done|apply mag_repr; [done|apply Hyb]|lia]).
  change (enc F r) with (pack F false (enc F r)).
  assert (sval F (pack F false (enc F r)) = r) as Hsr by (rewrite (sval_enc F); (done || lia)).
  assert (sval F (pack F false (fabs_bits F y)) = n_of y) as Hsy by by rewrite (sval_pack F).
  rewrite (fsub_exact E); rewrite ?Hsr, ?Hsy; [|apply finite_enc; (done || lia)| | | |].
  - replace (r - n_of y) with (near_rem x y) by lia. split_and!; [f_equal; lia|lia|apply enc_bound..].
    all: replace (Z.abs (near_rem x y)) with (n_of y - r) by lia; (done || lia).
  - unfold is_finite in *. by rewrite fabs_pack.
  - lia.
  - by replace (Z.abs (r - n_of y)) with (n_of y - r) by lia.
  - lia.
Qed.

Lemma quo_sign x y q : is_word F x -> is_word F y ->
  (if negb (Z.lxor (sbit F x) (sbit F y) =? 0) then - q else q) = signed (xorb (fsign F x) (fsign F y)) q.
Proof.
  intros Hx Hy. rewrite (sbit_spec F x Hx), (sbit_spec F y Hy).
  by destruct (fsign F x), (fsign F y).
Qed.

Lemma near_pos x y : near_up x y = false -> repr F (n_of x mod n_of y) -> 0 < n_of y < mag_inf F ->
  near_rem x y = n_of x mod n_of y /\ 0 <= near_rem x y /\
  0 <= enc F (Z.abs (near_rem x y)) < 2 ^ (wb F - 1).
Proof.
  intros Hup Hr Hy. destruct (near_rem_up x y ltac:(lia)) as [_ Hrem]. rewrite Hup, Z.sub_0_r in Hrem.
  pose proof (Z.mod_pos_bound (n_of x) (n_of y) ltac:(lia)).
  split_and!; [done|lia|apply enc_bound..]; rewrite ?Z.abs_eq, ?Hrem by lia; (done || lia).
Qed.

(** What [remquo] gives for numbers: the remainder of the nearest quotient, and
    the quotient's sign and low bits. *)
Definition remquo_result x y : Z * Z :=
  (pack F (xorb (fsign F x) (near_rem x y <? 0)) (enc F (Z.abs (near_rem x y))),
   signed (xorb (fsign F x) (fsign F y)) (near_quo x y mod 2 ^ 31)).

Lemma remquo_end_spec x y u e my ey :
  is_word F x -> is_word F y -> is_finite F y = true ->
  nrm F my ey (n_of y) -> ey <= fexp F y -> rem_word u e (n_of x mod n_of y) ey ->
  remquo_end F E x y u e ey (u32 (n_of x / n_of y)) = remquo_result x y.
Proof.
  intros Hx Hy Hyf Hny Hey Hw. destruct (rem_word_spec _ _ _ _ Hw) as (Hr0 & Hr & Hsc).
  pose proof (nrm_pos F _ _ _ Hny) as Hy0. pose proof (mag_finite F y Hyf) as Hyfin.
  destruct (near_rem_up x y Hy0) as [Hq _]. unfold remquo_end, remquo_result. cbv zeta.
  rewrite Hsc, abs_word by done. rewrite (near_test x y u e my ey) by done.
  destruct (near_up x y) eqn:Hup.
  - destruct (near_sub x y Hyf Hup Hr Hy0) as (-> & Hneg & Hb). rewrite quo_sign, quo_bits, Hq, (sbit_spec F x Hx) by done.
    destruct (Z.ltb_spec (near_rem x y) 0); [|lia].
    destruct (fsign F x); simpl; [by rewrite fneg_pack|done].
  - destruct (near_pos x y Hup Hr) as (Hrem & Hpos & Hb); [lia|].
    rewrite quo_sign, Hq, (sbit_spec F x Hx) by done. rewrite <- (quo_bits _ 0), Z.add_0_r, (wrap_wrap 32) by lia.
    destruct (Z.ltb_spec (near_rem x y) 0); [lia|]. rewrite Hrem, (Z.abs_eq (_ mod _)) in * by done.
    change (enc F (n_of x mod n_of y)) with (pack F false (enc F (n_of x mod n_of y))) at 1 2.
    destruct (fsign F x); simpl; [by rewrite fneg_pack|done].
Qed.

(** The remainder of [remquo]'s loop. *)
Lemma remquo_word (ezero : Z) r e n :
  0 <= r < 2 * B -> 0 <= e + mb F - 1 -> r * 2 ^ (e + mb F - 1) = n * B ->
  ezero + 1 < 1 - mb F ->
  exists u e', (if r =? 0 then Ok (r, ezero) else shift_up F (Z.to_nat (wb F)) r e) = Ok (u, e') /\
    rem_word u e' n e.
Proof.
  intros Hr He Hn Hlow. fmt_facts F. pose proof (pow2_pos _ He). destruct (Z.eqb_spec r 0) as [Hr0|Hr0].
  - eexists _, _. split; [done|]. right. assert (n = 0) by nia. split_and!; lia.
  - eexists _, _. split; [rewrite (shift_up_spec F); [done|lia|]|].
    + pose proof (Z.log2_nonneg r). unfold wb. lia.
    + left. apply shift_nrm; (done || lia).
Qed.

Lemma near_small x y : is_word F x -> 2 * n_of x < n_of y -> remquo_result x y = (x, 0).
Proof.
  intros Hx Hlt. pose proof (fabs_bits_range F x) as [Hax _]. pose proof (mag_nonneg F _ Hax) as H0.
  destruct (near_rem_up x y ltac:(lia)) as [Hq Hr].
  assert (near_up x y = false) as Hup.
  { unfold near_up. rewrite Z.mod_small, Z.div_small by lia. simpl. lia. }
  rewrite Hup, ?Z.mod_small, ?Z.div_small in * by lia. rewrite Z.sub_0_r in Hr.
  unfold remquo_result. rewrite Hq, Hr, Z.abs_eq, Z.mod_0_l by lia.
  destruct (Z.ltb_spec (n_of x) 0); [lia|]. rewrite xorb_false_r, word_of by done.
  by destruct (xorb (fsign F x) (fsign F y)).
Qed.

(** [remquo] gives the remainder of the nearest quotient and the low bits of
    that quotient, in every rounding mode, or a NaN. *)
Theorem gremquo_spec ezero x y :
  is_word F x -> is_word F y -> ezero + 1 < 1 - mb F -> is_finite F y = true ->
  if rem_invalid x y then exists r, gremquo F E ezero x y = Ok (r, 0) /\ is_nan F r = true
  else gremquo F E ezero x y = Ok (remquo_result x y).
Proof.
  intros Hx Hy Hez Hyf. fmt_facts F. unfold gremquo. rewrite guard_spec by done.
  destruct (rem_invalid x y) eqn:Hi; [eexists; split; [done|by apply rem_invalid_nan]|].
  unfold rem_invalid in Hi. apply orb_false_iff in Hi as [[Hyz Hyn]%orb_false_iff Hxf%negb_false_iff].
  rewrite !shl_1, !expo_spec by done. unfold is_zero in Hyz.
  destruct (normalize_spec F y Hy) as (my & ey & Hney & Hny & Hey); [lia|].
  pose proof (nrm_pos F _ _ _ Hny) as Hy0.
  destruct (Z.eqb_spec (2 * fabs_bits F x) 0) as [Hx0|Hx0].
  { rewrite near_small; [done|done|]. replace (fabs_bits F x) with 0 by lia. by rewrite (mag_0 F). }
  destruct (normalize_spec F x Hx) as (mx & ex & -> & Hnx & Hex); [lia|]. rewrite Hney.
  cbn [mbind result_bind]. destruct (Z.ltb_spec ex ey) as [Hlt|Hge].
  - assert (n_of x < n_of y) as Hxy by (pose proof (nrm_lt F _ _ _ _ _ _ 0 Hnx Hny); lia).
    pose proof (nrm_pos F _ _ _ Hnx). destruct (Z.eqb_spec (ex + 1) ey) as [He|He].
    + f_equal. rewrite <- (remquo_end_spec x y mx ex my ey); try done.
      * by rewrite Z.div_small by lia.
      * rewrite Z.mod_small by lia. by left.
    + rewrite near_small; [done|done|]. pose proof (nrm_lt F _ _ _ _ _ _ 1 Hnx Hny). lia.
  - destruct (loop_start x y mx ex my ey) as (Hmy & Hmx & Hr); [done..|].
    destruct (div_nrm F mx ex (n_of x) my ey (n_of y)) as [Hm Hd]; [done..|].
    pose proof (Z.mod_pos_bound (mx * 2 ^ (ex - ey)) my ltac:(lia)) as Hrb.
    rewrite (remquo_loop_spec F), Z.mul_0_l, Z.add_0_l, Hd by lia. cbn [mbind result_bind].
    assert (0 <= mx * 2 ^ (ex - ey) mod my < 2 * B) as Hrb' by lia.
    destruct (remquo_word ezero _ ey _ Hrb' (proj1 (proj2 Hny)) Hm)
      as (u & e' & -> & Hw); [lia|].
    cbn [mbind result_bind]. f_equal. by eapply remquo_end_spec.
Qed.

(** Nothing is larger than an infinity. *)
Lemma flt_inf y z : fabs_bits F y = inf_bits F -> flt (F := F) (pack F false (fabs_bits F y)) z = false.
Proof.
  intros Hy. pose proof (fabs_bits_range F y) as Hyb. pose proof (fabs_bits_range F z) as [Hz _].
  unfold flt. destruct (is_nan F z) eqn:Hn; [by rewrite orb_true_r|].
  unfold is_nan in *. rewrite fabs_pack, sval_pack by done. rewrite Hy, Z.ltb_irrefl. simpl.
  pose proof (mag_le F (fabs_bits F z) (inf_bits F) Hz ltac:(lia)) as Hm. pose proof (mag_nonneg F _ Hz).
  rewrite Hy in *. unfold sval, signed. apply Z.ltb_ge. case_match; [|lia]. lia.
Qed.

(** By an infinity every number is its own remainder. *)
Lemma gremquo_inf ezero x y :
  is_word F x -> is_word F y -> is_finite F x = true -> fabs_bits F y = inf_bits F ->
  gremquo F E ezero x y = Ok (x, 0).
Proof.
  intros Hx Hy Hxf Hinf. fmt_facts F. unfold gremquo. rewrite guard_spec by done.
  assert (0 < inf_bits F) as Hi by (unfold inf_bits; nia).
  assert (rem_invalid x y = false) as ->.
  { unfold rem_invalid, is_zero, is_nan. rewrite Hxf, Hinf. simpl. lia. }
  rewrite !shl_1, !expo_spec by done. destruct (Z.eqb_spec (2 * fabs_bits F x) 0) as [|Hx0]; [done|].
  destruct (normalize_spec F x Hx) as (mx & ex & -> & Hnx & Hex); [lia|]. apply exp_finite in Hxf; [|done].
  assert (fexp F y = emask F) as Hey by (unfold fexp; rewrite Hinf; apply Z.div_mul; lia).
  unfold normalize. rewrite Hey. destruct (Z.eqb_spec (emask F) 0); [lia|]. cbn [mbind result_bind].
  destruct (Z.ltb_spec ex (emask F)); [|lia]. destruct (Z.eqb_spec (ex + 1) (emask F)) as [He|]; [|done].
  f_equal. unfold remquo_end. rewrite abs_word, flt_inf, (scale_up_spec F _ _ _ Hnx) by done.
  destruct (Z.eqb_spec ex (emask F)); [lia|]. cbv zeta.
  change (negb (0 mod 2 =? 0)) with false. rewrite andb_false_r. simpl (false || false). rewrite andb_false_r. simpl orb.
  cbv iota beta.
  pose proof (word_of F x Hx) as Hw. pose proof (fabs_bits_range F x) as Hb.
  rewrite Z.land_0_l, (sbit_spec F x Hx). f_equal; [|by case_match].
  rewrite (enc_mag F) in * by apply Hb. destruct (fsign F x); simpl; [|done].
  change (fabs_bits F x) with (pack F false (fabs_bits F x)). by rewrite fneg_pack.
Qed.

(** Every case in which the result is a number. *)
Lemma gremquo_valid ezero x y :
  is_word F x -> is_word F y -> ezero + 1 < 1 - mb F -> rem_invalid x y = false ->
  gremquo F E ezero x y = Ok (if is_finite F y then remquo_result x y else (x, 0)).
Proof.
  intros Hx Hy Hz Hi. destruct (is_finite F y) eqn:Hyf.
  - pose proof (gremquo_spec ezero x y Hx Hy Hz Hyf) as H. by rewrite Hi in H.
  - unfold rem_invalid in Hi. apply orb_false_iff in Hi as [[_ Hyn]%orb_false_iff Hxf%negb_false_iff].
    apply gremquo_inf; [done..|]. unfold is_nan, is_finite in *. lia.
Qed.

End spec.

(** ** [double] and [float] *)

(** C21: [fmod] and [fmodf] return, for every two words: the exact remainder of the
    magnitudes with the sign of [x], or a NaN if [y] is zero or one of them is
    a NaN or [x] an infinity. *)
Theorem fmod_spec (E : fpenv double) (Ef : fpenv single) x y xf yf :
  is_word double x -> is_word double y -> is_word single xf -> is_word single yf ->
  (if rem_invalid double x y then exists r, fmod E x y = Ok r /\ is_nan double r = true
   else fmod E x y =
     Ok (pack double (fsign double x)
           (enc double (mag double (fabs_bits double x) mod mag double (fabs_bits double y))))) /\
  (if rem_invalid single xf yf then exists r, fmodf Ef xf yf = Ok r /\ is_nan single r = true
   else fmodf Ef xf yf =
     Ok (pack single (fsign single xf)
           (enc single (mag single (fabs_bits single xf) mod mag single (fabs_bits single yf))))).
Proof. intros Hx Hy Hxf Hyf. split; by apply gfmod_spec. Qed.

(** C25: [remquo] and [remainder] return, wherever the remainder is defined: the
    difference from the nearest multiple of [y], the even one if there are two,
    with the sign and the low 31 bits of the multiple, in every rounding mode;
    and [x] itself if [y] is an infinity. *)
Theorem remquo_spec (E : fpenv double) (Ef : fpenv single) x y xf yf :
  is_word double x -> is_word double y -> rem_invalid double x y = false ->
  is_word single xf -> is_word single yf -> rem_invalid single xf yf = false ->
  let r := if is_finite double y then remquo_result double x y else (x, 0) in
  let rf := if is_finite single yf then remquo_result single xf yf else (xf, 0) in
  remquo E x y = Ok r /\ remainder E x y = Ok r.1 /\ remquof Ef xf yf = Ok rf /\ remainderf Ef xf yf = Ok rf.1.
Proof.
  intros Hx Hy Hv Hx' Hy' Hv' r rf. unfold remainder, remainderf, remquo, remquof.
  by rewrite !gremquo_valid.
Qed.

(** *** Witnesses *)

(** [fmod(7.5, -2) = 1.5] and [fmodf(-5.5f, 2) = -1.5f] *)
Lemma fmod_witness :
  fmod (some_env double RNE) 0x401e000000000000 0xc000000000000000 = Ok 0x3ff8000000000000 /\
  fmodf (some_env single RUP) 0xc0b00000 0x40000000 = Ok 0xbfc00000.
Proof.
  apply (fmod_spec (some_env double RNE) (some_env single RUP) 0x401e000000000000 0xc000000000000000
    0xc0b00000 0x40000000); vm_compute; split; discriminate || reflexivity.
Defined.

(** [remainder(7, 2) = -1] with the quotient 4, and [remainderf(-5, 2) = -1] with
    the quotient -2 *)
Lemma remquo_witness :
  remquo (some_env double RDN) 0x401c000000000000 0x4000000000000000 = Ok (0xbff0000000000000, 4) /\
  remainder (some_env double RDN) 0x401c000000000000 0x4000000000000000 = Ok 0xbff0000000000000 /\
  remquof (some_env single RZ) 0xc0a00000 0x40000000 = Ok (0xbf800000, -2) /\
  remainderf (some_env single RZ) 0xc0a00000 0x40000000 = Ok 0xbf800000.
Proof.
  apply (remquo_spec (some_env double RDN) (some_env single RZ) 0x401c000000000000 0x4000000000000000
    0xc0a00000 0x40000000); vm_compute; try split; discriminate || reflexivity.
Defined.
