(* ===== verification/FpRound.v ===== *)
(** * Rounding to integers by adding a large number

    Models [rint], [nearbyint], [round], [floor], [ceil] and the functions that
    convert their results to [long], of [lib/guest_bw/math]: they add [1/EPS],
    whose unit in the last place is one, and take it away again. The theorems
    hold in every rounding mode. *)

From S2P Require Import Prelude Fp FpBits.
#[local] Open Scope Z_scope.

Section ops.
Context (F : fmt) (E : fpenv F).
Implicit Types (x y : Z).

Definition toint : Z := Z.shiftl (bias F + mb F) (mb F).
Definition one : Z := Z.shiftl (bias F) (mb F).
Definition half : Z := Z.shiftl (bias F - 1) (mb F).
Definition neg_zero : Z := smask F.

Definition grint x : Z :=
  let e := expo F x in let s := sbit F x in
  if bias F + mb F <=? e then x else
  let y := if negb (s =? 0) then fadd E (fsub E x toint) toint
           else fsub E (fadd E x toint) toint in
  if feq (F := F) y 0 then if negb (s =? 0) then neg_zero else 0 else y.

(** Without the exception flags, which are not modelled. *)
Definition gnearbyint x : Z := grint x.

Definition ground x : Z :=
  let e := expo F x in
  let u := x in
  if bias F + mb F <=? e then x else
  let x := if negb (sbit F u =? 0) then fneg (F := F) x else x in
  if e <? bias F - 1 then fmul E 0 u else
  let y := fsub E (fsub E (fadd E x toint) toint) x in
  let y := if flt (F := F) half y then fsub E (fadd E y x) one
           else if fle (F := F) y (pack F true half) then fadd E (fadd E y x) one
           else fadd E y x in
  if negb (sbit F u =? 0) then fneg (F := F) y else y.

(** [y = int(x) - x] of [floor] and [ceil] *)
Definition int_diff x : Z :=
  if negb (sbit F x =? 0) then fsub E (fadd E (fsub E x toint) toint) x
  else fsub E (fsub E (fadd E x toint) toint) x.

Definition gfloor x : Z :=
  let e := expo F x in
  if (bias F + mb F <=? e) || feq (F := F) x 0 then x else
  let y := int_diff x in
  if e <=? bias F - 1 then if negb (sbit F x =? 0) then pack F true one else 0 else
  if flt (F := F) 0 y then fsub E (fadd E x y) one else fadd E x y.

Definition gceil x : Z :=
  let e := expo F x in
  if (bias F + mb F <=? e) || feq (F := F) x 0 then x else
  let y := int_diff x in
  if e <=? bias F - 1 then if negb (sbit F x =? 0) then neg_zero else one else
  if flt (F := F) y 0 then fadd E (fadd E x y) one else fadd E x y.

(** The conversion of a number to [long], which truncates and is undefined out
    of range. *)
Definition to_long x : result Z :=
  let v := signed (fsign F x) (mag F (fabs_bits F x) / unit_val F) in
  if is_finite F x && (- 2 ^ 63 <=? v) && (v <? 2 ^ 63) then Ok v else Fault "conversion"%string.

Definition glrint x : result Z := to_long (grint x).
Definition glround x : result Z := to_long (ground x).

End ops.

(** ** Sums of numbers as values *)

Section sums.
Context (F : fmt) `{!FmtOk F} (E : fpenv F).
Implicit Types (x y : Z).

(** A number with a value. *)
Definition has_val x v : Prop := is_word F x /\ is_finite F x = true /\ sval F x = v.

Lemma has_val_sval x : is_word F x -> is_finite F x = true -> has_val x (sval F x).
Proof. done. Qed.

Lemma has_val_word x v : has_val x v -> v <> 0 -> x = pack F (v <? 0) (enc F (Z.abs v)).
Proof.
  intros (Hx & Hf & <-) Hv. rewrite <- (word_of F x Hx) at 1. unfold sval in *.
  pose proof (fabs_bits_range F x) as [Ha _]. pose proof (mag_nonneg F _ Ha).
  destruct (fsign F x); simpl in *; f_equal; [lia|f_equal; lia|lia|f_equal; lia].
Qed.

Lemma has_val_pack s n : 0 <= n -> repr F n -> n < mag_inf F -> has_val (pack F s (enc F n)) (signed s n).
Proof.
  intros Hn Hr Hlt. pose proof (enc_bound F n Hn Hr Hlt). unfold has_val.
  split_and!; [by apply is_word_pack|by apply finite_enc|by apply sval_enc].
Qed.

Lemma has_val_neg x v : has_val x v -> has_val (fneg (F := F) x) (- v).
Proof.
  intros (Hx & Hf & <-). unfold fneg, has_val, is_finite, sval in *.
  pose proof (fabs_bits_range F x). rewrite fabs_pack, fsign_pack by done.
  split_and!; [by apply is_word_pack|done|]. destruct (fsign F x); simpl; lia.
Qed.

Lemma has_val_zero s : has_val (pack F s 0) 0.
Proof.
  pose proof (unit_pos F). pose proof (has_val_pack s 0 ltac:(done) (zero_repr F)) as H'.
  rewrite (enc_0 F) in H'. replace (signed s 0) with 0 in H' by by destruct s. apply H'.
  rewrite (mag_inf_val F). fmt_facts F. pose proof (pow2_pos (emask F - 1)). nia.
Qed.

Lemma has_val_signed v : repr F (Z.abs v) -> Z.abs v < mag_inf F -> has_val (pack F (v <? 0) (enc F (Z.abs v))) v.
Proof.
  intros Hr Hlt. pose proof (has_val_pack (v <? 0) (Z.abs v) ltac:(lia) Hr Hlt) as H.
  by replace (signed (v <? 0) (Z.abs v)) with v in H by (unfold signed; case_match; lia).
Qed.

Lemma fadd_val x y v w :
  has_val x v -> has_val y w -> repr F (Z.abs (v + w)) -> Z.abs (v + w) < mag_inf F ->
  has_val (fadd E x y) (v + w).
Proof.
  intros (Hx & Hxf & <-) (Hy & Hyf & <-) Hr Hlt. rewrite fadd_exact by done. unfold sum_word.
  destruct (Z.eqb_spec (sval F x + sval F y) 0) as [->|Hne]; [apply has_val_zero|by apply has_val_signed].
Qed.

Lemma fsub_val x y v w :
  has_val x v -> has_val y w -> repr F (Z.abs (v - w)) -> Z.abs (v - w) < mag_inf F ->
  has_val (fsub E x y) (v - w).
Proof.
  intros Hx Hy. unfold fsub. rewrite (finite_not_nan F y) by apply Hy.
  rewrite <- !Z.add_opp_r. apply fadd_val; [done|by apply has_val_neg].
Qed.

Lemma flt_val x y v w : has_val x v -> has_val y w -> flt (F := F) x y = (v <? w).
Proof.
  intros (_ & Hx & <-) (_ & Hy & <-). unfold flt. by rewrite !finite_not_nan by done.
Qed.

Lemma fle_val x y v w : has_val x v -> has_val y w -> fle (F := F) x y = (v <=? w).
Proof.
  intros (_ & Hx & <-) (_ & Hy & <-). unfold fle. by rewrite !finite_not_nan by done.
Qed.

Lemma feq_val x y v w : has_val x v -> has_val y w -> feq (F := F) x y = (v =? w).
Proof.
  intros (_ & Hx & <-) (_ & Hy & <-). unfold feq. by rewrite !finite_not_nan by done.
Qed.

End sums.

(** ** Adding and taking away [1/EPS] *)

Section core.
Context (F : fmt) `{!FmtOk F} (E : fpenv F).
Implicit Types (x y : Z).
Abbreviation B := (2 ^ mb F).
Abbreviation U := (unit_val F).
Abbreviation n_of x := (mag F (fabs_bits F x)).

Lemma pow2_val s e : 1 <= e < emask F -> has_val F (pack F s (Z.shiftl e (mb F))) (signed s (B * 2 ^ (e - 1))).
Proof.
  intros He. fmt_facts F. rewrite Z.shiftl_mul_pow2 by lia.
  assert (0 <= e * B < 2 ^ (wb F - 1)) as Hb by (rewrite wb_split by done; nia).
  unfold has_val, is_finite. rewrite (sval_pack F), fabs_pack, (mag_pow2 F) by (done || lia).
  split_and!; [by apply is_word_pack| |done]. unfold inf_bits. nia.
Qed.

Lemma toint_val : has_val F (toint F) (B * U).
Proof. fmt_facts F. unfold toint, unit_val. apply (pow2_val false). lia. Qed.

Lemma one_val : has_val F (one F) U.
Proof. fmt_facts F. rewrite unit_split by done. unfold one. apply (pow2_val false). lia. Qed.

Lemma half_val : exists h, U = 2 * h /\ forall s, has_val F (pack F s (half F)) (signed s h).
Proof.
  fmt_facts F. exists (B * 2 ^ (bias F - 1 - 1)). split; [|intros s; unfold half; apply pow2_val; lia].
  rewrite unit_split by done. replace (bias F - 1) with (bias F - 1 - 1 + 1) at 1 by lia.
  rewrite pow2_succ by lia. ring.
Qed.

(** Integers up to [2B] are numbers. *)
Lemma int_repr q : 0 <= q <= 2 * B -> repr F (q * U) /\ q * U < mag_inf F.
Proof.
  intros Hq. fmt_facts F. pose proof (unit_pos F). split; [apply repr_mul; [done|done|lia]|].
  rewrite (mag_inf_val F). assert (2 * U < 2 ^ (emask F - 1)); [|nia].
  unfold unit_val. rewrite <- pow2_succ by lia. apply Z.pow_lt_mono_r; lia.
Qed.

Lemma signed_abs s n : 0 <= n -> Z.abs (signed s n) = n.
Proof. destruct s; simpl; lia. Qed.

(** The rounding of the sum is the rounding to an integer. *)
Lemma add_toint x t s n :
  has_val F x (signed s n) -> has_val F t (signed s (B * U)) -> 0 <= n < B * U ->
  has_val F (fadd E x t) (signed s ((B + rdiv (rm E) s n U) * U)) /\ 0 <= rdiv (rm E) s n U <= B.
Proof.
  intros (Hx & Hxf & Hxv) (Ht & Htf & Htv) Hn. fmt_facts F. pose proof (unit_pos F) as Hu.
  assert (0 <= rdiv (rm E) s n U <= B) as Hq.
  { pose proof (rdiv_range (rm E) s n U). assert (0 <= n / U) by (apply Z.div_pos; lia).
    assert (n / U < B) by (apply Z.div_lt_upper_bound; lia). lia. }
  split; [|done]. unfold fadd. rewrite !finite_not_nan, Hxf, Htf, Hxv, Htv by done. simpl.
  replace (signed s n + signed s (B * U)) with (signed s (n + B * U)) by (destruct s; simpl; lia).
  destruct (Z.eqb_spec (signed s (n + B * U)) 0) as [He|_]; [destruct s; simpl in He; nia|].
  rewrite signed_abs by nia. replace (signed s (n + B * U) <? 0) with s by (destruct s; simpl; nia).
  unfold fround. rewrite Z.div_1_r, Z.mul_1_l.
  assert (Z.log2 (n + B * U) = mb F + (bias F + mb F - 1)) as ->.
  { apply log2_range; [lia|]. rewrite pow2_succ, pow2_split by lia. fold U. lia. }
  rewrite Z.max_r by lia. replace (mb F + (bias F + mb F - 1) - mb F) with (bias F + mb F - 1) by lia.
  fold U. assert (Z.even B = true) as Hev.
  { replace (mb F) with (mb F - 1 + 1) by lia. rewrite pow2_succ by lia. by rewrite Z.even_mul. }
  rewrite rdiv_add by done. destruct (int_repr (B + rdiv (rm E) s n U)) as [Hr Hlt]; [lia|].
  destruct (Z.leb_spec (mag_inf F) ((B + rdiv (rm E) s n U) * U)); [lia|].
  apply has_val_pack; [done|nia|done..].
Qed.

(** The integer that [rint], [floor] and [ceil] take, and [round] for a number
    without its sign. *)
Abbreviation near s x := (rdiv (rm E) s (n_of x) U).

Lemma add_sub_toint x s :
  is_word F x -> fexp F x < bias F + mb F -> fsign F x = s ->
  has_val F (if s then fadd E (fsub E x (toint F)) (toint F) else fsub E (fadd E x (toint F)) (toint F))
    (signed s (near s x * U)) /\ 0 <= near s x <= B.
Proof.
  intros Hx He Hs. fmt_facts F. assert (is_finite F x = true) as Hf by (apply exp_finite; [done|lia]).
  apply (below_exp F) in He; [|lia]. fold U in He. pose proof (mag_finite F x Hf).
  pose proof toint_val as Ht.
  assert (has_val F x (signed s (n_of x))) as Hv by (unfold has_val, sval; by rewrite Hs).
  assert (forall t, has_val F t (signed s (B * U)) ->
    has_val F (fadd E x t) (signed s ((B + near s x) * U)) /\ 0 <= near s x <= B) as Hadd.
  { intros t Ht'. apply add_toint; [done..|]. lia. }
  destruct s.
  - assert (has_val F (fneg (F := F) (toint F)) (signed true (B * U))) as Hnt by by apply has_val_neg.
    destruct (Hadd _ Hnt) as [Hsum Hq]. split; [|done]. destruct (int_repr (near true x)) as [Hr Hlt]; [lia|].
    unfold fsub. rewrite (finite_not_nan F (toint F)) by apply Ht.
    replace (signed true (near true x * U)) with (signed true ((B + near true x) * U) + B * U) by (simpl; lia).
    apply fadd_val; [done..| |]; replace (Z.abs _) with (near true x * U) by (simpl; nia); done.
  - destruct (Hadd _ Ht) as [Hsum Hq]. split; [|done]. destruct (int_repr (near false x)) as [Hr Hlt]; [lia|].
    replace (signed false (near false x * U)) with (signed false ((B + near false x) * U) - B * U) by (simpl; lia).
    apply fsub_val; [done..| |]; replace (Z.abs _) with (near false x * U) by (simpl; nia); done.
Qed.

Lemma zero_val : has_val F 0 0.
Proof. apply (has_val_zero F false). Qed.

Lemma sbit_test x : is_word F x -> negb (sbit F x =? 0) = fsign F x.
Proof. intros Hx. rewrite (sbit_spec F x Hx). by destruct (fsign F x). Qed.

Lemma large_rdiv x m s : bias F + mb F <= fexp F x -> rdiv m s (n_of x) U * U = n_of x.
Proof.
  intros He. destruct (large_integral F x He) as [q ->]. by rewrite rdiv_exact by by apply unit_pos.
Qed.

(** [rint] rounds to an integer as the rounding mode says. *)
Theorem grint_spec x :
  is_word F x ->
  grint F E x = if is_finite F x then pack F (fsign F x) (enc F (near (fsign F x) x * U)) else x.
Proof.
  intros Hx. fmt_facts F. unfold grint. rewrite expo_spec, sbit_test by done. cbv zeta.
  destruct (Z.leb_spec (bias F + mb F) (fexp F x)) as [Hge|Hlt].
  { rewrite large_rdiv, word_of by done. by case_match. }
  assert (is_finite F x = true) as -> by (apply exp_finite; [done|lia]).
  destruct (add_sub_toint x (fsign F x) Hx Hlt eq_refl) as [Hy Hq]. pose proof (unit_pos F).
  rewrite (feq_val F _ _ _ _ Hy zero_val). destruct (Z.eqb_spec (signed (fsign F x) (near (fsign F x) x * U)) 0) as [Hz|Hz].
  - assert (near (fsign F x) x = 0) as -> by (destruct (fsign F x); simpl in Hz; nia).
    rewrite Z.mul_0_l, (enc_0 F). unfold neg_zero, smask, pack.
    destruct (fsign F x); [|done]. rewrite Z.shiftl_mul_pow2, Z.mul_1_l, Z.add_0_r by (unfold wb; lia). done.
  - apply (has_val_word F _ _ Hy) in Hz as Hw. etrans; [exact Hw|].
    rewrite signed_abs by nia. f_equal. destruct (fsign F x); simpl in *; nia.
Qed.

(** ** Differences from an integer nearby *)

Lemma diff_repr n q :
  0 <= n < B * U -> repr F n -> U <= 2 * n -> n / U <= q <= n / U + 1 ->
  repr F (Z.abs (q * U - n)) /\ Z.abs (q * U - n) <= n /\ Z.abs (q * U - n) <= U.
Proof.
  intros Hn Hr H2 Hq. fmt_facts F. pose proof (unit_pos F) as Hu.
  pose proof (Z.div_mod n U ltac:(lia)) as Hd. pose proof (Z.mod_pos_bound n U Hu) as Hm.
  assert (0 <= n / U) by (apply Z.div_pos; lia).
  assert (Z.abs (q * U - n) <= n /\ Z.abs (q * U - n) <= U) as [Hle Hle'].
  { assert (q = n / U \/ q = n / U + 1) as [-> | ->] by lia; [nia|].
    destruct (decide (n / U = 0)) as [Hz|]; [rewrite Hz in *; lia|]. nia. }
  split_and!; [|done|done]. apply (repr_lexp F n); [lia|lia|].
  apply Z.divide_abs_r, Z.divide_sub_r; [apply Z.divide_mul_r|apply lexp_divide; [done|lia|done]].
  destruct (pow2_le (lexp F n) (bias F + mb F - 1)) as (k & _ & Hk); [|exists k; exact Hk].
  unfold lexp. split; [lia|]. apply Z.max_lub; [lia|].
  enough (Z.log2 n < mb F + (bias F + mb F - 1)) by lia. apply Z.log2_lt_pow2; [lia|].
  rewrite pow2_split by lia. fold U. lia.
Qed.

Lemma number_below x : is_word F x -> fexp F x < bias F + mb F ->
  has_val F x (signed (fsign F x) (n_of x)) /\ repr F (n_of x) /\ 0 <= n_of x < B * U.
Proof.
  intros Hx He. fmt_facts F. assert (is_finite F x = true) as Hf by (apply exp_finite; [done|lia]).
  apply (below_exp F) in He; [|lia]. fold U in He. pose proof (mag_finite F x Hf).
  pose proof (fabs_bits_range F x) as [Ha _]. pose proof (mag_repr F _ Ha). split_and!; [done|done|lia|lia].
Qed.

(** [int(x) - x], and [x] added to it. *)
Lemma diff_val y x s n q :
  has_val F x (signed s n) -> repr F n -> 0 <= n < B * U -> has_val F y (signed s (q * U)) ->
  U <= 2 * n -> n / U <= q <= n / U + 1 -> q <= B ->
  has_val F (fsub E y x) (signed s (q * U - n)) /\
  has_val F (fadd E x (fsub E y x)) (signed s (q * U)) /\
  has_val F (fadd E (fsub E y x) x) (signed s (q * U)).
Proof.
  intros Hx Hr Hn Hy H2 Hq HqB. pose proof (unit_pos F) as Hu.
  destruct (diff_repr n q Hn Hr H2 Hq) as (Hdr & Hle & _).
  assert (0 <= n / U) by (apply Z.div_pos; lia). destruct (int_repr q) as [Hqr Hqlt]; [lia|].
  assert (n < mag_inf F) as Hninf.
  { destruct (int_repr B) as [_ HB]; [lia|]. lia. }
  assert (has_val F (fsub E y x) (signed s (q * U - n))) as Hd.
  { replace (signed s (q * U - n)) with (signed s (q * U) - signed s n) by (destruct s; simpl; lia).
    apply fsub_val; [done..| |]; replace (Z.abs (signed s (q * U) - signed s n)) with (Z.abs (q * U - n))
      by (destruct s; simpl; lia); [done|lia]. }
  split_and!; [done| |].
  - replace (signed s (q * U)) with (signed s n + signed s (q * U - n)) by (destruct s; simpl; lia).
    apply fadd_val; [done..| |]; replace (Z.abs _) with (q * U) by (destruct s; simpl; nia); done.
  - replace (signed s (q * U)) with (signed s (q * U - n) + signed s n) by (destruct s; simpl; lia).
    apply fadd_val; [done..| |]; replace (Z.abs _) with (q * U) by (destruct s; simpl; nia); done.
Qed.

Lemma near_cases m s n : 0 <= n ->
  n / U <= rdiv m s n U <= n / U + 1 /\ (n mod U = 0 -> rdiv m s n U = n / U).
Proof.
  intros Hn. pose proof (unit_pos F). split; [apply rdiv_range|]. intros Hm.
  pose proof (Z.div_mod n U ltac:(lia)) as Hd. rewrite Hd at 1. rewrite Hm, Z.add_0_r, Z.mul_comm.
  by apply rdiv_exact.
Qed.

(** One more or less. *)
Lemma add_one x s q : has_val F x (signed s (q * U)) -> 0 <= q <= B ->
  has_val F (fadd E x (one F)) (signed s (q * U) + U) /\ has_val F (fsub E x (one F)) (signed s (q * U) - U).
Proof.
  intros Hx Hq. fmt_facts F. pose proof (unit_pos F).
  assert (forall k, -1 <= k <= B + 1 -> repr F (Z.abs (k * U)) /\ Z.abs (k * U) < mag_inf F) as Hk.
  { intros k Hk. replace (Z.abs (k * U)) with (Z.abs k * U) by nia. apply int_repr. lia. }
  split.
  - apply fadd_val; [done|done|apply one_val|..];
      replace (Z.abs (signed s (q * U) + U)) with (Z.abs ((if s then q - 1 else q + 1) * U))
        by (destruct s; simpl; lia); apply Hk; destruct s; lia.
  - apply fsub_val; [done|done|apply one_val|..];
      replace (Z.abs (signed s (q * U) - U)) with (Z.abs ((if s then q + 1 else q - 1) * U))
        by (destruct s; simpl; lia); apply Hk; destruct s; lia.
Qed.

Lemma int_diff_val x :
  is_word F x -> bias F <= fexp F x < bias F + mb F ->
  has_val F (int_diff F E x) (signed (fsign F x) (near (fsign F x) x * U - n_of x)) /\
  has_val F (fadd E x (int_diff F E x)) (signed (fsign F x) (near (fsign F x) x * U)) /\
  0 <= near (fsign F x) x <= B /\ U <= n_of x.
Proof.
  intros Hx He. destruct (number_below x Hx ltac:(lia)) as (Hv & Hr & Hn).
  destruct (add_sub_toint x (fsign F x) Hx ltac:(lia) eq_refl) as [Hy Hq].
  assert (U <= n_of x) as Hu by (pose proof (below_one F x); lia).
  destruct (near_cases (rm E) (fsign F x) (n_of x)) as [Hc _]; [lia|].
  unfold int_diff. rewrite sbit_test by done.
  destruct (diff_val _ x (fsign F x) (n_of x) (near (fsign F x) x) Hv Hr Hn Hy) as (Hd & Hs & _); [lia..|].
  by destruct (fsign F x).
Qed.

(** The word of an integral part that is not zero. *)
Lemma int_part_word y x away :
  has_val F y (signed (fsign F x) (int_part F away (n_of x))) -> U <= n_of x ->
  y = pack F (fsign F x) (enc F (int_part F away (n_of x))).
Proof.
  intros Hy Hu. pose proof (unit_pos F).
  assert (U <= int_part F away (n_of x)) as Hi.
  { unfold int_part. assert (1 <= n_of x / U) by (apply Z.div_le_lower_bound; lia).
    destruct away; [|nia]. destruct (decide (n_of x mod U = 0)) as [Hm|Hm].
    - pose proof (Z.div_mod (n_of x) U). replace (n_of x) with (n_of x / U * U) by lia.
      rewrite cdiv_exact by lia. nia.
    - rewrite cdiv_up by done. nia. }
  etrans; [apply (has_val_word F _ _ Hy); destruct (fsign F x); simpl; lia|].
  rewrite signed_abs by lia. f_equal. destruct (fsign F x); simpl; lia.
Qed.

(** The integer next to the one that was found. *)
Lemma int_part_near away m s n : 0 <= n ->
  int_part F away n =
  let q := rdiv m s n U in
  (if away then if q * U <? n then q + 1 else q else if n <? q * U then q - 1 else q) * U.
Proof.
  intros Hn. pose proof (unit_pos F). destruct (near_cases m s n Hn) as [Hc He].
  pose proof (Z.div_mod n U ltac:(lia)) as Hd. pose proof (Z.mod_pos_bound n U ltac:(lia)) as Hm.
  unfold int_part. cbv zeta. set (q := rdiv m s n U) in *. f_equal. destruct (decide (n mod U = 0)) as [Hz|Hz].
  - specialize (He Hz). rewrite Hz, Z.add_0_r, Z.mul_comm in Hd. rewrite He, <- Hd, Z.ltb_irrefl.
    destruct away; [|done]. rewrite Hd at 1. by rewrite cdiv_exact.
  - destruct away; [rewrite cdiv_up by done|].
    + destruct (Z.ltb_spec (q * U) n); nia.
    + destruct (Z.ltb_spec n (q * U)); nia.
Qed.

Lemma small_finite x : is_word F x -> fexp F x < bias F + mb F -> is_finite F x = true.
Proof. intros Hx He. fmt_facts F. apply exp_finite; [done|lia]. Qed.

(** The branches of [floor] and [ceil] that do not compute. *)
Lemma floor_early x away :
  is_word F x -> (bias F + mb F <=? fexp F x) || feq (F := F) x 0 = true ->
  x = if is_finite F x then pack F (fsign F x) (enc F (int_part F away (n_of x))) else x.
Proof.
  intros Hx Hc. destruct (is_finite F x) eqn:Hf; [|done]. pose proof (unit_pos F).
  rewrite (int_part_exact F); [by rewrite word_of|]. apply orb_true_iff in Hc as [Hge|Hz].
  - apply Z.leb_le in Hge. destruct (large_integral F x Hge) as [q ->]. apply Z.mod_mul. lia.
  - rewrite (feq_val F x 0 (sval F x) 0) in Hz by (done || apply zero_val).
    unfold sval in Hz. assert (n_of x = 0) as -> by (destruct (fsign F x); simpl in Hz; lia). done.
Qed.

Lemma floor_small x away :
  is_word F x -> fexp F x < bias F -> feq (F := F) x 0 = false ->
  pack F (fsign F x) (enc F (int_part F away (n_of x))) =
  pack F (fsign F x) (if away then one F else 0).
Proof.
  intros Hx He Hz. fmt_facts F. pose proof (small_finite x Hx ltac:(lia)) as Hf.
  rewrite (feq_val F x 0 (sval F x) 0) in Hz by (done || apply zero_val).
  apply (below_one F) in He. pose proof (mag_finite F x Hf).
  rewrite (int_part_small F); [|unfold sval in Hz; destruct (fsign F x); simpl in Hz; lia].
  destruct away; [|by rewrite (enc_0 F)]. f_equal.
  pose proof (has_val_word F _ _ one_val) as Hw. pose proof (unit_pos F).
  rewrite Z.abs_eq in Hw by lia. rewrite Hw by lia. by replace (U <? 0) with false by lia.
Qed.

(** [floor] rounds down. *)
Theorem gfloor_spec x :
  is_word F x ->
  gfloor F E x =
  if is_finite F x then pack F (fsign F x) (enc F (int_part F (fsign F x) (n_of x))) else x.
Proof.
  intros Hx. unfold gfloor. rewrite expo_spec, sbit_test by done. cbv zeta.
  destruct ((bias F + mb F <=? fexp F x) || feq x 0) eqn:Hc; [by apply floor_early|].
  apply orb_false_iff in Hc as [Hlt%Z.leb_gt Hz]. rewrite (small_finite x) by done.
  destruct (Z.leb_spec (fexp F x) (bias F - 1)) as [Hs|Hs].
  { rewrite floor_small by (done || lia). by destruct (fsign F x). }
  destruct (int_diff_val x Hx ltac:(lia)) as (Hd & Hsum & Hq & Hu). pose proof (unit_pos F).
  rewrite (flt_val F _ _ _ _ zero_val Hd). destruct (add_one _ _ _ Hsum Hq) as [_ Hsub].
  assert (0 <= n_of x) as Hn by lia.
  pose proof (int_part_near (fsign F x) (rm E) (fsign F x) (n_of x) Hn) as Hi. cbv zeta in Hi.
  destruct (Z.ltb_spec 0 (signed (fsign F x) (near (fsign F x) x * U - n_of x))) as [Hlt0|Hge0];
    apply int_part_word; try done; rewrite Hi; clear Hi; revert Hsum Hsub Hlt0 || revert Hsum Hsub Hge0;
    destruct (fsign F x); simpl; intros Hsum Hsub Hcmp; case_match eqn:Hcase; try lia; try done.
  - by replace (- ((near true x + 1) * U)) with (- (near true x * U) - U) by lia.
  - by replace ((near false x - 1) * U) with (near false x * U - U) by lia.
Qed.

(** [ceil] rounds up. *)
Theorem gceil_spec x :
  is_word F x ->
  gceil F E x =
  if is_finite F x then pack F (fsign F x) (enc F (int_part F (negb (fsign F x)) (n_of x))) else x.
Proof.
  intros Hx. fmt_facts F. unfold gceil. rewrite expo_spec, sbit_test by done. cbv zeta.
  destruct ((bias F + mb F <=? fexp F x) || feq x 0) eqn:Hc; [by apply floor_early|].
  apply orb_false_iff in Hc as [Hlt%Z.leb_gt Hz]. rewrite (small_finite x) by done.
  destruct (Z.leb_spec (fexp F x) (bias F - 1)) as [Hs|Hs].
  { rewrite floor_small by (done || lia). destruct (fsign F x); [|done]. simpl.
    unfold neg_zero, smask, pack. rewrite Z.shiftl_mul_pow2 by (unfold wb; lia). lia. }
  destruct (int_diff_val x Hx ltac:(lia)) as (Hd & Hsum & Hq & Hu). pose proof (unit_pos F).
  rewrite (flt_val F _ _ _ _ Hd zero_val). destruct (add_one _ _ _ Hsum Hq) as [Hadd _].
  assert (0 <= n_of x) as Hn by lia.
  pose proof (int_part_near (negb (fsign F x)) (rm E) (fsign F x) (n_of x) Hn) as Hi. cbv zeta in Hi.
  destruct (Z.ltb_spec (signed (fsign F x) (near (fsign F x) x * U - n_of x)) 0) as [Hlt0|Hge0];
    apply int_part_word; try done; rewrite Hi; clear Hi; revert Hsum Hadd Hlt0 || revert Hsum Hadd Hge0;
    destruct (fsign F x); simpl; intros Hsum Hadd Hcmp; case_match eqn:Hcase; try lia; try done.
  - by replace (- ((near true x - 1) * U)) with (- (near true x * U) + U) by lia.
  - by replace ((near false x + 1) * U) with (near false x * U + U) by lia.
Qed.

(** The nearest integer, away from zero if there are two. *)
Definition near_away (n : Z) : Z := (2 * n + U) / (2 * U).

Lemma near_away_spec n q : 0 <= n -> 2 * q * U <= 2 * n + U < 2 * (q + 1) * U -> near_away n = q.
Proof.
  intros Hn Hq. symmetry. apply (Z.div_unique_pos _ _ _ (2 * n + U - 2 * q * U)); [|ring].
  pose proof (unit_pos F). lia.
Qed.

(** [y = x + toint - toint - x], corrected by one where it is not the nearest. *)
Lemma round_fix x y n q :
  has_val F x n -> repr F n -> U <= 2 * n -> 0 <= n < B * U -> has_val F y (q * U) ->
  n / U <= q <= n / U + 1 -> q <= B ->
  let d := fsub E y x in
  has_val F (if flt (F := F) (half F) d then fsub E (fadd E d x) (one F)
             else if fle (F := F) d (pack F true (half F)) then fadd E (fadd E d x) (one F)
             else fadd E d x) (near_away n * U).
Proof.
  intros Hx Hr H2 Hn Hy Hc HqB d. pose proof (unit_pos F) as Hu.
  destruct (diff_val y x false n q Hx Hr Hn Hy H2 Hc HqB) as (Hd & _ & Hs). fold d in Hd, Hs. simpl in Hd.
  destruct half_val as (h & Hh & Hhv). pose proof (Hhv false) as Hph. pose proof (Hhv true) as Hnh.
  simpl in Hnh, Hph. change (pack F false (half F)) with (half F) in Hph.
  pose proof (Z.div_mod n U ltac:(lia)) as Hdm. pose proof (Z.mod_pos_bound n U Hu) as Hm.
  assert (0 <= n / U) by (apply Z.div_pos; lia).
  destruct (add_one _ false q Hs ltac:(lia)) as [Ha Hb]. simpl in Ha, Hb, Hs.
  rewrite (flt_val F _ _ _ _ Hph Hd), (fle_val F _ _ _ _ Hd Hnh).
  destruct (Z.ltb_spec h (q * U - n)) as [H1|H1]; [|destruct (Z.leb_spec (q * U - n) (- h)) as [H3|H3]].
  - rewrite (near_away_spec n (q - 1)) by nia. by replace ((q - 1) * U) with (q * U - U) by lia.
  - rewrite (near_away_spec n (q + 1)) by nia. by replace ((q + 1) * U) with (q * U + U) by lia.
  - by rewrite (near_away_spec n q) by nia.
Qed.

(** [round] rounds to the nearest integer and halves away from zero, in every
    rounding mode. *)
Theorem ground_spec x :
  is_word F x ->
  ground F E x = if is_finite F x then pack F (fsign F x) (enc F (near_away (n_of x) * U)) else x.
Proof.
  intros Hx. fmt_facts F. pose proof (unit_pos F) as Hu. unfold ground. rewrite expo_spec, sbit_test by done. cbv zeta.
  destruct (Z.leb_spec (bias F + mb F) (fexp F x)) as [Hge|Hlt].
  { destruct (large_integral F x Hge) as [q Hq]. destruct (is_finite F x) eqn:Hf; [|done].
    pose proof (mag_finite F x Hf). rewrite (near_away_spec _ q), <- Hq, word_of by (done || nia). done. }
  destruct (number_below x Hx Hlt) as (Hv & Hr & Hn). pose proof (small_finite x Hx Hlt) as Hf. rewrite Hf.
  assert (fexp F x < bias F - 1 <-> 2 * n_of x < U) as Hhalf.
  { rewrite (below_exp F), unit_split by (done || lia). replace (bias F - 1) with (bias F - 1 - 1 + 1) at 2 by lia.
    rewrite pow2_succ by lia. lia. }
  destruct (Z.ltb_spec (fexp F x) (bias F - 1)) as [Hs|Hs].
  { rewrite fmul_zero, (near_away_spec _ 0), Z.mul_0_l, (enc_0 F) by (done || lia). done. }
  pose proof (fabs_bits_range F x) as Ha. pose proof (abs_word F x Hx) as Hab. rewrite sbit_test in Hab by done.
  rewrite Hab. set (a := pack F false (fabs_bits F x)).
  assert (is_word F a) as Hwa by by apply is_word_pack.
  assert (fabs_bits F a = fabs_bits F x) as Haa by by apply fabs_pack.
  assert (fexp F a = fexp F x) as Hea by (unfold fexp; by rewrite Haa).
  assert (fsign F a = false) as Hsa by by apply fsign_pack.
  destruct (add_sub_toint a false Hwa ltac:(lia) Hsa) as [Hy HqB].
  destruct (number_below a Hwa ltac:(lia)) as (Hva & _ & _). rewrite Hsa in Hva. rewrite Haa in *.
  destruct (near_cases (rm E) false (n_of x) ltac:(lia)) as [Hc _].
  pose proof (round_fix a _ (n_of x) (rdiv (rm E) false (n_of x) U) Hva Hr ltac:(lia) Hn Hy Hc ltac:(lia)) as Hfix.
  cbv zeta in Hfix. set (y := if flt _ _ then _ else _) in *.
  assert (1 <= near_away (n_of x)) as H1 by (apply Z.div_le_lower_bound; lia).
  pose proof (has_val_word F _ _ Hfix ltac:(nia)) as Hw. rewrite Z.abs_eq in Hw by nia.
  replace (near_away (n_of x) * U <? 0) with false in Hw by nia.
  destruct (fsign F x); [|exact Hw]. apply has_val_neg in Hfix; [|done].
  pose proof (has_val_word F _ _ Hfix ltac:(nia)) as Hw'. rewrite Z.abs_opp, Z.abs_eq in Hw' by nia.
  by replace (- (near_away (n_of x) * U) <? 0) with true in Hw' by nia.
Qed.

(** ** Conversions *)

Lemma to_long_spec s q :
  0 <= q -> repr F (q * U) -> q * U < mag_inf F -> - 2 ^ 63 <= signed s q < 2 ^ 63 ->
  to_long F (pack F s (enc F (q * U))) = Ok (signed s q).
Proof.
  intros Hq Hr Hlt Hs. pose proof (unit_pos F). unfold to_long.
  pose proof (enc_bound F (q * U) ltac:(nia) Hr Hlt) as Hb.
  rewrite finite_enc, fsign_pack, fabs_pack, mag_enc, Z.div_mul by (done || nia).
  destruct (Z.leb_spec (- 2 ^ 63) (signed s q)); [|lia].
  by destruct (Z.ltb_spec (signed s q) (2 ^ 63)); [|lia].
Qed.

(** An integer next to a number, and the number itself if it has no fraction. *)
Lemma near_repr x q :
  is_word F x -> is_finite F x = true -> n_of x / U <= q <= n_of x / U + 1 ->
  (n_of x mod U = 0 -> q = n_of x / U) ->
  0 <= q /\ repr F (q * U) /\ q * U < mag_inf F.
Proof.
  intros Hx Hf Hq He. fmt_facts F. pose proof (unit_pos F). pose proof (mag_finite F x Hf) as Hfin.
  assert (0 <= n_of x / U) by (apply Z.div_pos; lia). split; [lia|].
  destruct (Z.le_gt_cases (bias F + mb F) (fexp F x)) as [Hge|Hlt].
  - destruct (large_integral F x Hge) as [k Hk]. rewrite He by (rewrite Hk; apply Z.mod_mul; lia).
    rewrite Hk, Z.div_mul, <- Hk by lia. split; [apply mag_repr; [done|apply fabs_bits_range; done]|lia].
  - destruct (number_below x Hx Hlt) as (_ & _ & Hn). apply int_repr.
    assert (n_of x / U < B) by (apply Z.div_lt_upper_bound; lia). lia.
Qed.

(** [lrint] and [lround] give the integer, if it fits. *)
Theorem glrint_spec x :
  is_word F x -> is_finite F x = true ->
  let v := signed (fsign F x) (near (fsign F x) x) in
  - 2 ^ 63 <= v < 2 ^ 63 -> glrint F E x = Ok v.
Proof.
  intros Hx Hf v Hv. unfold glrint. rewrite grint_spec, Hf by done. pose proof (mag_finite F x Hf).
  destruct (near_cases (rm E) (fsign F x) (n_of x) ltac:(lia)) as [Hc He].
  destruct (near_repr x _ Hx Hf Hc He) as (Hq & Hr & Hlt). by apply to_long_spec.
Qed.

Theorem glround_spec x :
  is_word F x -> is_finite F x = true ->
  let v := signed (fsign F x) (near_away (n_of x)) in
  - 2 ^ 63 <= v < 2 ^ 63 -> glround F E x = Ok v.
Proof.
  intros Hx Hf v Hv. unfold glround. rewrite ground_spec, Hf by done. pose proof (mag_finite F x Hf) as [Hn _].
  pose proof (unit_pos F) as Hu. pose proof (Z.div_mod (n_of x) U ltac:(lia)) as Hd.
  pose proof (Z.mod_pos_bound (n_of x) U Hu) as Hm.
  destruct (near_repr x (near_away (n_of x)) Hx Hf) as (Hq & Hr & Hlt).
  - destruct (Z.lt_ge_cases (2 * (n_of x mod U)) U).
    + rewrite (near_away_spec (n_of x) (n_of x / U)); nia.
    + rewrite (near_away_spec (n_of x) (n_of x / U + 1)); nia.
  - intros Hz. apply near_away_spec; nia.
  - by apply to_long_spec.
Qed.

(** ** [modf] *)

Lemma modf_frac x a :
  is_word F x -> bias F <= fexp F x < bias F + mb F -> n_of x mod U <> 0 ->
  has_val F a (signed (fsign F x) (n_of x / U * U)) ->
  fsub E x a = pack F (fsign F x) (enc F (n_of x mod U)).
Proof.
  intros Hx He Hm Ha. destruct (number_below x Hx ltac:(lia)) as (Hv & Hr & Hb). pose proof (unit_pos F) as Hu.
  assert (U <= n_of x) as HU by (pose proof (below_one F x); lia).
  destruct (diff_repr (n_of x) (n_of x / U) Hb Hr ltac:(lia) ltac:(lia)) as (Hdr & Hle & _).
  pose proof (Z.div_mod (n_of x) U ltac:(lia)) as Hdm. pose proof (Z.mod_pos_bound (n_of x) U Hu) as Hmb.
  pose proof (mag_finite F x (small_finite x Hx ltac:(lia))).
  replace (Z.abs (n_of x / U * U - n_of x)) with (n_of x mod U) in Hdr by lia.
  assert (has_val F (fsub E x a) (signed (fsign F x) (n_of x mod U))) as Hd.
  { replace (signed (fsign F x) (n_of x mod U)) with
      (signed (fsign F x) (n_of x) - signed (fsign F x) (n_of x / U * U)) by (destruct (fsign F x); simpl; lia).
    apply fsub_val; [done..| |]; replace (Z.abs _) with (n_of x mod U) by (destruct (fsign F x); simpl; lia); [done|lia]. }
  etrans; [apply (has_val_word F _ _ Hd); destruct (fsign F x); simpl; lia|].
  rewrite signed_abs by lia. f_equal. destruct (fsign F x); simpl; lia.
Qed.

(** The integral part is that of [trunc]; the fraction is exact and both have the
    sign of [x]. *)
Theorem gmodf_spec x :
  is_word F x -> is_nan F x = false ->
  gmodf F E x =
  (gtrunc F x, pack F (fsign F x) (if is_finite F x then enc F (n_of x mod U) else 0)).
Proof.
  intros Hx Hn. fmt_facts F. pose proof (fexp_range F x) as Her. pose proof (unit_pos F) as Hu.
  rewrite trunc_spec by done. unfold gmodf. rewrite expo_spec, shl_frac, (land_smask F x Hx) by done. cbv zeta.
  destruct (Z.leb_spec (mb F) (fexp F x - bias F)) as [Hbig|Hsmall].
  { destruct (is_finite F x) eqn:Hf.
    - destruct (large_integral F x ltac:(lia)) as [q Hq]. rewrite (int_part_exact F), word_of by (rewrite ?Hq, ?Z.mod_mul; (done || lia)).
      rewrite Hq, Z.mod_mul, (enc_0 F) by lia. apply exp_finite in Hf; [|done].
      by destruct (Z.eqb_spec (fexp F x - bias F) (bias F + 1)); [lia|].
    - unfold is_nan, is_finite, inf_bits in *. pose proof (abs_fields F x). pose proof (ffrac_range F x).
      assert (fexp F x = emask F) as Hem by nia. assert (ffrac F x = 0) as -> by (rewrite Hem in *; lia). rewrite Z.mul_0_l, Z.eqb_refl, andb_false_r. done. }
  rewrite (small_finite x) by (done || lia). destruct (number_below x Hx ltac:(lia)) as (Hv & Hr & Hb).
  destruct (Z.ltb_spec (fexp F x - bias F) 0) as [Hlt|Hge].
  { assert (n_of x < U) by (apply below_one; [done|lia]). unfold int_part.
    rewrite Z.div_small, Z.mod_small, Z.mul_0_l, (enc_0 F), word_of by (done || lia). done. }
  set (k := bias F + mb F - fexp F x). rewrite (shiftr_ones F) by (unfold wb; lia).
  assert (Z.shiftr (Z.ones (wb F - (eb F + 1))) (fexp F x - bias F) = Z.ones k) as ->.
  { apply Z.bits_inj'. intros i Hi. rewrite Z.shiftr_spec, !Z.testbit_ones by (unfold wb; lia). unfold wb, k. lia. }
  destruct (low_bits F x k) as (Hlo & _ & Hz & H0 & _); [done|lia|].
  rewrite Z.land_ones, (land_clear F), (clear_pack F) by (done || lia).
  unfold int_part. rewrite <- Hlo, enc_mag by done.
  assert (x mod 2 ^ k = fabs_bits F x mod 2 ^ k) as ->.
  { pose proof (clear_pack F x k Hx ltac:(lia)). pose proof (pack_word F x Hx). unfold pack in *. lia. }
  destruct (Z.eqb_spec (fabs_bits F x mod 2 ^ k) 0) as [Hmz|Hmz].
  - rewrite Hmz, Z.sub_0_r, pack_word by done. rewrite (proj1 Hz Hmz), (enc_0 F). done.
  - f_equal. destruct (near_repr x (n_of x / U) Hx (small_finite x Hx ltac:(lia)) ltac:(lia) ltac:(done)) as (Hq0 & Hqr & Hqf).
    pose proof (has_val_pack F (fsign F x) (n_of x / U * U) ltac:(nia) Hqr Hqf) as Hint.
    rewrite <- Hlo, enc_mag in Hint by done. rewrite Hlo in Hint. apply modf_frac; [done|lia|tauto|done].
Qed.

End core.


(** ** [double] and [float] *)

Definition rint (E : fpenv double) := grint double E.
Definition rintf (E : fpenv single) := grint single E.
Definition nearbyint (E : fpenv double) := gnearbyint double E.
Definition nearbyintf (E : fpenv single) := gnearbyint single E.
Definition round (E : fpenv double) := ground double E.
Definition roundf (E : fpenv single) := ground single E.
Definition floor (E : fpenv double) := gfloor double E.
Definition ceil (E : fpenv double) := gceil double E.
Definition lrint (E : fpenv double) := glrint double E.
Definition lrintf (E : fpenv single) := glrint single E.
Definition llrint (E : fpenv double) := glrint double E.
Definition llrintf (E : fpenv single) := glrint single E.
Definition lround (E : fpenv double) := glround double E.
Definition lroundf (E : fpenv single) := glround single E.
Definition llround (E : fpenv double) := glround double E.
Definition llroundf (E : fpenv single) := glround single E.
Definition trunc := gtrunc double.
Definition truncf := gtrunc single.
Definition modf (E : fpenv double) := gmodf double E.
Definition modff (E : fpenv single) := gmodf single E.

(** The integral part of a signed number. *)
Lemma int_part_floor F `{!FmtOk F} s n : 0 <= n ->
  int_part F s n = Z.abs (signed s n / unit_val F * unit_val F) /\
  int_part F (negb s) n = Z.abs (cdiv (signed s n) (unit_val F) * unit_val F) /\
  int_part F false n = Z.abs (Z.quot (signed s n) (unit_val F) * unit_val F).
Proof.
  intros Hn. pose proof (unit_pos F) as Hu. unfold int_part, cdiv.
  assert (0 <= n / unit_val F) by (apply Z.div_pos; lia).
  assert ((- n) / unit_val F <= 0) by (apply Z.div_le_upper_bound; lia).
  destruct s; simpl; split_and!; rewrite ?Z.opp_involutive, ?Z.quot_opp_l, ?Z.quot_div_nonneg by lia; nia.
Qed.

(** What the functions do to the value [v]: towards zero, down, up, to the
    nearest with halves away from zero, and as the mode says. The sign stays,
    also that of a zero. *)
Definition rounds_ok (F : fmt) (m : rmode) (x t f c r i : Z) : Prop :=
  let v := sval F x in let u := unit_val F in
  let word q := pack F (fsign F x) (enc F (Z.abs (q * u))) in
  t = word (Z.quot v u) /\ f = word (v / u) /\ c = word (cdiv v u) /\
  r = word ((2 * Z.abs v + u) / (2 * u)) /\ i = word (rdiv m (fsign F x) (Z.abs v) u).

Lemma rounds_all F `{!FmtOk F} m x :
  is_word F x -> is_finite F x = true ->
  let s := fsign F x in let n := mag F (fabs_bits F x) in
  rounds_ok F m x (pack F s (enc F (int_part F false n))) (pack F s (enc F (int_part F s n)))
    (pack F s (enc F (int_part F (negb s) n))) (pack F s (enc F (near_away F n * unit_val F)))
    (pack F s (enc F (rdiv m s n (unit_val F) * unit_val F))).
Proof.
  intros Hx Hf s n. pose proof (mag_finite F x Hf) as [Hn _]. fold n in Hn. pose proof (unit_pos F) as Hu.
  destruct (int_part_floor F s n Hn) as (Hfl & Hce & Htr).
  unfold rounds_ok, sval. fold s n. rewrite signed_abs by done. cbv zeta.
  rewrite <- Htr, <- Hfl, <- Hce.
  assert (0 <= near_away F n) by (apply Z.div_pos; lia).
  assert (0 <= rdiv m s n (unit_val F)) by (pose proof (rdiv_range m s n (unit_val F)); pose proof (Z.div_pos n (unit_val F)); lia).
  change ((2 * n + unit_val F) / (2 * unit_val F)) with (near_away F n).
  by rewrite (Z.abs_eq (near_away F n * _)), (Z.abs_eq (rdiv _ _ _ _ * _)) by nia.
Qed.

(** C23: [trunc], [floor], [ceil], [round] and [rint] of [double] and of [float] give
    the integer that they should, whatever the rounding mode of the machine is
    (which decides [rint] alone): the two files of a function, with bits for
    [float] and sums for [double] in [floor] and [ceil], compute the same. *)
Theorem rounds_spec (E : fpenv double) (Ef : fpenv single) x xf :
  is_word double x -> is_finite double x = true -> is_word single xf -> is_finite single xf = true ->
  rounds_ok double (rm E) x (trunc x) (floor E x) (ceil E x) (round E x) (rint E x) /\
  rounds_ok single (rm Ef) xf (truncf xf) (floorf xf) (ceilf xf) (roundf Ef xf) (rintf Ef xf).
Proof.
  intros Hx Hf Hxf Hff. unfold trunc, floor, ceil, round, rint, truncf, roundf, rintf.
  rewrite !trunc_spec, gfloor_spec, gceil_spec, floorf_spec, ceilf_spec, !ground_spec, !grint_spec, Hf, Hff by done.
  split; by apply rounds_all.
Qed.

(** [-2.5] and [2.5f] *)
Lemma rounds_witness :
  let E := some_env double RUP in let Ef := some_env single RNE in
  let x := 0xc004000000000000 in let xf := 0x40200000 in
  rounds_ok double (rm E) x (trunc x) (floor E x) (ceil E x) (round E x) (rint E x) /\
  rounds_ok single (rm Ef) xf (truncf xf) (floorf xf) (ceilf xf) (roundf Ef xf) (rintf Ef xf).
Proof.
  apply (rounds_spec (some_env double RUP) (some_env single RNE) 0xc004000000000000 0x40200000);
    vm_compute; try split; discriminate || reflexivity.
Defined.

Example round_half : round (some_env double RZ) 0xc004000000000000 = 0xc008000000000000.
Proof. vm_compute. reflexivity. Qed.

Example rint_half : rintf (some_env single RNE) 0x40200000 = 0x40000000.
Proof. vm_compute. reflexivity. Qed.
