(* ===== verification/Scalbn.v ===== *)
(** * Powers of two

    Models [scalbn], [ldexp], [scalbln], [logb] and [significand] of
    [lib/guest_bw/math] and proves what [frexp], [ilogb] and [modf] return.
    [scalbn] multiplies up to three times and rounds once: the result is
    [x * 2^n] rounded in the mode of the machine, through overflow and
    underflow. *)

From S2P Require Import Prelude Fp FpBits FpRound.
#[local] Open Scope Z_scope.

Section ops.
Context (F : fmt) (E : fpenv F).
Implicit Types (x y n : Z).

(** [0x1p<k>], for exponents of normal numbers *)
Definition pow2w (k : Z) : Z := Z.shiftl (bias F + k) (mb F).

(** With [emax] 1023 and [emin] -1022 for [double]. *)
Definition gscalbn x n : Z :=
  let y := x in
  let emax := bias F in let emin := 1 - bias F in let p := mb F + 1 in
  let '(y, n) :=
    if emax <? n then
      let y := fmul E y (pow2w emax) in let n := n - emax in
      if emax <? n then
        let y := fmul E y (pow2w emax) in let n := n - emax in
        (y, if emax <? n then emax else n)
      else (y, n)
    else if n <? emin then
      let y := fmul E y (pow2w (emin + p)) in let n := n + (- emin - p) in
      if n <? emin then
        let y := fmul E y (pow2w (emin + p)) in let n := n + (- emin - p) in
        (y, if n <? emin then emin else n)
      else (y, n)
    else (y, n) in
  fmul E y (uw F (Z.shiftl (bias F + n) (mb F))).

Definition gldexp x n : Z := gscalbn x n.

Definition INT_MIN : Z := - 2 ^ 31.

(** [n] is a [long]. *)
Definition gscalbln x n : Z :=
  let n := if INT_MAX <? n then INT_MAX else if n <? INT_MIN then INT_MIN else n in
  gscalbn x n.

(** An [int] as a number. *)
Definition of_int (i : Z) : Z := fround F (rm E) (i <? 0) (Z.abs i * unit_val F) 1.

Definition glogb x : result Z :=
  if negb (isfinite F x) then Ok (fmul E x x) else
  if feq (F := F) x 0 then Ok (fdiv E (of_int (-1)) (fmul E x x)) else
  of_int <$> gilogb F x.

Definition gsignificand x : result Z := e ← gilogb F x; Ok (gscalbn x (- e)).

End ops.

(** ** Rounding [n * 2^k] *)

Section scale.
Context (F : fmt) `{!FmtOk F} (E : fpenv F).
Implicit Types (x y n : Z).
Abbreviation B := (2 ^ mb F).
Abbreviation U := (unit_val F).
Abbreviation n_of x := (mag F (fabs_bits F x)).

Definition fscale (s : bool) (n k : Z) : Z :=
  fround F (rm E) s (n * 2 ^ Z.max 0 k) (2 ^ Z.max 0 (- k)).

Lemma fscale_eq s n i j : 0 <= i -> 0 <= j -> fround F (rm E) s (n * 2 ^ i) (2 ^ j) = fscale s n (i - j).
Proof.
  intros Hi Hj. unfold fscale. set (m := Z.min i j).
  assert (2 ^ i = 2 ^ Z.max 0 (i - j) * 2 ^ m) as -> by (rewrite <- pow2_split by lia; f_equal; lia).
  assert (2 ^ j = 2 ^ Z.max 0 (- (i - j)) * 2 ^ m) as -> by (rewrite <- pow2_split by lia; f_equal; lia).
  rewrite Z.mul_assoc. apply fround_scale; apply pow2_pos; lia.
Qed.

(** Multiplying by a power of two. *)
Lemma pow2w_fields k : 1 - bias F <= k <= bias F ->
  is_finite F (pow2w F k) = true /\ fsign F (pow2w F k) = false /\
  n_of (pow2w F k) = B * 2 ^ (bias F + k - 1).
Proof.
  intros Hk. fmt_facts F. assert (1 <= bias F + k < emask F) as He by lia.
  pose proof (pow2_val F false (bias F + k) He) as (_ & Hf & Hv). change (pack F false ?a) with a in Hf, Hv.
  change (Z.shiftl (bias F + k) (mb F)) with (pow2w F k) in *. split; [done|].
  unfold sval in Hv. simpl in Hv. pose proof (fabs_bits_range F (pow2w F k)) as [Ha _].
  pose proof (mag_nonneg F _ Ha). pose proof (pow2_pos (bias F + k - 1) ltac:(lia)).
  destruct (fsign F (pow2w F k)); simpl in Hv; [nia|done].
Qed.

Lemma fmul_pow2 x k :
  is_finite F x = true -> 1 - bias F <= k <= bias F ->
  fmul E x (pow2w F k) = fscale (fsign F x) (n_of x) k.
Proof.
  intros Hx Hk. fmt_facts F. destruct (pow2w_fields k Hk) as (Hf & Hs & Hm).
  unfold fmul. rewrite !finite_not_nan, Hx, Hf, Hs, Hm, xorb_false_r by done. simpl orb. cbv iota.
  rewrite <- pow2_split by lia. unfold unit_val. rewrite fscale_eq by lia. f_equal. lia.
Qed.

Lemma fmul_inf s k : 1 - bias F <= k <= bias F ->
  fmul E (pack F s (inf_bits F)) (pow2w F k) = pack F s (inf_bits F).
Proof.
  intros Hk. fmt_facts F. destruct (pow2w_fields k Hk) as (Hf & Hs & Hm). pose proof (inf_lt F) as Hinf.
  assert (0 < inf_bits F) as Hib by (unfold inf_bits; nia).
  assert (is_zero (F := F) (pow2w F k) = false) as Hz.
  { unfold is_zero. destruct (Z.eqb_spec (fabs_bits F (pow2w F k)) 0) as [He|]; [|done].
    rewrite He, (mag_0 F) in Hm. pose proof (pow2_pos (bias F + k - 1)). nia. }
  unfold fmul. rewrite (finite_not_nan F (pow2w F k)), Hf, Hs, Hz, xorb_false_r by done.
  unfold is_nan, is_finite, is_zero. rewrite !fabs_pack, fsign_pack, Z.ltb_irrefl by lia.
  by destruct (Z.eqb_spec (inf_bits F) 0); [lia|].
Qed.

(** Up. *)
Definition upw (s : bool) (n k : Z) : Z :=
  pack F s (if mag_inf F <=? n * 2 ^ k then overflow F (rm E) s else enc F (n * 2 ^ k)).

Lemma repr_pow2 n k : 0 <= k -> repr F n -> repr F (n * 2 ^ k).
Proof.
  intros Hk (c & e & Hc & He & ->). exists c, (e + k). rewrite pow2_split by done. split_and!; [lia..|ring].
Qed.

Lemma fscale_up s n k : 0 <= n -> repr F n -> 0 <= k -> fscale s n k = upw s n k.
Proof.
  intros Hn Hr Hk. unfold fscale, upw. rewrite Z.max_r, Z.max_l by lia.
  pose proof (pow2_pos k Hk). rewrite <- (fround_repr F (rm E) s _ 1); [by rewrite Z.mul_1_r|done|nia|].
  by apply repr_pow2.
Qed.

Lemma overflow_cases s : overflow F (rm E) s = inf_bits F \/ overflow F (rm E) s = inf_bits F - 1.
Proof. unfold overflow. destruct (rm E), s; auto. Qed.

Lemma mag_max : mag_inf F <= mag F (inf_bits F - 1) * 2.
Proof.
  fmt_facts F. assert (0 < inf_bits F) by (unfold inf_bits; nia).
  rewrite (mag_scale F) by lia. rewrite (scale_unique F (inf_bits F - 1) (emask F - 2)) by (unfold inf_bits; nia).
  rewrite (mag_inf_val F). replace (emask F - 1) with (emask F - 2 + 1) by lia. rewrite pow2_succ by lia.
  pose proof (pow2_pos (emask F - 2) ltac:(lia)). unfold inf_bits.
  replace (emask F * B - 1 - (emask F - 2) * B) with (2 * B - 1) by ring. nia.
Qed.

Lemma upw_step s n k j :
  0 <= n -> repr F n -> 0 <= k -> 1 <= j <= bias F ->
  fmul E (upw s n k) (pow2w F j) = upw s n (k + j).
Proof.
  intros Hn Hr Hk Hj. fmt_facts F. pose proof (inf_lt F) as Hinf. pose proof (pow2_pos k Hk) as Hpk.
  pose proof (pow2_pos j ltac:(lia)) as Hpj.
  assert (2 <= 2 ^ j) as H2 by (change 2 with (2 ^ 1) at 1; apply Z.pow_le_mono_r; lia).
  assert (0 < inf_bits F) as Hib by (unfold inf_bits; nia).
  unfold upw at 1. destruct (Z.leb_spec (mag_inf F) (n * 2 ^ k)) as [Hle|Hlt].
  - assert (upw s n (k + j) = pack F s (overflow F (rm E) s)) as ->.
    { unfold upw. rewrite pow2_split by lia. destruct (Z.leb_spec (mag_inf F) (n * (2 ^ k * 2 ^ j))); [done|nia]. }
    destruct (overflow_cases s) as [Ho|Ho]; rewrite Ho.
    + apply fmul_inf. lia.
    + assert (is_finite F (pack F s (inf_bits F - 1)) = true) as Hf.
      { unfold is_finite. rewrite fabs_pack by (done || lia). lia. }
      rewrite fmul_pow2, fsign_pack, fabs_pack by (done || lia).
      pose proof (mag_nonneg F (inf_bits F - 1) ltac:(lia)). pose proof (mag_repr F (inf_bits F - 1) ltac:(lia)).
      rewrite fscale_up by (done || lia).
      unfold upw. pose proof mag_max.
      destruct (Z.leb_spec (mag_inf F) (mag F (inf_bits F - 1) * 2 ^ j)); [by rewrite Ho|nia].
  - pose proof (repr_pow2 n k Hk Hr) as Hrk. assert (0 <= n * 2 ^ k) as H0 by nia.
    pose proof (enc_bound F _ H0 Hrk Hlt) as Hb.
    rewrite fmul_pow2, fsign_pack, fabs_pack, (mag_enc F) by (try apply finite_enc; done || lia).
    rewrite fscale_up by (done || lia). unfold upw. by rewrite <- Z.mul_assoc, <- pow2_split by lia.
Qed.

(** From here on every number overflows. *)
Lemma upw_large s n k j : 0 <= n -> mb F + 2 * bias F <= k -> mb F + 2 * bias F <= j -> upw s n k = upw s n j.
Proof.
  intros Hn Hk Hj. fmt_facts F. unfold upw. destruct (decide (n = 0)) as [->|Hn0]; [by rewrite !Z.mul_0_l|].
  assert (forall i, mb F + 2 * bias F <= i -> mag_inf F <= n * 2 ^ i) as Hle.
  { intros i Hi. rewrite (mag_inf_val F), <- pow2_split by lia.
    assert (2 ^ (mb F + (emask F - 1)) <= 2 ^ i) by (apply Z.pow_le_mono_r; lia). nia. }
  destruct (Z.leb_spec (mag_inf F) (n * 2 ^ k)), (Z.leb_spec (mag_inf F) (n * 2 ^ j)); try done.
  - specialize (Hle j Hj). lia.
  - specialize (Hle k Hk). lia.
  - specialize (Hle k Hk). lia.
Qed.

(** Down: below half of the smallest number, only the mode counts. *)
Definition tiny (s : bool) : Z :=
  match rm E with RUP => if s then 0 else 1 | RDN => if s then 1 else 0 | _ => 0 end.

Lemma mag_inf_large : 2 * (2 * B) < mag_inf F.
Proof.
  fmt_facts F. rewrite (mag_inf_val F). assert (2 ^ 3 <= 2 ^ (emask F - 1)) by (apply Z.pow_le_mono_r; lia). nia.
Qed.

Lemma fround_tiny s n den : 0 < n -> 2 * n <= den -> fround F (rm E) s n den = pack F s (tiny s).
Proof.
  intros Hn Hd. fmt_facts F. pose proof mag_inf_large. unfold fround, tiny. rewrite (Z.div_small n den) by lia.
  change (Z.log2 0) with 0. rewrite Z.max_l by lia. rewrite !Z.mul_1_r. unfold rdiv.
  rewrite Z.div_small, Z.mod_small by lia. replace (den <? 2 * n) with false by lia.
  rewrite andb_false_r. replace (n =? 0) with false by lia.
  assert (enc F 1 = 1) as He1.
  { unfold enc. change (Z.log2 1) with 0. rewrite Z.max_l by lia. done. }
  change (0 + 1) with 1. assert ((mag_inf F <=? 0) = false) as Hi0 by lia.
  assert ((mag_inf F <=? 1) = false) as Hi1 by lia.
  destruct (rm E), s; simpl negb; simpl andb; simpl orb; cbv iota; by rewrite ?Hi0, ?Hi1, ?He1, ?(enc_0 F).
Qed.

Lemma fscale_tiny s n j : 0 < n -> 0 <= j -> 2 * n <= 2 ^ j -> fscale s n (- j) = pack F s (tiny s).
Proof.
  intros Hn Hj Hle. unfold fscale. rewrite Z.max_l, Z.opp_involutive, Z.max_r, Z.mul_1_r by lia.
  by apply fround_tiny.
Qed.

Lemma fscale_zero s k : fscale s 0 k = pack F s 0.
Proof.
  unfold fscale. rewrite Z.mul_0_l. pose proof (pow2_pos (Z.max 0 (- k)) ltac:(lia)).
  change 0 with (0 * 2 ^ Z.max 0 (- k)) at 1. pose proof mag_inf_large. fmt_facts F.
  rewrite (fround_exact F); [by rewrite (enc_0 F)|done|lia|by apply zero_repr|lia].
Qed.

(** A division by a power of two that is exact. *)
Lemma fscale_down s c i j : 0 <= i -> 0 <= j -> fscale s (c * 2 ^ i) (- j) = fscale s c (i - j).
Proof.
  intros Hi Hj. unfold fscale at 1. rewrite Z.max_l, Z.opp_involutive, Z.max_r, Z.mul_1_r by lia.
  by apply fscale_eq.
Qed.

(** One that is not. *)
Lemma fscale_inexact s n J :
  0 < n < 2 ^ J * (2 * B) -> 0 <= J ->
  exists q, fscale s n (- J) = pack F s (enc F q) /\ 0 <= q <= 2 * B /\ (q = 0 -> tiny s = 0).
Proof.
  intros Hn HJ. fmt_facts F. pose proof (pow2_pos J HJ) as HP. pose proof mag_inf_large.
  exists (rdiv (rm E) s n (2 ^ J)).
  assert (0 <= n / 2 ^ J < 2 * B) as Hq by (split; [apply Z.div_pos; lia|apply Z.div_lt_upper_bound; lia]).
  pose proof (rdiv_range (rm E) s n (2 ^ J)). split_and!; [|lia|lia|].
  - unfold fscale. rewrite Z.max_l, Z.opp_involutive, Z.max_r, Z.mul_1_r by lia. unfold fround.
    assert (Z.log2 (n / 2 ^ J) <= mb F) by (apply log2_lt; [lia|lia|rewrite pow2_succ; lia]).
    rewrite Z.max_l, !Z.mul_1_r by lia. by destruct (Z.leb_spec (mag_inf F) (rdiv (rm E) s n (2 ^ J))); [lia|].
  - unfold rdiv, tiny. intros Hz. pose proof (Z.div_mod n (2 ^ J) ltac:(lia)).
    destruct (rm E), s; try done; simpl in Hz; rewrite ?andb_false_r, ?andb_true_r in Hz;
      destruct (Z.eqb_spec (n mod 2 ^ J) 0); simpl in Hz; nia.
Qed.

(** The intermediate result determines the last one: it is exact, or so small
    that the last result is one of the two smallest. *)
Lemma down_step s n J :
  0 <= n -> repr F n -> n < mag_inf F -> 0 <= J ->
  exists w, fscale s n (- J) = pack F s (enc F w) /\ 0 <= w /\ repr F w /\ w < mag_inf F /\
    forall j, mb F + 2 <= j -> fscale s w (- j) = fscale s n (- (J + j)).
Proof.
  intros Hn Hr Hlt HJ. fmt_facts F. pose proof (pow2_pos J HJ) as HP. pose proof mag_inf_large.
  destruct (decide (n mod 2 ^ J = 0)) as [Hdiv|Hndiv].
  - pose proof (Z.div_mod n (2 ^ J) ltac:(lia)) as Hd. rewrite Hdiv, Z.add_0_r, Z.mul_comm in Hd.
    set (w := n / 2 ^ J) in *. assert (0 <= w <= n) as Hw by nia.
    assert (repr F w) as Hrw.
    { destruct (Z.le_gt_cases w B); [replace w with (w * 2 ^ 0) by lia; apply repr_mul; [done|lia..]|].
      destruct Hr as (c & e & Hc & He & Hce). assert (J <= e) as HJe.
      { destruct (Z.le_gt_cases J e); [done|]. assert (2 ^ J = 2 ^ (J - e) * 2 ^ e) as HJe by
          (rewrite <- pow2_split by lia; f_equal; lia). pose proof (pow2_pos e He).
        assert (w * 2 ^ (J - e) = c) by nia. assert (2 ^ 1 <= 2 ^ (J - e)) by (apply Z.pow_le_mono_r; lia). nia. }
      exists c, (e - J). split_and!; [lia..|]. assert (2 ^ e = 2 ^ (e - J) * 2 ^ J) by
        (rewrite <- pow2_split by lia; f_equal; lia). nia. }
    exists w. split_and!; [|lia|done|lia|].
    + rewrite Hd, fscale_down, Z.sub_diag by lia. rewrite fscale_up by (done || lia). unfold upw.
      rewrite Z.mul_1_r. by destruct (Z.leb_spec (mag_inf F) w); [lia|].
    + intros j Hj. rewrite Hd, fscale_down by lia. f_equal. lia.
  - assert (n <> 0) by (intros ->; by rewrite Z.mod_0_l in Hndiv by lia).
    assert (n < 2 ^ J * (2 * B)) as Hsm.
    { destruct Hr as (c & e & Hc & He & ->). destruct (Z.le_gt_cases J e) as [Hle|Hgt].
      - destruct Hndiv. destruct (pow2_le J e) as (k & _ & ->); [lia|]. rewrite Z.mul_assoc. apply Z.mod_mul. lia.
      - assert (2 ^ e <= 2 ^ J) by (apply Z.pow_le_mono_r; lia). pose proof (pow2_pos e He). nia. }
    destruct (fscale_inexact s n J ltac:(lia) HJ) as (q & Hq & Hqb & Hq0). exists q.
    split_and!; [done|lia|replace q with (q * 2 ^ 0) by lia; apply repr_mul; [done|lia..]|lia|].
    intros j Hj. assert (2 ^ (mb F + 2) <= 2 ^ j) as Hpj by (apply Z.pow_le_mono_r; lia).
    replace (mb F + 2) with (mb F + 1 + 1) in Hpj by lia. rewrite !pow2_succ in Hpj by lia.
    rewrite (fscale_tiny s n) by (rewrite ?pow2_split by lia; nia || lia).
    destruct (decide (q = 0)) as [->|Hqn]; [by rewrite fscale_zero, Hq0|]. apply fscale_tiny; lia.
Qed.

(** From here on every number is tiny. *)
Lemma fscale_small s n j k :
  0 <= n < mag_inf F -> mb F + 2 * bias F + 1 <= j -> mb F + 2 * bias F + 1 <= k ->
  fscale s n (- j) = fscale s n (- k).
Proof.
  intros Hn Hj Hk. fmt_facts F. destruct (decide (n = 0)) as [->|Hn0]; [by rewrite !fscale_zero|].
  assert (forall i, mb F + 2 * bias F + 1 <= i -> 2 * n <= 2 ^ i) as Hi.
  { intros i Hi. rewrite (mag_inf_val F), <- pow2_split in Hn by lia.
    assert (2 ^ (mb F + (emask F - 1) + 1) <= 2 ^ i) by (apply Z.pow_le_mono_r; lia).
    rewrite pow2_succ in * by lia. lia. }
  rewrite !fscale_tiny by (try apply Hi; lia). done.
Qed.

Lemma uw_pow2 n : 1 - bias F <= n <= bias F -> uw F (Z.shiftl (bias F + n) (mb F)) = pow2w F n.
Proof.
  intros Hn. fmt_facts F. unfold uw, wrap, pow2w. rewrite Z.shiftl_mul_pow2 by lia. apply Z.mod_small.
  rewrite (wb_top F), (wb_split F). nia.
Qed.

(** Multiplying the result of a rounding. *)
Lemma fmul_enc s w k :
  0 <= w -> repr F w -> w < mag_inf F -> 1 - bias F <= k <= bias F ->
  fmul E (pack F s (enc F w)) (pow2w F k) = fscale s w k.
Proof.
  intros Hw Hr Hlt Hk. pose proof (enc_bound F w Hw Hr Hlt).
  by rewrite fmul_pow2, fsign_pack, fabs_pack, (mag_enc F) by (try apply finite_enc; done).
Qed.

Lemma scalbn_up x n :
  is_word F x -> is_finite F x = true -> bias F < n -> gscalbn F E x n = fscale (fsign F x) (n_of x) n.
Proof.
  intros Hx Hf Hn. fmt_facts F. pose proof (mag_finite F x Hf) as [H0 _].
  pose proof (mag_repr F _ (proj1 (fabs_bits_range F x))) as Hr.
  rewrite fscale_up by (done || lia). unfold gscalbn. cbv zeta.
  destruct (Z.ltb_spec (bias F) n); [|lia]. rewrite (fmul_pow2 x (bias F)), fscale_up, upw_step by (done || lia).
  destruct (Z.ltb_spec (bias F) (n - bias F)) as [Hn2|Hn2].
  - destruct (Z.ltb_spec (bias F) (n - bias F - bias F)) as [Hn3|Hn3].
    + rewrite uw_pow2, upw_step by (done || lia). apply upw_large; lia.
    + rewrite uw_pow2, upw_step by (done || lia). f_equal. lia.
  - rewrite uw_pow2, upw_step by (done || lia). f_equal. lia.
Qed.

Lemma scalbn_down x n :
  is_word F x -> is_finite F x = true -> n < 1 - bias F ->
  gscalbn F E x n = fscale (fsign F x) (n_of x) n.
Proof.
  intros Hx Hf Hn. fmt_facts F. pose proof (mag_finite F x Hf) as [H0 Hfin].
  pose proof (mag_repr F _ (proj1 (fabs_bits_range F x))) as Hr.
  unfold gscalbn. cbv zeta. destruct (Z.ltb_spec (bias F) n); [lia|].
  destruct (Z.ltb_spec n (1 - bias F)); [|lia]. set (J := bias F - mb F - 2).
  replace (1 - bias F + (mb F + 1)) with (- J) by lia. replace (- (1 - bias F) - (mb F + 1)) with J by lia.
  rewrite (fmul_pow2 x (- J)) by (done || lia).
  destruct (down_step (fsign F x) (n_of x) J H0 Hr Hfin ltac:(lia)) as (w & -> & Hw & Hrw & Hwf & Hlast).
  destruct (Z.ltb_spec (n + J) (1 - bias F)) as [Hn2|Hn2].
  - rewrite fmul_enc by (done || lia).
    destruct (down_step (fsign F x) w J Hw Hrw Hwf ltac:(lia)) as (v & -> & Hv & Hrv & Hvf & Hlast2).
    destruct (Z.ltb_spec (n + J + J) (1 - bias F)) as [Hn3|Hn3].
    + rewrite uw_pow2, fmul_enc by (done || lia). replace (1 - bias F) with (- (bias F - 1)) by lia.
      rewrite Hlast2, Hlast by lia. replace n with (- - n) by lia. apply fscale_small; lia.
    + rewrite uw_pow2, fmul_enc by (done || lia). replace (n + J + J) with (- - (n + J + J)) by lia.
      rewrite Hlast2, Hlast by lia. f_equal. lia.
  - rewrite uw_pow2, fmul_enc by (done || lia). replace (n + J) with (- - (n + J)) by lia.
    rewrite Hlast by lia. f_equal. lia.
Qed.

(** One rounding. *)
Theorem gscalbn_spec x n :
  is_word F x -> is_finite F x = true -> gscalbn F E x n = fscale (fsign F x) (n_of x) n.
Proof.
  intros Hx Hf. destruct (Z.lt_ge_cases (bias F) n); [by apply scalbn_up|].
  destruct (Z.lt_ge_cases n (1 - bias F)); [by apply scalbn_down|].
  unfold gscalbn. cbv zeta. destruct (Z.ltb_spec (bias F) n); [lia|].
  destruct (Z.ltb_spec n (1 - bias F)); [lia|]. by rewrite uw_pow2, fmul_pow2 by (done || lia).
Qed.

(** [long] exponents beyond [int] make no difference. *)
Theorem gscalbln_spec x n :
  is_word F x -> is_finite F x = true -> mb F + 2 * bias F + 1 <= 2 ^ 31 - 1 ->
  gscalbln F E x n = fscale (fsign F x) (n_of x) n.
Proof.
  intros Hx Hf Hb. unfold gscalbln, INT_MAX, INT_MIN. cbv zeta. rewrite gscalbn_spec by done.
  pose proof (mag_finite F x Hf) as [H0 Hfin]. pose proof (mag_repr F _ (proj1 (fabs_bits_range F x))) as Hr.
  destruct (Z.ltb_spec (2 ^ 31 - 1) n).
  - rewrite !fscale_up by (done || lia). apply upw_large; lia.
  - destruct (Z.ltb_spec n (- 2 ^ 31)); [|done]. replace n with (- - n) by lia. apply fscale_small; lia.
Qed.

End scale.

(** ** Significands and exponents *)

(** [m * 2^k = n] *)
Definition scaled (m k n : Z) : Prop := m * 2 ^ Z.max 0 k = n * 2 ^ Z.max 0 (- k).

Lemma scaled_intro m n i j : 0 <= i -> 0 <= j -> m * 2 ^ i = n * 2 ^ j -> scaled m (i - j) n.
Proof.
  intros Hi Hj He. unfold scaled. set (c := Z.min i j). pose proof (pow2_pos c ltac:(lia)).
  apply (Z.mul_cancel_r _ _ (2 ^ c)); [lia|]. rewrite <- !Z.mul_assoc, <- !pow2_split by lia.
  replace (Z.max 0 (i - j) + c) with i by lia. by replace (Z.max 0 (- (i - j)) + c) with j by lia.
Qed.

Section parts.
Context (F : fmt) `{!FmtOk F} (E : fpenv F).
Implicit Types (x y n : Z).
Abbreviation B := (2 ^ mb F).
Abbreviation U := (unit_val F).
Abbreviation n_of x := (mag F (fabs_bits F x)).

(** The exponent of the number one. *)
Abbreviation LU := (bias F + mb F - 1).

Lemma log2_normal x : 0 < fexp F x -> Z.log2 (n_of x) = mb F + (fexp F x - 1).
Proof.
  intros He. fmt_facts F. pose proof (ffrac_range F x). rewrite (mag_normal F) by done.
  rewrite Z.log2_mul_pow2 by lia. rewrite (log2_range _ (mb F)) by (rewrite ?pow2_succ by lia; lia). lia.
Qed.

Lemma zero_fields x : fexp F x = 0 -> fabs_bits F x = ffrac F x.
Proof. intros He. rewrite (abs_fields F x), He. lia. Qed.

(** [ilogb] is the exponent. *)
Theorem gilogb_spec x :
  gilogb F x =
  Ok (if is_nan F x then FP_ILOGBNAN else if negb (is_finite F x) then INT_MAX else
      if fabs_bits F x =? 0 then FP_ILOGB0 else Z.log2 (n_of x) - LU).
Proof.
  fmt_facts F. pose proof (ffrac_range F x) as Hf. pose proof (fexp_range F x) as He.
  pose proof (abs_fields F x) as Ha. pose proof (pow2_pos (eb F + 1) ltac:(lia)) as HP.
  unfold gilogb. rewrite expo_spec, !shl_frac by done. cbv zeta.
  unfold is_nan, is_finite, inf_bits. destruct (Z.eqb_spec (fexp F x) 0) as [He0|He0].
  - rewrite He0 in Ha. replace (emask F * B <? fabs_bits F x) with false by nia.
    replace (fabs_bits F x <? emask F * B) with true by nia. simpl.
    replace (ffrac F x * 2 ^ (eb F + 1) =? 0) with (fabs_bits F x =? 0) by nia.
    destruct (Z.eqb_spec (fabs_bits F x) 0); [done|].
    assert (0 < ffrac F x < B) as Hf0 by lia. rewrite (count_up_spec F).
    + rewrite Z.log2_mul_pow2, (mag_subnormal F) by (done || lia). unfold wb. f_equal. lia.
    + split; [nia|]. unfold wb. replace (1 + eb F + mb F) with (mb F + (eb F + 1)) by lia.
      rewrite (pow2_split (mb F)) by lia. apply Z.mul_lt_mono_pos_r; lia.
    + pose proof (Z.log2_nonneg (ffrac F x * 2 ^ (eb F + 1))). unfold wb. lia.
  - destruct (Z.eqb_spec (fexp F x) (emask F)) as [Hem|Hem].
    + rewrite Ha, Hem. replace (emask F * B + ffrac F x <? emask F * B) with false by lia.
      replace (emask F * B <? emask F * B + ffrac F x) with (negb (ffrac F x * 2 ^ (eb F + 1) =? 0)) by nia.
      by destruct (negb _).
    + replace (emask F * B <? fabs_bits F x) with false by nia.
      replace (fabs_bits F x <? emask F * B) with true by nia. simpl.
      destruct (Z.eqb_spec (fabs_bits F x) 0); [nia|]. rewrite log2_normal by lia. f_equal. lia.
Qed.

(** [frexp] of a normal number. *)
Lemma frexp_bits x : is_word F x ->
  Z.lor (Z.land x (smask F + (B - 1))) (Z.shiftl (bias F - 1) (mb F)) =
  pack F (fsign F x) ((bias F - 1) * B + ffrac F x).
Proof.
  intros Hx. fmt_facts F. pose proof (ffrac_range F x) as Hf. pose proof (wb_split F) as Hw.
  assert (smask F = 2 ^ (wb F - 1) * 1) as Hs.
  { unfold smask. rewrite Z.shiftl_mul_pow2 by (unfold wb; lia). lia. }
  replace (smask F + (B - 1)) with (Z.lor (B - 1) (smask F)).
  2:{ rewrite Hs, lor_low; [lia|unfold wb; lia|nia]. }
  rewrite Z.land_lor_distr_r, (land_smask F x Hx). replace (B - 1) with (Z.ones (mb F)) by (rewrite Z.ones_equiv; lia).
  rewrite Z.land_ones by lia. fold (ffrac F x).
  assert (pack F (fsign F x) 0 = 2 ^ (wb F - 1) * (if fsign F x then 1 else 0)) as ->.
  { unfold pack. destruct (fsign F x); lia. }
  rewrite Z.shiftl_mul_pow2, <- Z.lor_assoc, (Z.lor_comm (2 ^ (wb F - 1) * _)), Z.lor_assoc by lia.
  assert (0 <= ffrac F x + B * (bias F - 1) < 2 ^ (wb F - 1)) as Hb by (rewrite Hw; nia).
  rewrite (Z.mul_comm (bias F - 1)), (lor_low (mb F) (ffrac F x)) by lia.
  rewrite (lor_low (wb F - 1)) by (done || (unfold wb; lia)).
  unfold pack. destruct (fsign F x); lia.
Qed.

(** What [frexp] promises of its two results. *)
Definition frexp_ok x (r e : Z) : Prop :=
  is_word F r /\ is_finite F r = true /\ fsign F r = fsign F x /\
  U <= 2 * n_of r < 2 * U /\ scaled (n_of r) e (n_of x).

Lemma gfrexp_normal fuel x e :
  is_word F x -> is_finite F x = true -> 0 < fexp F x ->
  exists r e', gfrexp F E (S fuel) x e = Ok (r, e') /\ frexp_ok x r e'.
Proof.
  intros Hx Hf He. fmt_facts F. apply exp_finite in Hf; [|done]. pose proof (ffrac_range F x) as Hfr.
  cbn [gfrexp]. rewrite expo_spec by done. destruct (Z.eqb_spec (fexp F x) 0); [lia|].
  destruct (Z.eqb_spec (fexp F x) (emask F)); [lia|]. rewrite frexp_bits by done.
  eexists _, _. split; [done|]. unfold frexp_ok. set (f := ffrac F x) in *.
  assert (0 <= (bias F - 1) * B + f < 2 ^ (wb F - 1)) as Hb by (rewrite (wb_split F); nia).
  unfold is_finite. rewrite fsign_pack, !fabs_pack by done.
  assert (mag F ((bias F - 1) * B + f) = (B + f) * 2 ^ (bias F - 2)) as Hm.
  { unfold mag. rewrite Z.add_comm, Z.div_add, Z.mod_add, Z.div_small, Z.mod_small, Z.add_0_l by lia.
    destruct (Z.eqb_spec (bias F - 1) 0); [lia|]. replace (bias F - 1 - 1) with (bias F - 2) by lia. ring. }
  pose proof (pow2_pos (bias F - 2) ltac:(lia)) as HP.
  assert (U = 2 * (B * 2 ^ (bias F - 2))) as HU.
  { rewrite unit_split by done. replace (bias F - 1) with (bias F - 2 + 1) by lia. rewrite pow2_succ by lia. ring. }
  rewrite Hm. split_and!; [by apply is_word_pack|unfold inf_bits; nia|done|nia|nia|].
  rewrite (mag_normal F) by done. fold f.
  replace (fexp F x - (bias F - 1)) with (fexp F x - 1 - (bias F - 2)) by lia.
  apply scaled_intro; [lia..|]. ring.
Qed.

(** [frexp] takes a number apart; a subnormal one is made larger first, without
    rounding. *)
Lemma gfrexp_spec x e :
  mb F <= 64 <= bias F ->
  is_word F x -> is_finite F x = true -> fabs_bits F x <> 0 ->
  exists r e', gfrexp F E 2 x e = Ok (r, e') /\ frexp_ok x r e'.
Proof.
  intros H64 Hx Hf H0. fmt_facts F. pose proof (fexp_range F x) as He.
  destruct (decide (fexp F x = 0)) as [He0|]; [|apply gfrexp_normal; (done || lia)].
  remember 1%nat as k eqn:Hk. cbn [gfrexp]. rewrite expo_spec, He0, Z.eqb_refl by done.
  pose proof (fabs_bits_range F x) as [Ha _]. pose proof (mag_zero_iff F _ Ha) as Hmz.
  pose proof (mag_finite F x Hf) as Hfin. pose proof (mag_repr F _ Ha) as Hr.
  rewrite (feq_val F x 0 (sval F x) 0) by (done || apply (zero_val F)).
  destruct (Z.eqb_spec (sval F x) 0) as [Hz|Hz]; [unfold sval in Hz; destruct (fsign F x); simpl in Hz; lia|].
  change (pow64 F) with (pow2w F 64). rewrite (fmul_pow2 F), fscale_up by (done || lia).
  assert (n_of x < B) as Hsub by (pose proof (below_exp F x 1 ltac:(lia)); lia).
  assert (B <= 2 ^ 64) as HB64 by (apply Z.pow_le_mono_r; lia).
  assert (n_of x * 2 ^ 64 < mag_inf F) as Hlt.
  { rewrite (mag_inf_val F). assert (2 ^ 64 <= 2 ^ (emask F - 1)) by (apply Z.pow_le_mono_r; lia). nia. }
  unfold upw. destruct (Z.leb_spec (mag_inf F) (n_of x * 2 ^ 64)); [lia|].
  assert (0 <= n_of x * 2 ^ 64) as Hnn by lia. pose proof (repr_pow2 F (n_of x) 64 ltac:(lia) Hr) as Hr64.
  pose proof (enc_bound F _ Hnn Hr64 Hlt) as Hb. set (x' := pack F (fsign F x) (enc F (n_of x * 2 ^ 64))).
  assert (n_of x' = n_of x * 2 ^ 64) as Hn' by (unfold x'; by rewrite fabs_pack, (mag_enc F)).
  destruct (gfrexp_normal 0 x' e) as (r & e' & Hfr & Hr1 & Hr2 & Hr3 & Hr4 & Hr5).
  - by apply is_word_pack.
  - by apply finite_enc.
  - destruct (Z.lt_ge_cases 0 (fexp F x')); [done|].
    pose proof (proj1 (below_exp F x' 1 ltac:(lia)) ltac:(lia)). lia.
  - subst k. rewrite Hfr. cbn [mbind result_bind]. eexists _, _. split; [done|]. unfold frexp_ok.
    rewrite Hr3. unfold x'. rewrite fsign_pack by done. split_and!; [done..|lia|lia|].
    unfold scaled in Hr5. rewrite Hn', <- Z.mul_assoc, <- pow2_split in Hr5 by lia.
    replace (e' - 64) with (Z.max 0 e' - (64 + Z.max 0 (- e'))) by lia. apply scaled_intro; [lia..|done].
Qed.

(** [ldexp] puts the number together again. *)
Lemma ldexp_frexp x r e :
  is_word F x -> is_finite F x = true -> frexp_ok x r e -> gldexp F E r e = x.
Proof.
  intros Hx Hf (Hr1 & Hr2 & Hr3 & _ & Hsc). unfold gldexp. rewrite gscalbn_spec by done.
  unfold fscale. rewrite Hsc, Hr3. pose proof (mag_finite F x Hf).
  rewrite (fround_exact F); [by apply word_of|apply pow2_pos; lia|lia| |lia].
  apply mag_repr; [done|]. by apply fabs_bits_range.
Qed.

(** Dividing by a power of two that is not too large. *)
Lemma repr_unscale n d : 0 < n < mag_inf F -> repr F n -> 0 <= d <= Z.log2 n - mb F ->
  exists w, n = w * 2 ^ d /\ repr F w.
Proof.
  intros Hn Hr Hd. pose proof (lexp_range F n ltac:(lia)) as [Hlt _]. pose proof (repr_div F n ltac:(lia) Hr) as He.
  assert (d <= lexp F n) as Hdl by (unfold lexp; lia). remember (lexp F n) as L eqn:HL. clear HL.
  pose proof (pow2_pos L ltac:(lia)) as HP. exists (n / 2 ^ L * 2 ^ (L - d)). split.
  - rewrite <- Z.mul_assoc, <- pow2_split by lia. by replace (L - d + d) with L by lia.
  - exists (n / 2 ^ L), (L - d). split_and!; [apply Z.div_pos; lia|apply Z.div_lt_upper_bound; lia|lia|done].
Qed.

(** Scaling a number into [[1, 2)] is exact. *)
Lemma fscale_unit s n :
  0 < n < mag_inf F -> repr F n ->
  exists m, fscale F E s n (LU - Z.log2 n) = pack F s (enc F m) /\ U <= m < 2 * U /\ repr F m /\
    m < mag_inf F /\ scaled m (Z.log2 n - LU) n.
Proof.
  intros Hn Hr. fmt_facts F. pose proof (Z.log2_spec n ltac:(lia)) as Hl. set (l := Z.log2 n) in *.
  pose proof (Z.log2_nonneg n) as Hl0. fold l in Hl0. rewrite <- Z.add_1_r, pow2_succ in Hl by done.
  destruct (int_repr F 2 ltac:(lia)) as [_ H2U].
  destruct (Z.le_gt_cases l LU) as [Hle|Hgt].
  - assert (U = 2 ^ l * 2 ^ (LU - l)) as HU by (unfold unit_val; rewrite <- pow2_split by lia; f_equal; lia).
    pose proof (pow2_pos (LU - l) ltac:(lia)). exists (n * 2 ^ (LU - l)).
    assert (U <= n * 2 ^ (LU - l) < 2 * U) as Hb by nia. pose proof (repr_pow2 F n (LU - l) ltac:(lia) Hr) as Hrm.
    split_and!; [|lia|lia|done|lia|].
    + rewrite fscale_up by (done || lia). unfold upw. by destruct (Z.leb_spec (mag_inf F) (n * 2 ^ (LU - l))); [lia|].
    + replace (l - LU) with (0 - (LU - l)) by lia. apply scaled_intro; [lia..|]. by rewrite Z.mul_1_r.
  - destruct (repr_unscale n (l - LU) Hn Hr) as (w & Hw & Hrw); [fold l; lia|].
    remember (l - LU) as d eqn:Hd. pose proof (pow2_pos d ltac:(lia)). assert (0 < w <= n) as Hw0 by nia.
    assert (2 ^ l = U * 2 ^ d) as HU by (unfold unit_val; rewrite <- pow2_split by lia; f_equal; lia).
    exists w. split_and!; [|nia|nia|done|lia|].
    + replace (LU - l) with (- d) by lia. rewrite Hw, fscale_down, Z.sub_diag, fscale_up by (done || lia).
      unfold upw. rewrite Z.mul_1_r. by destruct (Z.leb_spec (mag_inf F) w); [lia|].
    + replace d with (d - 0) by lia. apply scaled_intro; [lia..|]. lia.
Qed.

(** [significand] is the fraction in [[1, 2)], with the exponent [ilogb]. *)
Theorem gsignificand_spec x :
  is_word F x -> is_finite F x = true -> fabs_bits F x <> 0 ->
  exists r k, gsignificand F E x = Ok r /\ gilogb F x = Ok k /\ is_word F r /\ fsign F r = fsign F x /\
    U <= n_of r < 2 * U /\ scaled (n_of r) k (n_of x).
Proof.
  intros Hx Hf H0. pose proof (fabs_bits_range F x) as [Ha _]. pose proof (mag_zero_iff F _ Ha) as Hmz.
  pose proof (mag_finite F x Hf) as Hfin. pose proof (mag_repr F _ Ha) as Hr.
  unfold gsignificand. rewrite gilogb_spec, (finite_not_nan F x Hf), Hf. simpl negb. cbv iota.
  destruct (Z.eqb_spec (fabs_bits F x) 0); [done|]. cbn [mbind result_bind]. rewrite (gscalbn_spec F E) by done.
  replace (- (Z.log2 (n_of x) - LU)) with (LU - Z.log2 (n_of x)) by lia.
  destruct (fscale_unit (fsign F x) (n_of x) ltac:(lia) Hr) as (m & -> & Hm & Hrm & Hmf & Hsc).
  pose proof (unit_pos F). pose proof (enc_bound F m ltac:(lia) Hrm Hmf) as Hb.
  eexists _, _. split; [done|]. split; [done|]. rewrite fsign_pack, fabs_pack, (mag_enc F) by (done || lia).
  split_and!; [by apply is_word_pack|done|lia|lia|done].
Qed.

(** [logb] is [ilogb] as a number. *)
Lemma of_int_val i : Z.abs i <= 2 * B -> has_val F (of_int F E i) (i * U).
Proof.
  intros Hi. unfold of_int. pose proof (unit_pos F). destruct (int_repr F (Z.abs i) ltac:(lia)) as [Hr Hlt].
  replace (Z.abs i * U) with (Z.abs i * U * 1) by lia. rewrite (fround_exact F) by (done || lia).
  pose proof (has_val_signed F (i * U)) as Hv. replace (Z.abs (i * U)) with (Z.abs i * U) in Hv by nia.
  replace (i * U <? 0) with (i <? 0) in Hv by nia. by apply Hv.
Qed.

Theorem glogb_spec x :
  is_word F x -> is_finite F x = true -> fabs_bits F x <> 0 -> bias F + mb F <= B ->
  exists r, glogb F E x = Ok r /\ has_val F r ((Z.log2 (n_of x) - LU) * U).
Proof.
  intros Hx Hf H0 Hb. fmt_facts F. pose proof (fabs_bits_range F x) as [Ha _]. pose proof (mag_zero_iff F _ Ha) as Hmz.
  pose proof (mag_finite F x Hf) as Hfin.
  unfold glogb. rewrite isfinite_spec, Hf by done. simpl negb. cbv iota.
  rewrite (feq_val F x 0 (sval F x) 0) by (done || apply (zero_val F)).
  destruct (Z.eqb_spec (sval F x) 0) as [Hz|Hz]; [unfold sval in Hz; destruct (fsign F x); simpl in Hz; lia|].
  rewrite gilogb_spec, (finite_not_nan F x Hf), Hf. simpl negb. cbv iota.
  destruct (Z.eqb_spec (fabs_bits F x) 0); [done|]. eexists. split; [done|]. apply of_int_val.
  assert (Z.log2 (n_of x) < mb F + (emask F - 1)).
  { apply Z.log2_lt_pow2; [lia|]. rewrite pow2_split by lia. rewrite <- (mag_inf_val F). lia. }
  pose proof (Z.log2_nonneg (n_of x)). lia.
Qed.

End parts.

(** ** [double] and [float] *)

Definition scalbn (E : fpenv double) := gscalbn double E.
Definition scalbnf (E : fpenv single) := gscalbn single E.
Definition ldexp (E : fpenv double) := gldexp double E.
Definition ldexpf (E : fpenv single) := gldexp single E.
Definition scalbln (E : fpenv double) := gscalbln double E.
Definition scalblnf (E : fpenv single) := gscalbln single E.
Definition ilogb := gilogb double.
Definition ilogbf := gilogb single.
Definition logb (E : fpenv double) := glogb double E.
Definition logbf (E : fpenv single) := glogb single E.
Definition significand (E : fpenv double) := gsignificand double E.
Definition significandf (E : fpenv single) := gsignificand single E.

(** At most one call of itself. *)
Definition frexp (E : fpenv double) := gfrexp double E 2.
Definition frexpf (E : fpenv single) := gfrexp single E 2.

(** C22: [scalbn], [ldexp] and [scalbln] of [double] and [float] multiply by a power of
    two with one rounding, in every rounding mode and for every exponent: up to
    three multiplications, with exponents cut off, give the number that the
    exact product rounds to, also where it overflows or underflows. *)
Theorem scalbn_spec (E : fpenv double) (Ef : fpenv single) x xf n :
  is_word double x -> is_finite double x = true -> is_word single xf -> is_finite single xf = true ->
  let r := fscale double E (fsign double x) (mag double (fabs_bits double x)) n in
  let rf := fscale single Ef (fsign single xf) (mag single (fabs_bits single xf)) n in
  scalbn E x n = r /\ ldexp E x n = r /\ scalbln E x n = r /\
  scalbnf Ef xf n = rf /\ ldexpf Ef xf n = rf /\ scalblnf Ef xf n = rf.
Proof.
  intros Hx Hf Hxf Hff r rf. unfold scalbn, ldexp, scalbln, scalbnf, ldexpf, scalblnf, gldexp.
  by rewrite !gscalbn_spec, !gscalbln_spec by done.
Qed.

(** The smallest [double] and three times the smallest [float], both times
    [2^2000]. *)
Lemma scalbn_witness :
  let E := some_env double RNE in let Ef := some_env single RUP in
  (scalbn E 1 2000 = fscale double E false (mag double (fabs_bits double 1)) 2000 /\
   ldexp E 1 2000 = fscale double E false (mag double (fabs_bits double 1)) 2000 /\
   scalbln E 1 2000 = fscale double E false (mag double (fabs_bits double 1)) 2000 /\
   scalbnf Ef 3 2000 = fscale single Ef false (mag single (fabs_bits single 3)) 2000 /\
   ldexpf Ef 3 2000 = fscale single Ef false (mag single (fabs_bits single 3)) 2000 /\
   scalblnf Ef 3 2000 = fscale single Ef false (mag single (fabs_bits single 3)) 2000).
Proof.
  apply (scalbn_spec (some_env double RNE) (some_env single RUP) 1 3 2000);
    vm_compute; try split; discriminate || reflexivity.
Defined.

(** [1.5] in units of the smallest [float] is rounded once. *)
Example scalbnf_underflow :
  scalbnf (some_env single RNE) 3 (-1) = 2 /\ scalbnf (some_env single RDN) 3 (-1) = 1 /\
  scalbnf (some_env single RUP) 3 (-2000) = 1 /\ scalbnf (some_env single RNE) 3 (-2000) = 0.
Proof. vm_compute. auto. Qed.

(** C24: [frexp] of every number but zero returns a fraction in [[1/2, 1)] with the
    sign of the number and the exponent to it, and [ldexp] of the two is the
    number again, bit by bit. *)
Theorem frexp_ldexp (E : fpenv double) (Ef : fpenv single) x xf e :
  is_word double x -> is_finite double x = true -> fabs_bits double x <> 0 ->
  is_word single xf -> is_finite single xf = true -> fabs_bits single xf <> 0 ->
  (exists r k, frexp E x e = Ok (r, k) /\ frexp_ok double x r k /\ ldexp E r k = x) /\
  (exists r k, frexpf Ef xf e = Ok (r, k) /\ frexp_ok single xf r k /\ ldexpf Ef r k = xf).
Proof.
  intros Hx Hf H0 Hxf Hff Hf0. split.
  - destruct (gfrexp_spec double E x e ltac:(split; discriminate) Hx Hf H0) as (r & k & Hr & Hok).
    exists r, k. split_and!; [done|done|]. by apply (ldexp_frexp double E x).
  - destruct (gfrexp_spec single Ef xf e ltac:(split; discriminate) Hxf Hff Hf0) as (r & k & Hr & Hok).
    exists r, k. split_and!; [done|done|]. by apply (ldexp_frexp single Ef xf).
Qed.

(** [-3.0] and the smallest [float] *)
Lemma frexp_ldexp_witness :
  let E := some_env double RZ in let Ef := some_env single RNE in
  (exists r k, frexp E 0xc008000000000000 0 = Ok (r, k) /\ frexp_ok double 0xc008000000000000 r k /\
     ldexp E r k = 0xc008000000000000) /\
  (exists r k, frexpf Ef 1 0 = Ok (r, k) /\ frexp_ok single 1 r k /\ ldexpf Ef r k = 1).
Proof.
  apply (frexp_ldexp (some_env double RZ) (some_env single RNE) 0xc008000000000000 1 0);
    vm_compute; try split; discriminate || reflexivity.
Defined.
