(* ===== verification/Goldschmidt.v ===== *)
(** * Square roots by iteration

    Models the part of [sqrt.c] and [sqrtf.c] of [lib/guest_bw/math] that finds
    the first digits of a square root: an estimate of the inverse root from a
    table and three (for [float], two) Goldschmidt iterations in fixed-point
    arithmetic on words of 32 and 64 bits. The result is below the root by less
    than one and a half units in its last place. *)

From Stdlib Require Import Reals Lra.
From S2P Require Import Prelude.
#[local] Open Scope Z_scope.

Definition __rsqrt_tab : list Z :=
  [46161; 45808; 45462; 45124; 44793; 44470; 44153; 43843; 43540; 43243; 42952; 42666;
   42386; 42112; 41843; 41579; 41320; 41066; 40816; 40571; 40330; 40093; 39861; 39633;
   39408; 39187; 38970; 38757; 38547; 38340; 38136; 37936; 37739; 37545; 37354; 37166;
   36981; 36798; 36618; 36441; 36266; 36094; 35924; 35756; 35591; 35428; 35268; 35109;
   34953; 34798; 34646; 34496; 34347; 34201; 34056; 33913; 33772; 33633; 33496; 33360;
   33225; 33093; 32962; 32832; 65282; 64782; 64293; 63815; 63347; 62890; 62442; 62004;
   61575; 61155; 60743; 60339; 59943; 59555; 59175; 58802; 58435; 58076; 57722; 57376;
   57035; 56701; 56372; 56049; 55731; 55419; 55112; 54810; 54513; 54221; 53933; 53650;
   53371; 53097; 52827; 52561; 52298; 52040; 51786; 51535; 51288; 51044; 50804; 50567;
   50333; 50103; 49876; 49652; 49430; 49212; 48997; 48784; 48574; 48367; 48163; 47961;
   47761; 47564; 47370; 47178; 46988; 46800; 46615; 46432].

Definition mul32 (a b : Z) : Z := Z.shiftr (u32 a * u32 b) 32.

Definition mul64 (a b : Z) : Z :=
  let ahi := Z.shiftr a 32 in let alo := Z.land a 4294967295 in
  let bhi := Z.shiftr b 32 in let blo := Z.land b 4294967295 in
  u64 (ahi * bhi + Z.shiftr (ahi * blo) 32 + Z.shiftr (alo * bhi) 32).

Definition three : Z := 3221225472.

(** The fraction part of the root of [m], for [double]: from
    [i = (ix >> 46) % 128] to [s = (s - 2) >> 9]. *)
Definition root64 (ix m : Z) : Z :=
  let i := Z.shiftr ix 46 mod 128 in
  let r := u32 (Z.shiftl (nth (Z.to_nat i) __rsqrt_tab 0) 16) in
  let s := mul32 (Z.shiftr m 32) r in
  let d := mul32 s r in
  let u := u64 (three - d) in
  let r := u32 (Z.shiftl (mul32 r u) 1) in
  let s := u32 (Z.shiftl (mul32 s u) 1) in
  let d := mul32 s r in
  let u := u64 (three - d) in
  let r := u32 (Z.shiftl (mul32 r u) 1) in
  let r := u64 (Z.shiftl r 32) in
  let s := mul64 m r in
  let d := mul64 s r in
  let u := u64 (Z.shiftl three 32 - d) in
  let s := mul64 s u in
  Z.shiftr (u64 (s - 2)) 9.

(** The same for [float]. *)
Definition root32 (ix m : Z) : Z :=
  let i := Z.shiftr ix 17 mod 128 in
  let r := u32 (Z.shiftl (nth (Z.to_nat i) __rsqrt_tab 0) 16) in
  let s := mul32 m r in
  let d := mul32 s r in
  let u := u32 (three - d) in
  let r := u32 (Z.shiftl (mul32 r u) 1) in
  let s := u32 (Z.shiftl (mul32 s u) 1) in
  let d := mul32 s r in
  let u := u32 (three - d) in
  let s := mul32 s u in
  Z.shiftr (u32 (s - 1)) 6.

(** ** The iterations over the reals

    With [s] the root of the argument, [a] stands for the estimate of [1/s],
    multiplied by [s], and [b] for the estimate of [s], divided by [s]: both
    are near one. The [t]s are what the truncations of the fixed-point
    operations take away. *)

#[local] Abbreviation eps := (1 / 1073741824)%R.
#[local] Abbreviation eta := (1 / 4611686018427387904)%R.

Section real.
#[local] Open Scope R_scope.

(** The first iteration: the error is squared. *)
Lemma gold1 e t0 t1 t2 t3 :
  let a0 := 1 + e in let b0 := a0 - t0 in let u := 3 - a0 * b0 + t1 in
  let a1 := a0 * u / 2 - t2 in let b1 := b0 * u / 2 - t3 in
  -1/256 <= e <= 1/256 -> 0 <= t0 <= 2 * eps -> 0 <= t1 <= eps -> 0 <= t2 <= eps -> 0 <= t3 <= 2 * eps ->
  - 1/41000 <= a1 - 1 <= 2 * eps - 1.49 * (e * e) /\ - 5 * eps <= b1 - a1 <= t2.
Proof.
  intros a0 b0 u a1 b1 He H0 H1 H2 H3.
  assert (0 <= e * e <= 1/65536) by nra.
  assert (- (e * e) / 256 <= e * e * e <= (e * e) / 256) by nra.
  assert (0 <= a0 * a0 * t0 <= 101/100 * (2 * eps)) by (unfold a0; nra).
  assert (0 <= a0 * t1 <= 101/100 * eps) by (unfold a0; nra).
  assert (a1 - 1 = - 3/2 * (e * e) - 1/2 * (e * e * e) + (a0 * a0 * t0 + a0 * t1) / 2 - t2) as E
    by (unfold a1, u, b0, a0; field).
  assert (1.98 <= u <= 2.02) by (unfold u, b0, a0; nra).
  assert (b1 - a1 = - (t0 * u) / 2 - t3 + t2) as E2 by (unfold b1, a1, b0; field).
  assert (0 <= t0 * u <= 2 * eps * 2.02) by nra.
  split; lra.
Qed.

(** The second iteration, for the inverse root. *)
Lemma gold2 e tau t4 t5 :
  let a1 := 1 + e in let b1 := a1 + tau in let a2 := a1 * (3 - a1 * b1 + t4) / 2 - t5 in
  - 1/41000 <= e <= 2 * eps -> - 5 * eps <= tau <= eps -> 0 <= t4 <= eps -> 0 <= t5 <= eps ->
  - 4 * eps <= a2 - 1 <= 4 * eps.
Proof.
  intros a1 b1 a2 He Ht H4 H5.
  assert (0 <= e * e <= 1/41000/41000) by nra.
  assert (- (e * e) / 256 <= e * e * e <= (e * e) / 256) by nra.
  assert (- 5.1 * eps <= a1 * a1 * tau <= 1.1 * eps) by (unfold a1; nra).
  assert (0 <= a1 * t4 <= 1.1 * eps) by (unfold a1; nra).
  assert (a2 - 1 = - 3/2 * (e * e) - 1/2 * (e * e * e) - a1 * a1 * tau / 2 + a1 * t4 / 2 - t5) as E
    by (unfold a2, b1, a1; field).
  lra.
Qed.

(** The second iteration, for the root: [float] ends with it. *)
Lemma gold2_root e tau t4 t6 :
  let a1 := 1 + e in let b1 := a1 + tau in let b2 := b1 * (3 - a1 * b1 + t4) / 2 - t6 in
  - 1/41000 <= e <= 2 * eps -> - 5 * eps <= tau <= eps -> 0 <= t4 <= eps -> 0 <= t6 <= 2 * eps ->
  - 7 * eps <= b2 - 1 /\ b2 - 1 <= - 1.49 * (e * e) + 1.0001 * Rmax 0 tau / 2 + 1.0001 * t4 / 2.
Proof.
  intros a1 b1 b2 He Ht H4 H6.
  assert (0 <= e * e <= 1/41000/41000) by nra.
  assert (- (e * e) / 256 <= e * e * e <= (e * e) / 256) by nra.
  assert (b2 - 1 = - 3/2 * (e * e) - 1/2 * (e * e * e) + tau * (1 - 4 * e - 2 * (e * e)) / 2
                   - a1 * (tau * tau) / 2 + b1 * t4 / 2 - t6) as E by (unfold b2, b1, a1; field).
  assert (0.9999 * t4 <= b1 * t4 <= 1.0001 * t4) by (unfold b1, a1; nra).
  assert (0 <= a1 * (tau * tau) <= 0.1 * eps) by (unfold a1; nra).
  assert (0.9 <= 1 - 4 * e - 2 * (e * e) <= 1.0001) by nra.
  assert (- 5.1 * eps <= tau * (1 - 4 * e - 2 * (e * e)) <= 1.0001 * Rmax 0 tau).
  { unfold Rmax. destruct (Rle_dec 0 tau); nra. }
  split; lra.
Qed.

(** The third iteration, in double precision. *)
Lemma gold3 e t6 t7 t8 :
  let a := 1 + e in let b := a - t6 in let b' := b * (3 - a * b + t7) / 2 - t8 in
  - 4 * eps <= e <= 4 * eps -> 0 <= t6 <= 3 * eta -> 0 <= t7 <= 3 * eta -> 0 <= t8 <= 6 * eta ->
  - 110 * eta <= b' - 1 <= 1.6 * eta.
Proof.
  intros a b b' He H6 H7 H8.
  assert (0 <= e * e <= 64 * eta) by nra.
  assert (- (e * e) / 256 <= e * e * e <= (e * e) / 256) by nra.
  assert (0.99 * t7 <= b * t7 <= 1.01 * t7) by (unfold b, a; nra).
  assert (0.9 * t6 <= t6 * (2 * (a * a) - a * t6 - 1) <= 1.1 * t6) by (unfold a; nra).
  assert (b' - 1 = - 3/2 * (e * e) - 1/2 * (e * e * e) + t6 * (2 * (a * a) - a * t6 - 3) / 2
                   + b * t7 / 2 - t8) as E by (unfold b', b, a; field).
  lra.
Qed.

(** The same with the numbers themselves. *)

Lemma div_small x s c : 0 <= x <= c -> 1 <= s -> 0 <= x / s <= c.
Proof.
  intros Hx Hs. assert (0 < / s <= 1) as [Hi Hj].
  { split; [apply Rinv_0_lt_compat; lra|]. rewrite <- Rinv_1. apply Rinv_le_contravar; lra. }
  unfold Rdiv. nra.
Qed.

Section root.
Context (s : R) (Hs : 1 <= s < 2).

Lemma phase1 R0 S0 D0 R1 S1 :
  - 1/256 <= R0 * s - 1 <= 1/256 -> 0 <= s * s * R0 - S0 <= 2 * eps -> 0 <= S0 * R0 - D0 <= eps ->
  0 <= R0 * (3 - D0) / 2 - R1 <= eps / 2 -> 0 <= S0 * (3 - D0) / 2 - S1 <= 2 * eps ->
  - 1/41000 <= R1 * s - 1 <= 2 * eps - 1.49 * ((R0 * s - 1) * (R0 * s - 1)) /\
  - 5 * eps <= S1 / s - R1 * s <= s * eps / 2.
Proof.
  intros He HS HD HR HS1.
  pose proof (gold1 (R0 * s - 1) ((s * s * R0 - S0) / s) (S0 * R0 - D0)
    (s * (R0 * (3 - D0) / 2 - R1)) ((S0 * (3 - D0) / 2 - S1) / s) He
    (div_small _ s _ HS ltac:(lra)) HD ltac:(nra) (div_small _ s _ HS1 ltac:(lra))) as [H1 H2].
  cbv zeta in H1, H2.
  replace ((1 + (R0 * s - 1)) * (3 - (1 + (R0 * s - 1)) * (1 + (R0 * s - 1) - (s * s * R0 - S0) / s)
    + (S0 * R0 - D0)) / 2 - s * (R0 * (3 - D0) / 2 - R1)) with (R1 * s) in H1, H2 by (field; lra).
  replace ((1 + (R0 * s - 1) - (s * s * R0 - S0) / s) *
    (3 - (1 + (R0 * s - 1)) * (1 + (R0 * s - 1) - (s * s * R0 - S0) / s) + (S0 * R0 - D0)) / 2
    - (S0 * (3 - D0) / 2 - S1) / s) with (S1 / s) in H2 by (field; lra).
  split; [done|]. nra.
Qed.

Lemma phase2 R1 S1 D1 R2 :
  - 1/41000 <= R1 * s - 1 <= 2 * eps -> - 5 * eps <= S1 / s - R1 * s <= eps ->
  0 <= S1 * R1 - D1 <= eps -> 0 <= R1 * (3 - D1) / 2 - R2 <= eps / 2 ->
  - 4 * eps <= R2 * s - 1 <= 4 * eps.
Proof.
  intros He Ht HD HR.
  pose proof (gold2 (R1 * s - 1) (S1 / s - R1 * s) (S1 * R1 - D1) (s * (R1 * (3 - D1) / 2 - R2))
    He Ht HD ltac:(nra)) as H. cbv zeta in H.
  replace ((1 + (R1 * s - 1)) * (3 - (1 + (R1 * s - 1)) * (1 + (R1 * s - 1) + (S1 / s - R1 * s))
    + (S1 * R1 - D1)) / 2 - s * (R1 * (3 - D1) / 2 - R2)) with (R2 * s) in H by (field; lra).
  done.
Qed.

Lemma phase2_root R1 S1 D1 S2 :
  - 1/41000 <= R1 * s - 1 <= 2 * eps -> - 5 * eps <= S1 / s - R1 * s <= s * eps / 2 ->
  0 <= S1 * R1 - D1 <= eps -> 0 <= S1 * (3 - D1) / 2 - S2 <= 2 * eps ->
  - 14 * eps <= S2 - s /\
  S2 - s <= s * (- 1.49 * ((R1 * s - 1) * (R1 * s - 1)) + 1.0001 * (s * eps / 4) + 1.0001 * eps / 2).
Proof.
  intros He Ht HD HS.
  pose proof (gold2_root (R1 * s - 1) (S1 / s - R1 * s) (S1 * R1 - D1) ((S1 * (3 - D1) / 2 - S2) / s)
    He ltac:(lra) HD (div_small _ s _ HS ltac:(lra))) as H. cbv zeta in H.
  replace ((1 + (R1 * s - 1) + (S1 / s - R1 * s)) *
    (3 - (1 + (R1 * s - 1)) * (1 + (R1 * s - 1) + (S1 / s - R1 * s)) + (S1 * R1 - D1)) / 2
    - (S1 * (3 - D1) / 2 - S2) / s) with (S2 / s) in H by (field; lra).
  replace (S2 - s) with (s * (S2 / s - 1)) by (field; lra). destruct H as [Hlo Hhi]. split; [nra|].
  apply Rmult_le_compat_l; [lra|]. eapply Rle_trans; [exact Hhi|].
  assert (Rmax 0 (S1 / s - R1 * s) <= s * eps / 2) by (apply Rmax_lub; nra). lra.
Qed.

Lemma phase3 R2 S D S' :
  - 4 * eps <= R2 * s - 1 <= 4 * eps -> 0 <= s * s * R2 - S <= 3 * eta -> 0 <= S * R2 - D <= 3 * eta ->
  0 <= S * (3 - D) / 2 - S' <= 6 * eta -> - 220 * eta <= S' - s <= 3.2 * eta.
Proof.
  intros He HS HD HS'.
  pose proof (gold3 (R2 * s - 1) ((s * s * R2 - S) / s) (S * R2 - D) ((S * (3 - D) / 2 - S') / s) He
    (div_small _ s _ HS ltac:(lra)) HD (div_small _ s _ HS' ltac:(lra))) as H. cbv zeta in H.
  replace ((1 + (R2 * s - 1) - (s * s * R2 - S) / s) *
    (3 - (1 + (R2 * s - 1)) * (1 + (R2 * s - 1) - (s * s * R2 - S) / s) + (S * R2 - D)) / 2
    - (S * (3 - D) / 2 - S') / s) with (S' / s) in H by (field; lra).
  replace (S' - s) with (s * (S' / s - 1)) by (field; lra). nra.
Qed.

End root.
End real.

(** ** The iterations on words *)

Lemma floor32 x : (0 <= IZR x / 4294967296 - IZR (x / 2 ^ 32) <= 1)%R.
Proof.
  pose proof (Z.div_mod x (2 ^ 32) ltac:(lia)) as Hx. pose proof (Z.mod_pos_bound x (2 ^ 32) ltac:(lia)) as Hm.
  apply (f_equal IZR) in Hx. rewrite plus_IZR, mult_IZR in Hx. change (IZR (2 ^ 32)) with 4294967296%R in Hx.
  destruct Hm as [H0 H1]. apply IZR_le in H0. apply IZR_lt in H1. change (IZR (2 ^ 32)) with 4294967296%R in H1. lra.
Qed.

Lemma mul32_small a b : 0 <= a < 2 ^ 32 -> 0 <= b < 2 ^ 32 -> mul32 a b = a * b / 2 ^ 32.
Proof. intros Ha Hb. unfold mul32. rewrite !wrap_small by lia. by rewrite Z.shiftr_div_pow2. Qed.

Lemma double_small x : 0 <= x < 2 ^ 31 -> u32 (Z.shiftl x 1) = 2 * x.
Proof. intros Hx. rewrite Z.shiftl_mul_pow2 by lia. rewrite wrap_small; lia. Qed.

(** Numbers with 32 and with 30 bits after the point. *)
Definition fix32 (r : Z) : R := (IZR r / 4294967296)%R.
Definition fix30 (s : Z) : R := (IZR s / 1073741824)%R.

Lemma mul32_fix32 r u : let q := fix32 (2 * (r * u / 2 ^ 32)) in
  (0 <= fix32 r * fix30 u / 2 - q <= eps / 2)%R.
Proof.
  cbv zeta. pose proof (floor32 (r * u)) as H. rewrite mult_IZR in H. unfold fix32, fix30. rewrite mult_IZR. lra.
Qed.

Lemma mul32_fix30 s u : let q := fix30 (2 * (s * u / 2 ^ 32)) in
  (0 <= fix30 s * fix30 u / 2 - q <= 2 * eps)%R.
Proof.
  cbv zeta. pose proof (floor32 (s * u)) as H. rewrite mult_IZR in H. unfold fix30. rewrite mult_IZR. lra.
Qed.

Lemma mul32_prod s r : let q := fix30 (s * r / 2 ^ 32) in (0 <= fix30 s * fix32 r - q <= eps)%R.
Proof.
  cbv zeta. pose proof (floor32 (s * r)) as H. rewrite mult_IZR in H. unfold fix30, fix32. lra.
Qed.

Lemma fix30_three d : fix30 (three - d) = (3 - fix30 d)%R.
Proof. unfold fix30, three. rewrite minus_IZR. lra. Qed.

Section iterate.
Context (s : R) (Hs : (1 <= s < 2)%R) (r0 s0 : Z).
Context (Hr0 : 2 ^ 31 <= r0 <= 65282 * 2 ^ 16).
Context (He0 : (- 1/256 <= fix32 r0 * s - 1 <= 1/256)%R).
Context (Hs0 : (0 <= s * s * fix32 r0 - fix30 s0 <= 2 * eps)%R).

Definition it_d0 : Z := s0 * r0 / 2 ^ 32.
Definition it_r1 : Z := 2 * (r0 * (three - it_d0) / 2 ^ 32).
Definition it_s1 : Z := 2 * (s0 * (three - it_d0) / 2 ^ 32).
Definition it_d1 : Z := it_s1 * it_r1 / 2 ^ 32.

Lemma it_phase1 :
  (- 1/41000 <= fix32 it_r1 * s - 1 <= 2 * eps - 1.49 * ((fix32 r0 * s - 1) * (fix32 r0 * s - 1)))%R /\
  (- 5 * eps <= fix30 it_s1 / s - fix32 it_r1 * s <= s * eps / 2)%R.
Proof.
  apply (phase1 s Hs (fix32 r0) (fix30 s0) (fix30 it_d0)); try done.
  - apply mul32_prod.
  - rewrite <- fix30_three. apply mul32_fix32.
  - rewrite <- fix30_three. apply mul32_fix30.
Qed.

Lemma it_d1_prod : (0 <= fix30 it_s1 * fix32 it_r1 - fix30 it_d1 <= eps)%R.
Proof. apply mul32_prod. Qed.

(** The words do not overflow. *)
Lemma fix30_bound x a b : (IZR a < fix30 x * 4 < IZR b)%R -> a * 2 ^ 28 < x < b * 2 ^ 28.
Proof.
  unfold fix30. intros H. split; apply lt_IZR; rewrite mult_IZR; change (IZR (2 ^ 28)) with 268435456%R; lra.
Qed.

Lemma fix32_bound x a b : (IZR a < fix32 x * 4 < IZR b)%R -> a * 2 ^ 30 < x < b * 2 ^ 30.
Proof.
  unfold fix32. intros H. split; apply lt_IZR; rewrite mult_IZR; change (IZR (2 ^ 30)) with 1073741824%R; lra.
Qed.

Lemma it_R0 : (0.5 <= fix32 r0 <= 65282 / 65536)%R.
Proof.
  unfold fix32. destruct Hr0 as [H1%IZR_le H2%IZR_le].
  change (IZR (2 ^ 31)) with 2147483648%R in H1. change (IZR (65282 * 2 ^ 16)) with 4278321152%R in H2. lra.
Qed.

Lemma it_bound0 : 0 < s0 < 2 ^ 32 /\ 0 < it_d0 < 2 ^ 31.
Proof.
  assert (3 * 2 ^ 28 < s0 < 9 * 2 ^ 28) by (apply fix30_bound; nra).
  assert (3 * 2 ^ 28 < it_d0 < 5 * 2 ^ 28); [|lia]. apply fix30_bound.
  pose proof (mul32_prod s0 r0) as H1. cbv zeta in H1. fold it_d0 in H1. pose proof it_R0.
  set (S0 := fix30 s0) in *. set (R0 := fix32 r0) in *. set (D0 := fix30 it_d0) in *.
  assert (0 <= (s * s * R0 - S0) * R0 <= 2 * eps)%R by nra.
  assert (0.98 <= (R0 * s) * (R0 * s) <= 1.02)%R by nra. nra.
Qed.

(** The estimate of the inverse root stays below one. *)
Lemma it_r1_lt1 : (0.4 < fix32 it_r1 < 1)%R.
Proof.
  destruct it_phase1 as [H1 _]. pose proof it_R0 as H0.
  set (R0 := fix32 r0) in *. set (R1 := fix32 it_r1) in *. split; [nra|].
  destruct (Rle_lt_dec (1 + 3 * eps) s) as [Hge|Hlt]; [nra|].
  assert (R0 * s - 1 <= - 0.0038)%R by nra.
  assert (0.0038 * 0.0038 <= (R0 * s - 1) * (R0 * s - 1))%R by nra. nra.
Qed.

Lemma it_bound1 : 0 <= r0 * (three - it_d0) / 2 ^ 32 < 2 ^ 31 /\ 0 <= s0 * (three - it_d0) / 2 ^ 32 < 2 ^ 31 /\
  0 < it_d1 < 2 ^ 31.
Proof.
  pose proof it_r1_lt1 as H1. pose proof it_phase1 as [H2 H3]. pose proof it_d1_prod as H4.
  set (R1 := fix32 it_r1) in *.
  assert (0.99 <= R1 * s <= 1.01)%R by nra.
  assert (0.9 * s <= fix30 it_s1 <= 1.1 * s)%R as HS.
  { replace (fix30 it_s1) with (fix30 it_s1 / s * s)%R by (field; lra). nra. }
  assert (1 * 2 ^ 30 < it_r1 < 4 * 2 ^ 30) as B1 by (apply fix32_bound; fold R1; lra).
  assert (3 * 2 ^ 28 < it_s1 < 9 * 2 ^ 28) as B2 by (apply fix30_bound; lra).
  assert (3 * 2 ^ 28 < it_d1 < 5 * 2 ^ 28) as B3.
  { apply fix30_bound. assert (0.89 <= fix30 it_s1 * R1 <= 1.12)%R by nra. lra. }
  unfold it_r1, it_s1 in B1, B2. lia.
Qed.

End iterate.

(** ** The table *)

(** The entries are near enough at both ends of the interval they stand for. *)
Definition tab_ok (odd : bool) (f : nat) : bool :=
  let t := nth ((if odd then 64 else 0) + f) __rsqrt_tab 0 in
  let k := if odd then 1 else 2 in
  (32768 <=? t) && (t <=? 65282) &&
  (255 ^ 2 * 2 ^ 22 <=? t * t * (64 + Z.of_nat f) * k) && (t * t * (65 + Z.of_nat f) * k <=? 257 ^ 2 * 2 ^ 22).

Lemma tab_checked odd f : (f < 64)%nat -> tab_ok odd f = true.
Proof.
  intros Hf. assert (forallb (fun f => tab_ok true f && tab_ok false f) (seq 0 64) = true) as H
    by (vm_compute; reflexivity).
  rewrite forallb_forall in H. specialize (H f). rewrite in_seq in H. specialize (H ltac:(lia)).
  apply andb_prop in H as [? ?]. by destruct odd.
Qed.

(** [c / B] is a significand with its leading one, and [f] its next six digits. *)
Lemma tab_estimate (odd : bool) (f : nat) (c B : Z) (s : R) :
  let t := nth ((if odd then 64 else 0) + f) __rsqrt_tab 0 in
  (f < 64)%nat -> 0 < B -> (64 + Z.of_nat f) * B <= 64 * c < (65 + Z.of_nat f) * B -> (1 <= s < 2)%R ->
  (s * s = (if odd then 1 else 2) * IZR c / IZR B)%R ->
  2 ^ 31 <= t * 2 ^ 16 <= 65282 * 2 ^ 16 /\ (- 1/256 <= fix32 (t * 2 ^ 16) * s - 1 <= 1/256)%R.
Proof.
  intros t Hf HB Hc Hs Hss. pose proof (tab_checked odd f Hf) as H. unfold tab_ok in H. fold t in H. cbv zeta in H.
  apply andb_prop in H as [[[H1 H2]%andb_prop H3]%andb_prop H4]. split; [lia|].
  apply Z.leb_le in H1, H2, H3, H4. destruct Hc as [Hc1 Hc2].
  set (k := if odd then 1 else 2) in *. assert (0 < k) by (destruct odd; done).
  assert (s * s = IZR k * IZR c / IZR B)%R as Hss' by (rewrite Hss; unfold k; by destruct odd).
  clear Hss. rename Hss' into Hss.
  assert (0 <= t * t * k) as Hk by (repeat apply Z.mul_nonneg_nonneg; lia).
  assert (255 ^ 2 * 2 ^ 22 * B <= t * t * k * (64 * c)) as L1.
  { apply (Z.mul_le_mono_nonneg_r _ _ B) in H3; [|lia]. apply (Z.mul_le_mono_nonneg_l _ _ _ Hk) in Hc1. lia. }
  assert (t * t * k * (64 * c) <= 257 ^ 2 * 2 ^ 22 * B) as L2.
  { apply (Z.mul_le_mono_nonneg_r _ _ B) in H4; [|lia]. apply Z.lt_le_incl in Hc2.
    apply (Z.mul_le_mono_nonneg_l _ _ _ Hk) in Hc2. lia. }
  apply IZR_le in L1, L2, H1. rewrite !mult_IZR in L1, L2. change (IZR (255 ^ 2)) with 65025%R in L1.
  change (IZR (257 ^ 2)) with 66049%R in L2. change (IZR (2 ^ 22)) with 4194304%R in L1, L2.
  apply IZR_lt in HB. set (x := (fix32 (t * 2 ^ 16) * s)%R).
  assert (x * x * (4294967296 * 64 * IZR B) = IZR t * IZR t * IZR k * (64 * IZR c))%R as Hx.
  { transitivity (IZR t * IZR t * 64 * IZR B * (s * s))%R; [|rewrite Hss; field; lra].
    unfold x, fix32. rewrite mult_IZR. change (IZR (2 ^ 16)) with 65536%R. field. }
  rewrite <- Hx in L1, L2.
  assert (0 < x)%R.
  { unfold x, fix32. rewrite mult_IZR. change (IZR (2 ^ 16)) with 65536%R. nra. }
  assert (65025 / 65536 <= x * x <= 66049 / 65536)%R by nra. nra.
Qed.

(** ** The results *)

(** The root of a word with [2 n] bits after the point. *)
Lemma fixed_root m (P : Z) : 0 < P -> P * P <= m < 4 * (P * P) ->
  let s := (sqrt (IZR m) / IZR P)%R in (1 <= s < 2)%R /\ (s * s = IZR m / (IZR P * IZR P))%R.
Proof.
  intros HP [H1 H2] s. apply IZR_le in H1. apply IZR_lt in H2, HP. rewrite mult_IZR in H1. rewrite !mult_IZR in H2.
  assert (0 < IZR P * IZR P)%R by nra.
  assert (s * s = IZR m / (IZR P * IZR P))%R as E.
  { unfold s. transitivity (sqrt (IZR m) * sqrt (IZR m) / (IZR P * IZR P))%R; [field; lra|].
    by rewrite sqrt_sqrt by lra. }
  assert (0 <= s)%R by (unfold s; pose proof (sqrt_pos (IZR m)); apply Rmult_le_pos; [done|]; apply Rlt_le, Rinv_0_lt_compat; lra).
  assert (s * s * (IZR P * IZR P) = IZR m)%R by (rewrite E; field; lra).
  assert (1 <= s * s)%R by (apply (Rmult_le_reg_r (IZR P * IZR P)); lra).
  assert (s * s < 4)%R by (apply (Rmult_lt_reg_r (IZR P * IZR P)); lra).
  split; [|done]. nra.
Qed.

(** What is left to decide: the root is above [q] by less than one and a half. *)
Definition root_near (q T : Z) : Prop := 0 <= q /\ q * q < T /\ 4 * T < (2 * q + 3) * (2 * q + 3).

Lemma root_near_real q T (x : R) : 0 <= q -> (0 <= x)%R -> (x * x = IZR T)%R ->
  (IZR q < x < IZR q + 3/2)%R -> root_near q T.
Proof.
  intros Hq Hx Hxx Hb. apply IZR_le in Hq as Hq'.
  split_and!; [done|apply lt_IZR..]; rewrite !mult_IZR, ?plus_IZR, ?mult_IZR, <- Hxx; nra.
Qed.

(** The first two iterations of both functions, without the wrap-around. *)
Lemma iterate_words (s : R) r0 s0 :
  (1 <= s < 2)%R -> 2 ^ 31 <= r0 <= 65282 * 2 ^ 16 -> (- 1/256 <= fix32 r0 * s - 1 <= 1/256)%R ->
  (0 <= s * s * fix32 r0 - fix30 s0 <= 2 * eps)%R ->
  mul32 s0 r0 = it_d0 r0 s0 /\
  u32 (Z.shiftl (mul32 r0 (three - it_d0 r0 s0)) 1) = it_r1 r0 s0 /\
  u32 (Z.shiftl (mul32 s0 (three - it_d0 r0 s0)) 1) = it_s1 r0 s0 /\
  mul32 (it_s1 r0 s0) (it_r1 r0 s0) = it_d1 r0 s0.
Proof.
  intros Hs Hr0 He Hs0. pose proof (it_bound0 s Hs r0 s0 Hr0 He Hs0) as [B1 B2].
  pose proof (it_bound1 s Hs r0 s0 Hr0 He Hs0) as (B3 & B4 & B5). unfold three in *.
  rewrite !mul32_small by lia. rewrite !double_small by (unfold it_r1, it_s1 in *; lia). split_and!; try done.
  rewrite mul32_small; [done|unfold it_s1, three; lia|unfold it_r1, three; lia].
Qed.

(** The last step for [float]. Near the end of the range, where the bound on the
    truncations alone would not do, the iteration is known to be below the root. *)
Lemma root32_last (s : R) r0 s0 :
  (1 <= s < 2)%R -> 2 ^ 31 <= r0 <= 65282 * 2 ^ 16 -> (- 1/256 <= fix32 r0 * s - 1 <= 1/256)%R ->
  (0 <= s * s * fix32 r0 - fix30 s0 <= 2 * eps)%R -> (1.999 < s -> fix32 r0 = 32832 / 65536)%R ->
  let s2 := it_s1 r0 s0 * (three - it_d1 r0 s0) / 2 ^ 32 in
  (- 14 * eps <= IZR s2 / 536870912 - s < 2 * eps)%R.
Proof.
  intros Hs Hr0 He Hs0 Hend s2. pose proof (it_phase1 s Hs r0 s0 He Hs0) as [H1 H2].
  set (R1 := fix32 (it_r1 r0 s0)) in *. set (R0 := fix32 r0) in *.
  assert (0 <= (R0 * s - 1) * (R0 * s - 1))%R by apply Rle_0_sqr.
  destruct (phase2_root s Hs R1 (fix30 (it_s1 r0 s0)) (fix30 (it_d1 r0 s0)) (IZR s2 / 536870912)) as [Hlo Hhi].
  - lra.
  - done.
  - apply it_d1_prod.
  - pose proof (floor32 (it_s1 r0 s0 * (three - it_d1 r0 s0))) as H3. fold s2 in H3. rewrite mult_IZR in H3.
    rewrite <- fix30_three. unfold fix30. lra.
  - split; [done|]. eapply Rle_lt_trans; [exact Hhi|]. clear Hhi Hlo.
    destruct (Rle_lt_dec s 1.999) as [Hle|Hlt].
    + assert (0 <= (R1 * s - 1) * (R1 * s - 1))%R by apply Rle_0_sqr. nra.
    + specialize (Hend Hlt).
      assert (0.00144 <= R0 * s - 1)%R by (rewrite Hend; lra).
      assert (0.00000207 <= (R0 * s - 1) * (R0 * s - 1))%R by nra.
      assert (R1 * s - 1 <= - 0.000003)%R by lra.
      assert (0.000000000009 <= (R1 * s - 1) * (R1 * s - 1))%R by nra.
      nra.
Qed.

Lemma root32_shift (s : R) m s2 :
  (1 <= s < 2)%R -> (s * s = IZR m / (32768 * 32768))%R ->
  (- 14 * eps <= IZR s2 / 536870912 - s < 2 * eps)%R ->
  root_near (Z.shiftr (u32 (s2 - 1)) 6) (m * 2 ^ 16).
Proof.
  intros Hs Hss H. assert (1 < s2 < 2 ^ 31) as B.
  { split; apply lt_IZR; [|change (IZR (2 ^ 31)) with 2147483648%R]; lra. }
  rewrite wrap_small, Z.shiftr_div_pow2 by lia. change (2 ^ 6) with 64.
  pose proof (Z.div_mod (s2 - 1) 64 ltac:(lia)). pose proof (Z.mod_pos_bound (s2 - 1) 64 ltac:(lia)).
  set (q := (s2 - 1) / 64) in *. assert (64 * q <= s2 - 1 <= 64 * q + 63) as [L1 L2] by lia.
  apply IZR_le in L1, L2. rewrite plus_IZR, minus_IZR, mult_IZR in *.
  apply (root_near_real q _ (s * 8388608)); [lia|lra| |lra].
  rewrite mult_IZR. change (IZR (2 ^ 16)) with 65536%R.
  replace (IZR m) with (s * s * (32768 * 32768))%R by (rewrite Hss; field). field.
Qed.

(** Only the last entry of the table is used near the end of the range. *)
Lemma tab_end (odd : bool) (f : nat) c (s : R) :
  (f < 64)%nat -> 64 * c < (65 + Z.of_nat f) * 2 ^ 23 -> (s * s = (if odd then 1 else 2) * IZR c / 8388608)%R ->
  (1.999 < s)%R -> fix32 (nth ((if odd then 64 else 0) + f) __rsqrt_tab 0 * 2 ^ 16) = (32832 / 65536)%R.
Proof.
  intros Hf Hc Hss Hlt. apply IZR_lt in Hc. rewrite !mult_IZR, plus_IZR in Hc.
  change (IZR (2 ^ 23)) with 8388608%R in Hc.
  assert (3.996 < s * s)%R by nra. apply Nat2Z.inj_lt, Z.lt_le_pred in Hf. apply IZR_le in Hf as Hf'.
  change (IZR (Z.pred (Z.of_nat 64))) with 63%R in Hf'. destruct odd; [lra|].
  assert (62 < Z.of_nat f) by (apply lt_IZR; lra). replace f with 63%nat by lia.
  change (nth (0 + 63) __rsqrt_tab 0 * 2 ^ 16) with 2151677952. unfold fix32. lra.
Qed.

(** The search for a root of 24 bits. *)
Lemma root32_near ix m (odd : bool) (f : nat) c :
  Z.shiftr ix 17 mod 128 = Z.of_nat ((if odd then 64 else 0) + f) -> (f < 64)%nat ->
  (64 + Z.of_nat f) * 2 ^ 23 <= 64 * c < (65 + Z.of_nat f) * 2 ^ 23 ->
  m = c * (if odd then 2 ^ 7 else 2 ^ 8) -> root_near (root32 ix m) (m * 2 ^ 16).
Proof.
  intros Hi Hf Hc Hm.
  destruct (fixed_root m (2 ^ 15)) as [Hs Hss]; [lia|destruct odd; lia|].
  set (s := (sqrt (IZR m) / IZR (2 ^ 15))%R) in *. change (IZR (2 ^ 15)) with 32768%R in *.
  assert (s * s = (if odd then 1 else 2) * IZR c / 8388608)%R as Hsc.
  { rewrite Hss, Hm, mult_IZR.
    destruct odd; [change (IZR (2 ^ 7)) with 128%R|change (IZR (2 ^ 8)) with 256%R]; field. }
  destruct (tab_estimate odd f c (2 ^ 23) s) as [Hr0 He]; [done..|].
  pose proof (tab_end odd f c s Hf ltac:(lia) Hsc) as Hend.
  unfold root32. rewrite Hi, Nat2Z.id. set (t := nth _ __rsqrt_tab 0) in *.
  replace (u32 (Z.shiftl t 16)) with (t * 2 ^ 16) by (rewrite Z.shiftl_mul_pow2, wrap_small; lia).
  set (r0 := t * 2 ^ 16) in *.
  rewrite (mul32_small m r0) by (destruct odd; lia). set (s0 := m * r0 / 2 ^ 32).
  assert (0 <= s * s * fix32 r0 - fix30 s0 <= 2 * eps)%R as Hs0.
  { pose proof (floor32 (m * r0)) as H. fold s0 in H. rewrite mult_IZR in H.
    rewrite Hss. unfold fix32, fix30. lra. }
  destruct (iterate_words s r0 s0 Hs Hr0 He Hs0) as (E1 & E2 & E3 & E4).
  destruct (it_bound0 s Hs r0 s0 Hr0 He Hs0) as [B1 B2].
  destruct (it_bound1 s Hs r0 s0 Hr0 He Hs0) as (B3 & B4 & B5).
  rewrite E1, (wrap_small 32 (three - it_d0 r0 s0)), E2, E3, E4, (wrap_small 32 (three - it_d1 r0 s0))
    by (unfold three; lia).
  rewrite mul32_small by (unfold it_s1, three in *; lia).
  pose proof (root32_last s r0 s0 Hs Hr0 He Hs0 Hend) as H. cbv zeta in H.
  by apply (root32_shift s).
Qed.

(** The product of two words without their low digits. *)
Lemma mul64_floor a b : 0 <= a < 2 ^ 64 -> 0 <= b < 2 ^ 64 ->
  mul64 a b * 2 ^ 64 <= a * b < (mul64 a b + 3) * 2 ^ 64.
Proof.
  intros Ha Hb. unfold mul64. change 4294967295 with (Z.ones 32). rewrite !Z.land_ones by lia.
  rewrite !Z.shiftr_div_pow2 by lia.
  pose proof (Z.div_mod a (2 ^ 32) ltac:(lia)) as Ea. pose proof (Z.mod_pos_bound a (2 ^ 32) ltac:(lia)).
  pose proof (Z.div_mod b (2 ^ 32) ltac:(lia)) as Eb. pose proof (Z.mod_pos_bound b (2 ^ 32) ltac:(lia)).
  set (ah := a / 2 ^ 32) in *. set (al := a mod 2 ^ 32) in *.
  set (bh := b / 2 ^ 32) in *. set (bl := b mod 2 ^ 32) in *.
  assert (0 <= ah < 2 ^ 32) by lia. assert (0 <= bh < 2 ^ 32) by lia.
  pose proof (Z.div_mod (ah * bl) (2 ^ 32) ltac:(lia)). pose proof (Z.mod_pos_bound (ah * bl) (2 ^ 32) ltac:(lia)).
  pose proof (Z.div_mod (al * bh) (2 ^ 32) ltac:(lia)). pose proof (Z.mod_pos_bound (al * bh) (2 ^ 32) ltac:(lia)).
  set (p := ah * bl / 2 ^ 32) in *. set (q := al * bh / 2 ^ 32) in *.
  assert (a * b = ah * bh * 2 ^ 64 + (ah * bl) * 2 ^ 32 + (al * bh) * 2 ^ 32 + al * bl) as E
    by (rewrite Ea, Eb; ring).
  assert (0 <= al * bl < 2 ^ 64) by nia. assert (0 <= ah * bh) by nia.
  assert (0 <= ah * bl) by nia. assert (0 <= al * bh) by nia.
  assert (0 <= p) by (apply Z.div_pos; lia). assert (0 <= q) by (apply Z.div_pos; lia).
  assert (a * b < 2 ^ 64 * 2 ^ 64) by nia.
  rewrite wrap_small by lia. lia.
Qed.

Lemma mul64_real a b : 0 <= a < 2 ^ 64 -> 0 <= b < 2 ^ 64 ->
  (0 <= IZR a * IZR b / 18446744073709551616 - IZR (mul64 a b) <= 3)%R.
Proof.
  intros Ha Hb. destruct (mul64_floor a b Ha Hb) as [H1 H2]. apply IZR_le in H1. apply IZR_lt in H2.
  rewrite !mult_IZR, ?plus_IZR in *. change (IZR (2 ^ 64)) with 18446744073709551616%R in *. lra.
Qed.

Definition it_r2 (r0 s0 : Z) : Z := 2 * (it_r1 r0 s0 * (three - it_d1 r0 s0) / 2 ^ 32).

(** Arguments just above a power of four, where the estimate of the inverse
    root comes close to one. *)
Lemma it_r2_low j : 0 <= j < 16 -> it_r2 (65282 * 2 ^ 16) ((2 ^ 30 + j) * (65282 * 2 ^ 16) / 2 ^ 32) < 2 ^ 32.
Proof.
  intros Hj. assert (forallb (fun j => it_r2 (65282 * 2 ^ 16) ((2 ^ 30 + Z.of_nat j) * (65282 * 2 ^ 16) / 2 ^ 32) <? 2 ^ 32)
    (seq 0 16) = true) as H by (vm_compute; reflexivity).
  rewrite forallb_forall in H. specialize (H (Z.to_nat j)). rewrite in_seq, Z2Nat.id in H by lia.
  apply Z.ltb_lt, H. lia.
Qed.

Lemma it_phase2 (s : R) r0 s0 :
  (1 <= s < 2)%R -> (- 1/256 <= fix32 r0 * s - 1 <= 1/256)%R ->
  (0 <= s * s * fix32 r0 - fix30 s0 <= 2 * eps)%R ->
  (- 4 * eps <= fix32 (it_r2 r0 s0) * s - 1 <= 4 * eps)%R.
Proof.
  intros Hs He Hs0. pose proof (it_phase1 s Hs r0 s0 He Hs0) as [H1 H2].
  pose proof (Rle_0_sqr (fix32 r0 * s - 1)) as Hsq. unfold Rsqr in Hsq.
  apply (phase2 s Hs (fix32 (it_r1 r0 s0)) (fix30 (it_s1 r0 s0)) (fix30 (it_d1 r0 s0))).
  - lra.
  - lra.
  - apply it_d1_prod.
  - rewrite <- fix30_three. apply mul32_fix32.
Qed.

(** The last step for [double]. *)
Lemma root64_last (s : R) m r2 :
  (1 <= s < 2)%R -> (s * s = IZR m / 4611686018427387904)%R -> 0 <= m < 2 ^ 64 -> 0 <= r2 < 2 ^ 32 ->
  (- 4 * eps <= fix32 r2 * s - 1 <= 4 * eps)%R ->
  let r := r2 * 2 ^ 32 in let s3 := mul64 m r in let d := mul64 s3 r in
  let s4 := mul64 s3 (three * 2 ^ 32 - d) in
  0 <= three * 2 ^ 32 - d < 2 ^ 64 /\ (- 220 * eta <= IZR s4 / 2305843009213693952 - s <= 3.2 * eta)%R.
Proof.
  intros Hs Hss Hm Hr2 He r s3 d s4.
  assert (IZR r = fix32 r2 * 18446744073709551616)%R as Er.
  { unfold r, fix32. rewrite mult_IZR. change (IZR (2 ^ 32)) with 4294967296%R. field. }
  pose proof (mul64_real m r Hm ltac:(lia)) as H3. fold s3 in H3. rewrite Er in H3.
  set (R2 := fix32 r2) in *. set (S := (IZR s3 / 4611686018427387904)%R).
  assert (0 <= s * s * R2 - S <= 3 * eta)%R as HS by (rewrite Hss; unfold S; lra).
  assert (0.99 <= S < 2.01)%R by nra.
  assert (0 <= s3 < 2 ^ 64) as Bs.
  { unfold S in *. split; [apply le_IZR|apply lt_IZR; change (IZR (2 ^ 64)) with 18446744073709551616%R]; lra. }
  pose proof (mul64_real s3 r Bs ltac:(lia)) as H4. fold d in H4. rewrite Er in H4.
  set (D := (IZR d / 4611686018427387904)%R).
  assert (0 <= S * R2 - D <= 3 * eta)%R as HD by (unfold S, D; lra).
  assert (0 <= R2 <= 1)%R.
  { unfold R2, fix32. destruct Hr2 as [A1 A2]. apply IZR_le in A1. apply IZR_lt in A2.
    change (IZR (2 ^ 32)) with 4294967296%R in A2. lra. }
  assert (0.9 <= D <= 1.1)%R by nra.
  assert (0 <= three * 2 ^ 32 - d < 2 ^ 64) as Bu.
  { unfold D, three in *. split; [apply le_IZR|apply lt_IZR]; rewrite minus_IZR, mult_IZR;
      change (IZR (2 ^ 32)) with 4294967296%R; change (IZR (2 ^ 64)) with 18446744073709551616%R; lra. }
  split; [done|]. pose proof (mul64_real s3 _ Bs Bu) as H5. fold s4 in H5.
  apply (phase3 s Hs R2 S D); [done..|]. unfold S, D, three in *. rewrite minus_IZR, mult_IZR in H5.
  change (IZR (2 ^ 32)) with 4294967296%R in H5. lra.
Qed.

Lemma mul32_root (s : R) m r0 :
  (s * s = IZR m / 4611686018427387904)%R -> 0 <= r0 <= 2 ^ 32 ->
  (0 <= s * s * fix32 r0 - fix30 (m / 2 ^ 32 * r0 / 2 ^ 32) <= 2 * eps)%R.
Proof.
  intros Hss Hr. pose proof (floor32 m) as H1. pose proof (floor32 (m / 2 ^ 32 * r0)) as H2.
  rewrite mult_IZR in H2. rewrite Hss. set (mh := m / 2 ^ 32) in *.
  assert (0 <= fix32 r0 <= 1)%R.
  { unfold fix32. destruct Hr as [A1 A2]. apply IZR_le in A1, A2.
    change (IZR (2 ^ 32)) with 4294967296%R in A2. lra. }
  replace (IZR mh * IZR r0 / 4294967296)%R with (IZR mh * fix32 r0)%R in H2 by (unfold fix32; field).
  unfold fix30. set (R0 := fix32 r0) in *. set (x := (IZR m / 4294967296 - IZR mh)%R) in *.
  replace (IZR m) with ((x + IZR mh) * 4294967296)%R by (unfold x; field).
  assert (0 <= x * R0 <= 1)%R by nra. lra.
Qed.

Lemma it_r2_lt (s : R) m (odd : bool) (f : nat) c :
  let r0 := nth ((if odd then 64 else 0) + f) __rsqrt_tab 0 * 2 ^ 16 in
  let r2 := it_r2 r0 (m / 2 ^ 32 * r0 / 2 ^ 32) in
  (64 + Z.of_nat f) * 2 ^ 52 <= 64 * c -> m = c * (if odd then 2 ^ 10 else 2 ^ 11) ->
  (1 <= s < 2)%R -> (s * s = IZR m / 4611686018427387904)%R -> (- 4 * eps <= fix32 r2 * s - 1 <= 4 * eps)%R ->
  0 <= r2 < 2 ^ 32.
Proof.
  intros r0 r2 Hc Hm Hs Hss He. split.
  { apply le_IZR. unfold fix32 in He. assert (0 < IZR r2 * s)%R by lra. nra. }
  destruct (Rle_lt_dec (1 + 5 * eps) s) as [Hge|Hlt].
  { apply lt_IZR. change (IZR (2 ^ 32)) with 4294967296%R. unfold fix32 in He. nra. }
  assert (m < 2 ^ 62 + 12 * 2 ^ 32) as Hlow.
  { apply lt_IZR. rewrite plus_IZR, mult_IZR. change (IZR (2 ^ 62)) with 4611686018427387904%R.
    change (IZR (2 ^ 32)) with 4294967296%R. assert (s * s < 1 + 11 * eps)%R by nra. lra. }
  assert (2 ^ 30 <= m / 2 ^ 32 < 2 ^ 30 + 13) as Hh.
  { split; [apply Z.div_le_lower_bound; destruct odd; lia|apply Z.div_lt_upper_bound; lia]. }
  destruct odd; [|lia]. assert (f = 0%nat) as -> by lia.
  unfold r2, r0. change (nth (64 + 0) __rsqrt_tab 0) with 65282.
  replace (m / 2 ^ 32) with (2 ^ 30 + (m / 2 ^ 32 - 2 ^ 30)) by lia. apply it_r2_low. lia.
Qed.

Lemma root64_shift (s : R) m s4 :
  (1 <= s < 2)%R -> (s * s = IZR m / 4611686018427387904)%R ->
  (- 220 * eta <= IZR s4 / 2305843009213693952 - s <= 3.2 * eta)%R ->
  root_near (Z.shiftr (u64 (s4 - 2)) 9) (m * 2 ^ 42).
Proof.
  intros Hs Hss H. assert (2 < s4 < 2 ^ 63) as B.
  { split; apply lt_IZR; [|change (IZR (2 ^ 63)) with 9223372036854775808%R]; lra. }
  rewrite wrap_small, Z.shiftr_div_pow2 by lia. change (2 ^ 9) with 512.
  pose proof (Z.div_mod (s4 - 2) 512 ltac:(lia)). pose proof (Z.mod_pos_bound (s4 - 2) 512 ltac:(lia)).
  set (q := (s4 - 2) / 512) in *. assert (512 * q <= s4 - 2 <= 512 * q + 511) as [L1 L2] by lia.
  apply IZR_le in L1, L2. rewrite plus_IZR, minus_IZR, mult_IZR in *.
  apply (root_near_real q _ (s * 4503599627370496)); [lia|lra| |lra].
  rewrite mult_IZR. change (IZR (2 ^ 42)) with 4398046511104%R.
  replace (IZR m) with (s * s * 4611686018427387904)%R by (rewrite Hss; field). field.
Qed.

(** The search for a root of 53 bits. *)
Lemma root64_near ix m (odd : bool) (f : nat) c :
  Z.shiftr ix 46 mod 128 = Z.of_nat ((if odd then 64 else 0) + f) -> (f < 64)%nat ->
  (64 + Z.of_nat f) * 2 ^ 52 <= 64 * c < (65 + Z.of_nat f) * 2 ^ 52 ->
  m = c * (if odd then 2 ^ 10 else 2 ^ 11) -> root_near (root64 ix m) (m * 2 ^ 42).
Proof.
  intros Hi Hf Hc Hm.
  destruct (fixed_root m (2 ^ 31)) as [Hs Hss]; [lia|destruct odd; lia|].
  set (s := (sqrt (IZR m) / IZR (2 ^ 31))%R) in *. change (IZR (2 ^ 31)) with 2147483648%R in *.
  replace (2147483648 * 2147483648)%R with 4611686018427387904%R in Hss by lra.
  destruct (tab_estimate odd f c (2 ^ 52) s) as [Hr0 He]; [done..| |].
  { rewrite Hss, Hm, mult_IZR. change (IZR (2 ^ 52)) with 4503599627370496%R.
    destruct odd; [change (IZR (2 ^ 10)) with 1024%R|change (IZR (2 ^ 11)) with 2048%R]; field. }
  unfold root64. rewrite Hi, Nat2Z.id.
  pose proof (it_r2_lt s m odd f c ltac:(lia) Hm Hs Hss) as Hr2. cbv zeta in Hr2.
  set (t := nth _ __rsqrt_tab 0) in *.
  replace (u32 (Z.shiftl t 16)) with (t * 2 ^ 16) by (rewrite Z.shiftl_mul_pow2, wrap_small; lia).
  set (r0 := t * 2 ^ 16) in *. rewrite (Z.shiftr_div_pow2 m) by lia.
  assert (0 <= m < 2 ^ 64) as Bm by (destruct odd; lia).
  assert (0 <= m / 2 ^ 32 < 2 ^ 32) by (split; [apply Z.div_pos|apply Z.div_lt_upper_bound]; lia).
  rewrite (mul32_small (m / 2 ^ 32) r0) by lia.
  pose proof (mul32_root s m r0 Hss ltac:(lia)) as Hs0. set (s0 := m / 2 ^ 32 * r0 / 2 ^ 32) in *.
  specialize (Hr2 (it_phase2 s r0 s0 Hs He Hs0)).
  destruct (iterate_words s r0 s0 Hs Hr0 He Hs0) as (E1 & E2 & E3 & E4).
  destruct (it_bound0 s Hs r0 s0 Hr0 He Hs0) as [B1 B2].
  destruct (it_bound1 s Hs r0 s0 Hr0 He Hs0) as (B3 & B4 & B5).
  rewrite E1, (wrap_small 64 (three - it_d0 r0 s0)), E2, E3, E4, (wrap_small 64 (three - it_d1 r0 s0))
    by (unfold three; lia).
  rewrite (mul32_small (it_r1 r0 s0)) by (unfold it_r1, three in *; lia).
  rewrite double_small by (unfold it_r2 in Hr2; lia). fold (it_r2 r0 s0).
  rewrite !Z.shiftl_mul_pow2 by lia. rewrite (wrap_small 64 (it_r2 r0 s0 * 2 ^ 32)) by lia.
  destruct (root64_last s m (it_r2 r0 s0) Hs Hss Bm Hr2 (it_phase2 s r0 s0 Hs He Hs0)) as [Bu Hlast].
  rewrite (wrap_small 64 (three * 2 ^ 32 - _)) by done.
  set (s4 := mul64 _ (three * 2 ^ 32 - _)) in *. by apply (root64_shift s m s4).
Qed.
