(* ===== verification/Sqrt.v ===== *)
(** * Square roots of floating-point numbers

    Models [sqrt] and [sqrtf] of [lib/guest_bw/math]. The root is exact to the
    last bit: it is the root of the argument, rounded in the mode of the
    machine, for every argument. The search for the first digits is in
    [Goldschmidt]; here the last digit is decided with integers, and the
    rounding mode is made to act by adding a tiny number. *)

From S2P Require Import Prelude Fp FpBits Scalbn Goldschmidt.
#[local] Open Scope Z_scope.

Section ops.
Context {F : fmt} (E : fpenv F).

(** [__math_invalid], [__math_invalidf] *)
Definition math_invalid (x : Z) : Z := fdiv E (fsub E x x) (fsub E x x).

(** From [d0 = (m << 42) - s*s] to the end, which [sqrt.c] and [sqrtf.c] share up
    to the widths. *)
Definition root_finish (sh tiny m s ey : Z) : Z :=
  let d0 := uw F (uw F (Z.shiftl m sh) - uw F (s * s)) in
  let d1 := uw F (s - d0) in
  let d2 := uw F (d1 + s + 1) in
  let s := uw F (s + Z.shiftr d1 (wb F - 1)) in
  let s := Z.land s (Z.ones (mb F)) in
  let s := Z.lor s ey in
  let tiny := if d2 =? 0 then 0 else tiny in
  let tiny := Z.lor tiny (Z.land (Z.lxor d1 d2) (2 ^ (wb F - 1))) in
  fadd E s tiny.

End ops.

Section double.
Context (E : fpenv double).

(** The root of a number whose fraction is in [ix] and whose exponent is [top]. *)
Definition sqrt_normal (ix top : Z) : Z :=
  let even := Z.land top 1 in
  let m := Z.lor (u64 (Z.shiftl ix 11)) (2 ^ 63) in
  let m := if negb (even =? 0) then Z.shiftr m 1 else m in
  let top := Z.shiftr (u64 (top + 1023)) 1 in
  root_finish E 42 (2 ^ 52) m (root64 ix m) (u64 (Z.shiftl top 52)).

Definition sqrt (x : Z) : Z :=
  let ix := x in
  let top := Z.shiftr ix 52 in
  if 2047 - 1 <=? u64 (top - 1) then
    if u64 (ix * 2) =? 0 then x else
    if ix =? Z.shiftl 2047 52 then x else
    if Z.shiftl 2047 52 <? ix then math_invalid E x else
    let ix := fmul E x (pow2w double 52) in
    let top := Z.shiftr ix 52 in
    sqrt_normal ix (u64 (top - 52))
  else sqrt_normal ix top.

End double.

Section single.
Context (E : fpenv single).

Definition sqrtf_normal (ix : Z) : Z :=
  let even := Z.land ix (2 ^ 23) in
  let m1 := Z.lor (u32 (Z.shiftl ix 8)) (2 ^ 31) in
  let m0 := Z.land (u32 (Z.shiftl ix 7)) (Z.ones 31) in
  let m := if negb (even =? 0) then m0 else m1 in
  let ey := Z.shiftr ix 1 in
  let ey := u32 (ey + Z.shiftr (Z.shiftl 127 23) 1) in
  let ey := Z.land ey (Z.shiftl 255 23) in
  root_finish E 16 (2 ^ 24) m (root32 ix m) ey.

Definition sqrtf (x : Z) : Z :=
  let ix := x in
  if Z.shiftl 255 23 - 2 ^ 23 <=? u32 (ix - 2 ^ 23) then
    if u32 (ix * 2) =? 0 then x else
    if ix =? Z.shiftl 255 23 then x else
    if Z.shiftl 255 23 <? ix then math_invalid E x else
    let ix := fmul E x (pow2w single 23) in
    sqrtf_normal (u32 (ix - Z.shiftl 23 23))
  else sqrtf_normal ix.

End single.

(** ** The rounded root

    The root of [num / den], rounded to an integer as the mode says. *)
Definition rroot (rm : rmode) (num den : Z) : Z :=
  let q := Z.sqrt (num / den) in
  let half := (2 * q + 1) * (2 * q + 1) * den in
  let up := match rm with
            | RNE => (half <? 4 * num) || ((half =? 4 * num) && Z.odd q)
            | RUP => q * q * den <? num
            | RZ | RDN => false
            end in
  if up then q + 1 else q.

(** The magnitude of the rounded root of [n] units, which is the root of
    [n * unit_val F] in units. *)
Definition root_round (F : fmt) (rm : rmode) (n : Z) : Z :=
  let N := n * unit_val F in
  let e := lexp F (Z.sqrt N) in
  rroot rm N (4 ^ e) * 2 ^ e.

(** [y] is the number of the format that is nearest to the root of [N]. *)
Definition root_nearest (F : fmt) (rm : rmode) (N y : Z) : Prop :=
  match rm with
  | RZ | RDN => y * y <= N /\ forall z, 0 <= z -> repr F z -> z * z <= N -> z <= y
  | RUP => N <= y * y /\ forall z, 0 <= z -> repr F z -> N <= z * z -> y <= z
  | RNE => forall z, 0 <= z -> repr F z ->
      (z < y -> (y + z) * (y + z) <= 4 * N) /\ (y < z -> 4 * N <= (y + z) * (y + z))
  end.

Section nearest.
Context (F : fmt) `{!FmtOk F} (N : Z) (HN : 0 <= N).
Abbreviation B := (2 ^ mb F).
Let e := lexp F (Z.sqrt N).
Let q := Z.sqrt (N / 4 ^ e).

Lemma root_floor : 0 <= e /\ 4 ^ e = 2 ^ e * 2 ^ e /\ 0 < 2 ^ e /\ 0 <= q /\
  (q * 2 ^ e) * (q * 2 ^ e) <= N < ((q + 1) * 2 ^ e) * ((q + 1) * 2 ^ e).
Proof.
  assert (0 <= e) as He by (unfold e, lexp; lia). pose proof (pow2_pos e He) as Hp.
  assert (4 ^ e = 2 ^ e * 2 ^ e) as H4 by (change 4 with (2 * 2); apply Z.pow_mul_l).
  assert (0 < 4 ^ e) by (rewrite H4; nia).
  assert (0 <= N / 4 ^ e) as Hd by (apply Z.div_pos; lia).
  pose proof (Z.sqrt_spec (N / 4 ^ e) Hd) as Hq. cbv zeta in Hq. fold q in Hq. pose proof (Z.sqrt_nonneg (N / 4 ^ e)) as Hq0. fold q in Hq0.
  pose proof (Z.div_mod N (4 ^ e) ltac:(lia)). pose proof (Z.mod_pos_bound N (4 ^ e) ltac:(lia)).
  split_and!; try done.
  - transitivity (q * q * 4 ^ e); [rewrite H4; apply Z.eq_le_incl; ring|].
    assert (q * q * 4 ^ e <= N / 4 ^ e * 4 ^ e) by (apply Z.mul_le_mono_nonneg_r; lia). lia.
  - apply Z.lt_le_trans with ((q + 1) * (q + 1) * 4 ^ e); [|rewrite H4; apply Z.eq_le_incl; ring].
    assert ((N / 4 ^ e + 1) * 4 ^ e <= (q + 1) * (q + 1) * 4 ^ e) by (apply Z.mul_le_mono_nonneg_r; lia). lia.
Qed.

(** Every number of the format is on one side of the two neighbours. *)
Lemma root_between z : 0 <= z -> repr F z ->
  (z * z <= N -> z <= q * 2 ^ e) /\ (N < z * z -> (q + 1) * 2 ^ e <= z).
Proof.
  intros Hz Hr. destruct root_floor as (He & H4 & Hp & Hq & Hlo & Hhi).
  pose proof (Z.sqrt_spec N HN) as Hs. cbv zeta in Hs. pose proof (Z.sqrt_nonneg N). set (s := Z.sqrt N) in *.
  pose proof (lexp_range F s ltac:(done)) as [_ Hmin]. fold e in Hmin. split; intros HzN.
  - destruct (Z.leb_spec z (q * 2 ^ e)) as [|Hgt]; [done|exfalso].
    assert (z <= s) by nia. assert (s < (q + 1) * 2 ^ e) by nia.
    assert ((2 ^ e | z)) as [k Hk].
    { destruct (decide (e = 0)) as [->|Hne]; [exists z; lia|].
      assert (B * 2 ^ e <= z) by (assert (B <= q) by nia; nia).
      replace e with (lexp F z); [by apply lexp_divide|].
      unfold e, lexp. do 2 f_equal. pose proof (lexp_range F s ltac:(done)) as [Hmax _]. fold e in Hmax.
      fmt_facts F. transitivity (mb F + e); [|symmetry]; apply log2_range; try lia;
        rewrite pow2_succ, pow2_split by lia; lia. }
    assert (q < k) by (apply (Z.mul_lt_mono_pos_r (2 ^ e)); lia).
    assert (k < q + 1) by (apply (Z.mul_lt_mono_pos_r (2 ^ e)); lia). lia.
  - destruct (lexp_divide F s z) as [k Hk]; [nia|done|]. fold e in Hk. rewrite Hk.
    apply Z.mul_le_mono_nonneg_r; [lia|]. destruct (Z.leb_spec (q + 1) k); [done|exfalso].
    assert (z <= q * 2 ^ e) by (rewrite Hk; apply Z.mul_le_mono_nonneg_r; lia). nia.
Qed.

End nearest.

Lemma root_round_repr F `{!FmtOk F} rm n : 0 <= n -> repr F (root_round F rm n).
Proof.
  intros Hn. pose proof (unit_pos F). unfold root_round. set (N := n * unit_val F).
  assert (0 <= N) as HN by (unfold N; nia).
  destruct (root_floor F N HN) as (He & H4 & Hp & Hq & Hlo & Hhi).
  pose proof (lexp_range F (Z.sqrt N) (Z.sqrt_nonneg N)) as [Hmax _].
  unfold rroot. set (e := lexp F (Z.sqrt N)) in *. set (q := Z.sqrt (N / 4 ^ e)) in *.
  assert (q * 2 ^ e <= Z.sqrt N) by (apply Z.sqrt_le_square; nia).
  assert (q < 2 * 2 ^ mb F) by (apply (Z.mul_lt_mono_pos_r (2 ^ e)); lia).
  apply repr_mul; [done|case_match; lia|done].
Qed.

(** The rounded root is what the modes ask for. *)
Theorem root_round_nearest F `{!FmtOk F} rm n :
  0 <= n -> root_nearest F rm (n * unit_val F) (root_round F rm n).
Proof.
  intros Hn. pose proof (unit_pos F). unfold root_round. set (N := n * unit_val F).
  assert (0 <= N) as HN by (unfold N; nia).
  destruct (root_floor F N HN) as (He & H4 & Hp & Hq & Hlo & Hhi).
  pose proof (root_between F N HN) as Hb. unfold rroot. set (e := lexp F (Z.sqrt N)) in *.
  set (q := Z.sqrt (N / 4 ^ e)) in *. set (P := 2 ^ e) in *. rewrite H4. unfold root_nearest.
  destruct rm.
  - assert ((2 * q + 1) * (2 * q + 1) * (P * P) = (q * P + (q + 1) * P) * (q * P + (q + 1) * P)) as Hh by ring.
    rewrite Hh. set (y0 := q * P) in *. set (y1 := (q + 1) * P) in *. assert (y0 < y1) by (unfold y0, y1; nia).
    assert (0 <= y0) by (unfold y0; nia). intros z Hz Hr. destruct (Hb z Hz Hr) as [Hb0 Hb1].
    assert (z <= y0 \/ y1 <= z) as Hside by (destruct (Z.leb_spec (z * z) N); [left|right]; auto).
    destruct (_ || _) eqn:Hup; [fold y1|fold y0].
    + assert ((y0 + y1) * (y0 + y1) <= 4 * N) by (apply orb_prop in Hup as [?|[? _]%andb_prop]; lia). nia.
    + assert (4 * N <= (y0 + y1) * (y0 + y1)) by (apply orb_false_elim in Hup as [? _]; lia). nia.
  - split; [done|]. intros z Hz Hr. by apply Hb.
  - replace (q * q * (P * P)) with (q * P * (q * P)) by ring.
    destruct (Z.ltb_spec (q * P * (q * P)) N); (split; [lia|]); intros z Hz Hr HzN; destruct (Hb z Hz Hr) as [Hb0 Hb1].
    + destruct (Z.leb_spec (z * z) N); [|auto]. pose proof (Hb0 ltac:(done)). nia.
    + destruct (Z.leb_spec (q * P) z); [done|]. nia.
  - split; [done|]. intros z Hz Hr. by apply Hb.
Qed.

(** ** The last digit *)

Section finish.
Context (F : fmt) `{!FmtOk F} (E : fpenv F).
Abbreviation B := (2 ^ mb F).
Abbreviation TOP := (2 ^ (wb F - 1)).

(** Adding something small to a number: only the mode decides. *)
Lemma add_tiny y t c e k (minus : bool) :
  is_finite F y = true -> is_finite F t = true -> sval F y = c * 2 ^ e -> sval F t = (if minus then - k else k) ->
  B <= c < 2 * B -> (minus = true -> B < c) -> 0 <= e -> e + 2 < emask F -> 0 < k -> 4 * k <= 2 ^ e ->
  let r := match rm E, minus with RUP, false => c + 1 | RZ, true | RDN, true => c - 1 | _, _ => c end in
  fadd E y t = pack F false (enc F (r * 2 ^ e)).
Proof.
  intros Hy Ht Vy Vt Hc Hm He Hinf Hk Hk4 r. fmt_facts F.
  unfold fadd. rewrite !finite_not_nan, Hy, Ht, Vy, Vt by done. simpl orb. simpl negb. cbv iota.
  set (q := if minus then c - 1 else c). set (rest := if minus then 2 ^ e - k else k).
  assert (c * 2 ^ e + (if minus then - k else k) = q * 2 ^ e + rest) as -> by (unfold q, rest; destruct minus; lia).
  assert (B <= q < 2 * B) as Hq by (unfold q; destruct minus; [specialize (Hm eq_refl)|]; lia).
  assert (0 < rest < 2 ^ e) as Hrest by (unfold rest; destruct minus; lia).
  destruct (Z.eqb_spec (q * 2 ^ e + rest) 0); [nia|].
  destruct (Z.ltb_spec (q * 2 ^ e + rest) 0); [nia|]. rewrite Z.abs_eq by lia.
  unfold fround. rewrite Z.div_1_r, Z.mul_1_l.
  assert (Z.log2 (q * 2 ^ e + rest) = mb F + e) as ->.
  { apply log2_range; [lia|]. rewrite pow2_succ, pow2_split by lia. nia. }
  replace (Z.max 0 (mb F + e - mb F)) with e by lia.
  assert (rdiv (rm E) false (q * 2 ^ e + rest) (2 ^ e) = r) as ->.
  { unfold rdiv. rewrite <- (Z.div_unique (q * 2 ^ e + rest) (2 ^ e) q rest) by lia.
    rewrite <- (Z.mod_unique (q * 2 ^ e + rest) (2 ^ e) q rest) by lia. unfold r, q, rest.
    destruct (rm E), minus; cbn [negb andb]; try case_match; lia. }
  destruct (Z.leb_spec (mag_inf F) (r * 2 ^ e)) as [Hbig|]; [exfalso|done].
  rewrite mag_inf_val in Hbig by done. replace (emask F - 1) with (e + (emask F - 1 - e)) in Hbig by lia.
  rewrite pow2_split in Hbig by lia.
  assert (2 ^ 2 <= 2 ^ (emask F - 1 - e)) by (apply Z.pow_le_mono_r; lia).
  assert (r <= 2 * B) by (unfold r; destruct (rm E), minus; lia).
  pose proof (pow2_pos e He). assert (r * 2 ^ e <= 2 * B * 2 ^ e) by (apply Z.mul_le_mono_nonneg_r; lia).
  assert (0 < B * 2 ^ e) by nia. nia.
Qed.

(** The four places of the root beside the estimate, and what is added. *)
Definition root_up (s d0 : Z) : bool := s <? d0.
Definition root_minus (s d0 : Z) : bool := xorb (s <? d0) (2 * s + 1 <? d0).

(** The words of the comparison. *)
Lemma finish_words m s sh :
  0 <= sh -> 0 <= s < 2 * B -> s * s < m * 2 ^ sh <= s * s + 3 * s + 2 ->
  let d0 := m * 2 ^ sh - s * s in
  uw F (uw F (Z.shiftl m sh) - uw F (s * s)) = d0 /\
  uw F (s - d0) = (if root_up s d0 then 2 * TOP + (s - d0) else s - d0) /\
  uw F (uw F (s - d0) + s + 1) = (if 2 * s + 1 <? d0 then 2 * TOP + (2 * s + 1 - d0) else 2 * s + 1 - d0).
Proof.
  intros Hsh Hs HT d0. fmt_facts F.
  assert (8 * B <= TOP) as HH.
  { change 8 with (2 ^ 3). rewrite <- pow2_split by lia. apply Z.pow_le_mono_r; unfold wb; lia. }
  assert (1 <= d0 <= 3 * s + 2) by (unfold d0; lia).
  unfold uw, wrap, root_up. rewrite (wb_top F). rewrite Z.shiftl_mul_pow2 by done. split_and!.
  - rewrite <- Zminus_mod. fold d0. apply Z.mod_small. lia.
  - destruct (Z.ltb_spec s d0); [|apply Z.mod_small; lia].
    symmetry. apply (Z.mod_unique _ _ (-1)); lia.
  - rewrite <- Z.add_assoc, Zplus_mod_idemp_l.
    replace (s - d0 + (s + 1)) with (2 * s + 1 - d0) by lia.
    destruct (Z.ltb_spec (2 * s + 1) d0); [|apply Z.mod_small; lia].
    symmetry. apply (Z.mod_unique _ _ (-1)); lia.
Qed.

Lemma lor_top a : 0 <= a < TOP -> Z.lor a TOP = TOP + a.
Proof.
  intros Ha. fmt_facts F. pose proof (lor_low (wb F - 1) a 1 ltac:(unfold wb; lia) Ha) as E1.
  rewrite Z.mul_1_r in E1. lia.
Qed.

Lemma land_lxor a b c : Z.land (Z.lxor a b) c = Z.lxor (Z.land a c) (Z.land b c).
Proof.
  apply Z.bits_inj'. intros n Hn. rewrite Z.lxor_spec, !Z.land_spec, Z.lxor_spec.
  by destruct (Z.testbit a n), (Z.testbit b n), (Z.testbit c n).
Qed.

(** The sign of the number that is added. *)
Lemma tiny_word t (b1 b2 : bool) x1 x2 :
  0 <= t < TOP -> 0 <= x1 < TOP -> 0 <= x2 < TOP ->
  Z.lor t (Z.land (Z.lxor (if b1 then TOP + x1 else x1) (if b2 then TOP + x2 else x2)) TOP) = pack F (xorb b1 b2) t.
Proof.
  intros Ht H1 H2. fmt_facts F. set (k := wb F - 1) in *. assert (0 <= k) by (unfold k, wb; lia).
  assert (forall (b : bool) x, 0 <= x < 2 ^ k -> Z.land (if b then 2 ^ k + x else x) (2 ^ k) = if b then 2 ^ k else 0) as HL.
  { intros b x Hx. rewrite land_pow2; [|done|rewrite pow2_succ by done; destruct b; lia].
    destruct b; case_match; lia || done. }
  rewrite land_lxor, !HL by done. unfold pack. fold k.
  destruct b1, b2; cbn [xorb]; rewrite ?Z.lxor_nilpotent, ?Z.lxor_0_r, ?Z.lxor_0_l, ?Z.lor_0_r; try lia;
    unfold k in *; apply lor_top; done.
Qed.

(** The word of a normal number. *)
Lemma normal_word c e : B <= c < 2 * B -> 0 <= e -> Z.lor (Z.land c (Z.ones (mb F))) ((e + 1) * B) = enc F (c * 2 ^ e).
Proof.
  intros Hc He. fmt_facts F. rewrite Z.land_ones by lia.
  rewrite <- (Z.mod_unique c B 1 (c - B)) by lia.
  rewrite (Z.mul_comm (e + 1)), lor_low by lia. unfold enc.
  assert (Z.log2 (c * 2 ^ e) = mb F + e) as ->.
  { pose proof (pow2_pos e He). apply log2_range; [lia|]. rewrite pow2_succ, pow2_split by lia. nia. }
  replace (Z.max 0 (mb F + e - mb F)) with e by lia. rewrite Z.div_mul by (pose proof (pow2_pos e He); lia). lia.
Qed.

Lemma root_finish_words sh tiny m s e :
  0 <= sh -> 0 <= s < 2 * B -> s * s < m * 2 ^ sh <= s * s + 3 * s + 2 -> 0 <= e -> 0 <= tiny < TOP ->
  let d0 := m * 2 ^ sh - s * s in let c := if root_up s d0 then s + 1 else s in
  B <= c < 2 * B ->
  root_finish E sh tiny m s ((e + 1) * B) =
  fadd E (enc F (c * 2 ^ e)) (pack F (root_minus s d0) (if d0 =? 2 * s + 1 then 0 else tiny)).
Proof.
  intros Hsh Hs HT He Ht d0 c Hc. fmt_facts F. unfold root_finish.
  destruct (finish_words m s sh Hsh Hs HT) as (E0 & E1 & E2). fold d0 in E0, E1, E2. rewrite E0, E2, E1.
  assert (8 * B <= TOP) as HH.
  { change 8 with (2 ^ 3). rewrite <- pow2_split by lia. apply Z.pow_le_mono_r; unfold wb; lia. }
  assert (1 <= d0 <= 3 * s + 2) by (unfold d0; lia).
  assert (uw F (s + Z.shiftr (if root_up s d0 then 2 * TOP + (s - d0) else s - d0) (wb F - 1)) = c) as ->.
  { rewrite Z.shiftr_div_pow2 by (unfold wb; lia).
    assert ((if root_up s d0 then 2 * TOP + (s - d0) else s - d0) / TOP = if root_up s d0 then 1 else 0) as ->.
    { unfold root_up. destruct (Z.ltb_spec s d0); [|by apply Z.div_small; lia].
      symmetry. apply (Z.div_unique _ _ _ (TOP + (s - d0))); lia. }
    unfold uw. rewrite wrap_small by (rewrite (wb_top F); destruct (root_up s d0); lia).
    unfold c. destruct (root_up s d0); lia. }
  rewrite normal_word by done. f_equal.
  set (x1 := if root_up s d0 then TOP + (s - d0) else s - d0).
  set (x2 := if 2 * s + 1 <? d0 then TOP + (2 * s + 1 - d0) else 2 * s + 1 - d0).
  replace (if root_up s d0 then 2 * TOP + (s - d0) else s - d0) with (if root_up s d0 then TOP + x1 else x1)
    by (unfold x1; destruct (root_up s d0); lia).
  replace (if 2 * s + 1 <? d0 then 2 * TOP + (2 * s + 1 - d0) else 2 * s + 1 - d0)
    with (if 2 * s + 1 <? d0 then TOP + x2 else x2) by (unfold x2; case_match; lia).
  assert (0 <= x1 < TOP) by (unfold x1, root_up; destruct (Z.ltb_spec s d0); lia).
  assert (0 <= x2 < TOP) by (unfold x2; destruct (Z.ltb_spec (2 * s + 1) d0); lia).
  replace ((if 2 * s + 1 <? d0 then TOP + x2 else x2) =? 0) with (d0 =? 2 * s + 1)
    by (unfold x2; destruct (Z.ltb_spec (2 * s + 1) d0); lia).
  apply tiny_word; [destruct (d0 =? 2 * s + 1); lia|done..].
Qed.

End finish.

Lemma rroot_scale rm T D : 0 < D -> rroot rm (T * D) D = rroot rm T 1.
Proof.
  intros HD. unfold rroot. rewrite Z.div_mul, Z.div_1_r by lia. set (q := Z.sqrt T).
  assert (forall a b, (a * D <? b * D) = (a * 1 <? b)) as Hlt.
  { intros a b. rewrite Z.mul_1_r. destruct (Z.ltb_spec a b), (Z.ltb_spec (a * D) (b * D)); nia || done. }
  assert (forall a b, (a * D =? b * D) = (a * 1 =? b)) as Heq.
  { intros a b. rewrite Z.mul_1_r. destruct (Z.eqb_spec a b), (Z.eqb_spec (a * D) (b * D)); nia || done. }
  rewrite (Z.mul_assoc 4 T D), !Hlt, Heq. done.
Qed.

(** How the mode acts on what was compared. *)
Lemma rroot_near rm s T : root_near s T ->
  let d0 := T - s * s in let c := if root_up s d0 then s + 1 else s in
  rroot rm T 1 =
  if d0 =? 2 * s + 1 then c else
  match rm, root_minus s d0 with RUP, false => c + 1 | RZ, true | RDN, true => c - 1 | _, _ => c end.
Proof.
  intros (Hs & Hlo & Hhi) d0 c. unfold rroot. rewrite Z.div_1_r. unfold c, root_up, root_minus.
  assert (T = s * s + d0) as HT by (unfold d0; lia). assert (1 <= d0 <= 3 * s + 2) as Hd by lia.
  clearbody d0. subst T. clear Hlo Hhi.
  destruct (Z.ltb_spec (2 * s + 1) d0), (Z.ltb_spec s d0), (Z.eqb_spec d0 (2 * s + 1)); try lia; cbn [xorb].
  - rewrite (Z.sqrt_unique _ (s + 1)) by nia. destruct rm; cbn; repeat case_match; lia || nia.
  - rewrite (Z.sqrt_unique _ (s + 1)) by nia. destruct rm; cbn; repeat case_match; lia || nia.
  - rewrite (Z.sqrt_unique _ s) by nia. destruct rm; cbn; repeat case_match; lia || nia.
  - rewrite (Z.sqrt_unique _ s) by nia. destruct rm; cbn; repeat case_match; lia || nia.
Qed.

Section result.
Context (F : fmt) `{!FmtOk F} (E : fpenv F).
Abbreviation B := (2 ^ mb F).

Lemma normal_value c e : B <= c <= 2 * B -> 0 <= e -> e + 2 < emask F ->
  repr F (c * 2 ^ e) /\ 0 < c * 2 ^ e < mag_inf F.
Proof.
  intros Hc He Hinf. fmt_facts F. pose proof (pow2_pos e He). split; [by apply repr_mul; [|lia|]|].
  split; [nia|]. rewrite mag_inf_val by done. replace (emask F - 1) with (e + (emask F - 1 - e)) by lia.
  rewrite pow2_split by lia. assert (2 ^ 2 <= 2 ^ (emask F - 1 - e)) by (apply Z.pow_le_mono_r; lia).
  assert (c * 2 ^ e <= 2 * B * 2 ^ e) by (apply Z.mul_le_mono_nonneg_r; lia). assert (0 < B * 2 ^ e) by nia. nia.
Qed.

Lemma root_finish_spec sh tiny m s e :
  let T := m * 2 ^ sh in
  0 <= sh -> root_near s T -> B * B <= T <= 4 * (B * B) - 2 * B -> 0 <= e -> e + 2 < emask F ->
  0 < tiny < inf_bits F -> 4 * mag F tiny <= 2 ^ e ->
  root_finish E sh tiny m s ((e + 1) * B) = pack F false (enc F (rroot (rm E) T 1 * 2 ^ e)).
Proof.
  intros T Hsh Hn HT He Hinf Ht Hk. fmt_facts F. pose proof (inf_lt F) as HI.
  pose proof Hn as (Hs & Hlo & Hhi). set (d0 := T - s * s).
  set (c := if root_up s d0 then s + 1 else s).
  assert (1 <= d0 <= 3 * s + 2) as Hd by (unfold d0; lia).
  assert (B <= c < 2 * B) as Hc.
  { unfold c, root_up. destruct (Z.ltb_spec s d0); unfold d0 in *; nia. }
  assert (0 <= s < 2 * B) by (unfold c in Hc; destruct (root_up s d0); lia).
  rewrite (root_finish_words F E sh tiny m s e); [|done|done|fold T; lia|done|lia|done]. fold T d0 c.
  rewrite (rroot_near (rm E) s T Hn). cbv zeta. fold d0 c.
  destruct (normal_value c e ltac:(lia) He Hinf) as [Hr Hv].
  assert (is_finite F (enc F (c * 2 ^ e)) = true) as Hy by (apply (finite_enc F false); done || lia).
  assert (sval F (enc F (c * 2 ^ e)) = c * 2 ^ e) as Vy by (apply (sval_enc F false); done || lia).
  destruct (Z.eqb_spec d0 (2 * s + 1)) as [Hex|Hne].
  - assert (sval F (pack F (root_minus s d0) 0) = 0) as V0.
    { rewrite (sval_pack F), (mag_0 F) by lia. by destruct (root_minus s d0). }
    rewrite (fadd_exact E), Vy, V0, Z.add_0_r; try done.
    + unfold sum_word. destruct (Z.eqb_spec (c * 2 ^ e) 0); [lia|]. destruct (Z.ltb_spec (c * 2 ^ e) 0); [lia|].
      by rewrite Z.abs_eq by lia.
    + apply is_finite_spec. rewrite (fabs_pack F); lia.
    + rewrite Vy, V0, Z.add_0_r, Z.abs_eq by lia. done.
    + rewrite Vy, V0, Z.add_0_r, Z.abs_eq by lia. lia.
  - apply (add_tiny F E _ _ c e (mag F tiny) (root_minus s d0)); try done.
    + apply is_finite_spec. rewrite (fabs_pack F); lia.
    + rewrite (sval_pack F) by lia. by destruct (root_minus s d0).
    + unfold root_minus, c, root_up, d0 in *. intros Hmin.
      destruct (Z.ltb_spec s (T - s * s)), (Z.ltb_spec (2 * s + 1) (T - s * s)); try done; nia.
    + rewrite <- (mag_0 F). apply mag_lt; done || lia.
Qed.

(** The root of [c * 2^(x - 1)] units, where [x] is an exponent field that may
    have gone below zero. *)
Definition root_T (c x : Z) : Z := c * B * (if Z.odd x then 1 else 2).
Definition root_e (x : Z) : Z := (x + bias F) / 2 - 1.

Lemma bias_odd x : x + bias F = 2 * (root_e x + 1) + (if Z.odd x then 0 else 1).
Proof.
  fmt_facts F. unfold root_e. assert (bias F = 2 * (2 ^ (eb F - 2) - 1) + 1) as Hb.
  { unfold bias. replace (eb F - 1) with (eb F - 2 + 1) by lia. rewrite pow2_succ by lia. lia. }
  destruct (Z.odd x) eqn:Ho; [apply Z.odd_spec in Ho as [k Hk]|].
  - rewrite <- (Z.div_unique (x + bias F) 2 (k + 2 ^ (eb F - 2)) 0); lia.
  - rewrite <- Z.negb_even in Ho. apply negb_false_iff, Z.even_spec in Ho as [k Hk].
    rewrite <- (Z.div_unique (x + bias F) 2 (k + 2 ^ (eb F - 2) - 1) 1); lia.
Qed.

Lemma root_round_at rm n c x :
  n * B = c * 2 ^ (x + mb F - 1) -> B <= c < 2 * B -> 1 - mb F <= x ->
  root_round F rm n = rroot rm (root_T c x) 1 * 2 ^ root_e x.
Proof.
  intros Hn Hc Hx. fmt_facts F. pose proof (bias_odd x) as Hb. set (e := root_e x) in *. set (T := root_T c x).
  assert (0 <= e) by (destruct (Z.odd x); lia). pose proof (pow2_pos e ltac:(done)) as He.
  assert (4 ^ e = 2 ^ e * 2 ^ e) as H4 by (change 4 with (2 * 2); apply Z.pow_mul_l).
  assert (n * unit_val F = T * 4 ^ e) as HN.
  { rewrite unit_split by done. rewrite Z.mul_assoc, Hn, H4. unfold T, root_T.
    transitivity (c * (2 ^ (x + mb F - 1) * 2 ^ (bias F - 1))); [ring|].
    transitivity (c * (B * (if Z.odd x then 1 else 2) * (2 ^ e * 2 ^ e))); [|ring]. f_equal.
    replace (if Z.odd x then 1 else 2) with (2 ^ (if Z.odd x then 0 else 1)) by by destruct (Z.odd x).
    rewrite <- !pow2_split by (destruct (Z.odd x); lia). f_equal. lia. }
  unfold root_round. rewrite HN.
  assert (B * B <= T < 4 * (B * B)) as HT by (unfold T, root_T; destruct (Z.odd x); nia).
  assert (B * 2 ^ e <= Z.sqrt (T * 4 ^ e) < 2 * (B * 2 ^ e)) as Hq.
  { rewrite H4. split; [apply Z.sqrt_le_square; nia|apply Z.sqrt_lt_square; nia]. }
  assert (lexp F (Z.sqrt (T * 4 ^ e)) = e) as ->.
  { unfold lexp. rewrite (log2_range _ (mb F + e)); [lia|lia|]. rewrite pow2_succ, pow2_split by lia. lia. }
  rewrite rroot_scale; [done|]. rewrite H4. nia.
Qed.

End result.

(** ** [sqrt] *)

(** Setting the top bit. *)
Lemma lor_set x k : 0 <= k -> 0 <= x < 2 ^ (k + 1) -> Z.lor x (2 ^ k) = 2 ^ k + x mod 2 ^ k.
Proof.
  intros Hk Hx. rewrite pow2_succ in Hx by done. pose proof (pow2_pos k Hk).
  assert (forall y, 0 <= y < 2 ^ k -> Z.lor y (2 ^ k) = y + 2 ^ k) as Hl.
  { intros y Hy. pose proof (lor_low k y 1 Hk Hy) as E1. by rewrite Z.mul_1_r in E1. }
  destruct (Z.ltb_spec x (2 ^ k)) as [Hlt|Hge]; [rewrite Z.mod_small, Hl by lia; lia|].
  rewrite <- (Z.mod_unique x (2 ^ k) 1 (x - 2 ^ k)) by lia.
  replace x with (Z.lor (x - 2 ^ k) (2 ^ k)) at 1 by (rewrite Hl; lia).
  rewrite <- Z.lor_assoc, Z.lor_diag, Hl; lia.
Qed.

(** Bits of a word from [k] on, [j] of them. *)
Lemma bits_split ix k j : 0 <= k -> 0 <= j -> Z.shiftr ix k mod 2 ^ j = ix mod 2 ^ (k + j) / 2 ^ k.
Proof.
  intros Hk Hj. pose proof (pow2_pos k Hk). pose proof (pow2_pos j Hj).
  rewrite Z.shiftr_div_pow2, pow2_split, Z.rem_mul_r by lia.
  pose proof (Z.mod_pos_bound ix (2 ^ k) ltac:(lia)).
  by rewrite (Z.mul_comm (2 ^ k) (_ mod _)), Z.div_add, (Z.div_small (ix mod 2 ^ k)) by lia.
Qed.

Lemma low_bit_split ix k : 0 <= k -> ix mod 2 ^ (k + 1) = ix mod 2 ^ k + (if Z.odd (ix / 2 ^ k) then 2 ^ k else 0).
Proof.
  intros Hk. pose proof (pow2_pos k Hk). rewrite pow2_split, Z.rem_mul_r by lia. change (2 ^ 1) with 2.
  rewrite Zmod_odd. destruct (Z.odd _); lia.
Qed.

(** The index into the table: a bit of the exponent and six of the fraction. *)
Lemma table_index ix k : 0 <= k ->
  let f := Z.to_nat (ix mod 2 ^ (k + 6) / 2 ^ k) in
  Z.shiftr ix k mod 128 = Z.of_nat ((if Z.odd (ix / 2 ^ (k + 6)) then 64 else 0) + f) /\ (f < 64)%nat /\
  Z.of_nat f * 2 ^ k <= ix mod 2 ^ (k + 6) < (Z.of_nat f + 1) * 2 ^ k.
Proof.
  intros Hk f. pose proof (pow2_pos k Hk). assert (2 ^ (k + 6) = 64 * 2 ^ k) as H6 by (rewrite pow2_split; lia).
  pose proof (Z.mod_pos_bound ix (2 ^ (k + 6)) ltac:(lia)) as Hb.
  pose proof (Z.div_mod (ix mod 2 ^ (k + 6)) (2 ^ k) ltac:(lia)).
  pose proof (Z.mod_pos_bound (ix mod 2 ^ (k + 6)) (2 ^ k) ltac:(lia)).
  assert (Z.of_nat f = ix mod 2 ^ (k + 6) / 2 ^ k) as Ef by (apply Z2Nat.id, Z.div_pos; lia).
  assert (ix mod 2 ^ (k + 6) / 2 ^ k < 64) by (apply Z.div_lt_upper_bound; lia).
  split_and!; [|lia..]. change 128 with (2 ^ 7). rewrite bits_split by lia.
  replace (k + 7) with (k + 6 + 1) by lia. rewrite low_bit_split, Nat2Z.inj_add, Ef by lia.
  destruct (Z.odd _); [|by rewrite Z.add_0_r]. rewrite H6 at 2. rewrite Z.div_add by lia. lia.
Qed.

(** The fraction moved to the top, with its leading one. *)
Lemma shl_set ix k j : 0 <= k -> 0 <= j ->
  Z.lor (wrap (k + j + 1) (Z.shiftl ix j)) (2 ^ (k + j)) = (2 ^ k + ix mod 2 ^ k) * 2 ^ j.
Proof.
  intros Hk Hj. pose proof (pow2_pos k Hk). pose proof (pow2_pos j Hj).
  rewrite lor_set; [|lia|apply wrap_bound; lia]. rewrite Z.shiftl_mul_pow2 by lia. unfold wrap.
  rewrite pow2_succ, (Z.mul_comm 2), Z.rem_mul_r by lia.
  rewrite (Z.mul_comm (2 ^ (k + j)) (_ mod _)), Z.mod_add, Z.mod_mod by lia.
  rewrite pow2_split, Z.mul_mod_distr_r by lia. lia.
Qed.

Lemma sqrt_normal_spec E ix x :
  0 <= ix -> Z.odd (ix / 2 ^ 52) = Z.odd x -> - 51 <= x <= 2046 ->
  let c := 2 ^ 52 + ix mod 2 ^ 52 in
  sqrt_normal E ix (u64 x) = pack double false (enc double (rroot (rm E) (root_T double c x) 1 * 2 ^ root_e double x)).
Proof.
  intros Hix Hodd Hx c. pose proof (Z.mod_pos_bound ix (2 ^ 52) ltac:(lia)) as Hf. unfold sqrt_normal.
  assert (Z.land (u64 x) 1 = if Z.odd x then 1 else 0) as ->.
  { change 1 with (Z.ones 1) at 1. rewrite Z.land_ones by lia. unfold wrap.
    rewrite <- Zmod_odd. change (2 ^ 64) with (2 * 2 ^ 63). rewrite Z.rem_mul_r by lia.
    rewrite (Z.mul_comm 2 (_ mod _)), Z.mod_add by lia. change (2 ^ 1) with 2. by rewrite Z.mod_mod. }
  pose proof (shl_set ix 52 11 ltac:(lia) ltac:(lia)) as Hset. change (52 + 11) with 63 in Hset.
  change (63 + 1) with 64 in Hset. rewrite Hset. fold c.
  set (m := if negb _ then _ else _).
  assert (m = c * (if Z.odd x then 2 ^ 10 else 2 ^ 11)) as Hm.
  { unfold m. destruct (Z.odd x); cbn [negb Z.eqb]; [|done]. rewrite Z.shiftr_div_pow2 by lia.
    change (2 ^ 11) with (2 ^ 10 * 2 ^ 1). rewrite Z.mul_assoc. by apply Z.div_mul. }
  assert (Z.shiftr (u64 (u64 x + 1023)) 1 = root_e double x + 1) as ->.
  { unfold root_e. change (bias double) with 1023. rewrite Z.shiftr_div_pow2 by lia. change (2 ^ 1) with 2.
    replace (u64 (u64 x + 1023)) with (x + 1023); [lia|]. symmetry. unfold wrap.
    rewrite Zplus_mod_idemp_l. apply Z.mod_small. lia. }
  pose proof (bias_odd double x) as Hb. change (bias double) with 1023 in Hb. set (e := root_e double x) in *.
  assert (484 <= e <= 1533) by (destruct (Z.odd x); lia).
  replace (u64 (Z.shiftl (e + 1) 52)) with ((e + 1) * 2 ^ mb double)
    by (rewrite Z.shiftl_mul_pow2 by lia; change (mb double) with 52; rewrite wrap_small; lia).
  replace (root_T double c x) with (m * 2 ^ 42)
    by (unfold root_T; rewrite Hm; change (mb double) with 52; destruct (Z.odd x); lia).
  apply root_finish_spec; [exact double_ok|done| |..].
  - destruct (table_index ix 46 ltac:(lia)) as (Hi & Hf64 & Hc). change (46 + 6) with 52 in *. rewrite Hodd in Hi.
    eapply (root64_near ix m (Z.odd x) _ c); [exact Hi|done|unfold c; lia|done].
  - rewrite Hm. change (mb double) with 52. unfold c. destruct (Z.odd x); lia.
  - lia.
  - change (emask double) with 2047. lia.
  - vm_compute. done.
  - change (4 * mag double (2 ^ 52)) with (2 ^ 54). apply Z.pow_le_mono_r; lia.
Qed.

(** ** [sqrtf] *)

Lemma land_bit x k : 0 <= k -> Z.land x (2 ^ k) = if Z.odd (x / 2 ^ k) then 2 ^ k else 0.
Proof.
  intros Hk. rewrite <- Z.shiftr_div_pow2, <- Z.testbit_odd by done. apply Z.bits_inj'. intros n Hn.
  rewrite Z.land_spec, Z.pow2_bits_eqb by done. destruct (Z.eqb_spec k n) as [->|Hne].
  - destruct (Z.testbit x n); [by rewrite Z.pow2_bits_true|by rewrite Z.bits_0].
  - rewrite andb_false_r. destruct (Z.testbit x k); [by rewrite Z.pow2_bits_false by lia|by rewrite Z.bits_0].
Qed.

(** Some bits in the middle. *)
Lemma land_field x k j : 0 <= k -> 0 <= j -> Z.land x (Z.shiftl (Z.ones j) k) = (x / 2 ^ k) mod 2 ^ j * 2 ^ k.
Proof.
  intros Hk Hj. rewrite <- Z.land_ones, <- Z.shiftr_div_pow2, <- Z.shiftl_mul_pow2 by lia.
  apply Z.bits_inj'. intros n Hn. rewrite Z.land_spec, !Z.shiftl_spec, Z.land_spec by lia.
  destruct (Z.ltb_spec n k); [rewrite !(Z.testbit_neg_r _ (n - k)) by lia; by rewrite !andb_false_r|].
  rewrite Z.shiftr_spec by lia. by replace (n - k + k) with n by lia.
Qed.

Section single_fields.
Context (x fr : Z) (Hx : - 22 <= x <= 254) (Hfr : 0 <= fr < 2 ^ 23).
Let ix := u32 (x * 2 ^ 23 + fr).

Lemma ix_cases : ix = x * 2 ^ 23 + fr + (if x <? 0 then 2 ^ 32 else 0).
Proof.
  unfold ix, wrap. destruct (Z.ltb_spec x 0).
  - symmetry. apply (Z.mod_unique _ _ (-1)); lia.
  - rewrite Z.mod_small; lia.
Qed.

Lemma ix_frac : ix mod 2 ^ 23 = fr /\ Z.odd (ix / 2 ^ 23) = Z.odd x.
Proof.
  rewrite ix_cases. set (k := if x <? 0 then 2 ^ 9 else 0).
  replace (x * 2 ^ 23 + fr + (if x <? 0 then 2 ^ 32 else 0)) with (fr + (x + k) * 2 ^ 23)
    by (unfold k; destruct (x <? 0); lia).
  rewrite Z.mod_add, Z.div_add, Z.mod_small, Z.div_small by lia. split; [done|].
  rewrite Z.add_0_l, Z.odd_add. replace (Z.odd k) with false by (unfold k; by destruct (x <? 0)). by rewrite xorb_false_r.
Qed.

Lemma ix_exp : Z.land (u32 (Z.shiftr ix 1 + Z.shiftr (Z.shiftl 127 23) 1)) (Z.shiftl 255 23) =
  (root_e single x + 1) * 2 ^ 23.
Proof.
  rewrite Z.shiftr_div_pow2 by lia. change (2 ^ 1) with 2. change (Z.shiftr (Z.shiftl 127 23) 1) with (127 * 2 ^ 22).
  set (y := (x + 127) * 2 ^ 23 + fr).
  assert (ix / 2 + 127 * 2 ^ 22 = y / 2 + (if x <? 0 then 2 ^ 31 else 0)) as ->.
  { rewrite ix_cases. rewrite <- Z.div_add by lia.
    replace (x * 2 ^ 23 + fr + (if x <? 0 then 2 ^ 32 else 0) + 127 * 2 ^ 22 * 2)
      with (y + (if x <? 0 then 2 ^ 31 else 0) * 2) by (unfold y; destruct (x <? 0); lia).
    by rewrite Z.div_add. }
  pose proof (Z.div_mod y 2 ltac:(lia)). pose proof (Z.mod_pos_bound y 2 ltac:(lia)).
  rewrite wrap_small by (destruct (x <? 0); unfold y in *; lia).
  change 255 with (Z.ones 8). rewrite land_field by lia. f_equal.
  replace (y / 2 + (if x <? 0 then 2 ^ 31 else 0)) with (y / 2 + (if x <? 0 then 2 ^ 8 else 0) * 2 ^ 23)
    by (destruct (x <? 0); lia).
  rewrite Z.div_add by lia. rewrite Z.div_div by lia. unfold y. rewrite (Z.mul_comm 2), <- Z.div_div by lia.
  rewrite (Z.add_comm (_ * _) fr), Z.div_add, (Z.div_small fr) by lia. rewrite Z.add_0_l.
  unfold root_e. change (bias single) with 127.
  pose proof (Z.div_mod (x + 127) 2 ltac:(lia)). pose proof (Z.mod_pos_bound (x + 127) 2 ltac:(lia)).
  destruct (x <? 0).
  - change (2 ^ 8) with (1 * 2 ^ 8) at 1. rewrite Z.mod_add, Z.mod_small; lia.
  - rewrite Z.add_0_r, Z.mod_small; lia.
Qed.

End single_fields.

Lemma sqrtf_normal_spec E x fr :
  - 22 <= x <= 254 -> 0 <= fr < 2 ^ 23 ->
  let c := 2 ^ 23 + fr in
  sqrtf_normal E (u32 (x * 2 ^ 23 + fr)) =
  pack single false (enc single (rroot (rm E) (root_T single c x) 1 * 2 ^ root_e single x)).
Proof.
  intros Hx Hfr c. unfold sqrtf_normal. rewrite (ix_exp x fr Hx Hfr).
  destruct (ix_frac x fr Hx Hfr) as [Hf Hodd]. set (ix := u32 (x * 2 ^ 23 + fr)) in *.
  set (m := if negb _ then _ else _).
  assert (m = c * (if Z.odd x then 2 ^ 7 else 2 ^ 8)) as Hm.
  { unfold m. rewrite land_bit, Hodd by lia. rewrite !Z.shiftl_mul_pow2 by lia.
    destruct (Z.odd x) eqn:Ho; cbn [negb Z.eqb].
    - rewrite Z.land_ones by lia. unfold wrap. change (2 ^ 32) with (2 ^ 31 * 2). rewrite Z.rem_mul_r by lia.
      rewrite (Z.mul_comm (2 ^ 31) (_ mod _)), Z.mod_add, Z.mod_mod by lia.
      change (2 ^ 31) with (2 ^ (23 + 1) * 2 ^ 7). rewrite Z.mul_mod_distr_r by lia.
      rewrite low_bit_split, Hf, Hodd by lia. unfold c. f_equal. lia.
    - pose proof (shl_set ix 23 8 ltac:(lia) ltac:(lia)) as Hset. change (23 + 8) with 31 in Hset.
      change (31 + 1) with 32 in Hset. rewrite Z.shiftl_mul_pow2 in Hset by lia. by rewrite Hset, Hf. }
  pose proof (bias_odd single x) as Hb. change (bias single) with 127 in Hb. set (e := root_e single x) in *.
  assert (51 <= e <= 189) by (destruct (Z.odd x); lia).
  change ((e + 1) * 2 ^ 23) with ((e + 1) * 2 ^ mb single).
  replace (root_T single c x) with (m * 2 ^ 16)
    by (unfold root_T; rewrite Hm; change (mb single) with 23; destruct (Z.odd x); lia).
  apply root_finish_spec; [exact single_ok|done| |..].
  - destruct (table_index ix 17 ltac:(lia)) as (Hi & Hf64 & Hc). change (17 + 6) with 23 in *. rewrite Hodd in Hi.
    eapply (root32_near ix m (Z.odd x) _ c); [exact Hi|done|unfold c; lia|done].
  - rewrite Hm. change (mb single) with 23. unfold c. destruct (Z.odd x); lia.
  - lia.
  - change (emask single) with 255. lia.
  - vm_compute. done.
  - change (4 * mag single (2 ^ 24)) with (2 ^ 26). apply Z.pow_le_mono_r; lia.
Qed.

(** ** Every argument *)

(** What a square root returns. The value of a finite number is a number of
    units; the root of [n] units is the root of [n * unit_val F] in units. *)
Definition root_spec (F : fmt) (E : fpenv F) (x r : Z) : Prop :=
  if is_nan F x then is_nan F r = true
  else if is_zero (F := F) x then r = x
  else if fsign F x then is_nan F r = true
  else if negb (is_finite F x) then r = x
  else let n := mag F (fabs_bits F x) in let y := root_round F (rm E) n in
       r = pack F false (enc F y) /\ repr F y /\ root_nearest F (rm E) (n * unit_val F) y.

Section every.
Context (F : fmt) `{!FmtOk F} (E : fpenv F).
Abbreviation B := (2 ^ mb F).

Lemma fsub_self_nan x : is_word F x -> is_finite F x = false -> is_nan F (fsub E x x) = true.
Proof.
  intros Hw Hx. pose proof (fabs_bits_range F x) as Ha. unfold fsub.
  destruct (is_nan F x) eqn:Hn; [apply nan2_nan|]. unfold fadd, fneg.
  assert (is_nan F (pack F (negb (fsign F x)) (fabs_bits F x)) = false) as ->.
  { unfold is_nan. by rewrite (fabs_pack F). }
  rewrite Hn. cbn [orb]. rewrite Hx. cbn [negb]. unfold is_finite at 1. rewrite (fabs_pack F) by done.
  fold (is_finite F x). rewrite Hx, (fsign_pack F) by done. cbn [negb andb].
  destruct (fsign F x); cbn [Bool.eqb negb]; apply nan2_nan.
Qed.

Lemma fsub_self_zero x : is_word F x -> is_finite F x = true -> fabs_bits F (fsub E x x) = 0.
Proof.
  intros Hw Hx. pose proof (fabs_bits_range F x) as Ha. unfold fsub. rewrite finite_not_nan by done.
  unfold fadd, fneg. set (y := pack F (negb (fsign F x)) (fabs_bits F x)).
  assert (is_finite F y = true) as Hy by (unfold is_finite, y; by rewrite (fabs_pack F)).
  rewrite !finite_not_nan, Hx, Hy by done. cbn [orb negb].
  assert (sval F x + sval F y = 0) as ->.
  { unfold sval, y. rewrite (fabs_pack F), (fsign_pack F) by done. unfold signed. destruct (fsign F x); simpl; lia. }
  cbn [Z.eqb]. rewrite (fabs_pack F); [done|]. lia.
Qed.

Lemma math_invalid_nan x : is_word F x -> is_nan F (math_invalid E x) = true.
Proof.
  intros Hw. unfold math_invalid, fdiv. destruct (is_finite F x) eqn:Hx.
  - pose proof (fsub_self_zero x Hw Hx) as Hz. set (z := fsub E x x) in *.
    assert (is_nan F z = false) as ->.
    { unfold is_nan. rewrite Hz. pose proof (inf_lt F). fmt_facts F. unfold inf_bits. nia. }
    assert (is_finite F z = true) as -> by (unfold is_finite; rewrite Hz; fmt_facts F; unfold inf_bits; nia).
    unfold is_zero. rewrite Hz. cbn [orb negb Z.eqb]. apply nan2_nan.
  - rewrite (fsub_self_nan x Hw Hx). cbn [orb]. apply nan2_nan.
Qed.

(** The word of a positive number. *)
Lemma positive_fields x : 0 <= x < inf_bits F ->
  fabs_bits F x = x /\ fsign F x = false /\ is_finite F x = true.
Proof.
  intros Hx. fmt_facts F. pose proof (inf_lt F). assert (fabs_bits F x = x) as Ha by (apply Z.mod_small; lia).
  split_and!; [done|unfold fsign; lia|]. apply is_finite_spec. lia.
Qed.

Lemma normal_fields x : B <= x < inf_bits F -> 1 <= x / B < emask F /\ mag F x = (B + x mod B) * 2 ^ (x / B - 1).
Proof.
  intros Hx. fmt_facts F. assert (1 <= x / B < emask F) as He.
  { split; [apply Z.div_le_lower_bound; lia|apply Z.div_lt_upper_bound; [lia|]]. unfold inf_bits in Hx. lia. }
  split; [done|]. unfold mag. destruct (Z.eqb_spec (x / B) 0); lia.
Qed.

(** A subnormal number is made normal. *)
Lemma scaled_fields x : 0 < x < B ->
  let y := fmul E x (pow2w F (mb F)) in B <= y < inf_bits F /\ mag F y = x * B /\ y / B <= mb F.
Proof.
  intros Hx. fmt_facts F. cbv zeta.
  assert (B < inf_bits F) as HI by (unfold inf_bits; nia).
  destruct (positive_fields x ltac:(lia)) as (Ha & Hs & Hf).
  assert (mag F x = x) as Hm by (unfold mag; rewrite Z.div_small, Z.mod_small by lia; done).
  rewrite (fmul_pow2 F), Ha, Hs, Hm by (done || lia).
  assert (repr F x) as Hr by (exists x, 0; lia).
  rewrite fscale_up by (done || lia). unfold upw.
  assert (x * B < mag_inf F) as Hlt.
  { rewrite mag_inf_val by done. assert (B <= 2 ^ (emask F - 1)) by (apply Z.pow_le_mono_r; lia). nia. }
  destruct (Z.leb_spec (mag_inf F) (x * B)); [lia|]. change (pack F false ?a) with a.
  assert (repr F (x * B)) as Hr' by (apply repr_pow2; done || lia).
  pose proof (mag_enc F (x * B) ltac:(lia) Hr') as He. pose proof (enc_lt_inf F (x * B) ltac:(lia) Hr' Hlt) as Hi.
  pose proof (enc_nonneg F (x * B) ltac:(lia)) as H0. set (y := enc F (x * B)) in *.
  assert (mag F B = B) as HB by (rewrite <- (Z.mul_1_l B) at 1; rewrite (mag_pow2 F) by lia; simpl; lia).
  assert (B <= y) as Hy.
  { destruct (Z.ltb_spec y B); [|done]. pose proof (mag_lt F y B H0 ltac:(done)). nia. }
  split_and!; [done..|]. destruct (normal_fields y ltac:(lia)) as [He1 Hv].
  destruct (Z.leb_spec (y / B) (mb F)); [done|exfalso].
  pose proof (Z.mod_pos_bound y B ltac:(lia)).
  assert (B <= 2 ^ (y / B - 1)) by (apply Z.pow_le_mono_r; lia). nia.
Qed.

Lemma root_spec_zero x : fabs_bits F x = 0 -> root_spec F E x x.
Proof.
  intros Hz. fmt_facts F. unfold root_spec, is_zero, is_nan. rewrite Hz.
  destruct (Z.ltb_spec (inf_bits F) 0); [unfold inf_bits in *; nia|done].
Qed.

Lemma root_spec_inf : root_spec F E (inf_bits F) (inf_bits F).
Proof.
  fmt_facts F. pose proof (inf_lt F). assert (0 < inf_bits F) by (unfold inf_bits; nia).
  assert (fabs_bits F (inf_bits F) = inf_bits F) as Ha by (apply Z.mod_small; lia).
  unfold root_spec, is_nan, is_zero, is_finite, fsign. rewrite Ha, Z.ltb_irrefl.
  destruct (Z.eqb_spec (inf_bits F) 0); [lia|]. by destruct (Z.leb_spec (2 ^ (wb F - 1)) (inf_bits F)); [lia|].
Qed.

Lemma root_spec_invalid x r : is_word F x -> inf_bits F < x -> fabs_bits F x <> 0 -> is_nan F r = true ->
  root_spec F E x r.
Proof.
  intros Hw Hx Hz Hr. unfold root_spec, is_zero. destruct (is_nan F x) eqn:Hn; [done|].
  destruct (Z.eqb_spec (fabs_bits F x) 0); [done|]. destruct (fsign F x) eqn:Hs; [done|exfalso].
  unfold is_nan, fsign, fabs_bits in *. unfold is_word in Hw. rewrite (Z.mod_small x) in Hn; lia.
Qed.

Lemma root_spec_finite x n c e :
  0 < x < inf_bits F -> mag F x = n -> n * B = c * 2 ^ (e + mb F - 1) -> B <= c < 2 * B -> 1 - mb F <= e ->
  root_spec F E x (pack F false (enc F (rroot (rm E) (root_T F c e) 1 * 2 ^ root_e F e))).
Proof.
  intros Hx Hm Hn Hc He. destruct (positive_fields x ltac:(lia)) as (Ha & Hs & Hf).
  unfold root_spec, is_zero. rewrite finite_not_nan, Ha, Hs, Hf, Hm by done. cbn [negb].
  destruct (Z.eqb_spec x 0); [lia|].
  assert (0 <= n) as H0 by (subst n; apply mag_nonneg; done || lia).
  split_and!; [by rewrite (root_round_at F (rm E) n c e Hn Hc He)|by apply root_round_repr|by apply root_round_nearest].
Qed.

End every.

Lemma shl_1_zero F `{!FmtOk F} x : is_word F x -> (wrap (wb F) (x * 2) =? 0) = (fabs_bits F x =? 0).
Proof.
  intros Hw. pose proof (shl_1 F x Hw) as H. rewrite Z.shiftl_mul_pow2 in H by lia. unfold uw in H.
  change (2 ^ 1) with 2 in H. rewrite H. lia.
Qed.

Lemma sqrt_ok E x : is_word double x -> root_spec double E x (sqrt E x).
Proof.
  intros Hw. unfold sqrt. rewrite Z.shiftr_div_pow2 by lia. change (Z.shiftl 2047 52) with (inf_bits double).
  pose proof Hw as Hw'. unfold is_word in Hw'. change (2 ^ wb double) with (2 ^ 64) in Hw'.
  assert (inf_bits double = 2047 * 2 ^ 52) as HI by done.
  pose proof (Z.div_mod x (2 ^ 52) ltac:(lia)) as Hdm. pose proof (Z.mod_pos_bound x (2 ^ 52) ltac:(lia)) as Hfr.
  destruct (Z.leb_spec (2047 - 1) (u64 (x / 2 ^ 52 - 1))) as [Hsp|Hnorm].
  - change (u64 (x * 2)) with (wrap (wb double) (x * 2)). rewrite (shl_1_zero double x Hw). destruct (Z.eqb_spec (fabs_bits double x) 0); [by apply root_spec_zero|].
    destruct (Z.eqb_spec x (inf_bits double)) as [->|]; [apply root_spec_inf; exact double_ok|].
    destruct (Z.ltb_spec (inf_bits double) x).
    { apply root_spec_invalid; try done. by apply math_invalid_nan. }
    assert (0 < x < 2 ^ 52) as Hsub.
    { assert (x <> 0) by (intros ->; done). unfold wrap in Hsp.
      destruct (Z.ltb_spec (x / 2 ^ 52) 1); [lia|]. rewrite Z.mod_small in Hsp by lia. lia. }
    destruct (scaled_fields double E x Hsub) as (Hy & Hm & He). change (mb double) with 52 in *.
    set (y := fmul E x (pow2w double 52)) in *. rewrite Z.shiftr_div_pow2 by lia.
    destruct (normal_fields double y Hy) as [He1 Hv]. change (mb double) with 52 in *.
    pose proof (Z.mod_pos_bound y (2 ^ 52) ltac:(lia)).
    rewrite (sqrt_normal_spec E y (y / 2 ^ 52 - 52)); [|lia|by rewrite Z.odd_sub, xorb_false_r|lia].
    apply (root_spec_finite double E x x); change (mb double) with 52; try lia.
    + unfold mag. change (mb double) with 52. by rewrite Z.div_small, Z.mod_small by lia.
    + rewrite <- Hm, Hv. f_equal. f_equal. lia.
  - assert (1 <= x / 2 ^ 52 < 2047) as Htop.
    { unfold wrap in Hnorm. destruct (decide (x / 2 ^ 52 = 0)) as [E0|]; [rewrite E0 in Hnorm; done|].
      rewrite Z.mod_small in Hnorm by lia. lia. }
    destruct (normal_fields double x) as [_ Hv]; [change (mb double) with 52; lia|]. change (mb double) with 52 in Hv.
    rewrite <- (wrap_small 64 (x / 2 ^ 52)) at 1 by lia.
    rewrite (sqrt_normal_spec E x (x / 2 ^ 52)); [|lia|done|lia].
    apply (root_spec_finite double E x (mag double x)); change (mb double) with 52; try lia.
    rewrite Hv, <- Z.mul_assoc. f_equal. rewrite <- pow2_split by lia. f_equal. lia.
Qed.

Lemma sqrtf_ok E x : is_word single x -> root_spec single E x (sqrtf E x).
Proof.
  intros Hw. unfold sqrtf. change (Z.shiftl 255 23) with (inf_bits single).
  pose proof Hw as Hw'. unfold is_word in Hw'. change (2 ^ wb single) with (2 ^ 32) in Hw'.
  assert (inf_bits single = 255 * 2 ^ 23) as HI by done.
  pose proof (Z.div_mod x (2 ^ 23) ltac:(lia)) as Hdm. pose proof (Z.mod_pos_bound x (2 ^ 23) ltac:(lia)) as Hfr.
  destruct (Z.leb_spec (inf_bits single - 2 ^ 23) (u32 (x - 2 ^ 23))) as [Hsp|Hnorm].
  - change (u32 (x * 2)) with (wrap (wb single) (x * 2)). rewrite (shl_1_zero single x Hw).
    destruct (Z.eqb_spec (fabs_bits single x) 0); [by apply root_spec_zero|].
    destruct (Z.eqb_spec x (inf_bits single)) as [->|]; [apply root_spec_inf; exact single_ok|].
    destruct (Z.ltb_spec (inf_bits single) x).
    { apply root_spec_invalid; try done. by apply math_invalid_nan. }
    assert (0 < x < 2 ^ 23) as Hsub.
    { assert (x <> 0) by (intros ->; done). unfold wrap in Hsp.
      destruct (Z.ltb_spec x (2 ^ 23)); [lia|]. rewrite Z.mod_small in Hsp by lia. lia. }
    destruct (scaled_fields single E x Hsub) as (Hy & Hm & He). change (mb single) with 23 in *.
    set (y := fmul E x (pow2w single 23)) in *.
    destruct (normal_fields single y Hy) as [He1 Hv]. change (mb single) with 23 in *.
    pose proof (Z.mod_pos_bound y (2 ^ 23) ltac:(lia)). pose proof (Z.div_mod y (2 ^ 23) ltac:(lia)).
    replace (y - Z.shiftl 23 23) with ((y / 2 ^ 23 - 23) * 2 ^ 23 + y mod 2 ^ 23)
      by (change (Z.shiftl 23 23) with (23 * 2 ^ 23); lia).
    rewrite sqrtf_normal_spec by lia.
    apply (root_spec_finite single E x x); change (mb single) with 23; try lia.
    + unfold mag. change (mb single) with 23. by rewrite Z.div_small, Z.mod_small by lia.
    + rewrite <- Hm, Hv. f_equal. f_equal. lia.
  - assert (2 ^ 23 <= x < 255 * 2 ^ 23) as Htop.
    { unfold wrap in Hnorm. destruct (Z.ltb_spec x (2 ^ 23)).
      - rewrite <- (Z.mod_unique (x - 2 ^ 23) (2 ^ 32) (-1) (x - 2 ^ 23 + 2 ^ 32)) in Hnorm by lia. lia.
      - rewrite Z.mod_small in Hnorm by lia. lia. }
    destruct (normal_fields single x) as [He Hv]; [change (mb single) with 23; lia|]. change (mb single) with 23 in *.
    change (emask single) with 255 in He.
    replace x with (u32 (x / 2 ^ 23 * 2 ^ 23 + x mod 2 ^ 23)) at 2 by (rewrite wrap_small; lia).
    rewrite sqrtf_normal_spec by lia.
    apply (root_spec_finite single E x (mag single x)); change (mb single) with 23; try lia.
    rewrite Hv, <- Z.mul_assoc. f_equal. rewrite <- pow2_split by lia. f_equal. lia.
Qed.

(** C20: [sqrt] and [sqrtf] return the square root rounded to the last bit, in
    every rounding mode and for every argument: the root of a positive number,
    zeros and infinity as they are, and a NaN for negative numbers and NaNs. *)
Theorem sqrt_spec :
  (forall E x, is_word double x -> root_spec double E x (sqrt E x)) /\
  (forall E x, is_word single x -> root_spec single E x (sqrtf E x)).
Proof. split; [exact sqrt_ok|exact sqrtf_ok]. Qed.

(** The root of two, rounded up. *)
Lemma sqrt_spec_witness :
  sqrt (some_env double RUP) (Z.shiftl 1024 52) = 4609047870845172685 /\
  root_nearest double RUP (mag double (Z.shiftl 1024 52) * unit_val double)
    (mag double 4609047870845172685).
Proof.
  pose proof (proj1 sqrt_spec (some_env double RUP) (Z.shiftl 1024 52)
    ltac:(split; [done|vm_compute; reflexivity])) as H.
  destruct H as (H1 & _ & H3). split; [rewrite H1; vm_compute; reflexivity|].
  exact H3.
Defined.
